(** * MineflayerLocalAI-Chat-Walk: the plan pipeline of [index.js]

    A shallow embedding of the text-extraction functions, the plan
    validator and executor, the action dispatcher, the command gate and
    the reply sanitizer of [src/index.js], with the properties of the
    specification stated over them.

    Conventions of the model.
    - A JavaScript string is the list of its UTF-16 code units ([jstring]).
    - A JavaScript number is a double, kept by its rational value, or one
      of the three non-finite values; the arithmetic of the distance test
      and the reading of literals round to the nearest double, ties to
      the even significand.  Negative zero is not told from zero.
    - [async] functions are run to completion one after the other: a
      computation is a function from the state of the process to an outcome
      (a value, or a thrown exception, with the state reached).
    - The calls into mineflayer, the pathfinder and the language model are
      the fields of a record [Collab]; a field answers with the data the
      call returns, the model applies it to the state.
    - A [console.log] line is recorded by its fixed leading text, with the
      values logged where the model has them. *)

From Stdlib Require Import List ZArith NArith QArith Qabs String Ascii Bool Lia DecimalString.
Import ListNotations.
Close Scope Q_scope.

Set Warnings "-register-all".

(* ------------------------------------------------------------------ *)
(** ** Strings as lists of code units *)

Definition jstring := list N.

(** The code units of a literal written in ASCII. *)
Definition lit (s : string) : jstring :=
  map N_of_ascii (list_ascii_of_string s).

Module Str.

Fixpoint eqb (a b : jstring) : bool :=
  match a, b with
  | [], [] => true
  | x :: a', y :: b' => N.eqb x y && eqb a' b'
  | _, _ => false
  end.

Definition mem (a : jstring) (l : list jstring) : bool := existsb (eqb a) l.

Fixpoint prefixb (p s : jstring) : bool :=
  match p, s with
  | [], _ => true
  | x :: p', y :: s' => N.eqb x y && prefixb p' s'
  | _ :: _, [] => false
  end.

(** [find p s i]: least offset [k] with [p] a prefix of [s] dropped by
    [k], reported as [i + k]. *)
Fixpoint find (p s : jstring) (i : Z) : Z :=
  if prefixb p s then i
  else match s with
       | [] => (-1)%Z
       | _ :: s' => find p s' (i + 1)%Z
       end.

Definition len (s : jstring) : Z := Z.of_nat (List.length s).

Definition clamp (i : Z) (s : jstring) : Z := Z.max 0 (Z.min i (len s)).

(** [String.prototype.indexOf(p, from)]. *)
Definition indexOf (p s : jstring) (from : Z) : Z :=
  let k := clamp from s in
  find p (skipn (Z.to_nat k) s) k.

(** [String.prototype.lastIndexOf(p, from)]: the greatest start [<= from]. *)
Fixpoint rfind (p s : jstring) (i : Z) (from : Z) (best : Z) : Z :=
  let best' := if prefixb p s && (i <=? from)%Z then i else best in
  match s with
  | [] => best'
  | _ :: s' => rfind p s' (i + 1)%Z from best'
  end.

Definition lastIndexOf (p s : jstring) (from : Z) : Z :=
  rfind p s 0%Z (Z.max 0 from) (-1)%Z.

(** [String.prototype.slice(a, b)], negative indices counted from the end. *)
Definition rel (i : Z) (s : jstring) : Z :=
  if (i <? 0)%Z then Z.max 0 (len s + i) else Z.min i (len s).

Definition slice (s : jstring) (a b : Z) : jstring :=
  let a' := rel a s in
  let b' := rel b s in
  firstn (Z.to_nat (b' - a')) (skipn (Z.to_nat a') s).

Definition sliceFrom (s : jstring) (a : Z) : jstring :=
  skipn (Z.to_nat (rel a s)) s.

(** White space and line terminators of ECMAScript ([\s], [trim]). *)
Definition is_space (c : N) : bool :=
  existsb (N.eqb c)
    [9; 10; 11; 12; 13; 32; 160; 5760; 8232; 8233; 8239; 8287; 12288; 65279]%N
  || ((8192 <=? c) && (c <=? 8202))%N.

Fixpoint trimStart (s : jstring) : jstring :=
  match s with
  | c :: s' => if is_space c then trimStart s' else s
  | [] => []
  end.

Definition trim (s : jstring) : jstring :=
  rev (trimStart (rev (trimStart s))).

(** [toLowerCase], exact on the code units whose lower case is an ASCII
    letter (A-Z and the Kelvin sign); other code units are kept. *)
Definition lower (c : N) : N :=
  if ((65 <=? c) && (c <=? 90))%N then (c + 32)%N
  else if (c =? 8490)%N then 107%N else c.

Definition toLowerCase (s : jstring) : jstring := map lower s.

Definition startsWith (s p : jstring) : bool := prefixb p s.

(** What follows the unit [c], when [s] starts with it. *)
Definition after (c : N) (s : jstring) : option jstring :=
  match s with
  | x :: t => if N.eqb x c then Some t else None
  | [] => None
  end.

Definition includes (s p : jstring) : bool := negb (indexOf p s 0 =? -1)%Z.

(** [s.split(sep)] for a one-unit separator. *)
Fixpoint split1 (sep : N) (s : jstring) (cur : jstring) : list jstring :=
  match s with
  | [] => [rev cur]
  | c :: s' => if N.eqb c sep then rev cur :: split1 sep s' []
               else split1 sep s' (c :: cur)
  end.

Definition split (sep : N) (s : jstring) : list jstring := split1 sep s [].

Fixpoint join (sep : jstring) (l : list jstring) : jstring :=
  match l with
  | [] => []
  | [a] => a
  | a :: l' => a ++ sep ++ join sep l'
  end.

End Str.

(* ------------------------------------------------------------------ *)
(** ** Numbers *)

Inductive num : Type :=
| Fin (q : Q)
| PInf
| NInf
| NaN.

Definition num_isNaN (n : num) : bool :=
  match n with NaN => true | _ => false end.

Definition num_infinite (n : num) : bool :=
  match n with PInf | NInf => true | _ => false end.

Definition num_neg (a : num) : num :=
  match a with
  | Fin q => Fin (- q)%Q
  | PInf => NInf
  | NInf => PInf
  | NaN => NaN
  end.

(** A number that is zero, positive or [Infinity]. *)
Definition not_below (a : num) : bool :=
  match a with
  | Fin q => (0 <=? Qnum q)%Z
  | PInf => true
  | NInf | NaN => false
  end.

(** ** Doubles

    The finite doubles are the numbers [m * 2^e] with [|m| < 2^53] and
    [-1074 <= e <= 971].  Around a number whose first binary place is
    [2^k] the doubles are [2^(k-52)] apart, and [2^-1074] apart below
    [2^-1022].  An operation gives the double nearest to its exact
    result, the one with the even [m] when two are equally near, and an
    infinity when that is [2^1024] or more (IEEE 754, roundTiesToEven). *)

Module Double.

(** [(n / d) * 2^k] as a fraction. *)
Definition scale (n d k : Z) : Z * Z :=
  if (0 <=? k)%Z then ((n * 2 ^ k)%Z, d) else (n, (d * 2 ^ (- k))%Z).

(** [floor (log2 (n / d))], for [0 < n] and [0 < d]. *)
Definition ilog2 (n d : Z) : Z :=
  let k := (Z.log2 n - Z.log2 d)%Z in
  let '(a, b) := scale n d (- k) in
  if (b <=? a)%Z then k else (k - 1)%Z.

(** The whole number nearest to [n / d], the even one of two that are
    equally near, for [0 <= n] and [0 < d]. *)
Definition nearest (n d : Z) : Z :=
  let f := (n / d)%Z in
  match (2 * (n mod d) ?= d)%Z with
  | Lt => f
  | Gt => (f + 1)%Z
  | Eq => if Z.even f then f else (f + 1)%Z
  end.

(** The number [m * 2^e]. *)
Definition value (m e : Z) : Q :=
  if (0 <=? e)%Z then inject_Z (m * 2 ^ e)
  else Qred (Qmake m (Z.to_pos (2 ^ (- e)))).

(** The exponent of the last place of the doubles around [n / d]. *)
Definition last_place (n d : Z) : Z := Z.max (-1074) (ilog2 n d - 52).

(** The double nearest to [n / d], for [0 < n] and [0 < d]. *)
Definition round_pos (n d : Z) : num :=
  let e := last_place n d in
  let '(a, b) := scale n d (- e) in
  let m := nearest a b in
  if (1024 <=? Z.log2 m + e)%Z then PInf else Fin (value m e).

(** The double nearest to the rational [q]. *)
Definition round (q : Q) : num :=
  match Qnum q with
  | Z0 => Fin 0%Q
  | Zpos n => round_pos (Zpos n) (Zpos (Qden q))
  | Zneg n => num_neg (round_pos (Zpos n) (Zpos (Qden q)))
  end.

(** The whole number nearest to the square root of [n / d], the even one
    of two that are equally near. *)
Definition nearest_root (n d : Z) : Z :=
  let f := Z.sqrt (n / d) in
  match (4 * n ?= (2 * f + 1) ^ 2 * d)%Z with
  | Lt => f
  | Gt => (f + 1)%Z
  | Eq => if Z.even f then f else (f + 1)%Z
  end.

(** The double nearest to the square root of [n / d], for [0 < n] and
    [0 < d]: with [2^(2h)] the first place of [n / d] in base four, the
    first place of the root is [2^h] and its last place [2^(h-52)]. *)
Definition sqrt_pos (n d : Z) : num :=
  let e := (ilog2 n d / 2 - 52)%Z in
  let '(a, b) := scale n d (- (2 * e)) in
  Fin (value (nearest_root a b) e).

(** [Math.sqrt(a)], correctly rounded as the engines compute it
    (IEEE 754 squareRoot). *)
Definition sqrt (a : num) : num :=
  match a with
  | Fin q =>
      match Qnum q with
      | Z0 => Fin 0%Q
      | Zpos n => sqrt_pos (Zpos n) (Zpos (Qden q))
      | Zneg _ => NaN
      end
  | PInf => PInf
  | NInf | NaN => NaN
  end.

End Double.

(* ------------------------------------------------------------------ *)
(** ** JSON values *)

Inductive json : Type :=
| JNull
| JBool (b : bool)
| JNum (n : num)
| JStr (s : jstring)
| JArr (l : list json)
| JObj (kvs : list (jstring * json)).

(** An own property; [None] is [undefined]. *)
Fixpoint assoc (k : jstring) (kvs : list (jstring * json)) : option json :=
  match kvs with
  | [] => None
  | (k', v) :: kvs' => if Str.eqb k k' then Some v else assoc k kvs'
  end.

(** [v.k] for the property names the program reads, none of which is
    inherited from a prototype or defined on a string or an array. *)
Definition get (k : string) (v : json) : option json :=
  match v with
  | JObj kvs => assoc (lit k) kvs
  | _ => None
  end.

(** [obj[k] = v] on an object literal: an own property is updated; a new
    one is appended, except [__proto__], which without an own property of
    that name reaches the inherited setter and creates none (the values
    the program assigns are booleans, strings and numbers, which that
    setter ignores). *)
Fixpoint update (k : jstring) (v : json) (kvs : list (jstring * json))
  : option (list (jstring * json)) :=
  match kvs with
  | [] => None
  | (k', v') :: kvs' =>
      if Str.eqb k k' then Some ((k', v) :: kvs')
      else option_map (cons (k', v')) (update k v kvs')
  end.

Definition set (k : jstring) (v : json) (kvs : list (jstring * json))
  : list (jstring * json) :=
  match update k v kvs with
  | Some kvs' => kvs'
  | None => if Str.eqb k (lit "__proto__") then kvs else kvs ++ [(k, v)]
  end.

Definition num_truthy (n : num) : bool :=
  match n with
  | Fin q => negb (Qeq_bool q 0%Q)
  | PInf | NInf => true
  | NaN => false
  end.

Definition truthy (v : json) : bool :=
  match v with
  | JNull => false
  | JBool b => b
  | JNum n => num_truthy n
  | JStr s => match s with [] => false | _ => true end
  | JArr _ | JObj _ => true
  end.

Definition truthy_opt (o : option json) : bool :=
  match o with Some v => truthy v | None => false end.

Definition is_number (o : option json) : bool :=
  match o with Some (JNum _) => true | _ => false end.

Definition is_string (o : option json) : bool :=
  match o with Some (JStr _) => true | _ => false end.

Definition isArray (o : option json) : bool :=
  match o with Some (JArr _) => true | _ => false end.

(** [a || b] on values that may be [undefined]. *)
Definition or_else (o : option json) (d : json) : json :=
  match o with
  | Some v => if truthy v then v else d
  | None => d
  end.

(* ------------------------------------------------------------------ *)
(** ** Arithmetic of [Vec3.distanceTo]

    [distanceTo] belongs to the vec3 package:
    [Math.sqrt(dx * dx + dy * dy + dz * dz)] with [dx = other.x - this.x].
    Each difference, product and sum is rounded to a double, and so is
    the square root. *)

Definition Qsign (q : Q) : comparison := Qcompare q 0%Q.

Definition num_add (a b : num) : num :=
  match a, b with
  | NaN, _ | _, NaN => NaN
  | PInf, NInf | NInf, PInf => NaN
  | PInf, _ | _, PInf => PInf
  | NInf, _ | _, NInf => NInf
  | Fin p, Fin q => Double.round (p + q)%Q
  end.

Definition num_sub (a b : num) : num := num_add a (num_neg b).

Definition inf_of (c : comparison) : num :=
  match c with Gt => PInf | Lt => NInf | Eq => NaN end.

Definition num_mul (a b : num) : num :=
  match a, b with
  | NaN, _ | _, NaN => NaN
  | Fin p, Fin q => Double.round (p * q)%Q
  | PInf, Fin q | Fin q, PInf => inf_of (Qsign q)
  | NInf, Fin q | Fin q, NInf => inf_of (CompOpp (Qsign q))
  | PInf, PInf | NInf, NInf => PInf
  | PInf, NInf | NInf, PInf => NInf
  end.

(** [a < b] on numbers. *)
Definition num_lt (a b : num) : bool :=
  match a, b with
  | NaN, _ | _, NaN => false
  | _, NInf | PInf, _ => false
  | NInf, _ | _, PInf => true
  | Fin p, Fin q => negb (Qle_bool q p)
  end.

(** The formatting functions of the JavaScript runtime that the program
    relies on, taken as given. *)
Record Runtime : Type := mkRuntime {
  (* Number::toString *)
  Number_toString : num -> jstring;
  (* JSON.stringify, on values built from JSON data *)
  JSON_stringify : json -> jstring
}.

Section Conversions.

Variable R : Runtime.

(** [String(v)]. *)
Fixpoint ToString (v : json) : jstring :=
  match v with
  | JNull => lit "null"
  | JBool true => lit "true"
  | JBool false => lit "false"
  | JNum n => Number_toString R n
  | JStr s => s
  | JArr l =>
      Str.join (lit ",")
        (map (fun e => match e with JNull => [] | _ => ToString e end) l)
  | JObj _ => lit "[object Object]"
  end.

(** A template literal slot holding a value that may be [undefined]. *)
Definition show (o : option json) : jstring :=
  match o with Some v => ToString v | None => lit "undefined" end.

End Conversions.

Record Vec3 : Type := mkVec3 { vx : num; vy : num; vz : num }.

Definition dist_sq (this other : Vec3) : num :=
  let dx := num_sub (vx other) (vx this) in
  let dy := num_sub (vy other) (vy this) in
  let dz := num_sub (vz other) (vz this) in
  num_add (num_add (num_mul dx dx) (num_mul dy dy)) (num_mul dz dz).

(** [this.distanceTo(other)]. *)
Definition distanceTo (this other : Vec3) : num :=
  Double.sqrt (dist_sq this other).

(** [this.distanceTo(other) > b]. *)
Definition distance_gt (this other : Vec3) (b : Q) : bool :=
  num_lt (Fin b) (distanceTo this other).

(* ------------------------------------------------------------------ *)
(** ** The state of the process and its observable effects *)

Record block : Type := mkBlock { bname : jstring; bposition : Vec3 }.

Inductive event : Type :=
| EChat (msg : jstring)                      (* bot.chat(msg) went out *)
| ELog (line : string) (data : list json)    (* console.log *)
| EError (line : string)                     (* console.error *)
| ESleep (ms : Z)                            (* await sleep(ms) *)
| EGoal (target : Vec3)                      (* pathfinder goal of gotoNear *)
| EDig (b : block)                           (* the body of safeDig *)
| EHelper (name : jstring)                   (* a compound helper routine *)
| EAsk (instruction : jstring)               (* request to the language model *)
| EWander.                                   (* wanderSlightly *)

Record World : Type := mkWorld {
  position : Vec3;                 (* bot.entity.position *)
  busy : bool;
  currentTask : option jstring;
  botIsOp : bool;
  running : bool;
  trace : list event               (* oldest first *)
}.

Definition emit (e : event) (w : World) : World :=
  mkWorld (position w) (busy w) (currentTask w) (botIsOp w) (running w)
          (trace w ++ [e]).

Definition moved (p : Vec3) (w : World) : World :=
  mkWorld p (busy w) (currentTask w) (botIsOp w) (running w) (trace w).

(** [setBusy(state, name = null)]. *)
Definition setBusy (state : bool) (name : option jstring) (w : World) : World :=
  mkWorld (position w) state (if state then name else None)
          (botIsOp w) (running w) (trace w).

(** Outcome of running a computation. *)
Inductive Res (A : Type) : Type :=
| Ret (a : A) (w : World)
| Throw (w : World)
| OutOfFuel.

Arguments Ret {A} a w.
Arguments Throw {A} w.
Arguments OutOfFuel {A}.

Definition M (A : Type) : Type := World -> Res A.

Definition ret {A} (a : A) : M A := fun w => Ret a w.

Definition bind {A B} (c : M A) (k : A -> M B) : M B :=
  fun w => match c w with
           | Ret a w' => k a w'
           | Throw w' => Throw w'
           | OutOfFuel => OutOfFuel
           end.

(** [try { c } catch (e) { h }]. *)
Definition try_catch {A} (c h : M A) : M A :=
  fun w => match c w with
           | Throw w' => h w'
           | r => r
           end.

Definition modify (f : World -> World) : M unit := fun w => Ret tt (f w).

Definition ask {A} (f : World -> A) : M A := fun w => Ret (f w) w.

Declare Scope m_scope.
Delimit Scope m_scope with M.
Notation "x <- c ;; k" := (bind c (fun x => k))
  (at level 61, c at next level, right associativity) : m_scope.
Notation "c ;; k" := (bind c (fun _ => k))
  (at level 61, right associativity) : m_scope.

Inductive llm_answer : Type :=
| LlmThrows            (* sendChatCompletion rejects *)
| LlmNothing           (* a falsy response *)
| LlmReply (reply : jstring).

(** The collaborators outside [index.js]. *)
Record Collab : Type := mkCollab {
  (* process.env: the value of a variable, if it is set *)
  env : jstring -> option jstring;
  (* does bot.chat(msg) throw in this state? *)
  chat_throws : World -> jstring -> bool;
  (* gotoNear: the promise resolves to a boolean with the bot at a new
     position, or (None) setting the goal throws *)
  pathfind : Vec3 -> World -> option (bool * Vec3);
  (* bot.blockAt(v): a block, null, or (None) an exception *)
  blockAt : Vec3 -> World -> option (option block);
  (* does equipPrefer throw? *)
  equip_throws : World -> bool;
  (* the try block of safeDig: did every call succeed, and where is the bot *)
  dig_run : block -> World -> bool * Vec3;
  (* dropItemsToPlayer, gotoPlayer, ensureWorkbench, ensureWoodPick,
     ensureStonePick: result, new position, and whether safePlace ran
     (it leaves busy false); None when the routine throws *)
  helper : jstring -> json -> jstring -> World -> option (bool * Vec3 * bool);
  (* the status line built from bot.health, bot.food and the inventory *)
  status_line : World -> option jstring;
  (* the reply of the language model to an instruction *)
  llm : jstring -> World -> llm_answer;
  (* does wanderSlightly throw? *)
  wander_throws : World -> bool;
  (* the formatting functions of the runtime *)
  runtime : Runtime
}.


(* ------------------------------------------------------------------ *)
(** ** Regular expressions

    A backtracking matcher in the style of the ECMAScript specification:
    a pattern is run against a position of the input with a continuation,
    alternatives are tried left to right, and an iteration of a star that
    consumes nothing is refused.  The patterns of [index.js] have no
    capture group under a quantifier, so captures are never reset. *)

Module Regex.

Inductive re : Type :=
| Any1 (f : N -> bool)            (* one code unit of a class *)
| Eps
| Seq (a b : re)
| Alt (a b : re)
| Star (greedy : bool) (a : re)
| Group (i : nat) (a : re)
| Bol                             (* ^ *)
| Eol                             (* $ *)
| WordB.                          (* \b *)

Record state : Type := mkState {
  before : jstring;               (* the input up to here, reversed *)
  rest : jstring;                 (* the input from here *)
  caps : list (nat * jstring)     (* captures, latest first *)
}.

Definition is_word (c : N) : bool :=
  ((48 <=? c) && (c <=? 57) || (65 <=? c) && (c <=? 90)
   || (97 <=? c) && (c <=? 122) || (c =? 95))%N.

Definition word_at (s : jstring) : bool :=
  match s with c :: _ => is_word c | [] => false end.

Definition consumed (st st' : state) : jstring :=
  firstn (List.length (rest st) - List.length (rest st')) (rest st).

(** The iterations of a star whose body is run by [body]: at most [n]
    of them, each consuming at least one unit. *)
Fixpoint star_loop (body : state -> (state -> option state) -> option state)
    (greedy : bool) (k : state -> option state) (n : nat) (st : state)
  : option state :=
  match n with
  | O => k st
  | S n' =>
      let more :=
        body st (fun st' =>
          if (List.length (rest st') <? List.length (rest st))%nat
          then star_loop body greedy k n' st' else None) in
      if greedy then
        match more with Some x => Some x | None => k st end
      else
        match k st with Some x => Some x | None => more end
  end.

Fixpoint run (r : re) (st : state) (k : state -> option state) {struct r}
  : option state :=
  match r with
  | Any1 f =>
      match rest st with
      | c :: s' => if f c then k (mkState (c :: before st) s' (caps st)) else None
      | [] => None
      end
  | Eps => k st
  | Seq a b => run a st (fun st' => run b st' k)
  | Alt a b =>
      match run a st k with
      | Some x => Some x
      | None => run b st k
      end
  | Star greedy a => star_loop (run a) greedy k (S (List.length (rest st))) st
  | Group i a =>
      run a st (fun st' =>
        k (mkState (before st') (rest st') ((i, consumed st st') :: caps st')))
  | Bol => match before st with [] => k st | _ => None end
  | Eol => match rest st with [] => k st | _ => None end
  | WordB =>
      if xorb (word_at (before st)) (word_at (rest st)) then k st else None
  end.

(** A match: the text before it (reversed), the state at its end. *)
Record found : Type := mkFound {
  f_before : jstring;
  f_text : jstring;
  f_end : state
}.

(** The leftmost match at or after the position between [pre] and [s]. *)
Fixpoint search (r : re) (pre s : jstring) : option found :=
  match run r (mkState pre s []) Some with
  | Some st => Some (mkFound pre (consumed (mkState pre s []) st) st)
  | None =>
      match s with
      | [] => None
      | c :: s' => search r (c :: pre) s'
      end
  end.

(** [s.match(r)] without the [g] flag. *)
Definition exec (r : re) (s : jstring) : option found := search r [] s.

(** Capture [i]; [None] is [undefined]. *)
Fixpoint cap_in (i : nat) (l : list (nat * jstring)) : option jstring :=
  match l with
  | [] => None
  | (j, t) :: l' => if Nat.eqb i j then Some t else cap_in i l'
  end.

Definition cap (i : nat) (m : found) : option jstring := cap_in i (caps (f_end m)).

(** The replacement text for a pattern without groups: [$$], [$&],
    [$`] and [$'] are expanded, every other unit is literal. *)
Fixpoint expand (repl matched pre post : jstring) : jstring :=
  match repl with
  | 36%N :: 36%N :: t => 36%N :: expand t matched pre post
  | 36%N :: 38%N :: t => matched ++ expand t matched pre post
  | 36%N :: 96%N :: t => pre ++ expand t matched pre post
  | 36%N :: 39%N :: t => post ++ expand t matched pre post
  | c :: t => c :: expand t matched pre post
  | [] => []
  end.

(** [s.replace(r, repl)] with the [g] flag: the matches are taken from
    left to right, each search starting where the last match ended (one
    unit further after an empty match). *)
Fixpoint replace_from (r : re) (repl : jstring) (n : nat) (pre s : jstring)
  : jstring :=
  match n with
  | O => s
  | S n' =>
      match search r pre s with
      | None => s
      | Some m =>
          let skipped := List.length (f_before m) - List.length pre in
          let out := firstn skipped s
                     ++ expand repl (f_text m) (rev (f_before m)) (rest (f_end m)) in
          match f_text m with
          | [] =>
              match rest (f_end m) with
              | [] => out
              | c :: s' => out ++ c :: replace_from r repl n' (c :: f_before m) s'
              end
          | _ => out ++ replace_from r repl n' (before (f_end m)) (rest (f_end m))
          end
      end
  end.

Definition replace_all (r : re) (repl s : jstring) : jstring :=
  replace_from r repl (S (List.length s)) [] s.

(** [s.replace(r, repl)] without the [g] flag. *)
Definition replace (r : re) (repl s : jstring) : jstring :=
  match exec r s with
  | None => s
  | Some m => rev (f_before m)
              ++ expand repl (f_text m) (rev (f_before m)) (rest (f_end m))
              ++ rest (f_end m)
  end.

(** *** Pattern syntax *)

Definition code (c : string) : N :=
  match c with String a _ => N_of_ascii a | EmptyString => 0%N end.

(** Canonical form under the [i] flag, on ASCII. *)
Definition canon (c : N) : N :=
  if ((97 <=? c) && (c <=? 122))%N then (c - 32)%N else c.

Definition uncanon (c : N) : N :=
  if ((65 <=? c) && (c <=? 90))%N then (c + 32)%N else c.

(** A class under the [i] flag: some member has the canonical form of
    the unit read. *)
Definition ci (f : N -> bool) : N -> bool :=
  fun c => f c || f (canon c) || f (uncanon c).

Definition one (c : string) : N -> bool := N.eqb (code c).
Definition range (a b : string) : N -> bool :=
  fun c => ((code a <=? c) && (c <=? code b))%N.
Definition union (f g : N -> bool) : N -> bool := fun c => f c || g c.
Definition neg (f : N -> bool) : N -> bool := fun c => negb (f c).
Definition anything : N -> bool := fun _ => true.

(** [[a-zA-Z0-9_]] *)
Definition ident : N -> bool :=
  union (range "a" "z") (union (range "A" "Z") (union (range "0" "9") (one "_"))).

(** [.] : anything but a line terminator. *)
Definition dot : N -> bool :=
  fun c => negb (existsb (N.eqb c) [10; 13; 8232; 8233]%N).

Definition chr (c : string) : re := Any1 (one c).
Definition plus (a : re) : re := Seq a (Star true a).
Definition opt (a : re) : re := Alt a Eps.

Fixpoint seq (l : list re) : re :=
  match l with
  | [] => Eps
  | [a] => a
  | a :: l' => Seq a (seq l')
  end.

(** A literal word, and the same under the [i] flag. *)
Definition word (s : string) : re := seq (map (fun c => Any1 (N.eqb c)) (lit s)).
Definition word_ci (s : string) : re :=
  seq (map (fun c => Any1 (ci (N.eqb c))) (lit s)).

Definition spaces : re := Star true (Any1 Str.is_space).      (* \s* *)
Definition quote : N -> bool := union (N.eqb 34%N) (one "'").

End Regex.

(* ------------------------------------------------------------------ *)
(** ** Results that may be an exception *)

Inductive res (A : Type) : Type :=
| Val (a : A)
| Exc.                      (* an exception was thrown *)

Arguments Val {A} a.
Arguments Exc {A}.

(** [try { c } catch { h }] on pure code. *)
Definition catch {A} (c : res A) (h : res A) : res A :=
  match c with Val a => Val a | Exc => h end.

(* ------------------------------------------------------------------ *)
(** ** Numeric literals *)

Module Numeral.

Definition digit (c : N) : option Z :=
  if ((48 <=? c) && (c <=? 57))%N then Some (Z.of_N c - 48)%Z else None.

Definition hexdigit (c : N) : option Z :=
  if ((48 <=? c) && (c <=? 57))%N then Some (Z.of_N c - 48)%Z
  else if ((97 <=? c) && (c <=? 102))%N then Some (Z.of_N c - 87)%Z
  else if ((65 <=? c) && (c <=? 70))%N then Some (Z.of_N c - 55)%Z
  else None.

(** The longest run of digits in base [b]: its value continuing [acc],
    how many were read, and what follows. *)
Fixpoint run (b : Z) (dig : N -> option Z) (s : jstring) (acc : Z) (n : Z)
  : Z * Z * jstring :=
  match s with
  | c :: s' =>
      match dig c with
      | Some d => if (d <? b)%Z then run b dig s' (acc * b + d)%Z (n + 1)%Z
                  else (acc, n, s)
      | None => (acc, n, s)
      end
  | [] => (acc, n, s)
  end.

Definition digits (s : jstring) : Z * Z * jstring := run 10 digit s 0%Z 0%Z.

(** [m * 10^e] as a rational. *)
Definition scaled (m e : Z) : Q :=
  if (0 <=? e)%Z then inject_Z (m * 10 ^ e)
  else Qred (Qmake m (Z.to_pos (10 ^ (- e)))).

(** The value of a literal becomes the double nearest to it: zero below
    half the least subnormal, an infinity beyond the range. *)
Definition to_double (q : Q) : num := Double.round q.

(** An optional sign. *)
Definition sign (s : jstring) : Z * jstring :=
  match Str.after 43 s with
  | Some t => (1%Z, t)
  | None => match Str.after 45 s with
            | Some t => ((-1)%Z, t)
            | None => (1%Z, s)
            end
  end.

(** An optional exponent part, an [e] or [E] with an optional sign and
    digits; [None] when the [e] is not followed by digits. *)
Definition exponent (s : jstring) : option (Z * jstring) :=
  match s with
  | c :: t =>
      if ((c =? 101) || (c =? 69))%N then
        let '(sg, t') := sign t in
        let '(e, n, r) := digits t' in
        if (n =? 0)%Z then None else Some ((sg * e)%Z, r)
      else Some (0%Z, s)
  | [] => Some (0%Z, s)
  end.

(** The JSON number grammar: an optional minus; a zero, or a digit from
    1 to 9 followed by digits; an optional point with at least one
    digit; an optional exponent. *)
Definition json_number (s : jstring) : option (num * jstring) :=
  let '(sg, s1) :=
    match Str.after 45 s with
    | Some t => ((-1)%Z, t)
    | None => (1%Z, s)
    end in
  let int :=
    match Str.after 48 s1 with
    | Some t => Some (0%Z, t)
    | None => let '(i, n, r) := digits s1 in
              if (n =? 0)%Z then None else Some (i, r)
    end in
  match int with
  | None => None
  | Some (i, s2) =>
      let frac :=
        match Str.after 46 s2 with
        | Some t =>
            let '(f, n, r) := run 10 digit t i 0%Z in
            if (n =? 0)%Z then None else Some (f, n, r)
        | None => Some (i, 0%Z, s2)
        end in
      match frac with
      | None => None
      | Some (m, n, s3) =>
          match exponent s3 with
          | None => None
          | Some (e, s4) => Some (to_double (scaled (sg * m) (e - n)), s4)
          end
      end
  end.

(** [StrDecimalLiteral] of [Number(string)]: an optional sign, then
    [Infinity], or digits with an optional fraction and exponent, or a
    fraction that starts with the point. *)
Definition decimal (s : jstring) : option (num * jstring) :=
  let '(sg, s1) := sign s in
  if Str.prefixb (lit "Infinity") s1 then
    Some (if (sg =? 1)%Z then PInf else NInf, skipn 8 s1)
  else
    let '(i, ni, s2) := digits s1 in
    let '(m, nf, s3) :=
      match Str.after 46 s2 with
      | Some t => run 10 digit t i 0%Z
      | None => (i, 0%Z, s2)
      end in
    if ((ni =? 0) && (nf =? 0))%Z then None
    else
      match exponent s3 with
      | None => None
      | Some (e, s4) =>
          Some (to_double (scaled (sg * m) (e - nf)), s4)
      end.

(** The digits of a literal in base [b], which must be all that is left. *)
Definition radix (b : Z) (s : jstring) : num :=
  let '(v, n, r) := run b hexdigit s 0%Z 0%Z in
  match r with
  | [] => if (n =? 0)%Z then NaN else to_double (inject_Z v)
  | _ => NaN
  end.

(** What follows a prefix [0x], given as the two cases of the letter. *)
Definition prefixed (lower upper : N) (s : jstring) : option jstring :=
  match Str.after 48 s with
  | Some (x :: t) => if ((x =? lower) || (x =? upper))%N then Some t else None
  | _ => None
  end.

(** [Number(s)] on a string. *)
Definition Number (s : jstring) : num :=
  match Str.trim s with
  | [] => Fin 0%Q
  | t =>
      match prefixed 120 88 t, prefixed 111 79 t, prefixed 98 66 t with
      | Some h, _, _ => radix 16 h
      | None, Some o, _ => radix 8 o
      | None, None, Some b => radix 2 b
      | None, None, None =>
          match decimal t with
          | Some (v, []) => v
          | _ => NaN
          end
      end
  end.

(** [isNaN(Number(s))]. *)
Definition isNaN (s : jstring) : bool := num_isNaN (Number s).

End Numeral.

(* ------------------------------------------------------------------ *)
(** ** [JSON.parse] *)

Module JParse.

Definition is_ws (c : N) : bool :=
  ((c =? 32) || (c =? 9) || (c =? 10) || (c =? 13))%N.

Fixpoint skip_ws (s : jstring) : jstring :=
  match s with
  | c :: s' => if is_ws c then skip_ws s' else s
  | [] => []
  end.

Definition hex4 (a b c d : N) : option N :=
  match Numeral.hexdigit a, Numeral.hexdigit b,
        Numeral.hexdigit c, Numeral.hexdigit d with
  | Some x, Some y, Some z, Some t =>
      Some (Z.to_N (((x * 16 + y) * 16 + z) * 16 + t))
  | _, _, _, _ => None
  end.

(** The unit that an escape letter stands for. *)
Definition escape (e : N) : option N :=
  if ((e =? 34) || (e =? 92) || (e =? 47))%N then Some e
  else if (e =? 98)%N then Some 8%N
  else if (e =? 102)%N then Some 12%N
  else if (e =? 110)%N then Some 10%N
  else if (e =? 114)%N then Some 13%N
  else if (e =? 116)%N then Some 9%N
  else None.

(** The units of a string after its opening quote. *)
Fixpoint string_body (s : jstring) (acc : jstring) : option (jstring * jstring) :=
  match s with
  | [] => None
  | c :: t =>
      if (c =? 34)%N then Some (rev acc, t)
      else if (c =? 92)%N then
        match t with
        | [] => None
        | e :: t' =>
            if (e =? 117)%N then
              match t' with
              | a :: b :: c :: d :: t'' =>
                  match hex4 a b c d with
                  | Some u => string_body t'' (u :: acc)
                  | None => None
                  end
              | _ => None
              end
            else
              match escape e with
              | Some u => string_body t' (u :: acc)
              | None => None
              end
        end
      else if (c <? 32)%N then None
      else string_body t (c :: acc)
  end.

(** [CreateDataProperty]: a repeated key keeps its place and takes the
    later value. *)
Definition define (k : jstring) (v : json) (kvs : list (jstring * json))
  : list (jstring * json) :=
  match update k v kvs with
  | Some kvs' => kvs'
  | None => kvs ++ [(k, v)]
  end.

(** The elements of an array after the first bracket, read by [val]. *)
Fixpoint elems (val : jstring -> option (json * jstring)) (n : nat)
    (t : jstring) (acc : list json) : option (json * jstring) :=
  match n with
  | O => None
  | S n' =>
      match val t with
      | Some (v, r) =>
          match Str.after 44 (skip_ws r), Str.after 93 (skip_ws r) with
          | Some r', _ => elems val n' r' (v :: acc)
          | None, Some r' => Some (JArr (rev (v :: acc)), r')
          | None, None => None
          end
      | None => None
      end
  end.

(** The members of an object after the first brace, read by [val]. *)
Fixpoint members (val : jstring -> option (json * jstring)) (n : nat)
    (t : jstring) (acc : list (jstring * json)) : option (json * jstring) :=
  match n with
  | O => None
  | S n' =>
      match Str.after 34 (skip_ws t) with
      | Some t1 =>
          match string_body t1 [] with
          | Some (k, t2) =>
              match Str.after 58 (skip_ws t2) with
              | Some t3 =>
                  match val t3 with
                  | Some (v, r) =>
                      match Str.after 44 (skip_ws r), Str.after 125 (skip_ws r) with
                      | Some r', _ => members val n' r' (define k v acc)
                      | None, Some r' => Some (JObj (define k v acc), r')
                      | None, None => None
                      end
                  | None => None
                  end
              | None => None
              end
          | None => None
          end
      | None => None
      end
  end.

(** A literal, or else a number. *)
Definition scalar (s : jstring) : option (json * jstring) :=
  if Str.prefixb (lit "true") s then Some (JBool true, skipn 4 s)
  else if Str.prefixb (lit "false") s then Some (JBool false, skipn 5 s)
  else if Str.prefixb (lit "null") s then Some (JNull, skipn 4 s)
  else
    match Numeral.json_number s with
    | Some (n, r) => Some (JNum n, r)
    | None => None
    end.

(** A value with the white space before it; [fuel] bounds the nesting. *)
Fixpoint value (fuel : nat) (s : jstring) : option (json * jstring) :=
  match fuel with
  | O => None
  | S f =>
      match skip_ws s with
      | [] => None
      | c :: t =>
          if (c =? 34)%N then
            match string_body t [] with
            | Some (str, r) => Some (JStr str, r)
            | None => None
            end
          else if (c =? 91)%N then
            match Str.after 93 (skip_ws t) with
            | Some r => Some (JArr [], r)
            | None => elems (value f) (S (List.length t)) t []
            end
          else if (c =? 123)%N then
            match Str.after 125 (skip_ws t) with
            | Some r => Some (JObj [], r)
            | None => members (value f) (S (List.length t)) t []
            end
          else scalar (c :: t)
      end
  end.

(** [JSON.parse(text)]: one value, white space around it, nothing else;
    a syntax error is an exception. *)
Definition parse (text : jstring) : res json :=
  match value (S (List.length text)) text with
  | Some (v, r) => match skip_ws r with [] => Val v | _ => Exc end
  | None => Exc
  end.

End JParse.

(* ------------------------------------------------------------------ *)
(** ** The extraction functions and the sanitizer *)

Definition andThen {A B} (c : res A) (k : A -> res B) : res B :=
  match c with Val a => k a | Exc => Exc end.

Module Pat.
Import Regex.

Definition nl : N -> bool := N.eqb 10%N.
Definition colon_dash : N -> bool := union (one ":") (one "-").
Definition colon_eq : N -> bool := union (one ":") (one "=").

(** index.js:933, in [parseCommandLineFromReply]: from the start, a
    run of identifier units (group 1), optionally a parenthesis holding
    any units but line terminators (group 2), up to the end. *)
Definition callRe : re :=
  seq [Bol; Group 1 (plus (Any1 ident));
       opt (seq [chr "("; Group 2 (Star true (Any1 dot)); chr ")"]); Eol].

(** index.js:944: a quote at the start, or a quote at the end (flag g). *)
Definition edgeQuoteRe : re :=
  Alt (Seq Bol (Any1 quote)) (Seq (Any1 quote) Eol).

(** index.js:563, [actionParamsRe] (flag i): Action, optional colon or
    dash, a name (group 1) ending at a word boundary, the shortest text
    up to Params, optional colon or dash, then the shortest text
    from an opening to a closing brace (group 2). *)
Definition actionParamsRe : re :=
  seq [word_ci "Action"; spaces; opt (Any1 colon_dash); spaces;
       Group 1 (plus (Any1 (ci ident))); WordB; Star false (Any1 anything);
       word_ci "Params"; spaces; opt (Any1 colon_dash); spaces;
       Group 2 (seq [chr "{"; Star false (Any1 anything); chr "}"])].

(** index.js:574: opening braces and spaces at the start, or closing
    braces and spaces at the end (flag g). *)
Definition edgeBraceRe : re :=
  Alt (Seq Bol (plus (Any1 (union (one "{") Str.is_space))))
      (Seq (plus (Any1 (union (one "}") Str.is_space))) Eol).

(** index.js:578: a key (group 1), a colon or equals sign, an optional
    quote, a value without quotes or spaces (group 2), an optional quote. *)
Definition pairRe : re :=
  seq [Group 1 (plus (Any1 ident)); spaces; Any1 colon_eq; spaces;
       opt (Any1 quote);
       Group 2 (plus (Any1 (neg (union quote Str.is_space))));
       opt (Any1 quote)].

(** index.js:586, 597, 605, 618: USERNAME, USER or PLAYER (flags g, i). *)
Definition placeholderRe : re :=
  Alt (word_ci "USERNAME") (Alt (word_ci "USER") (word_ci "PLAYER")).

(** index.js:593, [jsonCmdRe] (flag i): the word command, optionally
    quoted, a colon or equals sign, and a quoted text without quotes or
    newlines (group 1). *)
Definition jsonCmdRe : re :=
  seq [opt (Any1 quote); word_ci "command"; opt (Any1 quote); spaces;
       Any1 colon_eq; spaces; Any1 quote;
       Group 1 (plus (Any1 (neg (union quote nl)))); Any1 quote].

(** index.js:601, [funcRe] (flag i): command, a parenthesis, optionally
    command =, an optional quote, a text without quotes or closing
    parentheses (group 1), an optional quote, the closing parenthesis. *)
Definition funcRe : re :=
  seq [word_ci "command"; spaces; chr "("; spaces;
       opt (seq [word_ci "command"; spaces; chr "="; spaces]);
       opt (Any1 quote);
       Group 1 (plus (Any1 (neg (union quote (one ")")))));
       opt (Any1 quote); spaces; chr ")"].

(** index.js:609, [inlineRe] (flag i): two slashes and the rest of a
    line that contains the word command. *)
Definition inlineRe : re :=
  seq [word "//"; Star true (Any1 (neg nl)); word_ci "command";
       Star true (Any1 (neg nl))].

(** index.js:613 (flag i): command, a parenthesis, a text without a
    closing parenthesis (group 1), the closing parenthesis. *)
Definition innerRe : re :=
  seq [word_ci "command"; spaces; chr "("; spaces;
       Group 1 (plus (Any1 (neg (one ")")))); spaces; chr ")"].

(** index.js:616: a quoted text without quotes (group 1). *)
Definition quotedRe : re :=
  seq [Any1 quote; Group 1 (plus (Any1 (neg quote))); Any1 quote].

(** index.js:959: three backquotes, the shortest text, three backquotes
    (flag g). *)
Definition fenceRe : re :=
  seq [word "```"; Star false (Any1 anything); word "```"].

(** index.js:961: an opening brace, the longest text, a closing brace
    (flag g). *)
Definition bracesRe : re :=
  seq [chr "{"; Star true (Any1 anything); chr "}"].

(** index.js:963: a run of white space (flag g). *)
Definition spaceRunRe : re := plus (Any1 Str.is_space).

(** index.js:787: a slash at the start. *)
Definition leadingSlashRe : re := Seq Bol (chr "/").

(** index.js:574: the separators of [split]: semicolon, comma, newline. *)
Definition pairSep : N -> bool := union (one ";") (union (one ",") nl).

End Pat.

(** [s.split(r)] for a pattern that is one class of code units. *)
Fixpoint split_on (f : N -> bool) (s : jstring) (cur : jstring) : list jstring :=
  match s with
  | [] => [rev cur]
  | c :: s' => if f c then rev cur :: split_on f s' []
               else split_on f s' (c :: cur)
  end.

(** The scan for the brace that closes the one at the start of [s]:
    its index, counting from [i]. *)
Fixpoint closing_brace (s : jstring) (i : Z) (depth : Z) : option Z :=
  match s with
  | [] => None
  | c :: s' =>
      if (c =? 123)%N then closing_brace s' (i + 1)%Z (depth + 1)%Z
      else if (c =? 125)%N then
        if (depth - 1 =? 0)%Z then Some i
        else closing_brace s' (i + 1)%Z (depth - 1)%Z
      else closing_brace s' (i + 1)%Z depth
  end.

(** [obj && obj.plan && Array.isArray(obj.plan.steps)], giving [obj.plan]. *)
Definition plan_in (obj : json) : option json :=
  if truthy obj && truthy_opt (get "plan" obj) then
    match get "plan" obj with
    | Some plan => if isArray (get "steps" plan) then Some plan else None
    | None => None
    end
  else None.

(** [obj && Array.isArray(obj.actions)], giving [obj.actions]. *)
Definition actions_in (obj : json) : option json :=
  if truthy obj && isArray (get "actions" obj) then get "actions" obj else None.

(** [try { const obj = JSON.parse(jsonText); if (...) return ... } catch {}]:
    [Some] when the function returns from inside the block. *)
Definition try_json (accept : json -> option json) (jsonText : jstring)
  : res (option json) :=
  catch (andThen (JParse.parse jsonText) (fun obj => Val (accept obj))) (Val None).

(** The common body of [parsePlanFromReply] and [parseJsonActionsFromReply]:
    the fenced block first, then the object around the quoted key. *)
Definition fenced_or_inline (key : jstring) (accept : json -> option json)
    (text : jstring) : res (option json) :=
  match text with
  | [] => Val None
  | _ =>
      let codeFenceStart := Str.indexOf (lit "```json") text 0 in
      let codeFenceEnd := Str.indexOf (lit "```") text (codeFenceStart + 7) in
      andThen
        (if negb (codeFenceStart =? -1)%Z && negb (codeFenceEnd =? -1)%Z then
           try_json accept
             (Str.trim (Str.slice text (codeFenceStart + 7) codeFenceEnd))
         else Val None)
        (fun fenced =>
           match fenced with
           | Some v => Val (Some v)
           | None =>
               let keyIdx := Str.indexOf key text 0 in
               if (keyIdx =? -1)%Z then Val None
               else
                 let start :=
                   let back := Str.lastIndexOf [123%N] text keyIdx in
                   if (back =? -1)%Z then Str.indexOf [123%N] text keyIdx
                   else back in
                 if (start =? -1)%Z then Val None
                 else
                   match closing_brace (Str.sliceFrom text start) start 0 with
                   | Some i => try_json accept (Str.slice text start (i + 1))
                   | None => Val None
                   end
           end)
  end.

(** [parsePlanFromReply(text)]; [None] is [null]. *)
Definition parsePlanFromReply (text : jstring) : res (option json) :=
  fenced_or_inline (34%N :: lit "plan" ++ [34%N]) plan_in text.

(** [parseJsonActionsFromReply(text)]; [None] is [null]. *)
Definition parseJsonActionsFromReply (text : jstring) : res (option json) :=
  fenced_or_inline (34%N :: lit "actions" ++ [34%N]) actions_in text.

(** [{ name, params }]. *)
Definition action (name : jstring) (params : list (jstring * json)) : json :=
  JObj [(lit "name", JStr name); (lit "params", JObj params)].

(** One [key=value] entry of a directive. *)
Definition directive_entry (params : list (jstring * json)) (entry : jstring)
  : list (jstring * json) :=
  let parts := Str.split 61%N entry in
  let k := nth 0 parts [] in
  let v := nth 1 parts [] in
  match k with
  | [] => params
  | _ =>
      match v with
      | [] => set (Str.trim k) (JBool true) params
      | _ =>
          if Str.includes v [34%N] || Str.includes v [39%N] then
            set (Str.trim k) (JStr (Regex.replace_all Pat.edgeQuoteRe [] v)) params
          else if negb (Numeral.isNaN v) then
            set (Str.trim k) (JNum (Numeral.Number v)) params
          else set (Str.trim k) (JStr (Str.trim v)) params
      end
  end.

(** One [name(args)] item of a directive line. *)
Definition directive_item (cmd : jstring) : json :=
  match Regex.exec Pat.callRe cmd with
  | None => action (Str.trim cmd) []
  | Some m =>
      let name := match Regex.cap 1 m with Some n => n | None => [] end in
      match Regex.cap 2 m with
      | Some (c :: paramsStr) =>
          action name (fold_left directive_entry (Str.split 44%N (c :: paramsStr)) [])
      | _ => action name []
      end
  end.

(** [parseCommandLineFromReply(text)]. *)
Definition parseCommandLineFromReply (text : jstring) : res (list json) :=
  match text with
  | [] => Val []
  | _ =>
      let sep := Str.indexOf (lit "//") text 0 in
      if (sep =? -1)%Z then Val []
      else
        match Str.trim (Str.sliceFrom text (sep + 2)) with
        | [] => Val []
        | line => Val (map directive_item (Str.split 59%N line))
        end
  end.

(** [sanitizeLLMReplyForChat(reply)] on a string. *)
Definition cleaned (reply : jstring) : jstring :=
  let s := Regex.replace_all Pat.fenceRe [] reply in
  let s := Regex.replace_all Pat.bracesRe [] s in
  Str.trim (Regex.replace_all Pat.spaceRunRe (lit " ") s).

Definition sanitizeLLMReplyForChat (reply : jstring) : jstring :=
  match reply with
  | [] => []
  | _ =>
      let s := cleaned reply in
      if Str.startsWith s (34%N :: lit "Alright, let") then []
      else if (240 <? Str.len s)%Z then Str.slice s 0 237 ++ lit "..."
      else s
  end.

Section Loose.

Variable R : Runtime.

(** [s.replace(/USERNAME|USER|PLAYER/gi, username)]. *)
Definition fill (username s : jstring) : jstring :=
  Regex.replace_all Pat.placeholderRe username s.

(** One piece of the parameter text that would not parse as JSON. *)
Definition loose_pair (kv : list (jstring * json)) (p : jstring)
  : list (jstring * json) :=
  match Str.trim p with
  | [] => kv
  | part =>
      match Regex.exec Pat.pairRe part with
      | Some kvm =>
          match Regex.cap 1 kvm, Regex.cap 2 kvm with
          | Some k, Some v =>
              set k (if Numeral.isNaN v then JStr v else JNum (Numeral.Number v)) kv
          | _, _ => kv
          end
      | None => kv
      end
  end.

Definition loose_params (paramsText : jstring) : json :=
  JObj (fold_left loose_pair
          (split_on Pat.pairSep (Regex.replace_all Pat.edgeBraceRe [] paramsText) [])
          []).

Definition fill_value (username : jstring) (v : json) : json :=
  match v with JStr s => JStr (fill username s) | _ => v end.

(** The loop over [Object.keys(params)] that replaces the placeholders
    in the string values. *)
Definition fill_strings (username : jstring) (params : json) : json :=
  match params with
  | JObj kvs => JObj (map (fun kv => (fst kv, fill_value username (snd kv))) kvs)
  | JArr l => JArr (map (fill_value username) l)
  | _ => params
  end.

Definition command_action (cmd : jstring) : json :=
  JObj [(lit "name", JStr (lit "command"));
        (lit "params", JObj [(lit "command", JStr cmd)])].

(** [a.name || ''] as a text. *)
Definition or_text (o : option json) : jstring :=
  match o with
  | Some v => if truthy v then ToString R v else []
  | None => []
  end.

(** The key of an action in the removal of duplicates. *)
Definition dedupe_key (a : json) : jstring :=
  or_text (get "name" a) ++ lit "|" ++
  match get "params" a with
  | Some ps =>
      if truthy ps && truthy_opt (get "command" ps)
      then show R (get "command" ps)
      else JSON_stringify R (if truthy ps then ps else JObj [])
  | None => JSON_stringify R (JObj [])
  end.

Fixpoint dedupe (seen : list jstring) (acts : list json) : list json :=
  match acts with
  | [] => []
  | a :: rest =>
      let k := dedupe_key a in
      if Str.mem k seen then dedupe seen rest
      else a :: dedupe (k :: seen) rest
  end.

(** The action read from the Action/Params form, if the text has one. *)
Definition loose_action (text username : jstring) : res (list json) :=
  match Regex.exec Pat.actionParamsRe text with
  | Some m =>
      match Regex.cap 1 m, Regex.cap 2 m with
      | Some (c :: n), Some paramsText =>
          let name := Str.toLowerCase (c :: n) in
          andThen
            (catch (JParse.parse paramsText) (Val (loose_params paramsText)))
            (fun params =>
               andThen
                 (catch (Val (if truthy params then fill_strings username params
                              else params))
                        (Val params))
                 (fun params' =>
                    Val [JObj [(lit "name", JStr name); (lit "params", params')]]))
      | _, _ => Val []
      end
  | None => Val []
  end.

(** The command read by a pattern whose group 1 is the command text. *)
Definition loose_command (r : Regex.re) (text username : jstring) : list json :=
  match Regex.exec r text with
  | Some m =>
      match Regex.cap 1 m with
      | Some (c :: t) => [command_action (fill username (Str.trim (c :: t)))]
      | _ => []
      end
  | None => []
  end.

(** The command of an inline directive. *)
Definition loose_inline (text username : jstring) : list json :=
  match Regex.exec Pat.inlineRe text with
  | Some m =>
      match Regex.exec Pat.innerRe (Regex.f_text m) with
      | Some p =>
          match Regex.cap 1 p with
          | Some (c :: b) =>
              let body := c :: b in
              let cmd :=
                match Regex.exec Pat.quotedRe body with
                | Some q => match Regex.cap 1 q with Some t => t | None => body end
                | None => body
                end in
              [command_action (Str.trim (fill username cmd))]
          | _ => []
          end
      | None => []
      end
  | None => []
  end.

(** [extractActionsLoose(text, username)]. *)
Definition extractActionsLoose (text username : jstring) : res (list json) :=
  match text with
  | [] => Val []
  | _ =>
      andThen (loose_action text username) (fun a1 =>
        let acts := a1 ++ loose_command Pat.jsonCmdRe text username
                       ++ loose_command Pat.funcRe text username
                       ++ loose_inline text username in
        match acts with
        | [] => Val []
        | _ => Val (dedupe [] acts)
        end)
  end.

End Loose.
(* ------------------------------------------------------------------ *)
(** ** The executor *)

Section Executor.

Variable C : Collab.

Local Open Scope m_scope.

Definition chat (msg : jstring) : M unit :=
  fun w => if chat_throws C w msg then Throw w else Ret tt (emit (EChat msg) w).

(** [try { bot.chat(msg) } catch (e) {}]. *)
Definition try_chat (msg : jstring) : M unit := try_catch (chat msg) (ret tt).

Definition log (line : string) (data : list json) : M unit :=
  modify (emit (ELog line data)).

Definition error (line : string) : M unit := modify (emit (EError line)).

Definition sleep (ms : Z) : M unit := modify (emit (ESleep ms)).

(** [gotoNear(pos, range)]. *)
Definition gotoNear (pos : Vec3) : M bool :=
  fun w => match pathfind C pos w with
           | Some (ok, p) => Ret ok (moved p (emit (EGoal pos) w))
           | None => Throw w
           end.

Definition equipPrefer : M unit :=
  fun w => if equip_throws C w then Throw w else Ret tt w.

(** [safeDig(block)] for a block that is not null. *)
Definition safeDig (b : block) : M bool :=
  if Str.eqb (bname b) (lit "air") then ret false
  else
    modify (setBusy true (Some (lit "dig"))) ;;
    r <- ask (dig_run C b) ;;
    modify (fun w => moved (snd r) (emit (EDig b) w)) ;;
    modify (setBusy false None) ;;
    ret (fst r).

Definition coords_are_numbers (p : json) : bool :=
  is_number (get "x" p) && is_number (get "y" p) && is_number (get "z" p).

Definition num_of (o : option json) : num :=
  match o with Some (JNum n) => n | _ => NaN end.

(** [new Vec3(p.x, p.y, p.z)] once the three are numbers. *)
Definition vec_of (p : json) : Vec3 :=
  mkVec3 (num_of (get "x" p)) (num_of (get "y" p)) (num_of (get "z" p)).

(** The text of [p.x,p.y,p.z] in a template literal. *)
Definition at_coords (p : json) : jstring :=
  show (runtime C) (get "x" p) ++ lit "," ++
  show (runtime C) (get "y" p) ++ lit "," ++
  show (runtime C) (get "z" p).

(** [(b && b.name) || 'unknown']. *)
Definition block_label (b : option block) : jstring :=
  match b with
  | Some bl => match bname bl with [] => lit "unknown" | n => n end
  | None => lit "unknown"
  end.

(** [executeMicroAction({ name, params })]. *)
Definition executeMicroAction (name0 : jstring) (params : json) : M bool :=
  let name := Str.toLowerCase name0 in
  let p := if truthy params then params else JObj [] in
  log "[micro] executeMicroAction:" [JStr name; p] ;;
  if Str.mem name [lit "goto"; lit "goto_coords"; lit "move"] then
    if negb (coords_are_numbers p) then ret false
    else
      log "[micro] goto ->" [] ;;
      gotoNear (vec_of p)
  else if Str.eqb name (lit "inspect") then
    if negb (coords_are_numbers p) then ret false
    else
      b <- (fun w => match blockAt C (vec_of p) w with
                     | Some b => Ret b w
                     | None => Throw w
                     end) ;;
      let what :=
        match get "blockName" p with
        | Some v => if truthy v then ToString (runtime C) v else block_label b
        | None => block_label b
        end in
      try_chat (lit "Inspect: " ++ what ++ lit " at " ++ at_coords p) ;;
      log "[micro] inspect result:" [] ;;
      ret (match b with Some _ => true | None => false end)
  else if Str.eqb name (lit "dig") || Str.eqb name (lit "mine") then
    if negb (coords_are_numbers p) then ret false
    else
      b <- (fun w => match blockAt C (vec_of p) w with
                     | Some b => Ret b w
                     | None => Throw w
                     end) ;;
      match b with
      | None => log "[micro] dig: block not found at" [p] ;; ret false
      | Some bl =>
          log "[micro] dig -> approaching" [] ;;
          _ <- gotoNear (bposition bl) ;;
          equipPrefer ;;
          res <- safeDig bl ;;
          log "[micro] dig result for" [p; JBool res] ;;
          ret res
      end
  else ret false.

Definition primitives : list jstring :=
  [lit "inspect"; lit "goto"; lit "dig"; lit "mine"].

(** The loop of [executePlan] over the elements of the array. *)
Fixpoint executePlan_loop (steps : list json) : M bool :=
  match steps with
  | [] => ret true
  | s :: rest =>
      if negb (truthy s) || negb (truthy_opt (get "name" s)) then
        executePlan_loop rest
      else
        let name := Str.toLowerCase (show (runtime C) (get "name" s)) in
        let p := or_else (get "params" s) (JObj []) in
        log "[planner] executing step:" [JStr name; p] ;;
        if negb (coords_are_numbers p) then
          try_chat (lit "Skipping step: missing coordinates") ;;
          log "[planner] skipping step: missing coordinates" [s] ;;
          executePlan_loop rest
        else
          here <- ask position ;;
          if distance_gt here (vec_of p) 10%Q then
            try_chat (lit "Skipping out-of-range step at " ++ at_coords p) ;;
            log "[planner] skipping out-of-range step" [p] ;;
            executePlan_loop rest
          else if negb (Str.mem name primitives) then
            try_chat (lit "Skipping unsupported step type: " ++ name) ;;
            log "[planner] unsupported step type, skipping:" [JStr name] ;;
            executePlan_loop rest
          else
            (if truthy_opt (get "rationale" s)
             then try_chat (lit "Plan: " ++ show (runtime C) (get "rationale" s))
             else ret tt) ;;
            _ <- executeMicroAction name p ;;
            sleep 200 ;;
            executePlan_loop rest
  end.

(** [executePlan(steps)]; [None] stands for a value that is not an array. *)
Definition executePlan (steps : option json) : M bool :=
  log "[planner] executePlan called with steps:" [] ;;
  match steps with
  | Some (JArr l) => executePlan_loop l
  | _ => ret false
  end.


(** *** The checks of [executePlan] on one step, as a function

    The three tests that guard a step in the loop of [executePlan], in
    the order of the source, with the reason each one reports. *)

Inductive reason : Type :=
| MissingCoordinates       (* "Skipping step: missing coordinates" *)
| OutOfRange               (* "Skipping out-of-range step at x,y,z" *)
| UnsupportedStepType.     (* "Skipping unsupported step type: name" *)

Inductive verdict : Type :=
| Ignored                                (* [!s || !s.name]: silent *)
| Rejected (r : reason)
| Accepted (name : jstring) (p : json).

Definition step_name (s : json) : jstring :=
  Str.toLowerCase (show (runtime C) (get "name" s)).

Definition step_params (s : json) : json := or_else (get "params" s) (JObj []).

Definition validate (here : Vec3) (s : json) : verdict :=
  if negb (truthy s) || negb (truthy_opt (get "name" s)) then Ignored
  else if negb (coords_are_numbers (step_params s)) then
    Rejected MissingCoordinates
  else if distance_gt here (vec_of (step_params s)) 10%Q then
    Rejected OutOfRange
  else if negb (Str.mem (step_name s) primitives) then
    Rejected UnsupportedStepType
  else Accepted (step_name s) (step_params s).

(** The notice that a rejection sends to the chat. *)
Definition notice (r : reason) (s : json) : jstring :=
  match r with
  | MissingCoordinates => lit "Skipping step: missing coordinates"
  | OutOfRange => lit "Skipping out-of-range step at " ++ at_coords (step_params s)
  | UnsupportedStepType => lit "Skipping unsupported step type: " ++ step_name s
  end.

(** The line it writes to the console. *)
Definition skip_line (r : reason) (s : json) : event :=
  match r with
  | MissingCoordinates => ELog "[planner] skipping step: missing coordinates" [s]
  | OutOfRange => ELog "[planner] skipping out-of-range step" [step_params s]
  | UnsupportedStepType =>
      ELog "[planner] unsupported step type, skipping:" [JStr (step_name s)]
  end.

Definition reject (r : reason) (s : json) : M unit :=
  try_chat (notice r s) ;;
  modify (emit (skip_line r s)).

(** What the loop does with a step that passed the three checks. *)
Definition dispatch_step (s : json) : M unit :=
  (if truthy_opt (get "rationale" s)
   then try_chat (lit "Plan: " ++ show (runtime C) (get "rationale" s))
   else ret tt) ;;
  _ <- executeMicroAction (step_name s) (step_params s) ;;
  sleep 200.



(** *** Commands *)

(** [process.env.X === '1' || true]. *)
Definition flag (x : string) : bool :=
  match env C (lit x) with
  | Some v => Str.eqb v (lit "1")
  | None => false
  end || true.

Definition ALLOW_DESTRUCTIVE : bool := flag "ALLOW_DESTRUCTIVE".
Definition ALLOW_COMMANDS : bool := flag "ALLOW_COMMANDS".

(** [if (!cmd.startsWith('/')) cmd = '/' + cmd]. *)
Definition with_slash (cmd : jstring) : jstring :=
  if negb (Str.startsWith cmd (lit "/")) then lit "/" ++ cmd else cmd.

Definition refusal : jstring := lit "Cannot run command: not allowed or not op".

(** The refusal branch of [tryExecuteCommand]. *)
Definition refuse_command : M bool :=
  try_chat refusal ;;
  ret false.

(** The [try] block of [tryExecuteCommand] and its handler. *)
Definition send_command (cmd : jstring) : M bool :=
  try_catch
    (log "Executing server command:" [JStr (with_slash cmd)] ;;
     chat (with_slash cmd) ;;
     ret true)
    (try_chat (lit "Failed to send command") ;;
     ret false).

(** The body of [tryExecuteCommand(cmd)], for a value [allow] of the
    constant [ALLOW_COMMANDS]. *)
Definition tryExecuteCommand_gate (allow : bool) (cmd : jstring) : M bool :=
  match cmd with
  | [] => ret false
  | _ =>
      op <- ask botIsOp ;;
      if negb allow && negb op then refuse_command else send_command cmd
  end.

(** [tryExecuteCommand(cmd)]. *)
Definition tryExecuteCommand (cmd : jstring) : M bool :=
  tryExecuteCommand_gate ALLOW_COMMANDS cmd.

(** *** The dispatcher *)

Definition lift {A} (r : res A) : M A :=
  fun w => match r with Val a => Ret a w | Exc => Throw w end.

(** A compound helper routine of the collaborator. *)
Definition run_helper (name : jstring) (p : json) (username : jstring) : M bool :=
  fun w =>
    match helper C name p username w with
    | Some (ok, pos, placed) =>
        let w1 := moved pos (emit (EHelper name) w) in
        Ret ok (if placed then setBusy false None w1 else w1)
    | None => Throw w
    end.

Definition micro_names : list jstring :=
  [lit "inspect"; lit "goto"; lit "goto_coords"; lit "move"; lit "dig"; lit "mine"].

Definition helper_names : list jstring :=
  [lit "dropitems"; lit "gotoplayer"; lit "ensureworkbench"; lit "crafttable";
   lit "craftwoodpickaxe"; lit "woodpick"; lit "craftstonepickaxe"; lit "stonepick"].

Definition command_names : list jstring := [lit "command"; lit "runcommand"].

(** [for (const a of actions) { try { await run(a) } catch (e) {
    console.error(...) }; await sleep(150) }]. *)
Fixpoint each_isolated (run : json -> M bool) (line : string) (actions : list json)
  : M unit :=
  match actions with
  | [] => ret tt
  | a :: rest =>
      try_catch (_ <- run a ;; ret tt) (error line) ;;
      sleep 150 ;;
      each_isolated run line rest
  end.

(** [executeAction(username, action)]; [fuel] bounds the depth of the
    calls it makes to itself on the actions read back from a command. *)
Fixpoint executeAction (fuel : nat) (username : jstring) (action : json) : M bool :=
  match fuel with
  | O => fun _ => OutOfFuel
  | S fuel' =>
      if negb (truthy action) || negb (truthy_opt (get "name" action)) then ret false
      else
        let name := Str.toLowerCase (show (runtime C) (get "name" action)) in
        let p := or_else (get "params" action) (JObj []) in
        log "[exec] executeAction:" [JStr name; p] ;;
        if Str.mem name command_names then
          let cmd :=
            match get "command" p with
            | Some (JStr c) => c
            | _ => match get "cmd" p with Some (JStr c) => c | _ => [] end
            end in
          match cmd with
          | [] => log "[exec] command missing cmd param" [] ;; ret false
          | _ =>
              try_chat (lit "Running command: " ++ cmd) ;;
              ok <- tryExecuteCommand cmd ;;
              log "[exec] tryExecuteCommand returned" [JBool ok] ;;
              if ok then ret true
              else
                try_catch
                  (let text := Regex.replace Pat.leadingSlashRe [] cmd in
                   let fakeLine := lit "//" ++ text in
                   fallbackActions <- lift (parseCommandLineFromReply fakeLine) ;;
                   match fallbackActions with
                   | [] => ret ok
                   | _ =>
                       log "[exec] fallback parsed actions from command:" fallbackActions ;;
                       each_isolated (executeAction fuel' username)
                         "fallback executeAction failed for" fallbackActions ;;
                       ret true
                   end)
                  (error "fallback parsing failed" ;; ret ok)
          end
        else if Str.mem name micro_names then executeMicroAction name p
        else if Str.mem name helper_names then run_helper name p username
        else if Str.eqb name (lit "status") then
          try_catch
            (fun w => match status_line C w with
                      | Some line => chat line w
                      | None => Throw w
                      end)
            (ret tt) ;;
          ret true
        else
          log "[exec] unknown action:" [JStr name] ;;
          try_chat (lit "Unknown action: " ++ name) ;;
          ret false
  end.



(** *** The two entry points *)

(** The exchange with the language model shared by [requestPlanFromLLM]
    and [gptPlanAndExecute]: the reply, or [None] for a falsy response;
    the sanitized reply is sent to the chat. *)
Definition ask_model (prompt : jstring) : M (option jstring) :=
  modify (emit (EAsk prompt)) ;;
  a <- ask (llm C prompt) ;;
  match a with
  | LlmThrows => fun w => Throw w
  | LlmNothing => ret None
  | LlmReply reply =>
      try_catch
        (match sanitizeLLMReplyForChat reply with
         | [] => ret tt
         | chatText => chat chatText ;; log "sent LLM reply to chat:" [JStr chatText]
         end)
        (log "Failed to send reply to chat:" []) ;;
      log "LLM reply preview:" [] ;;
      ret (Some reply)
  end.

(** [requestPlanFromLLM(userInstruction)]; [None] is [null]. *)
Definition requestPlanFromLLM (userInstruction : jstring) : M (option json) :=
  log "[planner] requestPlanFromLLM userInstruction:" [] ;;
  try_catch
    (r <- ask_model userInstruction ;;
     match r with
     | None => ret None
     | Some reply =>
         plan <- lift (parsePlanFromReply reply) ;;
         log "[planner] parsed plan:" [] ;;
         ret plan
     end)
    (error "requestPlanFromLLM failed:" ;; ret None).

Definition wanderSlightly : M unit :=
  fun w => if wander_throws C w then Throw w else Ret tt (emit EWander w).

Definition nonempty_array (o : option json) : bool :=
  match o with Some (JArr (_ :: _)) => true | _ => false end.

Definition planner_instruction : jstring :=
  lit "Autonomous planner: produce a concise plan with a sequence of micro-steps (inspect/goto/dig). Each step must include numeric x,y,z coordinates and be within 10 blocks of the bot. Limit to at most 8 steps. For each step include a short rationale.".

(** [plannerTick()]. *)
Definition plannerTick : M unit :=
  try_catch
    (r <- ask running ;;
     b <- ask busy ;;
     if negb r || b then ret tt
     else
       plan <- requestPlanFromLLM planner_instruction ;;
       match plan with
       | Some pl =>
           if truthy pl && nonempty_array (get "steps" pl) then
             try_catch (_ <- executePlan (get "steps" pl) ;; ret tt)
                       (error "executePlan failed:")
           else wanderSlightly
       | None => wanderSlightly
       end)
    (error "plannerTick exception:").

Definition elements (o : option json) : list json :=
  match o with Some (JArr l) => l | _ => [] end.

(** The actions that [gptPlanAndExecute] reads from the message itself:
    [actions = parseJsonActionsFromReply(message)], then
    [if (!actions || !actions.length) actions =
    parseCommandLineFromReply(message)]. *)
Definition actions_of_message (message : jstring) : res (list json) :=
  andThen (parseJsonActionsFromReply message) (fun fromJson =>
    match elements fromJson with
    | [] => parseCommandLineFromReply message
    | l => Val l
    end).

(** [gptPlanAndExecute(username, message)]. *)
Definition gptPlanAndExecute (fuel : nat) (username message : jstring) : M bool :=
  log "[gpt] gptPlanAndExecute called for" [JStr username; JStr message] ;;
  fromText <- lift (actions_of_message message) ;;
  actions <-
    (match fromText with
     | [] =>
         try_catch
           (log "[gpt] requesting plan from LLM" [] ;;
            r <- ask_model (lit "User " ++ username ++ lit " said: " ++ message) ;;
            match r with
            | None => ret None
            | Some reply =>
                j <- lift (parseJsonActionsFromReply reply) ;;
                l <- (match j with
                      | Some arr => ret (elements (Some arr))
                      | None => lift (parseCommandLineFromReply reply)
                      end) ;;
                log "[gpt] parsed actions count:" [] ;;
                ret (Some l)
            end)
           (error "gptPlanAndExecute sendChatCompletion failed:" ;; ret None)
     | l => ret (Some l)
     end) ;;
  match actions with
  | None => ret false
  | Some [] => log "[gpt] no actions to run" [] ;; ret false
  | Some l =>
      each_isolated
        (fun a => log "[gpt] executing action:" [a] ;; executeAction fuel username a)
        "executeAction failed for" l ;;
      ret true
  end.
End Executor.

(* ------------------------------------------------------------------ *)
(** ** Sample data *)

Module Sample.

(** A text written with apostrophes for its double quotes. *)
Definition dq (s : string) : jstring :=
  map (fun c => if (c =? 39)%N then 34%N else c) (lit s).

(** The text of the priority example: a fenced plan with one inspect
    step, then a directive line. *)
Definition priority_text : jstring :=
  (lit "```json" ++ [10%N]
   ++ dq "{'plan':{'steps':[{'name':'inspect','params':{'x':1,'y':2,'z':3}}]}}"
   ++ [10%N] ++ lit "```" ++ [10%N] ++ lit "//dig(x=5,y=5,z=5)")%list.

(** A text with two fenced blocks and a directive line: the first block
    is cut short after the key of the plan, the second holds the plan of
    the priority example. *)
Definition second_fence : jstring :=
  (lit "```json" ++ [10%N] ++ dq "{'plan':" ++ [10%N] ++ lit "```" ++ [10%N]
   ++ priority_text)%list.

(** Inputs that hold no plan: nothing, noise, braces nested without
    end, a plan cut short inside a fence and outside. *)
Definition hopeless : list jstring :=
  [ [];
    lit "%%% no json here, sorry ~~~";
    (lit "{{{{{{{{{{{{{{{{{{{{" ++ dq "'plan' 'actions'" ++ lit "{{{{{{{{{{")%list;
    (lit "```json" ++ [10%N] ++ dq "{'plan':{'steps':[{'name':'insp")%list;
    dq "{'actions':[{'name':'goto','params':{'x':1,";
    dq "{'plan':{'steps':7}} {'actions':{}}";
    (lit "```json" ++ dq "[1,2" ++ lit "```")%list ].

Definition jn (z : Z) : json := JNum (Fin (inject_Z z)).

Definition coords (x y z : json) : json :=
  JObj [(lit "x", x); (lit "y", y); (lit "z", z)].

(** [{ "name": name, "params": { "x": x, "y": y, "z": z } }]. *)
Definition step (name : string) (x y z : Z) : json :=
  JObj [(lit "name", JStr (lit name)); (lit "params", coords (jn x) (jn y) (jn z))].

(** The step [goto] with the coordinates [(1e999, 0, 0)], the first of
    which [JSON.parse] reads as [Infinity]. *)
Definition far_step : json :=
  JObj [(lit "name", JStr (lit "goto"));
        (lit "params", coords (JNum PInf) (jn 0) (jn 0))].

(** The step [goto] with the coordinates [(10, 2^-30, 0)]: from the
    origin its distance is more than 10 by less than one rounding of a
    double. *)
Definition near_step : json :=
  JObj [(lit "name", JStr (lit "goto"));
        (lit "params", coords (jn 10) (JNum (Fin (1 # 2 ^ 30))) (jn 0))].

Definition at_ (x y z : Z) : Vec3 :=
  mkVec3 (Fin (inject_Z x)) (Fin (inject_Z y)) (Fin (inject_Z z)).

(** A fresh process: idle, [botIsOp = true], the loop running. *)
Definition start (p : Vec3) : World := mkWorld p false None true true [].

(** A state in which a dig is under way. *)
Definition digging : World :=
  setBusy true (Some (lit "dig")) (start (at_ 0 0 0)).

Definition digits (z : Z) : jstring :=
  lit (NilZero.string_of_int (Z.to_int z)).

(** Number formatting, on the integers and the non-finite values. *)
Definition toString (n : num) : jstring :=
  match n with
  | Fin q => if (Qden q =? 1)%positive then digits (Qnum q)
             else digits (Qnum q) ++ lit "/" ++ digits (Zpos (Qden q))
  | PInf => lit "Infinity"
  | NInf => lit "-Infinity"
  | NaN => lit "NaN"
  end.

(** Collaborators that always succeed: the pathfinder reaches its goal,
    every block is stone, digging works, the model says nothing. *)
Definition calm : Collab :=
  mkCollab
    (fun _ => None)
    (fun _ _ => false)
    (fun v _ => Some (true, v))
    (fun v _ => Some (Some (mkBlock (lit "stone") v)))
    (fun _ => false)
    (fun b _ => (true, bposition b))
    (fun _ _ _ w => Some (true, position w, false))
    (fun _ => Some (lit "HP:20"))
    (fun _ _ => LlmNothing)
    (fun _ => false)
    (mkRuntime toString (fun _ => lit "{}")).

(** The same, with a pathfinder whose goal setting throws. *)
Definition no_path : Collab :=
  mkCollab
    (env calm) (chat_throws calm) (fun _ _ => None) (blockAt calm) (equip_throws calm)
    (dig_run calm) (helper calm) (status_line calm) (llm calm)
    (wander_throws calm) (runtime calm).

(** The same as [calm], with a chat channel that is down. *)
Definition mute : Collab :=
  mkCollab
    (env calm) (fun _ _ => true) (pathfind calm) (blockAt calm) (equip_throws calm)
    (dig_run calm) (helper calm) (status_line calm) (llm calm)
    (wander_throws calm) (runtime calm).

(** The same as [calm], in an environment that sets ALLOW_COMMANDS and
    ALLOW_DESTRUCTIVE to 0. *)
Definition forbidding : Collab :=
  mkCollab
    (fun x => if Str.eqb x (lit "ALLOW_COMMANDS") || Str.eqb x (lit "ALLOW_DESTRUCTIVE")
              then Some (lit "0") else None)
    (chat_throws calm) (pathfind calm) (blockAt calm) (equip_throws calm)
    (dig_run calm) (helper calm) (status_line calm) (llm calm)
    (wander_throws calm) (runtime calm).

(** The same as [calm], with a world in which the name of every block
    tells whether [busy] was set when the block was looked up. *)
Definition probing : Collab :=
  mkCollab
    (env calm) (chat_throws calm) (pathfind calm)
    (fun v w => Some (Some (mkBlock (if busy w then lit "busy" else lit "idle") v)))
    (equip_throws calm) (dig_run calm) (helper calm) (status_line calm) (llm calm)
    (wander_throws calm) (runtime calm).

(** The log lines that mark a dispatch to [executeMicroAction]. *)
Definition is_dispatch (e : event) : bool :=
  match e with
  | ELog line _ => String.eqb line "[micro] executeMicroAction:"
  | _ => false
  end.

End Sample.

(** How many steps reached [executeMicroAction], and which. *)
Definition dispatches (t : list event) : nat :=
  List.length (filter Sample.is_dispatch t).

Definition is_sleep (e : event) : bool :=
  match e with ESleep _ => true | _ => false end.

Definition chats (t : list event) : list jstring :=
  flat_map (fun e => match e with EChat m => [m] | _ => [] end) t.

(** The state an outcome ends in. *)
Definition final {A} (r : Res A) : option World :=
  match r with
  | Ret _ w | Throw w => Some w
  | OutOfFuel => None
  end.

(* ------------------------------------------------------------------ *)
(** ** The specification's own notions

    Definitions that follow the words of the specification, to be set
    against the definitions taken from the code. *)

Module Spec.

Definition is_finite_number (o : option json) : bool :=
  match o with Some (JNum (Fin _)) => true | _ => false end.

(** "params.x, params.y, params.z must all be finite numbers". *)
Definition coords_finite (p : json) : bool :=
  is_finite_number (get "x" p) && is_finite_number (get "y" p)
  && is_finite_number (get "z" p).





(** "A fenced JSON block": the text between a fence that opens with
    [```json] at offset [i] and a fence at offset [j], trimmed. *)
Definition fenced_block (text : jstring) (i j : Z) : option jstring :=
  if ((0 <=? i) && (i + 7 <=? j))%Z
     && Str.prefixb (lit "```json") (skipn (Z.to_nat i) text)
     && Str.prefixb (lit "```") (skipn (Z.to_nat j) text)
  then Some (Str.trim (Str.slice text (i + 7) j))
  else None.

(** The upper end of the plan length cap, "8-10". *)
Definition cap : nat := 10.

End Spec.

(* ------------------------------------------------------------------ *)
(** ** Predicates on outcomes *)

(** [P] holds of the state an outcome ends in, whether it returned or threw. *)
Definition ends {A} (r : Res A) (P : World -> Prop) : Prop :=
  match r with
  | Ret _ w | Throw w => P w
  | OutOfFuel => True
  end.

(** A computation relates every state to the state it ends in. *)
Definition keeps {A} (R : World -> World -> Prop) (c : M A) : Prop :=
  forall w, ends (c w) (R w).

(** The fields a notice, a log line or a pause leave alone. *)
Definition same_control (w w' : World) : Prop :=
  position w' = position w /\ busy w' = busy w /\
  currentTask w' = currentTask w /\ botIsOp w' = botIsOp w /\
  running w' = running w.

(** Once idle, still idle. *)
Definition stays_idle (w w' : World) : Prop := busy w = false -> busy w' = false.

(** The dispatches grow by at most [n]. *)
Definition at_most (n : nat) (w w' : World) : Prop :=
  dispatches (trace w') <= dispatches (trace w) + n.

Definition adds {A} (n : nat) (c : M A) : Prop := keeps (at_most n) c.

(** What a call of [executePlan] on an array can come to: it returns
    [true], or the exception of a dispatch passes through it. *)
Definition true_or_throw (r : Res bool) : Prop :=
  match r with
  | Ret b _ => b = true
  | Throw _ => True
  | OutOfFuel => False
  end.

(** ** The busy flag seen from outside *)

(** Two states that differ at most in [busy] and [currentTask]. *)
Definition but_busy (w1 w2 : World) : Prop :=
  position w1 = position w2 /\ botIsOp w1 = botIsOp w2 /\
  running w1 = running w2 /\ trace w1 = trace w2.

(** Collaborators whose answers do not depend on [busy] and
    [currentTask]: the bot, the pathfinder and the chat cannot read these
    variables of [index.js]. *)
Definition blind (C : Collab) : Prop :=
  forall w1 w2, but_busy w1 w2 ->
    (forall msg, chat_throws C w1 msg = chat_throws C w2 msg) /\
    (forall v, pathfind C v w1 = pathfind C v w2) /\
    (forall v, blockAt C v w1 = blockAt C v w2) /\
    equip_throws C w1 = equip_throws C w2 /\
    (forall b, dig_run C b w1 = dig_run C b w2).

(** Two outcomes of the same kind, with the same value, in states that
    differ at most in [busy] and [currentTask]. *)
Definition alike {A} (r1 r2 : Res A) : Prop :=
  match r1, r2 with
  | Ret a w1, Ret b w2 => a = b /\ but_busy w1 w2
  | Throw w1, Throw w2 => but_busy w1 w2
  | OutOfFuel, OutOfFuel => True
  | _, _ => False
  end.

(** A computation whose course does not depend on [busy] and
    [currentTask]. *)
Definition blindly {A} (c : M A) : Prop :=
  forall w1 w2, but_busy w1 w2 -> alike (c w1) (c w2).

Definition is_dig (e : event) : bool :=
  match e with EDig _ => true | _ => false end.

(** From [w] to [w'] the trace has grown, and [busy] and [currentTask]
    are as they were unless a dig took place, after which they are
    down. *)
Definition flag_by_dig (w w' : World) : Prop :=
  exists t, trace w' = trace w ++ t /\
            if existsb is_dig t
            then busy w' = false /\ currentTask w' = None
            else busy w' = busy w /\ currentTask w' = currentTask w.

(** ** Positions of the matcher *)

(** [st'] is [st] moved forward over the piece [u] of the input. *)
Definition advanced (st st' : Regex.state) (u : jstring) : Prop :=
  Regex.rest st = u ++ Regex.rest st' /\
  Regex.before st' = rev u ++ Regex.before st.

(** [st'] is at least as far in the input as [st]. *)
Definition shorter (st' st : Regex.state) : Prop :=
  List.length (Regex.rest st') <= List.length (Regex.rest st).


(* ------------------------------------------------------------------ *)
(** ** What a run adds to the trace *)

(** The chat messages of [executePlan] and [executeMicroAction]: the
    notice of a skipped step, the rationale of a step, the result of an
    inspection. *)
Definition plan_chat (m : jstring) : bool :=
  Str.prefixb (lit "Skipping ") m || Str.prefixb (lit "Plan: ") m
  || Str.prefixb (lit "Inspect: ") m.

(** The data of a dispatch line: a primitive name and numeric coordinates. *)
Definition plan_dispatch (data : list json) : bool :=
  match data with
  | [JStr n; p] => Str.mem n primitives && coords_are_numbers p
  | _ => false
  end.

(** The events a plan may lead to: no request to the model, no helper
    routine, no error line, no chat message of another kind. *)
Definition plan_event (e : event) : bool :=
  match e with
  | EChat m => plan_chat m
  | ELog line data =>
      if String.eqb line "[micro] executeMicroAction:" then plan_dispatch data
      else true
  | ESleep _ | EGoal _ | EDig _ => true
  | EError _ | EHelper _ | EAsk _ | EWander => false
  end.

(** The trace grew by events that all satisfy [P]. *)
Definition grows_by (P : event -> bool) (w w' : World) : Prop :=
  exists t, trace w' = trace w ++ t /\ forallb P t = true.

(** What no action changes: the operator flag and the flag of the loop
    are as they were, and a bot that was idle is idle again. *)
Definition settled (w w' : World) : Prop :=
  botIsOp w' = botIsOp w /\ running w' = running w /\
  (busy w = false -> busy w' = false).

(** A computation that cannot fail for lack of fuel. *)
Definition fuelless {A} (c : M A) : Prop := forall w, c w <> OutOfFuel.

(** A computation that always returns. *)
Definition returns {A} (c : M A) : Prop := forall w, exists a w', c w = Ret a w'.

(** An outcome that is not an exception. *)
Definition caught {A} (r : Res A) : Prop :=
  match r with Throw _ => False | _ => True end.

(** A computation that lets no exception out. *)
Definition catches {A} (c : M A) : Prop := forall w, caught (c w).

(** The state in which [requestPlanFromLLM] puts its request. *)
Definition asked (prompt : jstring) (w : World) : World :=
  emit (EAsk prompt)
       (emit (ELog "[planner] requestPlanFromLLM userInstruction:" []) w).

(** ** The measure of the command fallback *)

(** The [cmd] that [executeAction] reads in an action: [params.command]
    if it is a string, else [params.cmd] if it is one, else nothing. *)
Definition command_text (action : json) : jstring :=
  let p := or_else (get "params" action) (JObj []) in
  match get "command" p with
  | Some (JStr c) => c
  | _ => match get "cmd" p with Some (JStr c) => c | _ => [] end
  end.

Definition rank (action : json) : nat := List.length (command_text action).

(** The input left and the captures made are no longer than [n]. *)
Definition within (n : nat) (st : Regex.state) : Prop :=
  List.length (Regex.rest st) <= n /\
  Forall (fun it => List.length (snd it) <= n) (Regex.caps st).

(** No string among the values is as long as [n]. *)
Definition strings_below (n : nat) (kvs : list (jstring * json)) : Prop :=
  Forall (fun kv => forall c, snd kv = JStr c -> List.length c < n) kvs.

(** ** The shape of a directive *)

(** The values that [parseCommandLineFromReply] gives to a parameter:
    [true], a string, a number that is not [NaN]. *)
Definition directive_value (v : json) : bool :=
  match v with
  | JBool b => b
  | JStr _ => true
  | JNum n => negb (num_isNaN n)
  | _ => false
  end.

(** An object [{ name, params }] with a string and such parameters. *)
Definition directive_action (a : json) : bool :=
  match a with
  | JObj [(n, JStr _); (p, JObj kvs)] =>
      Str.eqb n (lit "name") && Str.eqb p (lit "params")
      && forallb (fun kv => directive_value (snd kv)) kvs
  | _ => false
  end.

(** ** Braces *)

(** What a code unit adds to the depth of the braces. *)
Definition brace_delta (c : N) : Z :=
  if (c =? 123)%N then 1%Z else if (c =? 125)%N then (-1)%Z else 0%Z.

(** Opening braces minus closing braces. *)
Fixpoint brace_depth (s : jstring) : Z :=
  match s with
  | [] => 0%Z
  | c :: s' => (brace_delta c + brace_depth s')%Z
  end.

(** The braces of the first [k + 1] units of [s] balance a depth [d],
    and the last of these units is a closing brace. *)
Definition closes_at (s : jstring) (d : Z) (k : nat) : Prop :=
  nth_error s k = Some 125%N /\ (d + brace_depth (firstn (S k) s) = 0)%Z.

(** ** White space *)

(** The units of class [f] at the start of [s], and what follows them. *)
Fixpoint run_of (f : N -> bool) (s : jstring) : jstring :=
  match s with
  | c :: s' => if f c then c :: run_of f s' else []
  | [] => []
  end.

Fixpoint past (f : N -> bool) (s : jstring) : jstring :=
  match s with
  | c :: s' => if f c then past f s' else s
  | [] => []
  end.

(** [s] with every run of white space made one space; [in_run] tells
    that the unit before [s] was white space. *)
Fixpoint squeeze (in_run : bool) (s : jstring) : jstring :=
  match s with
  | [] => []
  | c :: s' =>
      if Str.is_space c then
        if in_run then squeeze true s' else 32%N :: squeeze true s'
      else c :: squeeze false s'
  end.

(** The only white space is the space. *)
Definition plain_spaces (s : jstring) : bool :=
  forallb (fun c => negb (Str.is_space c) || (c =? 32)%N) s.

(** No two units of white space in a row. *)
Fixpoint no_double_space (s : jstring) : bool :=
  match s with
  | c :: s' =>
      negb (Str.is_space c && match s' with d :: _ => Str.is_space d | [] => false end)
      && no_double_space s'
  | [] => true
  end.

(** The first unit, if any, is not white space. *)
Definition starts_clean (s : jstring) : bool :=
  match s with c :: _ => negb (Str.is_space c) | [] => true end.

(** ** Objects in a text *)

(** [s] cut at its last closing brace. *)
Fixpoint last_close (s : jstring) : option (jstring * jstring) :=
  match s with
  | [] => None
  | c :: s' =>
      match last_close s' with
      | Some (u, t) => Some (c :: u, t)
      | None => if (c =? 125)%N then Some ([], s') else None
      end
  end.

(** No opening brace of [s] has a closing brace after it. *)
Fixpoint no_object (s : jstring) : bool :=
  match s with
  | [] => true
  | c :: s' =>
      if (c =? 123)%N then negb (existsb (N.eqb 125%N) s') else no_object s'
  end.

(** ** A command that is sent *)

(** What a command that the chat takes adds to the trace. *)
Definition command_sent (cmd : jstring) : list event :=
  [ELog "[exec] executeAction:" [JStr (lit "command"); JObj [(lit "command", JStr cmd)]];
   EChat (lit "Running command: " ++ cmd);
   ELog "Executing server command:" [JStr (with_slash cmd)];
   EChat (with_slash cmd);
   ELog "[exec] tryExecuteCommand returned" [JBool true]].

Definition add_events (t : list event) (w : World) : World :=
  mkWorld (position w) (busy w) (currentTask w) (botIsOp w) (running w)
          (trace w ++ t).

(** ** The actions that were attempted *)




Definition nonempty_list {A} (l : list A) : bool :=
  match l with [] => false | _ => true end.

(** ** A tick of the planner *)

Definition is_wander (e : event) : bool :=
  match e with EWander => true | _ => false end.

Definition wanders (t : list event) : nat := List.length (filter is_wander t).

(** Neither a wander nor a step handed to [executeMicroAction]. *)
Definition still_event (e : event) : bool :=
  negb (is_wander e) && negb (Sample.is_dispatch e).

Definition no_wander (e : event) : bool := negb (is_wander e).

(** ** A reply that goes to the chat as it is *)

(** A line of text that the sanitizer has nothing to do on: not empty,
    no backquote, no opening brace, single spaces only, none at either
    end, at most 240 units, and not the refused preamble. *)
Definition plain_line (t : jstring) : bool :=
  nonempty_list t
  && negb (existsb (N.eqb 96%N) t) && negb (existsb (N.eqb 123%N) t)
  && plain_spaces t && no_double_space t
  && starts_clean t && starts_clean (rev t)
  && (Str.len t <=? 240)%Z
  && negb (Str.startsWith t (34%N :: lit "Alright, let")).

(** ** The list of actions of [gptPlanAndExecute] *)





(** ** Further sample data *)

Module Sample2.

(** A command whose text is itself a directive that holds a command. *)
Definition nested : json :=
  action (lit "command") [(lit "command", JStr (lit "command(cmd=goto)"))].


(** The collaborators of [Sample.mute] (the chat is down), with steve as
    the owner. *)
Definition owned : Collab :=
  mkCollab
    (fun x => if Str.eqb x (lit "MC_OWNER") then Some (lit "steve") else None)
    (chat_throws Sample.mute) (pathfind Sample.mute) (blockAt Sample.mute)
    (equip_throws Sample.mute) (dig_run Sample.mute) (helper Sample.mute)
    (status_line Sample.mute) (llm Sample.mute) (wander_throws Sample.mute)
    (runtime Sample.mute).

(** The collaborators of [Sample.calm], with a language model that
    answers with a command for the server. *)
Definition commanding : Collab :=
  mkCollab (env Sample.calm) (chat_throws Sample.calm) (pathfind Sample.calm)
    (blockAt Sample.calm) (equip_throws Sample.calm) (dig_run Sample.calm)
    (helper Sample.calm) (status_line Sample.calm)
    (fun _ _ => LlmReply (lit "/op steve"))
    (wander_throws Sample.calm) (runtime Sample.calm).


End Sample2.

(* ------------------------------------------------------------------ *)
(** ** The agent: the world, the loop of the planner and its timer

    The handlers of the events of the bot work on the state of the
    executor and on the variable [loopTimer] with the intervals of the
    runtime.  Each handler is taken as a whole, as the asynchronous
    functions it awaits are.  A call of [plannerTick] that is not awaited
    (in [startLoop] and in the callback of the interval) is counted by
    the agent, and the happening [Resumes] runs one counted tick as a
    whole.  In the program the tick runs up to its first [await] at the
    call itself, so that the test of [running] and [busy] and the request
    to the language model belong to the moment of the call, and a tick
    that passed the test goes on after a later stop; here the test is
    taken when the tick runs.  The statements about the handlers are
    about [botIsOp], [running], [loopTimer], the intervals and the count
    of the ticks, which no part of a tick writes, whenever it runs. *)

Record Agent : Type := mkAgent {
  world : World;
  loopTimer : option nat;          (* [None] is [null] *)
  intervals : list (nat * num);    (* the intervals set: identifier, period *)
  timers_made : nat;               (* how many timers were made so far *)
  started : nat;                   (* ticks started that have not run yet *)
  spawn_armed : bool               (* the [once] listener of [spawn] is there *)
}.

Inductive Out (A : Type) : Type :=
| Done (a : A) (s : Agent)
| Failed (s : Agent)               (* the handler threw or rejected *)
| Starved.

Arguments Done {A} a s.
Arguments Failed {A} s.
Arguments Starved {A}.

Definition H (A : Type) : Type := Agent -> Out A.

Definition hret {A} (a : A) : H A := fun s => Done a s.

Definition hbind {A B} (c : H A) (k : A -> H B) : H B :=
  fun s => match c s with
           | Done a s' => k a s'
           | Failed s' => Failed s'
           | Starved => Starved
           end.

Definition hmodify (f : Agent -> Agent) : H unit := fun s => Done tt (f s).

Declare Scope h_scope.
Delimit Scope h_scope with H.
Notation "x <- c ;; k" := (hbind c (fun x => k))
  (at level 61, c at next level, right associativity) : h_scope.
Notation "c ;; k" := (hbind c (fun _ => k))
  (at level 61, right associativity) : h_scope.

Definition with_world (w : World) (s : Agent) : Agent :=
  mkAgent w (loopTimer s) (intervals s) (timers_made s) (started s) (spawn_armed s).

(** A computation of the executor, run on the world of the agent. *)
Definition in_world {A} (c : M A) : H A :=
  fun s => match c (world s) with
           | Ret a w => Done a (with_world w s)
           | Throw w => Failed (with_world w s)
           | OutOfFuel => Starved
           end.

Definition set_botIsOp (b : bool) (w : World) : World :=
  mkWorld (position w) (busy w) (currentTask w) b (running w) (trace w).

Definition set_running (b : bool) (w : World) : World :=
  mkWorld (position w) (busy w) (currentTask w) (botIsOp w) b (trace w).

(** [loopTimer = setInterval(callback, ms)]. *)
Definition setInterval (ms : num) (s : Agent) : Agent :=
  mkAgent (world s) (Some (timers_made s))
          ((timers_made s, ms) :: intervals s) (S (timers_made s))
          (started s) (spawn_armed s).

(** [clearInterval(t)]. *)
Definition clearInterval (t : nat) (s : Agent) : Agent :=
  mkAgent (world s) (loopTimer s)
          (filter (fun i => negb (Nat.eqb (fst i) t)) (intervals s))
          (timers_made s) (started s) (spawn_armed s).

Definition forget_timer (s : Agent) : Agent :=
  mkAgent (world s) None (intervals s) (timers_made s) (started s) (spawn_armed s).

(** [plannerTick()] without [await]. *)
Definition start_tick (s : Agent) : Agent :=
  mkAgent (world s) (loopTimer s) (intervals s) (timers_made s) (S (started s))
          (spawn_armed s).

Module ChatPat.
Import Regex.

Definition digit : N -> bool := range "0" "9".

(** A whole number: an optional minus and digits. *)
Definition whole : re := Seq (opt (chr "-")) (plus (Any1 digit)).

(** index.js:480, [simpleRe] (flag i): from the start, inspect, goto, dig
    or mine (group 1), then three whole numbers (groups 2 to 4), each
    after white space, up to the end. *)
Definition simpleRe : re :=
  seq [Bol;
       Group 1 (Alt (word_ci "inspect")
                  (Alt (word_ci "goto") (Alt (word_ci "dig") (word_ci "mine"))));
       plus (Any1 Str.is_space); Group 2 whole;
       plus (Any1 Str.is_space); Group 3 whole;
       plus (Any1 Str.is_space); Group 4 whole; Eol].

(** index.js:490, [cmdRe] (flag i): from the start, command or cmd, white
    space, and the rest of the line, which is not empty (group 1), up to
    the end. *)
Definition cmdRe : re :=
  seq [Bol; Alt (word_ci "command") (word_ci "cmd");
       plus (Any1 Str.is_space); Group 1 (plus (Any1 dot)); Eol].

(** index.js:497, [inlineRe]: two slashes, a name (group 1) and, between
    parentheses, a text without a closing parenthesis (group 2). *)
Definition inlineRe : re :=
  seq [word "//"; spaces; Group 1 (plus (Any1 ident)); spaces; chr "(";
       Group 2 (Star true (Any1 (neg (one ")")))); chr ")"].

End ChatPat.

(** [m[i]] of a match in which group [i] took part. *)
Definition group (i : nat) (m : Regex.found) : jstring :=
  match Regex.cap i m with Some s => s | None => [] end.

(** A positional number of an inline chat command: the first of x, y, z
    that is not there yet. *)
Definition positional (params : list (jstring * json)) (n : num)
  : list (jstring * json) :=
  match assoc (lit "x") params with
  | None => set (lit "x") (JNum n) params
  | Some _ =>
      match assoc (lit "y") params with
      | None => set (lit "y") (JNum n) params
      | Some _ =>
          match assoc (lit "z") params with
          | None => set (lit "z") (JNum n) params
          | Some _ => params
          end
      end
  end.

(** One argument of an inline chat command. *)
Definition chat_arg (params : list (jstring * json)) (a : jstring)
  : list (jstring * json) :=
  match map Str.trim (Str.split 61%N a) with
  | [k; v0] =>
      let v := Regex.replace_all Pat.edgeQuoteRe [] v0 in
      set k (if Numeral.isNaN v then JStr v else JNum (Numeral.Number v)) params
  | _ =>
      if negb (Numeral.isNaN a) then positional params (Numeral.Number a)
      else params
  end.

Definition nonempty (s : jstring) : bool :=
  match s with [] => false | _ => true end.

(** [parseChatCommandToActions(text, username)]. *)
Definition parseChatCommandToActions (text username : jstring) : list json :=
  match text with
  | [] => []
  | _ =>
      let t := Str.trim text in
      match Regex.exec ChatPat.simpleRe t with
      | Some m =>
          [action (Str.toLowerCase (group 1 m))
                  [(lit "x", JNum (Numeral.Number (group 2 m)));
                   (lit "y", JNum (Numeral.Number (group 3 m)));
                   (lit "z", JNum (Numeral.Number (group 4 m)))]]
      | None =>
          match Regex.exec ChatPat.cmdRe t with
          | Some m2 => [command_action (fill username (Str.trim (group 1 m2)))]
          | None =>
              match Regex.exec ChatPat.inlineRe t with
              | Some m3 =>
                  let args := filter nonempty
                                (map Str.trim (Str.split 44%N (group 2 m3))) in
                  [action (Str.toLowerCase (group 1 m3)) (fold_left chat_arg args [])]
              | None => []
              end
          end
      end
  end.

Section Handlers.

Variable C : Collab.

(** [bot.username]. *)
Variable self : jstring.

Local Open Scope h_scope.

(** [process.env.MC_OWNER || null]. *)
Definition OWNER_USERNAME : option jstring :=
  match env C (lit "MC_OWNER") with
  | Some (c :: o) => Some (c :: o)
  | _ => None
  end.

(** [OWNER_USERNAME && username === OWNER_USERNAME]. *)
Definition from_owner (username : jstring) : bool :=
  match OWNER_USERNAME with
  | Some o => Str.eqb username o
  | None => false
  end.

(** [Number(process.env.PLANNER_INTERVAL_MS) || 5000]. *)
Definition interval_ms : num :=
  match env C (lit "PLANNER_INTERVAL_MS") with
  | Some v => let n := Numeral.Number v in
              if num_truthy n then n else Fin (inject_Z 5000)
  | None => Fin (inject_Z 5000)
  end.

(** [startLoop()]. *)
Definition startLoop : H unit :=
  fun s =>
    match loopTimer s with
    | Some _ => Done tt s
    | None =>
        (hmodify (fun s => with_world (set_running true (world s)) s) ;;
         hmodify start_tick ;;
         hmodify (setInterval interval_ms) ;;
         in_world (try_chat C (lit "Autonomous loop started"))) s
    end.

(** [stopLoop()]. *)
Definition stopLoop : H unit :=
  hmodify (fun s => with_world (set_running false (world s)) s) ;;
  hmodify (fun s => match loopTimer s with
                    | Some t => forget_timer (clearInterval t s)
                    | None => s
                    end) ;;
  in_world (try_chat C (lit "Autonomous loop stopped")).

(** The call of [startDuelWith] or [stopDuel], which [index.js] does not
    define: the reference throws. *)
Definition not_defined : H unit := fun s => Failed s.

Definition duel_words : list jstring :=
  [lit "duel"; lit "duel me"; lit "fight me"; lit "challenge me"; lit "battle me"].

Definition duel_prefixes : list jstring :=
  [lit "duel "; lit "challenge "; lit "fight "; lit "battle "].

Definition stop_duel_words : list jstring :=
  [lit "stopduel"; lit "endduel"; lit "forfeit"].

Definition service_notice : jstring :=
  lit "Error: LLM or planning failed " ++ [8212%N] ++ lit " check the LLM service.".

(** The last part of the chat handler: the chat command, or else the
    language model, under one [try]. *)
Definition converse (fuel : nat) (username message : jstring) : M unit :=
  try_catch
    (match parseChatCommandToActions message username with
     | [] => (_ <- gptPlanAndExecute C fuel username message ;; ret tt)%M
     | chatActions =>
         each_isolated
           (fun a => (log "[gpt] executing action from chat command:" [a] ;;
                      executeAction C fuel username a)%M)
           "executeAction failed for" chatActions
     end)
    (error "LLM plan/execute error:" ;; try_chat C service_notice)%M.

(** The handler of [chat]. *)
Definition on_chat (fuel : nat) (username message : jstring) : H unit :=
  if Str.eqb username self then hret tt
  else
    let msg := Str.toLowerCase (Str.trim message) in
    if from_owner username && Str.startsWith msg (lit "setop ") then
      let v := nth 1 (Str.split 32%N msg) [] in
      let b := Str.eqb v (lit "on") || Str.eqb v (lit "true") || Str.eqb v (lit "1") in
      in_world (modify (set_botIsOp b) ;;
                chat C (lit "botIsOp=" ++ lit (if b then "true" else "false")))%M
    else if from_owner username && Str.eqb msg (lit "enablecommands") then
      in_world (modify (set_botIsOp true) ;;
                chat C (lit "Commands enabled for bot"))%M
    else if from_owner username && Str.eqb msg (lit "disablecommands") then
      in_world (modify (set_botIsOp false) ;;
                chat C (lit "Commands disabled for bot"))%M
    else if Str.eqb msg (lit "start") then
      startLoop ;; in_world (chat C (lit "Starte."))
    else if Str.eqb msg (lit "stop") then
      stopLoop ;; in_world (chat C (lit "Stoppe."))
    else if Str.eqb msg (lit "status") then
      in_world (fun w => match status_line C w with
                         | Some line => chat C line w
                         | None => Throw w
                         end)
    else if Str.mem msg duel_words then not_defined
    else if existsb (Str.startsWith msg) duel_prefixes then not_defined
    else if Str.mem msg stop_duel_words then not_defined
    else in_world (converse fuel username message).

(** The handler of [spawn], registered with [once]; the set-up of the
    pathfinder that comes first is left out. *)
Definition on_spawn : H unit :=
  in_world (chat C (lit "Bereit. Sprich mit mir. (start/stop/status)")) ;;
  startLoop.

(** The handler of [end]. *)
Definition on_end : H unit :=
  in_world (log "Connection ended" []) ;;
  hmodify (fun s => match loopTimer s with
                    | Some t => clearInterval t s
                    | None => s
                    end).

(** What happens to the bot. *)
Inductive happening : Type :=
| Spawn
| End_
| Chat (username message : jstring)
| Fires (t : nat)                  (* the interval [t] fires *)
| Resumes.                         (* a tick that was started runs *)

Definition disarm (s : Agent) : Agent :=
  mkAgent (world s) (loopTimer s) (intervals s) (timers_made s) (started s) false.

Definition take_tick (s : Agent) : Agent :=
  mkAgent (world s) (loopTimer s) (intervals s) (timers_made s)
          (Nat.pred (started s)) (spawn_armed s).

(** The handler of one happening. *)
Definition handler (fuel : nat) (e : happening) : H unit :=
  match e with
  | Spawn =>
      fun s => if spawn_armed s then on_spawn (disarm s) else Done tt s
  | End_ => on_end
  | Chat username message => on_chat fuel username message
  | Fires t =>
      fun s => if existsb (fun i => Nat.eqb (fst i) t) (intervals s)
               then Done tt (start_tick s) else Done tt s
  | Resumes =>
      fun s => match started s with
               | O => Done tt s
               | S _ => in_world (plannerTick C) (take_tick s)
               end
  end.

(** The state after a handler, whether it returned or threw. *)
Definition after_handler (r : Out unit) : option Agent :=
  match r with
  | Done _ s | Failed s => Some s
  | Starved => None
  end.

(** The happenings of a session, one handler after the other.  After an
    exception of a handler the next event is handled in the state the
    handler left; where the runtime ends the process on such an exception
    the session ends there, in one of the states met here. *)
Fixpoint session (fuel : nat) (es : list happening) (s : Agent) : option Agent :=
  match es with
  | [] => Some s
  | e :: es' =>
      match after_handler (handler fuel e s) with
      | Some s' => session fuel es' s'
      | None => None
      end
  end.

End Handlers.

(** The agent of a fresh process in the world [w]. *)
Definition boot (w : World) : Agent := mkAgent w None [] 0 0 true.

(** [P] holds of the state a handler ends in, whether it returned or threw. *)
Definition hends {A} (r : Out A) (P : Agent -> Prop) : Prop :=
  match r with
  | Done _ s | Failed s => P s
  | Starved => True
  end.

Definition hkeeps {A} (R : Agent -> Agent -> Prop) (c : H A) : Prop :=
  forall s, hends (c s) (R s).

(** The messages by which the owner sets the operator flag. *)
Definition owner_directive (msg : jstring) : bool :=
  Str.startsWith msg (lit "setop ") || Str.eqb msg (lit "enablecommands")
  || Str.eqb msg (lit "disablecommands").

(** The messages that the chat handler takes for a duel. *)
Definition duel_message (msg : jstring) : bool :=
  Str.mem msg duel_words || existsb (Str.startsWith msg) duel_prefixes
  || Str.mem msg stop_duel_words.

(** At most one interval is set, it is the one that [loopTimer] holds,
    and the loop is then running. *)
Definition one_loop (s : Agent) : Prop :=
  (forall i, In i (intervals s) -> loopTimer s = Some (fst i)) /\
  List.length (intervals s) <= 1 /\
  (intervals s <> [] -> running (world s) = true).

(** The operator flag is as it was. *)
Definition op_kept (s s' : Agent) : Prop :=
  botIsOp (world s') = botIsOp (world s).

(** The loop and its timers are as they were, and so is [running]. *)
Definition loop_kept (s s' : Agent) : Prop :=
  loopTimer s' = loopTimer s /\ intervals s' = intervals s /\
  running (world s') = running (world s).

(** A handler keeps a property of the agent. *)
Definition hpreserves {A} (P : Agent -> Prop) (c : H A) : Prop :=
  forall s, P s -> hends (c s) P.

(** The messages that the chat handler answers itself, outside of any
    [try]. *)
Definition direct_message (msg : jstring) : bool :=
  owner_directive msg || Str.eqb msg (lit "start") || Str.eqb msg (lit "stop")
  || Str.eqb msg (lit "status").

From Stdlib Require Import Qround.

(* ------------------------------------------------------------------ *)
(** ** The goal of a wander

    [wanderSlightly] draws four numbers with [Math.random]: the sign and
    the size of the step along x, then those of the step along z.  The
    products are taken exactly. *)

(** [(r1 < 0.5 ? -1 : 1) * (3 + Math.floor(r2 * 6))]. *)
Definition wander_step (r1 r2 : Q) : Z :=
  ((if negb (Qle_bool (1 # 2) r1) then -1 else 1) * (3 + Qfloor (r2 * 6)))%Z.

(** The goal that [wanderSlightly] sets, from the position of the bot
    and the four draws. *)
Definition wander_goal (px py pz : Q) (r1 r2 r3 r4 : Q) : Z * Z * Z :=
  ((Qfloor px + wander_step r1 r2)%Z, Qfloor py, (Qfloor pz + wander_step r3 r4)%Z).

(** A draw of [Math.random]: from 0 inclusive to 1 exclusive. *)
Definition draw (r : Q) : Prop := (0 <= r)%Q /\ (r < 1)%Q.

(* ------------------------------------------------------------------ *)
(** ** The tokens asked of the language model *)

(** [Math.min(a, b)]. *)
Definition num_min (a b : num) : num :=
  match a, b with
  | NaN, _ | _, NaN => NaN
  | NInf, _ | _, NInf => NInf
  | PInf, x | x, PInf => x
  | Fin p, Fin q => if Qle_bool p q then Fin p else Fin q
  end.

(** [a <= b] on numbers. *)
Definition num_le (a b : num) : bool :=
  match a, b with
  | NaN, _ | _, NaN => false
  | NInf, _ | _, PInf => true
  | PInf, _ | _, NInf => false
  | Fin p, Fin q => Qle_bool p q
  end.

Section Tokens.

Variable C : Collab.

(** [Number(process.env.X) || d]. *)
Definition env_number (x : string) (d : Z) : num :=
  match env C (lit x) with
  | Some v => let n := Numeral.Number v in
              if num_truthy n then n else Fin (inject_Z d)
  | None => Fin (inject_Z d)
  end.

Definition DEFAULT_MAX_TOKENS : num := env_number "GPT4ALL_MAX_TOKENS" 2048.
Definition MULTIPLIER : num := env_number "GPT4ALL_TOKEN_MULTIPLIER" 5.

(** [finalMaxTokens] in [sendChatCompletion], for a parameter
    [max_tokens] that may be [null] or left out. *)
Definition finalMaxTokens (max_tokens : option json) : num :=
  let capped := num_min (num_mul DEFAULT_MAX_TOKENS MULTIPLIER)
                        (Fin (inject_Z 32768)) in
  match max_tokens with
  | Some (JNum n) => if negb (num_isNaN n) then n else capped
  | _ => capped
  end.

End Tokens.

(* ------------------------------------------------------------------ *)
(** * Properties *)

Local Open Scope m_scope.

(** ** Laws of the computations *)

Lemma bind_assoc {A B D} (c : M A) (f : A -> M B) (g : B -> M D) (w : World) :
  bind (bind c f) g w = bind c (fun x => bind (f x) g) w.
Proof.
  unfold bind. destruct (c w); reflexivity.
Qed.

Lemma position_emit (e : event) (w : World) : position (emit e w) = position w.
Proof. reflexivity. Qed.

(** One turn of the loop of [executePlan] is the verdict of [validate] at
    the position the bot has when the step comes up. *)
Lemma executePlan_loop_cons (C : Collab) (s : json) (rest : list json) (w : World) :
  executePlan_loop C (s :: rest) w =
  match validate C (position w) s with
  | Ignored => executePlan_loop C rest w
  | Rejected r =>
      (log "[planner] executing step:" [JStr (step_name C s); step_params s] ;;
       reject C r s ;;
       executePlan_loop C rest) w
  | Accepted _ _ =>
      (log "[planner] executing step:" [JStr (step_name C s); step_params s] ;;
       dispatch_step C s ;;
       executePlan_loop C rest) w
  end.
Proof.
  unfold validate. cbn [executePlan_loop].
  destruct (negb (truthy s) || negb (truthy_opt (get "name" s))); [reflexivity|].
  fold (step_name C s). fold (step_params s).
  destruct (negb (coords_are_numbers (step_params s))) eqn:Hc.
  - unfold reject, notice, skip_line, bind, log, modify.
    destruct (try_chat C _ _); reflexivity.
  - unfold bind at 1 2. cbn [log modify ask]. rewrite position_emit.
    destruct (distance_gt (position w) (vec_of (step_params s)) 10) eqn:Hd.
    + unfold reject, notice, skip_line, bind, log, modify.
      destruct (try_chat C _ _); reflexivity.
    + destruct (negb (Str.mem (step_name C s) primitives)) eqn:Hn.
      * unfold reject, notice, skip_line, bind, log, modify.
        destruct (try_chat C _ _); reflexivity.
      * unfold dispatch_step. unfold bind, log, modify.
        destruct (if truthy_opt (get "rationale" s) then _ else _); try reflexivity.
        destruct (executeMicroAction C (step_name C s) (step_params s) w0);
          reflexivity.
Qed.

(** ** Reasoning about outcomes *)

Section Keeps.

Variable R : World -> World -> Prop.
Hypothesis R_refl : forall w, R w w.
Hypothesis R_trans : forall a b c, R a b -> R b c -> R a c.

Lemma keeps_ret {A} (a : A) : keeps R (ret a).
Proof. intro w. apply R_refl. Qed.

Lemma keeps_ask {A} (f : World -> A) : keeps R (ask f).
Proof. intro w. apply R_refl. Qed.

Lemma keeps_modify (f : World -> World) :
  (forall w, R w (f w)) -> keeps R (modify f).
Proof. intros H w. apply H. Qed.

Lemma keeps_bind {A B} (c : M A) (k : A -> M B) :
  keeps R c -> (forall a, keeps R (k a)) -> keeps R (bind c k).
Proof.
  intros Hc Hk w. unfold bind. specialize (Hc w).
  destruct (c w) as [a w1 | w1 |]; cbn in *; auto.
  specialize (Hk a w1). destruct (k a w1); cbn in *; eauto.
Qed.

Lemma keeps_try_catch {A} (c h : M A) :
  keeps R c -> keeps R h -> keeps R (try_catch c h).
Proof.
  intros Hc Hh w. unfold try_catch. specialize (Hc w).
  destruct (c w) as [a w1 | w1 |]; cbn in *; auto.
  specialize (Hh w1). destruct (h w1); cbn in *; eauto.
Qed.

End Keeps.

Lemma same_control_refl (w : World) : same_control w w.
Proof. repeat split. Qed.

Lemma same_control_trans (a b c : World) :
  same_control a b -> same_control b c -> same_control a c.
Proof.
  unfold same_control. intros (?&?&?&?&?) (?&?&?&?&?).
  repeat split; congruence.
Qed.

Lemma same_control_emit (e : event) (w : World) : same_control w (emit e w).
Proof. repeat split. Qed.

Lemma stays_idle_refl (w : World) : stays_idle w w.
Proof. intro H. exact H. Qed.

Lemma stays_idle_trans (a b c : World) :
  stays_idle a b -> stays_idle b c -> stays_idle a c.
Proof. unfold stays_idle. auto. Qed.

Lemma dispatches_app (t u : list event) :
  dispatches (t ++ u) = dispatches t + dispatches u.
Proof.
  unfold dispatches. rewrite filter_app, length_app. reflexivity.
Qed.

Lemma adds_weaken {A} (n m : nat) (c : M A) : n <= m -> adds n c -> adds m c.
Proof.
  intros Hle H w. specialize (H w). unfold at_most in *.
  destruct (c w); cbn in *; lia.
Qed.

Lemma adds_ret {A} (a : A) : adds 0 (ret a).
Proof. intro w. cbn. unfold at_most. lia. Qed.

Lemma adds_bind {A B} (n m : nat) (c : M A) (k : A -> M B) :
  adds n c -> (forall a, adds m (k a)) -> adds (n + m) (bind c k).
Proof.
  intros Hc Hk w. unfold bind. specialize (Hc w).
  destruct (c w) as [a w1 | w1 |]; cbn in *; unfold at_most in *; try lia.
  specialize (Hk a w1). destruct (k a w1); cbn in *; unfold at_most in *; lia.
Qed.

Lemma adds_try_catch {A} (n m : nat) (c h : M A) :
  adds n c -> adds m h -> adds (n + m) (try_catch c h).
Proof.
  intros Hc Hh w. unfold try_catch. specialize (Hc w).
  destruct (c w) as [a w1 | w1 |]; cbn in *; unfold at_most in *; try lia.
  specialize (Hh w1). destruct (h w1); cbn in *; unfold at_most in *; lia.
Qed.

Lemma adds_emit (e : event) :
  adds (if Sample.is_dispatch e then 1 else 0) (modify (emit e)).
Proof.
  assert (H1 : dispatches [e] = if Sample.is_dispatch e then 1 else 0).
  { unfold dispatches. cbn [filter].
    destruct (Sample.is_dispatch e); reflexivity. }
  intro w. unfold modify, ends, at_most, emit. cbn [trace].
  rewrite dispatches_app, H1. lia.
Qed.

(** ** The primitive effects *)

Lemma try_chat_returns (C : Collab) (msg : jstring) (w : World) :
  try_chat C msg w = Ret tt (if chat_throws C w msg then w else emit (EChat msg) w).
Proof.
  unfold try_chat, try_catch, chat. destruct (chat_throws C w msg); reflexivity.
Qed.

Lemma adds_chat (C : Collab) (msg : jstring) : adds 0 (chat C msg).
Proof.
  intro w. unfold chat. destruct (chat_throws C w msg).
  - cbn. unfold at_most. lia.
  - exact (adds_emit (EChat msg) w).
Qed.

Lemma adds_gotoNear (C : Collab) (v : Vec3) : adds 0 (gotoNear C v).
Proof.
  intro w. unfold gotoNear. destruct (pathfind C v w) as [[ok p]|].
  - exact (adds_emit (EGoal v) w).
  - cbn. unfold at_most. lia.
Qed.

Lemma adds_safeDig (C : Collab) (b : block) : adds 0 (safeDig C b).
Proof.
  intro w. unfold safeDig. destruct (Str.eqb (bname b) (lit "air")).
  - cbn. unfold at_most. lia.
  - exact (adds_emit (EDig b) w).
Qed.

Lemma adds_equipPrefer (C : Collab) : adds 0 (equipPrefer C).
Proof.
  intro w. unfold equipPrefer. destruct (equip_throws C w); cbn; unfold at_most; lia.
Qed.

Lemma adds_blockAt (C : Collab) (v : Vec3) :
  adds 0 (fun w => match blockAt C v w with
                   | Some b => Ret b w
                   | None => Throw w
                   end).
Proof.
  intro w. destruct (blockAt C v w); cbn; unfold at_most; lia.
Qed.

(** Goals [adds 0 c] for a computation built from the primitives. *)
Ltac quiet :=
  repeat first
    [ apply (adds_bind 0 0); [| intro]
    | apply (adds_try_catch 0 0)
    | apply adds_ret
    | apply adds_chat
    | apply adds_gotoNear
    | apply adds_safeDig
    | apply adds_equipPrefer
    | apply adds_blockAt
    | exact (adds_emit (ELog _ _))
    | exact (adds_emit (EError _))
    | exact (adds_emit (ESleep _))
    | match goal with
      | |- adds 0 (if ?b then _ else _) => destruct b
      | |- adds 0 (match ?x with _ => _ end) => destruct x
      end ].

Lemma adds_executeMicroAction (C : Collab) (name : jstring) (p : json) :
  adds 1 (executeMicroAction C name p).
Proof.
  unfold executeMicroAction.
  apply (adds_bind 1 0).
  - exact (adds_emit (ELog "[micro] executeMicroAction:" _)).
  - intro. unfold try_chat, log, sleep. quiet.
Qed.

Lemma adds_reject (C : Collab) (r : reason) (s : json) : adds 0 (reject C r s).
Proof.
  unfold reject, try_chat. apply (adds_bind 0 0); [quiet|intro].
  destruct r; exact (adds_emit (ELog _ _)).
Qed.

Lemma adds_dispatch_step (C : Collab) (s : json) : adds 1 (dispatch_step C s).
Proof.
  unfold dispatch_step. apply (adds_bind 0 1).
  - unfold try_chat. quiet.
  - intro. apply (adds_bind 1 0).
    + apply adds_executeMicroAction.
    + intro. unfold sleep. quiet.
Qed.

(** A plan never leads to more dispatches than it has steps. *)
Lemma adds_executePlan_loop (C : Collab) (steps : list json) :
  adds (List.length steps) (executePlan_loop C steps).
Proof.
  induction steps as [|s rest IH].
  - apply adds_ret.
  - intro w. rewrite executePlan_loop_cons.
    destruct (validate C (position w) s).
    + apply (adds_weaken (List.length rest)); [cbn; lia | exact IH].
    + apply (adds_weaken (0 + (0 + List.length rest))); [cbn; lia|].
      apply adds_bind; [unfold log; quiet|intro].
      apply adds_bind; [apply adds_reject | intro; exact IH].
    + apply (adds_weaken (0 + (1 + List.length rest))); [cbn; lia|].
      apply adds_bind; [unfold log; quiet|intro].
      apply adds_bind; [apply adds_dispatch_step | intro; exact IH].
Qed.

(** ** The busy flag along a plan *)

Lemma idle_emit (e : event) : keeps stays_idle (modify (emit e)).
Proof. apply keeps_modify. intros w H. exact H. Qed.

Lemma idle_chat (C : Collab) (msg : jstring) : keeps stays_idle (chat C msg).
Proof.
  intro w. unfold chat. destruct (chat_throws C w msg); cbn; intro H; exact H.
Qed.

Lemma idle_gotoNear (C : Collab) (v : Vec3) : keeps stays_idle (gotoNear C v).
Proof.
  intro w. unfold gotoNear. destruct (pathfind C v w) as [[ok p]|]; cbn;
    intro H; exact H.
Qed.

Lemma idle_equipPrefer (C : Collab) : keeps stays_idle (equipPrefer C).
Proof.
  intro w. unfold equipPrefer. destruct (equip_throws C w); cbn; intro H; exact H.
Qed.

Lemma idle_blockAt (C : Collab) (v : Vec3) :
  keeps stays_idle (fun w => match blockAt C v w with
                             | Some b => Ret b w
                             | None => Throw w
                             end).
Proof. intro w. destruct (blockAt C v w); cbn; intro H; exact H. Qed.

(** [safeDig] raises the flag and lowers it again: it returns, and unless
    the block is air the flag is down when it does. *)
Lemma safeDig_returns (C : Collab) (b : block) (w : World) :
  exists ok w', safeDig C b w = Ret ok w' /\
    (Str.eqb (bname b) (lit "air") = true -> w' = w /\ ok = false) /\
    (Str.eqb (bname b) (lit "air") = false ->
       busy w' = false /\ currentTask w' = None /\
       trace w' = trace w ++ [EDig b]).
Proof.
  unfold safeDig. destruct (Str.eqb (bname b) (lit "air")).
  - exists false, w. repeat split; discriminate.
  - eexists _, _. split; [reflexivity|]. split; [discriminate|].
    intros _. repeat split.
Qed.

Lemma idle_safeDig (C : Collab) (b : block) : keeps stays_idle (safeDig C b).
Proof.
  intro w. destruct (safeDig_returns C b w) as (ok & w' & -> & Hair & Hdig).
  cbn. intro H. destruct (Str.eqb (bname b) (lit "air")).
  - destruct Hair as [-> _]; auto.
  - apply Hdig. reflexivity.
Qed.

(** Goals [keeps stays_idle c] for a computation built from the primitives. *)
Ltac idle :=
  repeat first
    [ apply (keeps_bind _ stays_idle_trans); [| intro]
    | apply (keeps_try_catch _ stays_idle_trans)
    | apply (keeps_ret _ stays_idle_refl)
    | apply (keeps_ask _ stays_idle_refl)
    | apply idle_emit
    | apply idle_chat
    | apply idle_gotoNear
    | apply idle_equipPrefer
    | apply idle_blockAt
    | apply idle_safeDig
    | match goal with
      | |- keeps _ (if ?b then _ else _) => destruct b
      | |- keeps _ (match ?x with _ => _ end) => destruct x
      end ].

Lemma idle_executeMicroAction (C : Collab) (name : jstring) (p : json) :
  keeps stays_idle (executeMicroAction C name p).
Proof. unfold executeMicroAction, try_chat, log. idle. Qed.

Lemma idle_executePlan_loop (C : Collab) (steps : list json) :
  keeps stays_idle (executePlan_loop C steps).
Proof.
  induction steps as [|s rest IH].
  - apply (keeps_ret _ stays_idle_refl).
  - intro w. rewrite executePlan_loop_cons.
    destruct (validate C (position w) s) as [|r|name p].
    + apply IH.
    + revert w. unfold log, reject, try_chat. idle; try exact IH.
    + revert w. unfold log. idle; try exact IH.
Qed.

Lemma idle_executePlan (C : Collab) (steps : option json) :
  keeps stays_idle (executePlan C steps).
Proof.
  unfold executePlan, log. idle; apply idle_executePlan_loop.
Qed.

(** A rejection always returns: the notice is sent under a [try]. *)
Lemma reject_returns (C : Collab) (r : reason) (s : json) (w : World) :
  reject C r s w =
  Ret tt (emit (skip_line C r s)
            (if chat_throws C w (notice C r s) then w
             else emit (EChat (notice C r s)) w)).
Proof. unfold reject, bind, modify. rewrite try_chat_returns. reflexivity. Qed.

Lemma executeMicroAction_fuel (C : Collab) (name : jstring) (p : json) (w : World) :
  executeMicroAction C name p w <> OutOfFuel.
Proof.
  unfold executeMicroAction, bind, log, modify, ret.
  repeat match goal with
         | |- context [try_chat ?C ?m ?w] => rewrite (try_chat_returns C m w)
         | |- context [if ?b then _ else _] => destruct b
         | |- context [match blockAt ?C ?v ?w with _ => _ end] =>
             destruct (blockAt C v w) as [[?|]|]
         | |- context [gotoNear ?C ?v ?w] =>
             unfold gotoNear; destruct (pathfind C v w) as [[? ?]|]
         | |- context [equipPrefer ?C ?w] =>
             unfold equipPrefer; destruct (equip_throws C w)
         | |- context [safeDig ?C ?b ?w] =>
             let H := fresh in
             destruct (safeDig_returns C b w) as (? & ? & H & _); rewrite H
         end; discriminate.
Qed.

Lemma dispatch_step_fuel (C : Collab) (s : json) (w : World) :
  dispatch_step C s w <> OutOfFuel.
Proof.
  unfold dispatch_step, bind, sleep, modify.
  destruct (truthy_opt (get "rationale" s)).
  - rewrite try_chat_returns.
    destruct (executeMicroAction C _ _ _) eqn:E; try discriminate.
    exfalso. exact (executeMicroAction_fuel _ _ _ _ E).
  - cbn [ret].
    destruct (executeMicroAction C _ _ _) eqn:E; try discriminate.
    exfalso. exact (executeMicroAction_fuel _ _ _ _ E).
Qed.

Lemma executePlan_loop_true (C : Collab) (steps : list json) (w : World) :
  true_or_throw (executePlan_loop C steps w).
Proof.
  revert w. induction steps as [|s rest IH]; intro w.
  - reflexivity.
  - rewrite executePlan_loop_cons.
    destruct (validate C (position w) s) as [|r|name p]; [apply IH| |].
    + unfold bind at 1. cbn [log modify]. unfold bind.
      rewrite reject_returns. apply IH.
    + unfold bind at 1. cbn [log modify]. unfold bind.
      destruct (dispatch_step C s _) as [u w1|w1|] eqn:E; [apply IH|exact I|].
      exact (dispatch_step_fuel _ _ _ E).
Qed.

(* ------------------------------------------------------------------ *)
(** ** The matcher reads the input from left to right *)

Lemma advanced_refl (st : Regex.state) : advanced st st [].
Proof. split; reflexivity. Qed.

Lemma advanced_trans (a b c : Regex.state) (u v : jstring) :
  advanced a b u -> advanced b c v -> advanced a c (u ++ v).
Proof.
  intros [H1 H2] [H3 H4]. split.
  - rewrite H1, H3, app_assoc. reflexivity.
  - rewrite H4, H2, rev_app_distr, app_assoc. reflexivity.
Qed.

Lemma advanced_consumed (st st' : Regex.state) (u : jstring) :
  advanced st st' u -> Regex.consumed st st' = u.
Proof.
  intros [H _]. unfold Regex.consumed. rewrite H, length_app.
  replace (List.length u + List.length (Regex.rest st') - List.length (Regex.rest st'))
    with (List.length u) by lia.
  rewrite firstn_app, firstn_all, Nat.sub_diag. cbn. apply app_nil_r.
Qed.

Lemma star_loop_advances
      (body : Regex.state -> (Regex.state -> option Regex.state) -> option Regex.state)
      (greedy : bool) (k : Regex.state -> option Regex.state) :
  (forall st k' res, body st k' = Some res ->
     exists st' u, advanced st st' u /\ k' st' = Some res) ->
  forall n st res,
    Regex.star_loop body greedy k n st = Some res ->
    exists st' u, advanced st st' u /\ k st' = Some res.
Proof.
  intros Hbody n. induction n as [|n IHn]; intros st res H.
  - exists st, []. split; [apply advanced_refl | exact H].
  - cbn [Regex.star_loop] in H. cbv zeta in H.
    assert (M : forall x,
               body st (fun st' =>
                 if (List.length (Regex.rest st') <? List.length (Regex.rest st))%nat
                 then Regex.star_loop body greedy k n st' else None) = Some x ->
               exists st' u, advanced st st' u /\ k st' = Some x).
    { intros x Hx. destruct (Hbody _ _ _ Hx) as (st1 & u & Hu & H1).
      destruct (_ <? _)%nat; [|discriminate].
      destruct (IHn _ _ H1) as (st2 & v & Hv & H2).
      exists st2, (u ++ v). split; [eapply advanced_trans; eassumption | exact H2]. }
    destruct greedy.
    + destruct (body st _) as [x|] eqn:Em.
      * injection H as <-. apply M. reflexivity.
      * exists st, []. split; [apply advanced_refl | exact H].
    + destruct (k st) as [x|] eqn:Ek.
      * injection H as <-. exists st, []. split; [apply advanced_refl | exact Ek].
      * apply M. exact H.
Qed.

(** Whatever a pattern hands to its continuation is the state it started
    from, moved forward. *)
Lemma run_advances (r : Regex.re) :
  forall st k res,
    Regex.run r st k = Some res ->
    exists st' u, advanced st st' u /\ k st' = Some res.
Proof.
  induction r as [f| |a IHa b IHb|a IHa b IHb|greedy a IHa|i a IHa| | |];
    intros st k res H; cbn [Regex.run] in H.
  - destruct (Regex.rest st) as [|c s'] eqn:E; [discriminate|].
    destruct (f c); [|discriminate].
    eexists _, [c]. split; [|exact H]. split; cbn; [exact E|reflexivity].
  - exists st, []. split; [apply advanced_refl | exact H].
  - destruct (IHa _ _ _ H) as (st1 & u & Hu & H1).
    destruct (IHb _ _ _ H1) as (st2 & v & Hv & H2).
    exists st2, (u ++ v). split; [eapply advanced_trans; eassumption | exact H2].
  - destruct (Regex.run a st k) eqn:E.
    + injection H as <-. exact (IHa _ _ _ E).
    + exact (IHb _ _ _ H).
  - exact (star_loop_advances (Regex.run a) greedy k IHa _ _ _ H).
  - destruct (IHa _ _ _ H) as (st1 & u & Hu & H1).
    eexists _, u. split; [|exact H1]. destruct Hu as [Hr Hb]. split; cbn; assumption.
  - destruct (Regex.before st); [|discriminate].
    exists st, []. split; [apply advanced_refl | exact H].
  - destruct (Regex.rest st); [|discriminate].
    exists st, []. split; [apply advanced_refl | exact H].
  - destruct (xorb _ _); [|discriminate].
    exists st, []. split; [apply advanced_refl | exact H].
Qed.

(** A match cuts the input in three: what was skipped before it, its
    text, and what is after it. *)
Lemma search_splits (r : Regex.re) (s : jstring) :
  forall pre m,
    Regex.search r pre s = Some m ->
    exists u, Regex.f_before m = rev u ++ pre /\
              s = u ++ Regex.f_text m ++ Regex.rest (Regex.f_end m).
Proof.
  induction s as [|c s IH]; intros pre m H; cbn [Regex.search] in H.
  - destruct (Regex.run r _ Some) as [st|] eqn:E; [|discriminate].
    injection H as <-. cbn [Regex.f_before Regex.f_text Regex.f_end].
    destruct (run_advances r _ _ _ E) as (st' & u & Hu & Hs).
    injection Hs as ->. rewrite (advanced_consumed _ _ _ Hu).
    destruct Hu as [Hr _]. cbn in Hr. exists []. split; [reflexivity | exact Hr].
  - destruct (Regex.run r _ Some) as [st|] eqn:E.
    + injection H as <-. cbn [Regex.f_before Regex.f_text Regex.f_end].
      destruct (run_advances r _ _ _ E) as (st' & u & Hu & Hs).
      injection Hs as ->. rewrite (advanced_consumed _ _ _ Hu).
      destruct Hu as [Hr _]. cbn in Hr. exists []. split; [reflexivity | exact Hr].
    + destruct (IH _ _ H) as (u & Hb & Hs). exists (c :: u). split.
      * rewrite Hb. cbn. rewrite <- app_assoc. reflexivity.
      * rewrite Hs at 1. reflexivity.
Qed.

(** The bound on the matches of a global replacement is never reached:
    every turn starts further on in the text. *)
Lemma replace_from_fuel (r : Regex.re) (repl : jstring) (n : nat) :
  forall m pre s,
    List.length s < n -> n <= m ->
    Regex.replace_from r repl m pre s = Regex.replace_from r repl n pre s.
Proof.
  induction n as [|n IH]; intros m pre s Hn Hm; [lia|].
  destruct m as [|m]; [lia|]. cbn [Regex.replace_from].
  destruct (Regex.search r pre s) as [f|] eqn:E; [|reflexivity].
  destruct (search_splits r s pre f E) as (u & Hb & Hs).
  assert (L : List.length s = List.length u + List.length (Regex.f_text f)
                             + List.length (Regex.rest (Regex.f_end f))).
  { rewrite Hs at 1. rewrite !length_app. lia. }
  cbv zeta. destruct (Regex.f_text f) as [|c t] eqn:Et.
  - destruct (Regex.rest (Regex.f_end f)) as [|c s'] eqn:Er; [reflexivity|].
    rewrite (IH m _ s') by (cbn in L; lia). reflexivity.
  - rewrite (IH m _ (Regex.rest (Regex.f_end f))) by (cbn in L; lia). reflexivity.
Qed.

(** ** The fuel of a star

    An iteration of a star consumes at least one unit, so a star never
    makes more iterations than there are units left: the bound on its
    iterations is never reached. *)

Section Star.

Variable body : Regex.state -> (Regex.state -> option Regex.state) -> option Regex.state.
Hypothesis body_ext :
  forall st k1 k2,
    (forall st', shorter st' st -> k1 st' = k2 st') -> body st k1 = body st k2.

Lemma star_loop_ext (greedy : bool) (n : nat) :
  forall st k1 k2,
    (forall st', shorter st' st -> k1 st' = k2 st') ->
    Regex.star_loop body greedy k1 n st = Regex.star_loop body greedy k2 n st.
Proof.
  induction n as [|n IH]; intros st k1 k2 Hk; cbn [Regex.star_loop].
  - apply Hk. unfold shorter. lia.
  - cbv zeta. rewrite (Hk st) by (unfold shorter; lia).
    rewrite (body_ext st _
               (fun st' =>
                  if (List.length (Regex.rest st') <? List.length (Regex.rest st))%nat
                  then Regex.star_loop body greedy k2 n st' else None)).
    + reflexivity.
    + intros st' Hs. destruct (_ <? _)%nat eqn:E; [|reflexivity].
      apply IH. intros st'' Hs'. apply Hk. unfold shorter in *. lia.
Qed.

Lemma star_loop_fuel (greedy : bool) (k : Regex.state -> option Regex.state)
      (n : nat) :
  forall m st,
    List.length (Regex.rest st) < n -> n <= m ->
    Regex.star_loop body greedy k m st = Regex.star_loop body greedy k n st.
Proof.
  induction n as [|n IH]; intros m st Hn Hm; [lia|].
  destruct m as [|m]; [lia|]. cbn [Regex.star_loop]. cbv zeta.
  rewrite (body_ext st _
             (fun st' =>
                if (List.length (Regex.rest st') <? List.length (Regex.rest st))%nat
                then Regex.star_loop body greedy k n st' else None)).
  - reflexivity.
  - intros st' Hs. destruct (_ <? _)%nat eqn:E; [|reflexivity].
    apply Nat.ltb_lt in E. apply IH; lia.
Qed.

End Star.

(** A pattern asks its continuation only about states further on. *)
Lemma run_ext (r : Regex.re) :
  forall st k1 k2,
    (forall st', shorter st' st -> k1 st' = k2 st') ->
    Regex.run r st k1 = Regex.run r st k2.
Proof.
  induction r as [f| |a IHa b IHb|a IHa b IHb|greedy a IHa|i a IHa| | |];
    intros st k1 k2 Hk; cbn [Regex.run].
  - destruct (Regex.rest st) as [|c s'] eqn:E; [reflexivity|].
    destruct (f c); [|reflexivity]. apply Hk. unfold shorter. cbn. rewrite E. cbn. lia.
  - apply Hk. unfold shorter. lia.
  - apply IHa. intros st' Hs. apply IHb. intros st'' Hs'. apply Hk.
    unfold shorter in *. lia.
  - rewrite (IHa st k1 k2 Hk), (IHb st k1 k2 Hk). reflexivity.
  - apply star_loop_ext; assumption.
  - apply IHa. intros st' Hs. apply Hk. exact Hs.
  - destruct (Regex.before st); [|reflexivity]. apply Hk. unfold shorter. lia.
  - destruct (Regex.rest st); [|reflexivity]. apply Hk. unfold shorter. lia.
  - destruct (xorb _ _); [|reflexivity]. apply Hk. unfold shorter. lia.
Qed.

(** The bound that [run] gives a star could be any larger one. *)
Lemma star_fuel (greedy : bool) (a : Regex.re) (st : Regex.state)
      (k : Regex.state -> option Regex.state) (m : nat) :
  List.length (Regex.rest st) < m ->
  Regex.run (Regex.Star greedy a) st k
  = Regex.star_loop (Regex.run a) greedy k m st.
Proof.
  intro H. cbn [Regex.run]. symmetry.
  apply (star_loop_fuel (Regex.run a) (run_ext a)); lia.
Qed.

(* ------------------------------------------------------------------ *)
(** ** The fuel of the JSON reader

    The reader never gives back more than it was given, so the nesting of
    a text is below its length: fuel above the length changes nothing. *)

Lemma after_length (c : N) (s t : jstring) :
  Str.after c s = Some t -> List.length s = S (List.length t).
Proof.
  destruct s as [|x s]; cbn; [discriminate|].
  destruct (N.eqb x c); [|discriminate]. intro H. injection H as ->. reflexivity.
Qed.

Lemma skip_ws_length (s : jstring) :
  List.length (JParse.skip_ws s) <= List.length s.
Proof.
  induction s as [|c s IH]; cbn; [lia|].
  destruct (JParse.is_ws c); cbn; lia.
Qed.

Lemma run_length (b : Z) (dig : N -> option Z) (s : jstring) :
  forall acc n v n' r,
    Numeral.run b dig s acc n = (v, n', r) -> List.length r <= List.length s.
Proof.
  induction s as [|c s IH]; intros acc n v n' r H; cbn in H.
  - injection H as _ _ <-. lia.
  - destruct (dig c) as [d|].
    + destruct (d <? b)%Z.
      * apply IH in H. cbn. lia.
      * injection H as _ _ <-. lia.
    + injection H as _ _ <-. lia.
Qed.

Lemma sign_length (s : jstring) :
  List.length (snd (Numeral.sign s)) <= List.length s.
Proof.
  unfold Numeral.sign.
  destruct (Str.after 43 s) eqn:E1; [apply after_length in E1; cbn; lia|].
  destruct (Str.after 45 s) eqn:E2; [apply after_length in E2; cbn; lia|].
  cbn. lia.
Qed.

Lemma exponent_length (s : jstring) (e : Z) (r : jstring) :
  Numeral.exponent s = Some (e, r) -> List.length r <= List.length s.
Proof.
  unfold Numeral.exponent. destruct s as [|c t]; [intro H; injection H as _ <-; lia|].
  destruct ((c =? 101) || (c =? 69))%N.
  - pose proof (sign_length t) as Hs. destruct (Numeral.sign t) as [sg t'].
    unfold Numeral.digits.
    destruct (Numeral.run 10 Numeral.digit t' 0 0) as [[v n] r'] eqn:E.
    apply run_length in E. destruct (n =? 0)%Z; [discriminate|].
    intro H. injection H as _ <-. cbn in *. lia.
  - intro H. injection H as _ <-. lia.
Qed.

Lemma json_number_length (s : jstring) (n : num) (r : jstring) :
  Numeral.json_number s = Some (n, r) -> List.length r <= List.length s.
Proof.
  unfold Numeral.json_number.
  assert (H1 : List.length (snd (match Str.after 45 s with
                                 | Some t => ((-1)%Z, t)
                                 | None => (1%Z, s)
                                 end)) <= List.length s).
  { destruct (Str.after 45 s) eqn:E; [apply after_length in E; cbn; lia|cbn; lia]. }
  destruct (match Str.after 45 s with
            | Some t => ((-1)%Z, t)
            | None => (1%Z, s)
            end) as [sg s1]. cbn [snd] in H1.
  assert (H2 : forall i s2,
             match Str.after 48 s1 with
             | Some t => Some (0%Z, t)
             | None => let '(i, n, r) := Numeral.digits s1 in
                       if (n =? 0)%Z then None else Some (i, r)
             end = Some (i, s2) -> List.length s2 <= List.length s1).
  { intros i s2. destruct (Str.after 48 s1) eqn:E.
    - apply after_length in E. intro H. injection H as _ <-. lia.
    - unfold Numeral.digits.
      destruct (Numeral.run 10 Numeral.digit s1 0 0) as [[v k] r'] eqn:E'.
      apply run_length in E'. destruct (k =? 0)%Z; [discriminate|].
      intro H. injection H as _ <-. exact E'. }
  destruct (match Str.after 48 s1 with
            | Some t => Some (0%Z, t)
            | None => _
            end) as [[i s2]|]; [|discriminate].
  specialize (H2 i s2 eq_refl).
  assert (H3 : forall m k s3,
             match Str.after 46 s2 with
             | Some t =>
                 let '(f, n, r) := Numeral.run 10 Numeral.digit t i 0 in
                 if (n =? 0)%Z then None else Some (f, n, r)
             | None => Some (i, 0%Z, s2)
             end = Some (m, k, s3) -> List.length s3 <= List.length s2).
  { intros m k s3. destruct (Str.after 46 s2) as [t46|] eqn:E.
    - apply after_length in E.
      destruct (Numeral.run 10 Numeral.digit t46 i 0) as [[v k'] r'] eqn:E'.
      apply run_length in E'. destruct (k' =? 0)%Z; [discriminate|].
      intro H. injection H as _ _ <-. lia.
    - intro H. injection H as _ _ <-. lia. }
  destruct (match Str.after 46 s2 with
            | Some t => _
            | None => Some (i, 0%Z, s2)
            end) as [[[m k] s3]|]; [|discriminate].
  specialize (H3 m k s3 eq_refl).
  destruct (Numeral.exponent s3) as [[e s4]|] eqn:E; [|discriminate].
  apply exponent_length in E. intro H. injection H as _ <-. lia.
Qed.

Lemma string_body_length (n : nat) :
  forall s acc str r,
    List.length s <= n ->
    JParse.string_body s acc = Some (str, r) -> List.length r < List.length s.
Proof.
  induction n as [|n IH]; intros s acc str r Hn H.
  - destruct s; [discriminate H | cbn in Hn; lia].
  - destruct s as [|c t]; [discriminate H|]. cbn [JParse.string_body] in H.
    cbn [List.length] in *.
    destruct (c =? 34)%N; [injection H as _ <-; lia|].
    destruct (c =? 92)%N.
    + destruct t as [|e t']; [discriminate H|]. cbn [List.length] in *.
      destruct (e =? 117)%N.
      * destruct t' as [|a [|b [|c' [|d t'']]]]; try discriminate H.
        destruct (JParse.hex4 a b c' d); [|discriminate H].
        apply IH in H; cbn [List.length] in *; lia.
      * destruct (JParse.escape e); [|discriminate H].
        apply IH in H; lia.
    + destruct (c <? 32)%N; [discriminate H|].
      apply IH in H; lia.
Qed.

Lemma scalar_length (s : jstring) (v : json) (r : jstring) :
  JParse.scalar s = Some (v, r) -> List.length r <= List.length s.
Proof.
  assert (K : forall k, List.length (skipn k s) <= List.length s).
  { intro k. rewrite length_skipn. lia. }
  unfold JParse.scalar.
  destruct (Str.prefixb (lit "true") s);
    [intro H; injection H as _ Hr; rewrite <- Hr; exact (K 4)|].
  destruct (Str.prefixb (lit "false") s);
    [intro H; injection H as _ Hr; rewrite <- Hr; exact (K 5)|].
  destruct (Str.prefixb (lit "null") s);
    [intro H; injection H as _ Hr; rewrite <- Hr; exact (K 4)|].
  destruct (Numeral.json_number s) as [[n r']|] eqn:E; [|discriminate].
  apply json_number_length in E. intro H. injection H as _ <-. exact E.
Qed.

Section Readers.

Variable val : jstring -> option (json * jstring).
Hypothesis val_length :
  forall t v r, val t = Some (v, r) -> List.length r <= List.length t.

Lemma elems_length (n : nat) :
  forall t acc v r,
    JParse.elems val n t acc = Some (v, r) -> List.length r <= List.length t.
Proof.
  induction n as [|n IH]; intros t acc v r H; [discriminate H|].
  cbn [JParse.elems] in H.
  destruct (val t) as [[v1 r1]|] eqn:E; [|discriminate H].
  apply val_length in E. pose proof (skip_ws_length r1) as Hw.
  destruct (Str.after 44 (JParse.skip_ws r1)) as [r'|] eqn:E1.
  - apply after_length in E1. apply IH in H. lia.
  - destruct (Str.after 93 (JParse.skip_ws r1)) as [r'|] eqn:E2; [|discriminate H].
    apply after_length in E2. injection H as _ <-. lia.
Qed.

Lemma members_length (n : nat) :
  forall t acc v r,
    JParse.members val n t acc = Some (v, r) -> List.length r <= List.length t.
Proof.
  induction n as [|n IH]; intros t acc v r H; [discriminate H|].
  cbn [JParse.members] in H. pose proof (skip_ws_length t) as Hw0.
  destruct (Str.after 34 (JParse.skip_ws t)) as [t1|] eqn:E0; [|discriminate H].
  apply after_length in E0.
  destruct (JParse.string_body t1 []) as [[k t2]|] eqn:Es; [|discriminate H].
  apply (string_body_length (List.length t1)) in Es; [|lia].
  pose proof (skip_ws_length t2) as Hw2.
  destruct (Str.after 58 (JParse.skip_ws t2)) as [t3|] eqn:E3; [|discriminate H].
  apply after_length in E3.
  destruct (val t3) as [[v1 r1]|] eqn:E; [|discriminate H].
  apply val_length in E. pose proof (skip_ws_length r1) as Hw.
  destruct (Str.after 44 (JParse.skip_ws r1)) as [r'|] eqn:E1.
  - apply after_length in E1. apply IH in H. lia.
  - destruct (Str.after 125 (JParse.skip_ws r1)) as [r'|] eqn:E2; [|discriminate H].
    apply after_length in E2. injection H as _ <-. lia.
Qed.

(** A second reader that agrees with [val] on the texts up to a length. *)
Variable val' : jstring -> option (json * jstring).
Variable bound : nat.
Hypothesis agree : forall t, List.length t <= bound -> val' t = val t.

Lemma elems_agree (n : nat) :
  forall t acc, List.length t <= bound ->
    JParse.elems val' n t acc = JParse.elems val n t acc.
Proof.
  induction n as [|n IH]; intros t acc Ht; [reflexivity|].
  cbn [JParse.elems]. rewrite (agree t Ht).
  destruct (val t) as [[v1 r1]|] eqn:E; [|reflexivity].
  apply val_length in E. pose proof (skip_ws_length r1) as Hw.
  destruct (Str.after 44 (JParse.skip_ws r1)) as [r'|] eqn:E1; [|reflexivity].
  apply after_length in E1. apply IH. lia.
Qed.

Lemma members_agree (n : nat) :
  forall t acc, List.length t <= bound ->
    JParse.members val' n t acc = JParse.members val n t acc.
Proof.
  induction n as [|n IH]; intros t acc Ht; [reflexivity|].
  cbn [JParse.members]. pose proof (skip_ws_length t) as Hw0.
  destruct (Str.after 34 (JParse.skip_ws t)) as [t1|] eqn:E0; [|reflexivity].
  apply after_length in E0.
  destruct (JParse.string_body t1 []) as [[k t2]|] eqn:Es; [|reflexivity].
  apply (string_body_length (List.length t1)) in Es; [|lia].
  pose proof (skip_ws_length t2) as Hw2.
  destruct (Str.after 58 (JParse.skip_ws t2)) as [t3|] eqn:E3; [|reflexivity].
  apply after_length in E3.
  rewrite (agree t3) by lia.
  destruct (val t3) as [[v1 r1]|] eqn:E; [|reflexivity].
  apply val_length in E. pose proof (skip_ws_length r1) as Hw.
  destruct (Str.after 44 (JParse.skip_ws r1)) as [r'|] eqn:E1; [|reflexivity].
  apply after_length in E1. apply IH. lia.
Qed.

End Readers.

Lemma value_length (f : nat) :
  forall s v r, JParse.value f s = Some (v, r) -> List.length r <= List.length s.
Proof.
  induction f as [|f IH]; intros s v r H; [discriminate H|].
  cbn [JParse.value] in H. pose proof (skip_ws_length s) as Hw.
  destruct (JParse.skip_ws s) as [|c t] eqn:Es; [discriminate H|].
  cbn [List.length] in Hw.
  destruct (c =? 34)%N.
  { destruct (JParse.string_body t []) as [[str r']|] eqn:E; [|discriminate H].
    apply (string_body_length (List.length t)) in E; [|lia].
    injection H as _ <-. lia. }
  destruct (c =? 91)%N.
  { pose proof (skip_ws_length t) as Hw1.
    destruct (Str.after 93 (JParse.skip_ws t)) as [r'|] eqn:E.
    - apply after_length in E. injection H as _ <-. lia.
    - apply (elems_length (JParse.value f) IH) in H. lia. }
  destruct (c =? 123)%N.
  { pose proof (skip_ws_length t) as Hw1.
    destruct (Str.after 125 (JParse.skip_ws t)) as [r'|] eqn:E.
    - apply after_length in E. injection H as _ <-. lia.
    - apply (members_length (JParse.value f) IH) in H. lia. }
  apply scalar_length in H. cbn [List.length] in H. lia.
Qed.

(** Fuel above the length of the text is never used up. *)
Lemma value_fuel (g : nat) :
  forall g' s, List.length s < g -> g <= g' -> JParse.value g' s = JParse.value g s.
Proof.
  induction g as [|f IH]; intros g' s Hs Hg; [lia|].
  destruct g' as [|f']; [lia|].
  cbn [JParse.value]. pose proof (skip_ws_length s) as Hw.
  destruct (JParse.skip_ws s) as [|c t] eqn:Es; [reflexivity|].
  cbn [List.length] in Hw.
  destruct (c =? 34)%N; [reflexivity|].
  destruct (c =? 91)%N.
  { destruct (Str.after 93 (JParse.skip_ws t)); [reflexivity|].
    apply (elems_agree (JParse.value f) (value_length f) (JParse.value f')
             (List.length t)); [|lia].
    intros u Hu. apply IH; lia. }
  destruct (c =? 123)%N; [|reflexivity].
  destruct (Str.after 125 (JParse.skip_ws t)); [reflexivity|].
  apply (members_agree (JParse.value f) (value_length f) (JParse.value f')
           (List.length t)); [|lia].
  intros u Hu. apply IH; lia.
Qed.

(** [JSON.parse] in the model reads its text with all the fuel any
    amount above the length of the text would give. *)
Corollary parse_fuel (text : jstring) (n : nat) :
  List.length text < n ->
  JParse.value n text = JParse.value (S (List.length text)) text.
Proof.
  intro H. apply value_fuel; lia.
Qed.

(* ------------------------------------------------------------------ *)
(** ** Rounding to doubles *)

Lemma pow2_pos (k : Z) : (0 <= k)%Z -> (0 < 2 ^ k)%Z.
Proof. intro H. apply Z.pow_pos_nonneg; lia. Qed.

Lemma pow2_split (a b c : Z) :
  (0 <= b)%Z -> (0 <= c)%Z -> a = (b + c)%Z -> (2 ^ a = 2 ^ b * 2 ^ c)%Z.
Proof. intros Hb Hc ->. apply Z.pow_add_r; assumption. Qed.

(** [2 ^ ilog2 n d <= n / d < 2 ^ (ilog2 n d + 1)], without fractions. *)
Lemma ilog2_spec (n d : Z) :
  (0 < n)%Z -> (0 < d)%Z ->
  (0 <= Double.ilog2 n d ->
   d * 2 ^ Double.ilog2 n d <= n < d * 2 ^ (Double.ilog2 n d + 1))%Z /\
  (Double.ilog2 n d < 0 ->
   d <= n * 2 ^ (- Double.ilog2 n d) /\ n * 2 ^ (- Double.ilog2 n d - 1) < d)%Z.
Proof.
  intros Hn Hd. unfold Double.ilog2, Double.scale. cbv zeta.
  pose proof (Z.log2_spec n Hn) as [Na Nb].
  pose proof (Z.log2_spec d Hd) as [Da Db].
  pose proof (Z.log2_nonneg n) as An. pose proof (Z.log2_nonneg d) as Bn.
  set (a := Z.log2 n) in *. set (b := Z.log2 d) in *.
  destruct (Z.leb_spec 0 (- (a - b))) as [K|K].
  - assert (P : (0 < 2 ^ (- (a - b)))%Z) by (apply pow2_pos; lia).
    destruct (Z.leb_spec d (n * 2 ^ (- (a - b)))) as [T|T].
    + split; intro HL.
      * assert (E : (a - b = 0)%Z) by lia. rewrite E in *.
        change (2 ^ (- 0))%Z with 1%Z in T. change (2 ^ 0)%Z with 1%Z.
        change (2 ^ (0 + 1))%Z with 2%Z.
        assert (Eb : b = a) by lia. rewrite Eb in Da.
        rewrite Z.pow_succ_r in Nb by lia. lia.
      * split; [exact T|].
        assert (Q : (0 < 2 ^ (- (a - b) - 1))%Z) by (apply pow2_pos; lia).
        assert (E : (2 ^ b = 2 ^ Z.succ a * 2 ^ (- (a - b) - 1))%Z)
          by (apply pow2_split; lia).
        nia.
    + split; intro HL; [lia|].
      replace (- (a - b - 1) - 1)%Z with (- (a - b))%Z by lia.
      split; [|exact T].
      assert (E : (2 ^ Z.succ b = 2 ^ a * 2 ^ (- (a - b - 1)))%Z)
        by (apply pow2_split; lia).
      assert (Q : (0 < 2 ^ (- (a - b - 1)))%Z) by (apply pow2_pos; lia).
      nia.
  - rewrite Z.opp_involutive.
    assert (P : (0 < 2 ^ (a - b))%Z) by (apply pow2_pos; lia).
    destruct (Z.leb_spec (d * 2 ^ (a - b)) n) as [T|T].
    + split; intro HL; [|lia]. split; [exact T|].
      assert (E : (2 ^ Z.succ a = 2 ^ b * 2 ^ (a - b + 1))%Z)
        by (apply pow2_split; lia).
      assert (Q : (0 < 2 ^ (a - b + 1))%Z) by (apply pow2_pos; lia).
      nia.
    + split; intro HL; [|lia].
      replace (a - b - 1 + 1)%Z with (a - b)%Z by lia. split; [|exact T].
      assert (E : (2 ^ a = 2 ^ Z.succ b * 2 ^ (a - b - 1))%Z)
        by (apply pow2_split; lia).
      assert (Q : (0 < 2 ^ (a - b - 1))%Z) by (apply pow2_pos; lia).
      nia.
Qed.

(** The two bounds after a shift by [2^t] that makes both exponents
    whole. *)
Lemma ilog2_upper (n d t : Z) :
  (0 < n)%Z -> (0 < d)%Z -> (0 <= t)%Z -> (0 <= t + Double.ilog2 n d + 1)%Z ->
  (n * 2 ^ t < d * 2 ^ (t + Double.ilog2 n d + 1))%Z.
Proof.
  intros Hn Hd Ht Hs. destruct (ilog2_spec n d Hn Hd) as [Pos Neg].
  set (L := Double.ilog2 n d) in *.
  assert (Pt : (0 < 2 ^ t)%Z) by (apply pow2_pos; lia).
  destruct (Z.le_gt_cases 0 L) as [G|G].
  - destruct (Pos G) as [_ U].
    assert (E : (2 ^ (t + L + 1) = 2 ^ (L + 1) * 2 ^ t)%Z) by (apply pow2_split; lia).
    rewrite E. nia.
  - destruct (Neg G) as [_ U].
    assert (E : (2 ^ t = 2 ^ (- L - 1) * 2 ^ (t + L + 1))%Z) by (apply pow2_split; lia).
    assert (Q : (0 < 2 ^ (t + L + 1))%Z) by (apply pow2_pos; lia).
    rewrite E. nia.
Qed.

Lemma ilog2_lower (n d t : Z) :
  (0 < n)%Z -> (0 < d)%Z -> (0 <= t)%Z -> (0 <= t + Double.ilog2 n d)%Z ->
  (d * 2 ^ (t + Double.ilog2 n d) <= n * 2 ^ t)%Z.
Proof.
  intros Hn Hd Ht Hs. destruct (ilog2_spec n d Hn Hd) as [Pos Neg].
  set (L := Double.ilog2 n d) in *.
  assert (Pt : (0 < 2 ^ t)%Z) by (apply pow2_pos; lia).
  destruct (Z.le_gt_cases 0 L) as [G|G].
  - destruct (Pos G) as [Lo _].
    assert (E : (2 ^ (t + L) = 2 ^ L * 2 ^ t)%Z) by (apply pow2_split; lia).
    rewrite E. nia.
  - destruct (Neg G) as [Lo _].
    assert (E : (2 ^ t = 2 ^ (- L) * 2 ^ (t + L))%Z) by (apply pow2_split; lia).
    assert (Q : (0 < 2 ^ (t + L))%Z) by (apply pow2_pos; lia).
    rewrite E. nia.
Qed.

(** [ilog2 n d < c] exactly when [n / d < 2^c]. *)
Lemma ilog2_lt (n d c : Z) :
  (0 < n)%Z -> (0 < d)%Z -> (0 <= c)%Z ->
  (Double.ilog2 n d < c)%Z <-> (n < d * 2 ^ c)%Z.
Proof.
  intros Hn Hd Hc. split; intro H.
  - destruct (Z.le_gt_cases (-1) (Double.ilog2 n d)) as [G|G].
    + pose proof (ilog2_upper n d 0 Hn Hd (Z.le_refl 0) ltac:(lia)) as U.
      change (2 ^ 0)%Z with 1%Z in U.
      assert (2 ^ (0 + Double.ilog2 n d + 1) <= 2 ^ c)%Z
        by (apply Z.pow_le_mono_r; lia).
      nia.
    + destruct (ilog2_spec n d Hn Hd) as [_ Neg].
      destruct (Neg ltac:(lia)) as [_ U].
      assert (1 <= 2 ^ (- Double.ilog2 n d - 1))%Z
        by (pose proof (pow2_pos (- Double.ilog2 n d - 1) ltac:(lia)); lia).
      assert (1 <= 2 ^ c)%Z by (pose proof (pow2_pos c Hc); lia).
      nia.
  - destruct (Z.lt_ge_cases (Double.ilog2 n d) c) as [L|G]; [exact L|]. exfalso.
    destruct (ilog2_spec n d Hn Hd) as [Pos _].
    destruct (Pos ltac:(lia)) as [Lo _].
    assert (2 ^ c <= 2 ^ Double.ilog2 n d)%Z by (apply Z.pow_le_mono_r; lia).
    nia.
Qed.

Lemma nearest_exact (k d : Z) : (0 < d)%Z -> Double.nearest (k * d) d = k.
Proof.
  intro Hd. unfold Double.nearest. cbv zeta.
  rewrite Z.mod_mul, Z.div_mul by lia.
  destruct (Z.compare_spec (2 * 0) d); lia.
Qed.

Lemma Qred_whole (z : Z) (p : positive) :
  Qred (Qmake (z * Zpos p) p) = inject_Z z.
Proof.
  transitivity (Qred (inject_Z z)).
  - apply Qred_complete. unfold Qeq, inject_Z. cbn [Qnum Qden]. lia.
  - unfold Qred, inject_Z. cbn [Qnum Qden].
    pose proof (Z.ggcd_gcd z 1) as G. pose proof (Z.ggcd_correct_divisors z 1) as D.
    destruct (Z.ggcd z 1) as (g, (r1, r2)). cbn [fst] in G.
    rewrite Z.gcd_1_r in G. subst g. destruct D as [D1 D2].
    replace r1 with z by lia. replace r2 with 1%Z by lia. reflexivity.
Qed.

Lemma ilog2_whole (z : Z) : (0 < z)%Z -> Double.ilog2 z 1 = Z.log2 z.
Proof.
  intro H. destruct (ilog2_spec z 1 H eq_refl) as [Pos Neg].
  destruct (Z.le_gt_cases 0 (Double.ilog2 z 1)) as [G|G].
  - destruct (Pos G) as [Lo Hi]. symmetry. apply Z.log2_unique; [exact G|].
    rewrite Z.pow_succ_r by exact G. rewrite Z.pow_add_r in Hi by lia.
    change (2 ^ 1)%Z with 2%Z in Hi. lia.
  - exfalso. destruct (Neg G) as [_ U].
    pose proof (pow2_pos (- Double.ilog2 z 1 - 1) ltac:(lia)). nia.
Qed.

Lemma round_pos_whole (z : Z) :
  (0 < z < 2 ^ 53)%Z -> Double.round_pos z 1 = Fin (inject_Z z).
Proof.
  intros [H0 H1]. unfold Double.round_pos, Double.last_place. cbv zeta.
  rewrite (ilog2_whole z H0).
  pose proof (Z.log2_nonneg z) as Ln.
  assert (Ll : (Z.log2 z < 53)%Z) by (apply Z.log2_lt_pow2; lia).
  rewrite Z.max_r by lia.
  set (e := (Z.log2 z - 52)%Z).
  assert (He : (-52 <= e <= 0)%Z) by (unfold e; lia).
  unfold Double.scale.
  destruct (Z.leb_spec 0 (- e)) as [_|X]; [|lia].
  assert (P : (0 < 2 ^ (- e))%Z) by (apply pow2_pos; lia).
  assert (EN : Double.nearest (z * 2 ^ (- e)) 1 = (z * 2 ^ (- e))%Z).
  { rewrite <- (Z.mul_1_r (z * 2 ^ (- e))) at 1. apply nearest_exact. lia. }
  rewrite !EN. rewrite Z.log2_mul_pow2 by lia.
  destruct (Z.leb_spec 1024 (- e + Z.log2 z + e)) as [X|_]; [lia|].
  f_equal. unfold Double.value.
  destruct (Z.leb_spec 0 e) as [G|G].
  - assert (E : e = 0%Z) by lia. rewrite E. f_equal.
    change (2 ^ (- 0))%Z with 1%Z. change (2 ^ 0)%Z with 1%Z. lia.
  - rewrite <- (Z2Pos.id (2 ^ (- e)) P) at 1. apply Qred_whole.
Qed.

(** A whole number below [2^53] in size is a double. *)
Lemma round_whole (q : Q) :
  Qden q = 1%positive -> (Z.abs (Qnum q) < 2 ^ 53)%Z ->
  Double.round q = Fin (inject_Z (Qnum q)).
Proof.
  intros Hd Hn. unfold Double.round. rewrite Hd.
  destruct (Qnum q) as [|n|n] eqn:E; [reflexivity| |].
  - apply round_pos_whole. lia.
  - rewrite round_pos_whole by lia. reflexivity.
Qed.

(** ** The rounded square root against the bound *)

Lemma root_floor (N D : Z) :
  (0 <= N)%Z -> (0 < D)%Z ->
  let f := Z.sqrt (N / D) in
  (0 <= f)%Z /\ (D * (f * f) <= N)%Z /\ (N < D * ((f + 1) * (f + 1)))%Z.
Proof.
  intros HN HD. cbv zeta.
  assert (Q0 : (0 <= N / D)%Z) by (apply Z.div_pos; lia).
  pose proof (Z.sqrt_spec (N / D) Q0) as [S1 S2].
  pose proof (Z.sqrt_nonneg (N / D)) as S0.
  pose proof (Z.mul_div_le N D HD) as F1.
  pose proof (Z.mul_succ_div_gt N D HD) as F2.
  split; [exact S0|]. split; nia.
Qed.

Lemma nearest_root_bounds (N D : Z) :
  (0 <= N)%Z -> (0 < D)%Z ->
  (Z.sqrt (N / D) <= Double.nearest_root N D <= Z.sqrt (N / D) + 1)%Z.
Proof.
  intros HN HD. unfold Double.nearest_root. cbv zeta.
  destruct (_ ?= _)%Z; [destruct (Z.even _)| |]; lia.
Qed.

(** The rounded root passes an even whole number [M] exactly when the
    root itself passes [M + 1/2]. *)
Lemma nearest_root_above (N D M : Z) :
  (0 <= N)%Z -> (0 < D)%Z -> (0 <= M)%Z -> Z.even M = true ->
  (M < Double.nearest_root N D)%Z <-> ((2 * M + 1) ^ 2 * D < 4 * N)%Z.
Proof.
  intros HN HD HM Ev.
  pose proof (root_floor N D HN HD) as (F0 & F1 & F2). cbv zeta in *.
  unfold Double.nearest_root. cbv zeta.
  set (f := Z.sqrt (N / D)) in *.
  replace ((2 * M + 1) ^ 2)%Z with ((2 * M + 1) * (2 * M + 1))%Z by ring.
  replace ((2 * f + 1) ^ 2)%Z with ((2 * f + 1) * (2 * f + 1))%Z by ring.
  destruct (Z.compare_spec (4 * N) ((2 * f + 1) * (2 * f + 1) * D)) as [E|E|E].
  - destruct (Z.even f) eqn:Ef.
    + split; intro H; [|nia].
      assert (M + 1 <= f)%Z by lia. nia.
    + assert (f <> M) by (intro X; rewrite X in Ef; congruence).
      split; intro H; nia.
  - split; intro H; nia.
  - split; intro H; nia.
Qed.

Lemma nearest_root_le (N D B : Z) :
  (0 <= N)%Z -> (0 < D)%Z -> (0 < B)%Z -> (N < D * (B * B))%Z ->
  (Double.nearest_root N D <= B)%Z.
Proof.
  intros HN HD HB H.
  pose proof (root_floor N D HN HD) as (F0 & F1 & F2). cbv zeta in *.
  pose proof (nearest_root_bounds N D HN HD) as [_ U].
  set (f := Z.sqrt (N / D)) in *.
  destruct (Z.lt_ge_cases f B) as [L|G]; [lia|].
  assert (B * B <= f * f)%Z by nia.
  assert (D * (B * B) <= D * (f * f))%Z by (apply Z.mul_le_mono_nonneg_l; lia).
  lia.
Qed.

Lemma nearest_root_ge (N D B : Z) :
  (0 <= N)%Z -> (0 < D)%Z -> (0 <= B)%Z -> (D * (B * B) <= N)%Z ->
  (B <= Double.nearest_root N D)%Z.
Proof.
  intros HN HD HB H.
  pose proof (root_floor N D HN HD) as (F0 & F1 & F2). cbv zeta in *.
  pose proof (nearest_root_bounds N D HN HD) as [Lo _].
  set (f := Z.sqrt (N / D)) in *.
  destruct (Z.lt_ge_cases f B) as [L|G]; [|lia].
  assert ((f + 1) * (f + 1) <= B * B)%Z by nia.
  assert (D * ((f + 1) * (f + 1)) <= D * (B * B))%Z
    by (apply Z.mul_le_mono_nonneg_l; lia).
  lia.
Qed.

Lemma above_ten (q : Q) :
  num_lt (Fin 10) (Fin q) = true <-> (10 * Zpos (Qden q) < Qnum q)%Z.
Proof.
  cbn [num_lt]. rewrite negb_true_iff. split.
  - intro H. destruct (Z.lt_ge_cases (10 * Zpos (Qden q)) (Qnum q)) as [L|G]; [exact L|].
    exfalso. assert (T : Qle_bool q 10 = true).
    { apply Qle_bool_iff. unfold Qle. cbn [Qnum Qden]. lia. }
    congruence.
  - intro H. destruct (Qle_bool q 10) eqn:E; [|reflexivity].
    apply Qle_bool_iff in E. unfold Qle in E. cbn [Qnum Qden] in E. lia.
Qed.

Lemma value_above_ten (m e : Z) :
  num_lt (Fin 10) (Fin (Double.value m e)) = true <->
  if (0 <=? e)%Z then (10 < m * 2 ^ e)%Z else (10 * 2 ^ (- e) < m)%Z.
Proof.
  unfold Double.value. destruct (Z.leb_spec 0 e) as [G|G].
  - rewrite above_ten. cbn [inject_Z Qnum Qden]. lia.
  - assert (P : (0 < 2 ^ (- e))%Z) by (apply pow2_pos; lia).
    cbn [num_lt]. rewrite negb_true_iff.
    set (p := Z.to_pos (2 ^ (- e))).
    assert (Ep : Zpos p = (2 ^ (- e))%Z) by (apply Z2Pos.id; exact P).
    rewrite <- Ep. split.
    + intro H. destruct (Z.lt_ge_cases (10 * Zpos p) m) as [L|K]; [exact L|].
      exfalso. assert (T : Qle_bool (Qred (Qmake m p)) 10 = true).
      { apply Qle_bool_iff. rewrite Qred_correct. unfold Qle. cbn [Qnum Qden]. lia. }
      congruence.
    + intro H. destruct (Qle_bool (Qred (Qmake m p)) 10) eqn:E; [|reflexivity].
      apply Qle_bool_iff in E. rewrite Qred_correct in E. unfold Qle in E.
      cbn [Qnum Qden] in E. lia.
Qed.

(** [Math.sqrt] of a positive number exceeds 10 exactly when the number
    exceeds the square of [10 + 2^-50], the point half way from 10 to
    the next double. *)
Lemma sqrt_pos_above_ten (n d : Z) :
  (0 < n)%Z -> (0 < d)%Z ->
  num_lt (Fin 10) (Double.sqrt_pos n d) = true <->
  ((10 * 2 ^ 50 + 1) ^ 2 * d < n * 2 ^ 100)%Z.
Proof.
  intros Hn Hd. unfold Double.sqrt_pos. cbv zeta.
  set (L := Double.ilog2 n d).
  set (h := (L / 2)%Z).
  assert (Hh : (2 * h <= L < 2 * h + 2)%Z).
  { unfold h. pose proof (Z.mul_div_le L 2 eq_refl).
    pose proof (Z.mul_succ_div_gt L 2 eq_refl). lia. }
  pose proof (ilog2_lt n d 6 Hn Hd ltac:(lia)) as L6. fold L in L6.
  pose proof (ilog2_lt n d 8 Hn Hd ltac:(lia)) as L8. fold L in L8.
  change (2 ^ 6)%Z with 64%Z in L6. change (2 ^ 8)%Z with 256%Z in L8.
  assert (K : ((10 * 2 ^ 50 + 1) ^ 2 = 100 * 2 ^ 100 + 20 * 2 ^ 50 + 1)%Z)
    by reflexivity.
  assert (K1 : (20 * 2 ^ 50 + 1 < 2 ^ 100)%Z) by reflexivity.
  assert (K2 : (0 < 2 ^ 100)%Z) by reflexivity.
  destruct (Z.lt_trichotomy h 3) as [Low|[Mid|High]].
  - (* the root is below 8 *)
    assert (T : (n < d * 64)%Z) by (apply L6; lia).
    assert (R : ~ ((10 * 2 ^ 50 + 1) ^ 2 * d < n * 2 ^ 100)%Z) by (rewrite K; nia).
    unfold Double.scale.
    destruct (Z.leb_spec 0 (- (2 * (h - 52)))) as [_|X]; [|lia].
    rewrite value_above_ten.
    destruct (Z.leb_spec 0 (h - 52)) as [X|_]; [lia|].
    set (t := (- (2 * (h - 52)))%Z).
    assert (Ht : (0 <= t)%Z) by (unfold t; lia).
    assert (Pt : (0 < 2 ^ t)%Z) by (apply pow2_pos; lia).
    assert (Hm : (Double.nearest_root (n * 2 ^ t) d <= 2 ^ 53)%Z).
    { pose proof (ilog2_upper n d t Hn Hd Ht) as U. fold L in U.
      specialize (U ltac:(unfold t; lia)).
      assert (2 ^ (t + L + 1) <= 2 ^ 106)%Z
        by (apply Z.pow_le_mono_r; unfold t; lia).
      assert (2 ^ 106 = 2 ^ 53 * 2 ^ 53)%Z by reflexivity.
      apply nearest_root_le; try nia; try reflexivity. }
    assert (Pe : (2 ^ 50 <= 2 ^ (- (h - 52)))%Z) by (apply Z.pow_le_mono_r; lia).
    assert (B : (2 ^ 53 < 10 * 2 ^ 50)%Z) by reflexivity.
    split; intro H; [exfalso; lia | contradiction].
  - (* the root is between 8 and 16: the doubles there are 2^-49 apart *)
    rewrite Mid. change (3 - 52)%Z with (-49)%Z.
    change (- (2 * -49))%Z with 98%Z. unfold Double.scale.
    change (0 <=? 98)%Z with true. cbv iota.
    rewrite value_above_ten. change (0 <=? -49)%Z with false. cbv iota.
    change (- -49)%Z with 49%Z.
    change (10 * 2 ^ 49)%Z with (5 * 2 ^ 50)%Z.
    assert (P98 : (0 < 2 ^ 98)%Z) by reflexivity.
    rewrite (nearest_root_above (n * 2 ^ 98) d (5 * 2 ^ 50))
      by (try reflexivity; lia).
    change (2 * (5 * 2 ^ 50) + 1)%Z with (10 * 2 ^ 50 + 1)%Z.
    change (2 ^ 100)%Z with (4 * 2 ^ 98)%Z. lia.
  - (* the root is 16 at least *)
    assert (T : (d * 256 <= n)%Z).
    { destruct (Z.lt_ge_cases n (d * 256)) as [X|X]; [apply L8 in X; lia | lia]. }
    assert (R : ((10 * 2 ^ 50 + 1) ^ 2 * d < n * 2 ^ 100)%Z) by (rewrite K; nia).
    assert (P52 : (0 <= 2 ^ 52)%Z) by (vm_compute; discriminate).
    assert (E104 : (2 ^ 104 = 2 ^ 52 * 2 ^ 52)%Z) by reflexivity.
    unfold Double.scale.
    destruct (Z.leb_spec 0 (- (2 * (h - 52)))) as [G|G]; rewrite value_above_ten.
    + set (t := (- (2 * (h - 52)))%Z) in *.
      assert (Pt : (0 < 2 ^ t)%Z) by (apply pow2_pos; lia).
      assert (Hm : (2 ^ 52 <= Double.nearest_root (n * 2 ^ t) d)%Z).
      { pose proof (ilog2_lower n d t Hn Hd G) as U. fold L in U.
        specialize (U ltac:(unfold t; lia)).
        assert (2 ^ 104 <= 2 ^ (t + L))%Z by (apply Z.pow_le_mono_r; unfold t; lia).
        apply nearest_root_ge; try nia. }
      destruct (Z.leb_spec 0 (h - 52)) as [X|X].
      * assert (E : (h - 52 = 0)%Z) by lia. rewrite E. change (2 ^ 0)%Z with 1%Z.
        assert (10 < 2 ^ 52)%Z by reflexivity. split; intro Hx; [exact R | lia].
      * assert (E : (2 ^ 52 = 2 ^ h * 2 ^ (- (h - 52)))%Z) by (apply pow2_split; lia).
        assert (2 ^ 4 <= 2 ^ h)%Z by (apply Z.pow_le_mono_r; lia).
        change (2 ^ 4)%Z with 16%Z in *.
        assert (0 < 2 ^ (- (h - 52)))%Z by (apply pow2_pos; lia).
        split; intro Hx; [exact R | nia].
    + rewrite Z.opp_involutive.
      destruct (Z.leb_spec 0 (h - 52)) as [_|X]; [|lia].
      assert (Pe : (0 < 2 ^ (2 * (h - 52)))%Z) by (apply pow2_pos; lia).
      assert (Hm : (2 ^ 52 <= Double.nearest_root n (d * 2 ^ (2 * (h - 52))))%Z).
      { pose proof (ilog2_lower n d 0 Hn Hd (Z.le_refl 0)) as U. fold L in U.
        specialize (U ltac:(lia)). change (2 ^ 0)%Z with 1%Z in U.
        assert (E : (2 ^ (2 * h) = 2 ^ (2 * (h - 52)) * 2 ^ 104)%Z)
          by (apply pow2_split; lia).
        assert (2 ^ (2 * h) <= 2 ^ (0 + L))%Z by (apply Z.pow_le_mono_r; lia).
        apply nearest_root_ge; try nia. }
      assert (1 <= 2 ^ (h - 52))%Z
        by (pose proof (pow2_pos (h - 52) ltac:(lia)); lia).
      assert (10 < 2 ^ 52)%Z by reflexivity.
      split; intro Hx; [exact R | nia].
Qed.

(** ** Whole numbers *)

Lemma num_sub_whole (a b : Z) :
  (Z.abs (a - b) < 2 ^ 53)%Z ->
  num_sub (Fin (inject_Z a)) (Fin (inject_Z b)) = Fin (inject_Z (a - b)).
Proof.
  intro H. unfold num_sub, num_neg, num_add.
  rewrite round_whole.
  - f_equal. f_equal. cbn [Qnum Qplus Qopp inject_Z Qden]. lia.
  - reflexivity.
  - cbn [Qnum Qplus Qopp inject_Z Qden].
    replace (a * 1 + - b * 1)%Z with (a - b)%Z by lia. exact H.
Qed.

Lemma num_mul_whole (a b : Z) :
  (Z.abs (a * b) < 2 ^ 53)%Z ->
  num_mul (Fin (inject_Z a)) (Fin (inject_Z b)) = Fin (inject_Z (a * b)).
Proof.
  intro H. unfold num_mul. rewrite round_whole; [reflexivity | reflexivity | exact H].
Qed.

Lemma num_add_whole (a b : Z) :
  (Z.abs (a + b) < 2 ^ 53)%Z ->
  num_add (Fin (inject_Z a)) (Fin (inject_Z b)) = Fin (inject_Z (a + b)).
Proof.
  intro H. unfold num_add.
  rewrite round_whole.
  - f_equal. f_equal. cbn [Qnum Qplus inject_Z Qden]. lia.
  - reflexivity.
  - cbn [Qnum Qplus inject_Z Qden].
    replace (a * 1 + b * 1)%Z with (a + b)%Z by lia. exact H.
Qed.

Lemma sqrt_whole_above_ten (S : Z) :
  (0 <= S)%Z ->
  num_lt (Fin 10) (Double.sqrt (Fin (inject_Z S))) = true <-> (100 < S)%Z.
Proof.
  intro H0. destruct S as [|p|p]; [| |lia].
  - cbn. split; [discriminate | lia].
  - cbn [Double.sqrt inject_Z Qnum Qden].
    rewrite sqrt_pos_above_ten by lia.
    assert (E : ((10 * 2 ^ 50 + 1) ^ 2 = 100 * 2 ^ 100 + 20 * 2 ^ 50 + 1)%Z)
      by reflexivity.
    rewrite E.
    assert (B : (20 * 2 ^ 50 + 1 < 2 ^ 100)%Z) by reflexivity.
    assert (P : (0 < 2 ^ 100)%Z) by reflexivity.
    split; intro H; nia.
Qed.

(** Between whole-number positions whose squared distance is below
    [2^53] every step of [distanceTo] is exact, and the distance exceeds
    10 exactly when the sum of the squares exceeds 100. *)
Lemma distance_gt_whole (px py pz x y z : Z) :
  let d2 := ((x - px) * (x - px) + (y - py) * (y - py) + (z - pz) * (z - pz))%Z in
  (d2 < 2 ^ 53)%Z ->
  distance_gt (Sample.at_ px py pz) (Sample.at_ x y z) 10 = true <-> (100 < d2)%Z.
Proof.
  cbv zeta. intro H.
  pose proof (Z.square_nonneg (x - px)) as X.
  pose proof (Z.square_nonneg (y - py)) as Y.
  pose proof (Z.square_nonneg (z - pz)) as Z0.
  assert (A : forall a : Z, (Z.abs a <= a * a)%Z).
  { clear. intro a. destruct (Z.abs_spec a) as [[A1 A2]|[A1 A2]]; rewrite A2; nia. }
  pose proof (A (x - px)%Z) as Ax. pose proof (A (y - py)%Z) as Ay.
  pose proof (A (z - pz)%Z) as Az.
  assert (B : (2 ^ 53 = 9007199254740992)%Z) by reflexivity.
  rewrite B in H.
  unfold distance_gt, distanceTo, dist_sq, Sample.at_. cbn [vx vy vz].
  rewrite !num_sub_whole by (rewrite B; lia).
  rewrite !num_mul_whole by (rewrite B; lia).
  rewrite !num_add_whole by (rewrite B; lia).
  apply sqrt_whole_above_ten. lia.
Qed.

(** ** Infinite coordinates *)

Lemma nearest_nonneg (n d : Z) :
  (0 <= n)%Z -> (0 < d)%Z -> (0 <= Double.nearest n d)%Z.
Proof.
  intros Hn Hd. unfold Double.nearest. cbv zeta.
  assert (0 <= n / d)%Z by (apply Z.div_pos; lia).
  destruct (_ ?= _)%Z; [destruct (Z.even _)| |]; lia.
Qed.

Lemma Qred_nonneg (a : Z) (p : positive) :
  (0 <= a)%Z -> (0 <= Qnum (Qred (Qmake a p)))%Z.
Proof.
  intro H. pose proof (Qred_correct (Qmake a p)) as E. unfold Qeq in E.
  cbn [Qnum Qden] in E.
  destruct (Z.lt_ge_cases (Qnum (Qred (Qmake a p))) 0) as [L|G]; [|exact G].
  exfalso. nia.
Qed.

Lemma value_nonneg (m e : Z) : (0 <= m)%Z -> (0 <= Qnum (Double.value m e))%Z.
Proof.
  intro H. unfold Double.value. destruct (Z.leb_spec 0 e) as [G|G].
  - cbn [inject_Z Qnum]. pose proof (pow2_pos e G). nia.
  - apply Qred_nonneg. exact H.
Qed.

Lemma round_pos_not_below (n d : Z) :
  (0 < n)%Z -> (0 < d)%Z -> not_below (Double.round_pos n d) = true.
Proof.
  intros Hn Hd. unfold Double.round_pos. cbv zeta.
  set (e := Double.last_place n d). unfold Double.scale.
  destruct (Z.leb_spec 0 (- e)) as [G|G].
  - destruct (_ <=? _)%Z; [reflexivity|]. cbn [not_below]. apply Z.leb_le.
    apply value_nonneg. apply nearest_nonneg; [|lia].
    pose proof (pow2_pos (- e) G). nia.
  - destruct (_ <=? _)%Z; [reflexivity|]. cbn [not_below]. apply Z.leb_le.
    apply value_nonneg. apply nearest_nonneg; [lia|].
    pose proof (pow2_pos (- - e) ltac:(lia)). nia.
Qed.

Lemma round_not_below (q : Q) :
  (0 <= Qnum q)%Z -> not_below (Double.round q) = true.
Proof.
  intro H. unfold Double.round. destruct (Qnum q) as [|n|n]; [reflexivity| |lia].
  apply round_pos_not_below; lia.
Qed.

Lemma round_is_number (q : Q) : num_isNaN (Double.round q) = false.
Proof.
  unfold Double.round, Double.round_pos. cbv zeta.
  destruct (Qnum q); [reflexivity| |];
    destruct (Double.scale _ _ _) as [a b]; destruct (_ <=? _)%Z; reflexivity.
Qed.

(** The square of a number is not below zero, and infinite when the
    number is. *)
Lemma square_not_below (a : num) :
  num_isNaN a = false ->
  not_below (num_mul a a) = true /\
  (num_infinite a = true -> num_mul a a = PInf).
Proof.
  destruct a as [q| | |]; intro H; try discriminate H; [|split; reflexivity..].
  split; [|discriminate]. cbn [num_mul]. apply round_not_below.
  cbn [Qmult Qnum]. nia.
Qed.

Lemma sum_not_below (a b : num) :
  not_below a = true -> not_below b = true ->
  not_below (num_add a b) = true /\
  (a = PInf \/ b = PInf -> num_add a b = PInf).
Proof.
  destruct a as [p| | |], b as [q| | |]; intros Ha Hb; try discriminate;
    try (split; [reflexivity | intros _; reflexivity]).
  split.
  - cbn [num_add]. apply round_not_below. cbn [not_below] in Ha, Hb.
    apply Z.leb_le in Ha, Hb. cbn [Qplus Qnum]. nia.
  - intros [E|E]; discriminate E.
Qed.

(** The difference to a finite number is a number, and infinite when the
    number is. *)
Lemma difference_kind (a : num) (p : Q) :
  num_isNaN a = false ->
  num_isNaN (num_sub a (Fin p)) = false /\
  (num_infinite a = true -> num_infinite (num_sub a (Fin p)) = true).
Proof.
  destruct a as [q| | |]; intro H; try discriminate H; [|split; reflexivity..].
  split; [|discriminate]. unfold num_sub, num_neg, num_add. apply round_is_number.
Qed.

(** From a finite position, a target with an infinite coordinate and no
    [NaN] is at the distance [Infinity]. *)
Lemma distance_gt_infinite (px py pz : Q) (t : Vec3) (b : Q) :
  num_isNaN (vx t) = false -> num_isNaN (vy t) = false -> num_isNaN (vz t) = false ->
  num_infinite (vx t) || num_infinite (vy t) || num_infinite (vz t) = true ->
  distanceTo (mkVec3 (Fin px) (Fin py) (Fin pz)) t = PInf /\
  distance_gt (mkVec3 (Fin px) (Fin py) (Fin pz)) t b = true.
Proof.
  intros Nx Ny Nz Hi.
  assert (E : distanceTo (mkVec3 (Fin px) (Fin py) (Fin pz)) t = PInf).
  { unfold distanceTo, dist_sq. cbn [vx vy vz].
    destruct (difference_kind (vx t) px Nx) as [Dx Ix].
    destruct (difference_kind (vy t) py Ny) as [Dy Iy].
    destruct (difference_kind (vz t) pz Nz) as [Dz Iz].
    destruct (square_not_below _ Dx) as [Sx Jx].
    destruct (square_not_below _ Dy) as [Sy Jy].
    destruct (square_not_below _ Dz) as [Sz Jz].
    set (sx := num_mul (num_sub (vx t) (Fin px)) (num_sub (vx t) (Fin px))) in *.
    set (sy := num_mul (num_sub (vy t) (Fin py)) (num_sub (vy t) (Fin py))) in *.
    set (sz := num_mul (num_sub (vz t) (Fin pz)) (num_sub (vz t) (Fin pz))) in *.
    destruct (sum_not_below sx sy Sx Sy) as [Sxy Jxy].
    destruct (sum_not_below (num_add sx sy) sz Sxy Sz) as [_ J].
    assert (K : num_add (num_add sx sy) sz = PInf).
    { apply J. apply orb_true_iff in Hi. destruct Hi as [Hi|Hi].
      - apply orb_true_iff in Hi. left. apply Jxy. destruct Hi as [Hi|Hi].
        + left. apply Jx, Ix, Hi.
        + right. apply Jy, Iy, Hi.
      - right. apply Jz, Iz, Hi. }
    rewrite K. reflexivity. }
  split; [exact E|]. unfold distance_gt. rewrite E. reflexivity.
Qed.

(* ------------------------------------------------------------------ *)
(** ** The busy flag (C1) *)

Lemma plannerTick_busy (C : Collab) (w : World) :
  busy w = true -> plannerTick C w = Ret tt w.
Proof.
  intro H. unfold plannerTick, try_catch, bind, ask. rewrite H.
  rewrite orb_true_r. reflexivity.
Qed.

Lemma plannerTick_stopped (C : Collab) (w : World) :
  running w = false -> plannerTick C w = Ret tt w.
Proof.
  intro H. unfold plannerTick, try_catch, bind, ask. rewrite H. reflexivity.
Qed.

Lemma executePlan_array (C : Collab) (l : list json) (w : World) :
  executePlan C (Some (JArr l)) w =
  executePlan_loop C l (emit (ELog "[planner] executePlan called with steps:" []) w).
Proof. reflexivity. Qed.

(** *** [executePlan] does not read the flag *)

Lemma but_busy_refl (w : World) : but_busy w w.
Proof. repeat split. Qed.

Lemma but_busy_setBusy (b : bool) (t : option jstring) (w : World) :
  but_busy w (setBusy b t w).
Proof. repeat split. Qed.

Lemma but_busy_emit (e : event) (w1 w2 : World) :
  but_busy w1 w2 -> but_busy (emit e w1) (emit e w2).
Proof.
  intros (Hp & Ho & Hr & Ht). unfold but_busy, emit. cbn.
  rewrite Hp, Ho, Hr, Ht. repeat split.
Qed.

Lemma but_busy_moved (p : Vec3) (w1 w2 : World) :
  but_busy w1 w2 -> but_busy (moved p w1) (moved p w2).
Proof.
  intros (Hp & Ho & Hr & Ht). unfold but_busy, moved. cbn.
  rewrite Ho, Hr, Ht. repeat split.
Qed.

Lemma but_busy_set (b : bool) (t : option jstring) (w1 w2 : World) :
  but_busy w1 w2 -> but_busy (setBusy b t w1) (setBusy b t w2).
Proof.
  intros (Hp & Ho & Hr & Ht). unfold but_busy, setBusy. cbn.
  rewrite Hp, Ho, Hr, Ht. repeat split.
Qed.

Lemma blindly_ret {A} (a : A) : blindly (ret a).
Proof. intros w1 w2 H. split; [reflexivity | exact H]. Qed.

Lemma blindly_bind {A B} (c : M A) (k : A -> M B) :
  blindly c -> (forall a, blindly (k a)) -> blindly (bind c k).
Proof.
  intros Hc Hk w1 w2 H. unfold bind. specialize (Hc w1 w2 H).
  destruct (c w1) as [a u1|u1|], (c w2) as [b u2|u2|]; cbn in Hc;
    try contradiction; auto.
  destruct Hc as [<- Hu]. apply Hk. exact Hu.
Qed.

Lemma blindly_try_catch {A} (c h : M A) :
  blindly c -> blindly h -> blindly (try_catch c h).
Proof.
  intros Hc Hh w1 w2 H. unfold try_catch. specialize (Hc w1 w2 H).
  destruct (c w1) as [a u1|u1|], (c w2) as [b u2|u2|]; cbn in Hc;
    try contradiction; auto.
Qed.

Lemma blindly_modify (f : World -> World) :
  (forall w1 w2, but_busy w1 w2 -> but_busy (f w1) (f w2)) -> blindly (modify f).
Proof. intros Hf w1 w2 H. split; [reflexivity | apply Hf; exact H]. Qed.

Lemma blindly_ask {A} (f : World -> A) :
  (forall w1 w2, but_busy w1 w2 -> f w1 = f w2) -> blindly (ask f).
Proof. intros Hf w1 w2 H. split; [apply Hf; exact H | exact H]. Qed.

Section Blind.

Variable C : Collab.
Hypothesis HC : blind C.

Lemma blindly_emit (e : event) : blindly (modify (emit e)).
Proof. apply blindly_modify. apply but_busy_emit. Qed.

Lemma blindly_chat (msg : jstring) : blindly (chat C msg).
Proof.
  intros w1 w2 H. unfold chat. destruct (HC w1 w2 H) as (Hc & _). rewrite Hc.
  destruct (chat_throws C w2 msg); cbn; [exact H|].
  split; [reflexivity | apply but_busy_emit; exact H].
Qed.

Lemma blindly_gotoNear (v : Vec3) : blindly (gotoNear C v).
Proof.
  intros w1 w2 H. unfold gotoNear. destruct (HC w1 w2 H) as (_ & Hp & _).
  rewrite Hp. destruct (pathfind C v w2) as [[ok p]|]; cbn; [|exact H].
  split; [reflexivity | apply but_busy_moved, but_busy_emit; exact H].
Qed.

Lemma blindly_equipPrefer : blindly (equipPrefer C).
Proof.
  intros w1 w2 H. unfold equipPrefer. destruct (HC w1 w2 H) as (_ & _ & _ & He & _).
  rewrite He. destruct (equip_throws C w2); cbn; [exact H|].
  split; [reflexivity | exact H].
Qed.

Lemma blindly_blockAt (v : Vec3) :
  blindly (fun w => match blockAt C v w with
                    | Some b => Ret b w
                    | None => Throw w
                    end).
Proof.
  intros w1 w2 H. destruct (HC w1 w2 H) as (_ & _ & Hb & _).
  rewrite Hb. destruct (blockAt C v w2); cbn; [|exact H].
  split; [reflexivity | exact H].
Qed.

Lemma blindly_safeDig (b : block) : blindly (safeDig C b).
Proof.
  unfold safeDig. destruct (Str.eqb (bname b) (lit "air")); [apply blindly_ret|].
  apply blindly_bind; [apply blindly_modify, but_busy_set | intro].
  apply blindly_bind.
  - apply blindly_ask. intros w1 w2 H. destruct (HC w1 w2 H) as (_ & _ & _ & _ & Hd).
    apply Hd.
  - intro r. apply blindly_bind.
    + apply blindly_modify. intros w1 w2 H. apply but_busy_moved, but_busy_emit.
      exact H.
    + intro. apply blindly_bind; [apply blindly_modify, but_busy_set | intro].
      apply blindly_ret.
Qed.

(** Goals [blindly c] for a computation built from the primitives. *)
Ltac unseeing :=
  repeat first
    [ assumption
    | apply blindly_bind; [| intro]
    | apply blindly_try_catch
    | apply blindly_ret
    | apply blindly_emit
    | apply blindly_chat
    | apply blindly_gotoNear
    | apply blindly_equipPrefer
    | apply blindly_blockAt
    | apply blindly_safeDig
    | match goal with
      | |- blindly (if ?b then _ else _) => destruct b
      | |- blindly (match ?x with _ => _ end) => destruct x
      end ].

Lemma blindly_executeMicroAction (name : jstring) (p : json) :
  blindly (executeMicroAction C name p).
Proof. unfold executeMicroAction, try_chat, log. cbv zeta. unseeing. Qed.

Lemma blindly_executePlan_loop (steps : list json) :
  blindly (executePlan_loop C steps).
Proof.
  induction steps as [|s rest IH]; [apply blindly_ret|].
  cbn [executePlan_loop]. cbv zeta.
  pose proof blindly_executeMicroAction as E.
  destruct (negb (truthy s) || negb (truthy_opt (get "name" s))); [exact IH|].
  unfold log, try_chat, sleep.
  apply blindly_bind; [apply blindly_emit | intro].
  destruct (negb (coords_are_numbers _)); [unseeing|].
  apply blindly_bind.
  - apply blindly_ask. intros w1 w2 (Hp & _). exact Hp.
  - intro here. destruct (distance_gt here _ 10); [unseeing|].
    destruct (negb (Str.mem _ primitives)); [unseeing|].
    apply blindly_bind; [unseeing | intro].
    apply blindly_bind; [apply E | intro]. unseeing.
Qed.

Lemma blindly_executePlan (steps : option json) :
  blindly (executePlan C steps).
Proof.
  unfold executePlan, log. pose proof blindly_executePlan_loop as L.
  apply blindly_bind; [apply blindly_emit | intro].
  destruct steps as [[| | | |l|]|]; try apply blindly_ret. apply L.
Qed.

End Blind.

(** *** Only a dig changes the flag *)

Lemma flag_by_dig_refl (w : World) : flag_by_dig w w.
Proof. exists []. rewrite app_nil_r. repeat split. Qed.

Lemma flag_by_dig_trans (a b c : World) :
  flag_by_dig a b -> flag_by_dig b c -> flag_by_dig a c.
Proof.
  intros (t & Et & Ht) (u & Eu & Hu). exists (t ++ u).
  split; [rewrite Eu, Et, app_assoc; reflexivity|].
  rewrite existsb_app. destruct (existsb is_dig u); [rewrite orb_true_r; exact Hu|].
  rewrite orb_false_r. destruct (existsb is_dig t).
  - destruct Hu as [-> ->]. exact Ht.
  - destruct Hu as [-> ->]. exact Ht.
Qed.

Lemma flag_emit (e : event) :
  is_dig e = false -> keeps flag_by_dig (modify (emit e)).
Proof.
  intros He w. cbn. exists [e]. split; [reflexivity|]. cbn. rewrite He.
  repeat split.
Qed.

Lemma flag_chat (C : Collab) (msg : jstring) : keeps flag_by_dig (chat C msg).
Proof.
  intro w. unfold chat. destruct (chat_throws C w msg).
  - apply flag_by_dig_refl.
  - exact (flag_emit (EChat msg) eq_refl w).
Qed.

Lemma flag_gotoNear (C : Collab) (v : Vec3) : keeps flag_by_dig (gotoNear C v).
Proof.
  intro w. unfold gotoNear. destruct (pathfind C v w) as [[ok p]|].
  - cbn. exists [EGoal v]. repeat split.
  - apply flag_by_dig_refl.
Qed.

Lemma flag_equipPrefer (C : Collab) : keeps flag_by_dig (equipPrefer C).
Proof.
  intro w. unfold equipPrefer. destruct (equip_throws C w); apply flag_by_dig_refl.
Qed.

Lemma flag_blockAt (C : Collab) (v : Vec3) :
  keeps flag_by_dig (fun w => match blockAt C v w with
                              | Some b => Ret b w
                              | None => Throw w
                              end).
Proof. intro w. destruct (blockAt C v w); apply flag_by_dig_refl. Qed.

Lemma flag_safeDig (C : Collab) (b : block) : keeps flag_by_dig (safeDig C b).
Proof.
  intro w. destruct (safeDig_returns C b w) as (ok & w' & -> & Hair & Hdig).
  cbn. destruct (Str.eqb (bname b) (lit "air")).
  - destruct Hair as [-> _]; [reflexivity|]. apply flag_by_dig_refl.
  - destruct Hdig as (Hb & Hc & Ht); [reflexivity|].
    exists [EDig b]. split; [exact Ht|]. cbn. split; assumption.
Qed.

(** Goals [keeps flag_by_dig c] for a computation built from the
    primitives. *)
Ltac flagged :=
  repeat first
    [ assumption
    | apply (keeps_bind _ flag_by_dig_trans); [| intro]
    | apply (keeps_try_catch _ flag_by_dig_trans)
    | apply (keeps_ret _ flag_by_dig_refl)
    | apply (keeps_ask _ flag_by_dig_refl)
    | apply flag_emit; reflexivity
    | apply flag_chat
    | apply flag_gotoNear
    | apply flag_equipPrefer
    | apply flag_blockAt
    | apply flag_safeDig
    | match goal with
      | |- keeps _ (if ?b then _ else _) => destruct b
      | |- keeps _ (match ?x with _ => _ end) => destruct x
      end ].

Lemma flag_executeMicroAction (C : Collab) (name : jstring) (p : json) :
  keeps flag_by_dig (executeMicroAction C name p).
Proof. unfold executeMicroAction, try_chat, log. flagged. Qed.

Lemma flag_executePlan_loop (C : Collab) (steps : list json) :
  keeps flag_by_dig (executePlan_loop C steps).
Proof.
  induction steps as [|s rest IH].
  - apply (keeps_ret _ flag_by_dig_refl).
  - pose proof (flag_executeMicroAction C) as E.
    intro w. rewrite executePlan_loop_cons.
    destruct (validate C (position w) s) as [|r|name p].
    + apply IH.
    + revert w. unfold log, reject, try_chat. flagged.
      destruct r; apply flag_emit; reflexivity.
    + revert w. unfold log, dispatch_step, try_chat, sleep. flagged.
Qed.

Lemma flag_executePlan (C : Collab) (steps : option json) :
  keeps flag_by_dig (executePlan C steps).
Proof.
  unfold executePlan, log. flagged; apply flag_executePlan_loop.
Qed.

Lemma validate_inspect_here (C : Collab) (here : Vec3) (x y z : Z) :
  distance_gt here (Sample.at_ x y z) 10 = false ->
  validate C here (Sample.step "inspect" x y z)
  = Accepted (lit "inspect")
             (Sample.coords (Sample.jn x) (Sample.jn y) (Sample.jn z)).
Proof.
  intro H. unfold validate. cbn -[distance_gt].
  change (vec_of (or_else _ _)) with (Sample.at_ x y z) in *.
  change (distance_gt here
            (vec_of (Sample.coords (Sample.jn x) (Sample.jn y) (Sample.jn z))) 10)
    with (distance_gt here (Sample.at_ x y z) 10).
  rewrite H. reflexivity.
Qed.

(** An inspect step that is in range leaves [busy] and [currentTask] as
    they are, whatever they are. *)
Lemma inspect_step_control (C : Collab) (x y z : Z) (rest : list json) (w : World) :
  (forall v w0, blockAt C v w0 <> None) ->
  distance_gt (position w) (Sample.at_ x y z) 10 = false ->
  exists w1,
    executePlan_loop C (Sample.step "inspect" x y z :: rest) w
    = executePlan_loop C rest w1 /\
    same_control w w1 /\
    dispatches (trace w1) = dispatches (trace w) + 1.
Proof.
  intros Hblock Hnear.
  rewrite executePlan_loop_cons, (validate_inspect_here C _ _ _ _ Hnear).
  unfold bind at 1. cbn [log modify]. unfold bind at 1.
  unfold dispatch_step. cbn [get assoc truthy_opt lit]. cbn [Str.eqb].
  change (truthy_opt (get "rationale" (Sample.step "inspect" x y z))) with false.
  cbn iota. unfold bind at 1. cbn [ret]. unfold bind at 1.
  change (step_name C (Sample.step "inspect" x y z)) with (lit "inspect").
  change (step_params (Sample.step "inspect" x y z))
    with (Sample.coords (Sample.jn x) (Sample.jn y) (Sample.jn z)).
  unfold executeMicroAction.
  change (Str.toLowerCase (lit "inspect")) with (lit "inspect").
  change (Str.mem (lit "inspect") [lit "goto"; lit "goto_coords"; lit "move"])
    with false.
  change (Str.eqb (lit "inspect") (lit "inspect")) with true.
  cbn iota.
  change (truthy (Sample.coords (Sample.jn x) (Sample.jn y) (Sample.jn z)))
    with true.
  cbn iota.
  change (coords_are_numbers (Sample.coords (Sample.jn x) (Sample.jn y) (Sample.jn z)))
    with true.
  cbn [negb]. cbn iota.
  unfold bind at 1. cbn [log modify]. unfold bind at 1.
  match goal with
  | |- context [blockAt C ?v ?w0] =>
      destruct (blockAt C v w0) as [b|] eqn:E; [|exfalso; exact (Hblock _ _ E)]
  end.
  unfold bind at 1. rewrite try_chat_returns.
  unfold bind at 1. cbn [log modify]. cbn [ret]. unfold sleep, modify.
  eexists. split; [reflexivity|]. split.
  - match goal with |- context [if ?c then _ else _] => destruct c end;
      repeat split.
  - match goal with |- context [if ?c then _ else _] => destruct c end;
      cbn [trace emit]; repeat rewrite dispatches_app; cbn; lia.
Qed.

Lemma inspect_steps_control (C : Collab) (x y z : Z) (n : nat) :
  (forall v w0, blockAt C v w0 <> None) ->
  forall w,
    distance_gt (position w) (Sample.at_ x y z) 10 = false ->
    exists w',
      executePlan_loop C (repeat (Sample.step "inspect" x y z) n) w = Ret true w' /\
      same_control w w' /\
      dispatches (trace w') = dispatches (trace w) + n.
Proof.
  intro Hblock. induction n as [|n IH]; intros w Hnear.
  - exists w. split; [reflexivity|]. split; [apply same_control_refl | lia].
  - cbn [repeat].
    destruct (inspect_step_control C x y z (repeat (Sample.step "inspect" x y z) n)
                w Hblock Hnear) as (w1 & -> & Hc & Hd).
    pose proof Hc as (Hp & _). rewrite <- Hp in Hnear.
    destruct (IH w1 Hnear) as (w' & -> & Hc' & Hd').
    exists w'. split; [reflexivity|].
    split; [exact (same_control_trans _ _ _ Hc Hc') | lia].
Qed.

(** C1, as the code has it.  The test of [busy] is in [plannerTick]: a
    tick that finds the flag set returns at once and leaves the state as
    it was.  [executePlan] neither reads the flag nor writes it.  It does
    not read it: on an array it returns [true], or passes on the
    exception of a dispatch, whatever the flag is; with collaborators
    that do not see the flag, two runs from states that differ only in
    [busy] and [currentTask] take the same course, with the same result,
    the same trace and the same moves; and a plan of [n] inspect steps in
    range has its [n] steps dispatched with the flag set as well as
    without.  It does not write it: [busy] and [currentTask] are at the
    end what they were at the start unless [safeDig] dug a block, after
    which both are down; in a plan [safeDig] alone raises the flag, with
    the label [dig], for the run of the dig, and lowers it when the run
    is over.
    So an execution that starts idle ends idle, and one that starts with
    the flag set and digs nothing ends with the flag set: a block looked
    up by an inspect step of a plan run from an idle state finds [busy]
    false, and one run with the flag set finds it true. *)
Theorem C1_busy_guard_is_in_plannerTick :
  forall (C : Collab) (w : World),
    (busy w = true -> plannerTick C w = Ret tt w) /\
    (forall l, true_or_throw (executePlan C (Some (JArr l)) w)) /\
    (blind C ->
     forall steps w2, but_busy w w2 ->
       alike (executePlan C steps w) (executePlan C steps w2)) /\
    (forall (n : nat) (x y z : Z),
       (forall v w0, blockAt C v w0 <> None) ->
       distance_gt (position w) (Sample.at_ x y z) 10 = false ->
       exists w',
         executePlan C (Some (JArr (repeat (Sample.step "inspect" x y z) n))) w
         = Ret true w' /\
         dispatches (trace w') = dispatches (trace w) + n /\
         busy w' = busy w /\ currentTask w' = currentTask w) /\
    (forall steps, ends (executePlan C steps w) (flag_by_dig w)) /\
    (forall b : block,
       safeDig C b w =
       if Str.eqb (bname b) (lit "air") then Ret false w
       else
         let w1 := setBusy true (Some (lit "dig")) w in
         Ret (fst (dig_run C b w1))
             (setBusy false None (moved (snd (dig_run C b w1)) (emit (EDig b) w1)))) /\
    (busy w = false ->
     forall steps, ends (executePlan C steps w) (fun w' => busy w' = false)) /\
    (exists w1 w2,
       executePlan Sample.probing (Some (JArr [Sample.step "inspect" 0 0 0]))
         (Sample.start (Sample.at_ 0 0 0)) = Ret true w1 /\
       chats (trace w1) = [lit "Inspect: idle at 0,0,0"] /\ busy w1 = false /\
       executePlan Sample.probing (Some (JArr [Sample.step "inspect" 0 0 0]))
         Sample.digging = Ret true w2 /\
       chats (trace w2) = [lit "Inspect: busy at 0,0,0"] /\ busy w2 = true /\
       dispatches (trace w2) = 1).
Proof.
  intros C w. split; [apply plannerTick_busy|]. split; [|split; [|split; [|split]]].
  - intro l. rewrite executePlan_array. apply executePlan_loop_true.
  - intros HC steps w2 H. exact (blindly_executePlan C HC steps w w2 H).
  - intros n x y z Hblock Hnear. rewrite executePlan_array.
    destruct (inspect_steps_control C x y z n Hblock
                (emit (ELog "[planner] executePlan called with steps:" []) w) Hnear)
      as (w' & E & (_ & Hb & Ht & _) & Hd).
    exists w'. split; [exact E|]. split; [|split; [exact Hb | exact Ht]].
    rewrite Hd. cbn [emit trace]. rewrite dispatches_app. cbn. lia.
  - intro steps. apply flag_executePlan.
  - split; [|split].
    + intro b. unfold safeDig. destruct (Str.eqb (bname b) (lit "air")); reflexivity.
    + intros H steps. pose proof (idle_executePlan C steps w) as K.
      destruct (executePlan C steps w); cbn in *; auto.
    + eexists _, _. vm_compute. repeat split.
Qed.

Lemma C1_witness :
  plannerTick Sample.calm Sample.digging = Ret tt Sample.digging /\
  alike (executePlan Sample.calm (Some (JArr [Sample.step "dig" 1 0 0]))
           (Sample.start (Sample.at_ 0 0 0)))
        (executePlan Sample.calm (Some (JArr [Sample.step "dig" 1 0 0]))
           Sample.digging) /\
  (exists w',
     executePlan Sample.calm (Some (JArr (repeat (Sample.step "inspect" 1 2 3) 4)))
       Sample.digging = Ret true w' /\
     dispatches (trace w') = dispatches (trace Sample.digging) + 4 /\
     busy w' = busy Sample.digging /\ currentTask w' = currentTask Sample.digging) /\
  ends (executePlan Sample.calm (Some (JArr [Sample.step "dig" 1 0 0]))
          (Sample.start (Sample.at_ 0 0 0)))
       (fun w' => busy w' = false).
Proof.
  destruct (C1_busy_guard_is_in_plannerTick Sample.calm Sample.digging)
    as (H1 & _ & _ & H4 & _).
  destruct (C1_busy_guard_is_in_plannerTick Sample.calm
              (Sample.start (Sample.at_ 0 0 0))) as (_ & _ & H3 & _ & _ & _ & H7 & _).
  split; [apply H1; reflexivity|]. split; [|split].
  - apply H3.
    + intros w1 w2 _. repeat split.
    + apply but_busy_setBusy.
  - apply H4.
    + intros v w0. discriminate.
    + reflexivity.
  - apply H7. reflexivity.
Defined.

(** C1 as stated fails: called while [busy] is set, [executePlan] is not
    without effect; the step of the plan is dispatched. *)
Lemma C1_counterexample :
  ~ (forall (C : Collab) (steps : option json) (w : World),
       busy w = true ->
       ends (executePlan C steps w)
            (fun w' => dispatches (trace w') = dispatches (trace w))).
Proof.
  intro H.
  specialize (H Sample.calm (Some (JArr [Sample.step "inspect" 0 0 0]))
                Sample.digging eq_refl).
  vm_compute in H. discriminate H.
Qed.

(* ------------------------------------------------------------------ *)
(** ** A dispatch that throws (C2) *)

(** In the loops of [gptPlanAndExecute], of the chat handler and of the
    command fallback every action runs under its own [try]: whether the
    action returns or throws, the loop pauses and goes on with the rest. *)
Lemma each_isolated_cons (run : json -> M bool) (line : string)
      (a : json) (rest : list json) (w : World) :
  run a w <> OutOfFuel ->
  exists w1,
    each_isolated run line (a :: rest) w =
    each_isolated run line rest (emit (ESleep 150) w1) /\
    ((exists b, run a w = Ret b w1) \/
     (exists w0, run a w = Throw w0 /\ w1 = emit (EError line) w0)).
Proof.
  intro Hrun. cbn [each_isolated]. unfold bind at 1. unfold try_catch, bind at 1.
  destruct (run a w) as [b w1|w0|] eqn:E; [| |contradiction].
  - exists w1. split; [reflexivity|]. left. exists b. reflexivity.
  - exists (emit (EError line) w0). split; [reflexivity|]. right.
    exists w0. split; reflexivity.
Qed.

Lemma each_isolated_returns (run : json -> M bool) (line : string)
      (actions : list json) (w : World) :
  (forall a w0, run a w0 <> OutOfFuel) ->
  exists w', each_isolated run line actions w = Ret tt w'.
Proof.
  intro Hrun. revert w. induction actions as [|a rest IH]; intro w.
  - exists w. reflexivity.
  - destruct (each_isolated_cons run line a rest w (Hrun a w)) as (w1 & -> & _).
    apply IH.
Qed.

Lemma dispatch_step_throws (C : Collab) (s : json) :
  (forall w0, exists w1, executeMicroAction C (step_name C s) (step_params s) w0
                         = Throw w1) ->
  forall w0, exists w1, dispatch_step C s w0 = Throw w1.
Proof.
  intros Hthrow w0. unfold dispatch_step, bind.
  destruct (truthy_opt (get "rationale" s)).
  - rewrite try_chat_returns.
    match goal with
    | |- context [executeMicroAction C _ _ ?w] => destruct (Hthrow w) as (w1 & ->)
    end.
    eexists; reflexivity.
  - cbn [ret]. destruct (Hthrow w0) as (w1 & ->). eexists; reflexivity.
Qed.

(** In [executePlan] the dispatch is not under a [try]: when the dispatch
    of a step throws, the loop ends there with the exception; the pause
    is skipped and no later step is looked at. *)
Lemma executePlan_loop_stops_at_throw (C : Collab) (s : json) (rest : list json)
      (w : World) (name : jstring) (p : json) :
  validate C (position w) s = Accepted name p ->
  (forall w0, exists w1, executeMicroAction C (step_name C s) (step_params s) w0
                         = Throw w1) ->
  exists w', executePlan_loop C (s :: rest) w = Throw w' /\
             executePlan_loop C (s :: rest) w = executePlan_loop C [s] w.
Proof.
  intros Hv Hthrow. rewrite !executePlan_loop_cons, Hv.
  unfold bind, log, modify.
  destruct (dispatch_step_throws C s Hthrow
              (emit (ELog "[planner] executing step:"
                       [JStr (step_name C s); step_params s]) w)) as (w1 & ->).
  eexists; split; reflexivity.
Qed.

(** C2 at the failing input: with a pathfinder whose goal setting throws,
    the plan [goto (1,0,0); inspect (0,0,0)] run by [executePlan] ends
    with the exception of the first dispatch: one dispatch, no pause, the
    inspect step never attempted, no value returned; the same two actions
    run by [gptPlanAndExecute] are both attempted, with a pause after
    each, and [true] is returned. *)
Theorem C2_executePlan_stops_at_throw :
  let plan := [Sample.step "goto" 1 0 0; Sample.step "inspect" 0 0 0] in
  let w := Sample.start (Sample.at_ 0 0 0) in
  (exists w',
     executePlan Sample.no_path (Some (JArr plan)) w = Throw w' /\
     dispatches (trace w') = 1 /\
     filter is_sleep (trace w') = [] /\
     chats (trace w') = []) /\
  (exists w',
     gptPlanAndExecute Sample.no_path 2 (lit "bob")
       (Sample.dq "{'actions':[{'name':'goto','params':{'x':1,'y':0,'z':0}},{'name':'inspect','params':{'x':0,'y':0,'z':0}}]}")
       w = Ret true w' /\
     dispatches (trace w') = 2 /\
     filter is_sleep (trace w') = [ESleep 150; ESleep 150] /\
     chats (trace w') = [lit "Inspect: stone at 0,0,0"]).
Proof.
  split; eexists; vm_compute; repeat split.
Qed.


(* ------------------------------------------------------------------ *)
(** ** The length of a plan (C3) *)

(** An inspect step that is in range is dispatched, the bot stays where
    it is, and the loop goes on with the rest. *)
Lemma inspect_step_runs (C : Collab) (x y z : Z) (rest : list json) (w : World) :
  (forall v w0, blockAt C v w0 <> None) ->
  distance_gt (position w) (Sample.at_ x y z) 10 = false ->
  exists w1,
    executePlan_loop C (Sample.step "inspect" x y z :: rest) w
    = executePlan_loop C rest w1 /\
    position w1 = position w /\
    dispatches (trace w1) = dispatches (trace w) + 1.
Proof.
  intros Hblock Hnear.
  rewrite executePlan_loop_cons, (validate_inspect_here C _ _ _ _ Hnear).
  unfold bind at 1. cbn [log modify]. unfold bind at 1.
  unfold dispatch_step. cbn [get assoc truthy_opt lit]. cbn [Str.eqb].
  change (truthy_opt (get "rationale" (Sample.step "inspect" x y z))) with false.
  cbn iota. unfold bind at 1. cbn [ret]. unfold bind at 1.
  change (step_name C (Sample.step "inspect" x y z)) with (lit "inspect").
  change (step_params (Sample.step "inspect" x y z))
    with (Sample.coords (Sample.jn x) (Sample.jn y) (Sample.jn z)).
  unfold executeMicroAction.
  change (Str.toLowerCase (lit "inspect")) with (lit "inspect").
  change (Str.mem (lit "inspect") [lit "goto"; lit "goto_coords"; lit "move"])
    with false.
  change (Str.eqb (lit "inspect") (lit "inspect")) with true.
  cbn iota.
  change (truthy (Sample.coords (Sample.jn x) (Sample.jn y) (Sample.jn z)))
    with true.
  cbn iota.
  change (coords_are_numbers (Sample.coords (Sample.jn x) (Sample.jn y) (Sample.jn z)))
    with true.
  cbn [negb]. cbn iota.
  unfold bind at 1. cbn [log modify]. unfold bind at 1.
  match goal with
  | |- context [blockAt C ?v ?w0] =>
      destruct (blockAt C v w0) as [b|] eqn:E; [|exfalso; exact (Hblock _ _ E)]
  end.
  unfold bind at 1. rewrite try_chat_returns.
  unfold bind at 1. cbn [log modify]. cbn [ret]. unfold sleep, modify.
  eexists. split; [reflexivity|]. split.
  - match goal with |- context [if ?c then _ else _] => destruct c end; reflexivity.
  - match goal with |- context [if ?c then _ else _] => destruct c end;
      cbn [trace emit]; repeat rewrite dispatches_app; cbn; lia.
Qed.

(** C3, as the code has it: [executePlan] applies no length cap (the
    limit of 8 steps is only asked of the language model in the prompt):
    every step of the array comes up for validation, so a plan of [n]
    inspect steps in range leads to [n] dispatches, for every [n]; the
    only bound on the dispatches of a plan is its own length. *)
Theorem C3_no_length_cap :
  forall (C : Collab) (w : World),
    (forall steps,
       ends (executePlan_loop C steps w)
            (fun w' => dispatches (trace w') <= dispatches (trace w) + List.length steps)) /\
    (forall (n : nat) (x y z : Z),
       (forall v w0, blockAt C v w0 <> None) ->
       distance_gt (position w) (Sample.at_ x y z) 10 = false ->
       exists w',
         executePlan_loop C (repeat (Sample.step "inspect" x y z) n) w = Ret true w' /\
         dispatches (trace w') = dispatches (trace w) + n).
Proof.
  intros C w. split.
  - intro steps. exact (adds_executePlan_loop C steps w).
  - intros n x y z Hblock. revert w. induction n as [|n IH]; intros w Hnear.
    + exists w. split; [reflexivity|]. lia.
    + cbn [repeat].
      destruct (inspect_step_runs C x y z (repeat (Sample.step "inspect" x y z) n)
                  w Hblock Hnear) as (w1 & -> & Hp & Hd).
      rewrite <- Hp in Hnear. destruct (IH w1 Hnear) as (w' & -> & Hd').
      exists w'. split; [reflexivity|]. lia.
Qed.

Lemma C3_witness :
  exists w',
    executePlan_loop Sample.calm (repeat (Sample.step "inspect" 1 2 3) 12)
      (Sample.start (Sample.at_ 0 0 0)) = Ret true w' /\
    dispatches (trace w') = dispatches (trace (Sample.start (Sample.at_ 0 0 0))) + 12.
Proof.
  apply (proj2 (C3_no_length_cap Sample.calm (Sample.start (Sample.at_ 0 0 0)))).
  - intros v w0. discriminate.
  - reflexivity.
Defined.

(** C3 as stated fails: a plan of eleven steps has all eleven dispatched,
    one more than the largest cap of the specification. *)
Lemma C3_counterexample :
  ~ (forall (C : Collab) (steps : list json) (w : World),
       ends (executePlan C (Some (JArr steps)) w)
            (fun w' => dispatches (trace w') <= dispatches (trace w) + Spec.cap)).
Proof.
  intro H.
  specialize (H Sample.calm (repeat (Sample.step "inspect" 1 2 3) 11)
                (Sample.start (Sample.at_ 0 0 0))).
  vm_compute in H. lia.
Qed.

(* ------------------------------------------------------------------ *)
(** ** Rejections (C4, C5) *)







(** C5, as the code has it: a step with a primitive name is rejected
    with "missing coordinates" exactly when one of [params.x], [params.y],
    [params.z] is not of type number (a number that is not finite passes
    this test); otherwise it is rejected as out of range exactly when the
    number that [distanceTo] computes from the position the bot has when
    the step comes up exceeds 10.  [distanceTo] works in doubles: each
    difference, square and sum is rounded, and so is the square root.
    Between positions with whole-number coordinates whose squared
    distance is below [2^53] nothing is rounded off, and the step is out
    of range exactly when the sum of the squares exceeds 100.  Within one
    rounding of the bound the computed distance decides, not the exact
    one: from the origin the step to (10, 2^-30, 0) is accepted, the sum
    of its squares being rounded to 100.  A target with an infinite
    coordinate (and no [NaN]) is out of range from every finite position.
    From the origin a goto to (20,0,0) is out of range and a goto to
    (5,0,5) is accepted, and a goto to (16,0,0) is accepted once a goto
    to (8,0,0) has moved the bot. *)
Theorem C5_coordinates_and_range :
  (forall (C : Collab) (s : json) (rest : list json) (w : World),
     truthy s = true -> truthy_opt (get "name" s) = true ->
     Str.mem (step_name C s) primitives = true ->
     (validate C (position w) s = Rejected MissingCoordinates <->
      coords_are_numbers (step_params s) = false) /\
     (coords_are_numbers (step_params s) = true ->
      validate C (position w) s =
      if distance_gt (position w) (vec_of (step_params s)) 10
      then Rejected OutOfRange
      else Accepted (step_name C s) (step_params s)) /\
     executePlan_loop C (s :: rest) w =
     match validate C (position w) s with
     | Ignored => executePlan_loop C rest w
     | Rejected r =>
         (log "[planner] executing step:" [JStr (step_name C s); step_params s] ;;
          reject C r s ;;
          executePlan_loop C rest) w
     | Accepted _ _ =>
         (log "[planner] executing step:" [JStr (step_name C s); step_params s] ;;
          dispatch_step C s ;;
          executePlan_loop C rest) w
     end) /\
  (forall px py pz x y z : Z,
     let d2 := ((x - px) * (x - px) + (y - py) * (y - py)
                + (z - pz) * (z - pz))%Z in
     (d2 < 2 ^ 53)%Z ->
     (distance_gt (Sample.at_ px py pz) (Sample.at_ x y z) 10 = true <->
      (100 < d2)%Z)) /\
  (forall (px py pz : Q) (t : Vec3),
     num_isNaN (vx t) = false -> num_isNaN (vy t) = false ->
     num_isNaN (vz t) = false ->
     num_infinite (vx t) || num_infinite (vy t) || num_infinite (vz t) = true ->
     distance_gt (mkVec3 (Fin px) (Fin py) (Fin pz)) t 10 = true) /\
  (let w := Sample.start (Sample.at_ 0 0 0) in
   validate Sample.calm (position w) (Sample.step "goto" 20 0 0)
   = Rejected OutOfRange /\
   validate Sample.calm (position w) (Sample.step "goto" 5 0 5)
   = Accepted (lit "goto")
       (Sample.coords (Sample.jn 5) (Sample.jn 0) (Sample.jn 5)) /\
   validate Sample.calm (position w) (Sample.step "goto" 16 0 0)
   = Rejected OutOfRange /\
   (exists w',
      executePlan Sample.calm
        (Some (JArr [Sample.step "goto" 8 0 0; Sample.step "goto" 16 0 0])) w
      = Ret true w' /\
      dispatches (trace w') = 2 /\ position w' = Sample.at_ 16 0 0) /\
   JParse.parse
     (Sample.dq "{'name':'goto','params':{'x':10,'y':9.313225746154785e-10,'z':0}}")
   = Val Sample.near_step /\
   (100 < 10 * 10 + (1 # 2 ^ 30) * (1 # 2 ^ 30) + 0 * 0)%Q /\
   dist_sq (position w) (vec_of (step_params Sample.near_step)) = Fin 100 /\
   validate Sample.calm (position w) Sample.near_step
   = Accepted (lit "goto") (step_params Sample.near_step)).
Proof.
  split; [|split; [|split]].
  - intros C s rest w Hs Hn Hp. split; [|split].
    + unfold validate. rewrite Hs, Hn, Hp. cbn [negb orb].
      destruct (coords_are_numbers (step_params s)); cbn [negb].
      * destruct (distance_gt _ _ _); split; discriminate.
      * split; reflexivity.
    + intro Hc. unfold validate. rewrite Hs, Hn, Hp, Hc. reflexivity.
    + apply executePlan_loop_cons.
  - exact distance_gt_whole.
  - intros px py pz t Nx Ny Nz Hi.
    exact (proj2 (distance_gt_infinite px py pz t 10 Nx Ny Nz Hi)).
  - cbv zeta. repeat (split; [vm_compute; reflexivity|]).
    split; [eexists; vm_compute; repeat split|].
    repeat split; vm_compute; reflexivity.
Qed.

Lemma C5_witness :
  validate Sample.calm (position (Sample.start (Sample.at_ 3 0 0)))
    (Sample.step "dig" 12 0 0) =
  (if distance_gt (position (Sample.start (Sample.at_ 3 0 0)))
        (vec_of (step_params (Sample.step "dig" 12 0 0))) 10
   then Rejected OutOfRange
   else Accepted (step_name Sample.calm (Sample.step "dig" 12 0 0))
          (step_params (Sample.step "dig" 12 0 0))) /\
  (distance_gt (Sample.at_ 0 0 0) (Sample.at_ 6 8 1) 10 = true <->
   (100 < (6 - 0) * (6 - 0) + (8 - 0) * (8 - 0) + (1 - 0) * (1 - 0))%Z) /\
  distance_gt (mkVec3 (Fin 0) (Fin 0) (Fin 0)) (mkVec3 (Fin 0) NInf (Fin 5)) 10 = true.
Proof.
  split; [|split].
  - apply (proj1 (proj2 (proj1 C5_coordinates_and_range Sample.calm
                           (Sample.step "dig" 12 0 0) []
                           (Sample.start (Sample.at_ 3 0 0))
                           eq_refl eq_refl eq_refl))).
    reflexivity.
  - apply (proj1 (proj2 C5_coordinates_and_range) 0 0 0 6 8 1)%Z. reflexivity.
  - apply (proj1 (proj2 (proj2 C5_coordinates_and_range)) 0%Q 0%Q 0%Q
             (mkVec3 (Fin 0) NInf (Fin 5))); reflexivity.
Defined.

(** C5 as stated fails: a coordinate that is a number but not a finite one
    is not reported as missing; the step is rejected as out of range. *)
Lemma C5_counterexample :
  ~ (forall (C : Collab) (here : Vec3) (s : json),
       truthy s = true -> truthy_opt (get "name" s) = true ->
       Str.mem (step_name C s) primitives = true ->
       Spec.coords_finite (step_params s) = false ->
       validate C here s = Rejected MissingCoordinates).
Proof.
  intro H.
  specialize (H Sample.calm (Sample.at_ 0 0 0) Sample.far_step
                eq_refl eq_refl eq_refl eq_refl).
  vm_compute in H. discriminate H.
Qed.

(** The step of the counterexample is what [JSON.parse] makes of a plan
    written by the language model, and the notice it leads to. *)
Example far_step_from_json :
  JParse.parse (Sample.dq "{'name':'goto','params':{'x':1e999,'y':0,'z':0}}")
  = Val Sample.far_step /\
  exists w',
    executePlan Sample.calm (Some (JArr [Sample.far_step]))
      (Sample.start (Sample.at_ 0 0 0)) = Ret true w' /\
    chats (trace w') = [lit "Skipping out-of-range step at Infinity,0,0"].
Proof.
  split; [vm_compute; reflexivity|]. eexists. vm_compute. repeat split.
Qed.

(* ------------------------------------------------------------------ *)
(** ** The command gate (C6, C10) *)

Lemma send_command_accepted (C : Collab) (cmd : jstring) (w : World) :
  chat_throws C (emit (ELog "Executing server command:" [JStr (with_slash cmd)]) w)
              (with_slash cmd) = false ->
  send_command C cmd w =
  Ret true (emit (EChat (with_slash cmd))
              (emit (ELog "Executing server command:" [JStr (with_slash cmd)]) w)).
Proof.
  intro H. unfold send_command, try_catch, bind, log, modify, chat.
  rewrite H. reflexivity.
Qed.


Lemma gate_open (C : Collab) (allow : bool) (cmd : jstring) (w : World) :
  (0 < Str.len cmd)%Z -> allow || botIsOp w = true ->
  tryExecuteCommand_gate C allow cmd w = send_command C cmd w.
Proof.
  intros Hc Hg. destruct cmd as [|c t]; [discriminate Hc|].
  unfold tryExecuteCommand_gate, bind, ask.
  destruct allow, (botIsOp w); try discriminate; reflexivity.
Qed.


Lemma flag_true (C : Collab) (x : string) : flag C x = true.
Proof. unfold flag. apply orb_true_r. Qed.




(** C10: whatever the environment holds, [ALLOW_COMMANDS] and
    [ALLOW_DESTRUCTIVE] are [true]; so [tryExecuteCommand] never takes its
    refusal branch, not even with [botIsOp] false: a command that is not
    empty always reaches the [try] block that sends it, slash in front,
    to the chat, and [true] is returned (when the chat takes it). *)
Theorem C10_flags_are_constant_true :
  forall (C : Collab),
    ALLOW_COMMANDS C = true /\ ALLOW_DESTRUCTIVE C = true /\
    forall (cmd : jstring) (w : World),
      (0 < Str.len cmd)%Z ->
      tryExecuteCommand C cmd w = send_command C cmd w /\
      (chat_throws C (emit (ELog "Executing server command:" [JStr (with_slash cmd)]) w)
                   (with_slash cmd) = false ->
       tryExecuteCommand C cmd w =
       Ret true (emit (EChat (with_slash cmd))
                   (emit (ELog "Executing server command:" [JStr (with_slash cmd)]) w)))
      /\
      (Str.startsWith cmd (lit "/") = false -> with_slash cmd = lit "/" ++ cmd) /\
      (Str.startsWith cmd (lit "/") = true -> with_slash cmd = cmd).
Proof.
  intro C. split; [apply flag_true|]. split; [apply flag_true|].
  intros cmd w Hc.
  assert (E : tryExecuteCommand C cmd w = send_command C cmd w).
  { unfold tryExecuteCommand. apply gate_open; [exact Hc|].
    unfold ALLOW_COMMANDS. rewrite flag_true. reflexivity. }
  split; [exact E|]. split; [|split].
  - intro Hq. rewrite E. apply send_command_accepted. exact Hq.
  - intro H. unfold with_slash. rewrite H. reflexivity.
  - intro H. unfold with_slash. rewrite H. reflexivity.
Qed.

(** An environment that sets both variables to 0. *)
Lemma C10_witness :
  let w := mkWorld (Sample.at_ 0 0 0) false None false true [] in
  tryExecuteCommand Sample.forbidding (lit "op bob") w
  = Ret true (emit (EChat (lit "/op bob"))
                (emit (ELog "Executing server command:" [JStr (lit "/op bob")]) w)).
Proof.
  cbv zeta.
  apply (proj1 (proj2 (proj2 (proj2 (C10_flags_are_constant_true Sample.forbidding))
                         (lit "op bob")
                         (mkWorld (Sample.at_ 0 0 0) false None false true [])
                         eq_refl))).
  reflexivity.
Defined.

(** With the chat down the command is attempted all the same, and the
    handler of the [try] block answers [false]. *)
Example send_command_chat_down :
  tryExecuteCommand Sample.mute (lit "time set day") (Sample.start (Sample.at_ 0 0 0))
  = Ret false
      (emit (ELog "Executing server command:" [JStr (lit "/time set day")])
            (Sample.start (Sample.at_ 0 0 0))).
Proof. reflexivity. Qed.

(* ------------------------------------------------------------------ *)
(** ** The sanitizer (C9) *)

Lemma slice_prefix (s : jstring) (n : Z) :
  (0 <= n <= Str.len s)%Z -> Str.slice s 0 n = firstn (Z.to_nat n) s.
Proof.
  intro H. unfold Str.slice, Str.rel.
  destruct (0 <? 0)%Z eqn:E0; [discriminate|].
  destruct (n <? 0)%Z eqn:En; [apply Z.ltb_lt in En; lia|].
  rewrite (Z.min_l 0) by (unfold Str.len; lia).
  rewrite (Z.min_l n) by lia.
  rewrite Z.sub_0_r. reflexivity.
Qed.

Lemma len_app (a b : jstring) : Str.len (a ++ b) = (Str.len a + Str.len b)%Z.
Proof. unfold Str.len. rewrite length_app. lia. Qed.

Lemma sanitize_unfold (c : N) (t : jstring) :
  sanitizeLLMReplyForChat (c :: t) =
  let s := cleaned (c :: t) in
  if Str.startsWith s (34%N :: lit "Alright, let") then []
  else if (240 <? Str.len s)%Z then firstn 237 s ++ lit "..."
  else s.
Proof.
  unfold sanitizeLLMReplyForChat. cbv zeta.
  destruct (Str.startsWith _ _); [reflexivity|].
  destruct (240 <? Str.len (cleaned (c :: t)))%Z eqn:E; [|reflexivity].
  apply Z.ltb_lt in E. rewrite slice_prefix by (unfold Str.len in *; lia).
  reflexivity.
Qed.

(** C9: [sanitizeLLMReplyForChat] is a function of its argument alone; its
    result is never longer than 240 code units; when the cleaned text is
    longer than that (and is not the refused preamble), the result is the
    first 237 units of the cleaned text followed by three dots, 240 units
    in all; the empty string gives the empty string; a plain text of 500
    units gives 240 units that end with the three dots. *)
Theorem C9_sanitize_bound :
  (forall reply : jstring,
     (Str.len (sanitizeLLMReplyForChat reply) <= 240)%Z /\
     ((0 < Str.len reply)%Z ->
      Str.startsWith (cleaned reply) (34%N :: lit "Alright, let") = false ->
      (240 < Str.len (cleaned reply))%Z ->
      sanitizeLLMReplyForChat reply = firstn 237 (cleaned reply) ++ lit "..." /\
      Str.len (sanitizeLLMReplyForChat reply) = 240%Z) /\
     ((0 < Str.len reply)%Z ->
      Str.startsWith (cleaned reply) (34%N :: lit "Alright, let") = false ->
      (Str.len (cleaned reply) <= 240)%Z ->
      sanitizeLLMReplyForChat reply = cleaned reply)) /\
  sanitizeLLMReplyForChat [] = [] /\
  (let out := sanitizeLLMReplyForChat (repeat 97%N 500) in
   Str.len out = 240%Z /\ out = repeat 97%N 237 ++ lit "...").
Proof.
  split; [|split; [reflexivity|]].
  - intro reply. destruct reply as [|c t].
    + split; [cbn; lia|]. split; intro H; discriminate H.
    + rewrite sanitize_unfold. cbv zeta.
      destruct (Str.startsWith (cleaned (c :: t)) _) eqn:Ep.
      * split; [cbn; lia|]. split; intros _ H; discriminate H.
      * destruct (240 <? Str.len (cleaned (c :: t)))%Z eqn:E.
        -- apply Z.ltb_lt in E.
           assert (L : Str.len (firstn 237 (cleaned (c :: t)) ++ lit "...") = 240%Z).
           { rewrite len_app. unfold Str.len in *. rewrite length_firstn.
             rewrite Nat.min_l by lia. reflexivity. }
           split; [rewrite L; lia|]. split.
           ++ intros _ _ _. split; [reflexivity | exact L].
           ++ intros _ _ H. lia.
        -- apply Z.ltb_ge in E. split; [exact E|]. split.
           ++ intros _ _ H. lia.
           ++ intros _ _ _. reflexivity.
  - cbv zeta. vm_compute. split; reflexivity.
Qed.

Lemma C9_witness :
  sanitizeLLMReplyForChat (repeat 120%N 300) =
  firstn 237 (cleaned (repeat 120%N 300)) ++ lit "..." /\
  Str.len (sanitizeLLMReplyForChat (repeat 120%N 300)) = 240%Z.
Proof.
  apply (proj1 (proj2 (proj1 C9_sanitize_bound (repeat 120%N 300)))).
  - reflexivity.
  - vm_compute. reflexivity.
  - vm_compute. reflexivity.
Defined.

(* ------------------------------------------------------------------ *)
(** ** Extraction (C7, C8) *)

Lemma try_json_val (accept : json -> option json) (t : jstring) :
  exists r, try_json accept t = Val r /\
    (r = None \/ exists obj, JParse.parse t = Val obj /\ accept obj = r).
Proof.
  unfold try_json, catch, andThen. destruct (JParse.parse t) as [obj|].
  - exists (accept obj). split; [reflexivity|]. right. exists obj. split; reflexivity.
  - exists None. split; [reflexivity|]. left. reflexivity.
Qed.

Lemma indexOf_nil (p : jstring) (from : Z) :
  p <> [] -> Str.indexOf p [] from = (-1)%Z.
Proof.
  intro H. unfold Str.indexOf. destruct p; [contradiction|].
  rewrite skipn_nil. reflexivity.
Qed.

(** When the fenced block parses to an accepted object, that object is
    the result, whatever else the text holds. *)
Lemma fenced_first (key : jstring) (accept : json -> option json)
      (text : jstring) (obj v : json) :
  let start := Str.indexOf (lit "```json") text 0 in
  let stop := Str.indexOf (lit "```") text (start + 7) in
  (0 <= start)%Z -> (0 <= stop)%Z ->
  JParse.parse (Str.trim (Str.slice text (start + 7) stop)) = Val obj ->
  accept obj = Some v ->
  fenced_or_inline key accept text = Val (Some v).
Proof.
  cbv zeta. intros Hs He Hp Ha. unfold fenced_or_inline.
  destruct text as [|c t].
  - rewrite indexOf_nil in Hs by discriminate. lia.
  - destruct (Str.indexOf (lit "```json") (c :: t) 0 =? -1)%Z eqn:E1;
      [apply Z.eqb_eq in E1; lia|].
    destruct (Str.indexOf (lit "```") (c :: t)
                (Str.indexOf (lit "```json") (c :: t) 0 + 7) =? -1)%Z eqn:E2;
      [apply Z.eqb_eq in E2; lia|].
    cbn [negb andb]. unfold try_json. rewrite Hp. cbn [andThen catch].
    rewrite Ha. reflexivity.
Qed.

(** A value that [fenced_or_inline] returns was accepted in the object
    of the first fenced block, or in the object that the scan for the key
    cuts out of the text. *)
Lemma fenced_or_inline_source (key : jstring) (accept : json -> option json)
      (text : jstring) (v : json) :
  fenced_or_inline key accept text = Val (Some v) ->
  let start := Str.indexOf (lit "```json") text 0 in
  let stop := Str.indexOf (lit "```") text (start + 7) in
  (start <> (-1)%Z /\ stop <> (-1)%Z /\
   exists obj, JParse.parse (Str.trim (Str.slice text (start + 7) stop)) = Val obj /\
               accept obj = Some v) \/
  (let keyIdx := Str.indexOf key text 0 in
   keyIdx <> (-1)%Z /\
   exists (brace i : Z) (obj : json),
     (brace = Str.lastIndexOf [123%N] text keyIdx \/
      brace = Str.indexOf [123%N] text keyIdx) /\
     closing_brace (Str.sliceFrom text brace) brace 0 = Some i /\
     JParse.parse (Str.slice text brace (i + 1)) = Val obj /\
     accept obj = Some v).
Proof.
  unfold fenced_or_inline. destruct text as [|c t]; [discriminate|].
  set (text := c :: t). cbv zeta.
  assert (T : forall jt r, try_json accept jt = Val (Some r) ->
                exists obj, JParse.parse jt = Val obj /\ accept obj = Some r).
  { intros jt r E. destruct (try_json_val accept jt) as (r' & E' & [->|(obj & Hp & Ha)]).
    - rewrite E in E'. discriminate E'.
    - exists obj. split; [exact Hp|]. rewrite Ha. congruence. }
  assert (Inline :
    (let keyIdx := Str.indexOf key text 0 in
     if (keyIdx =? -1)%Z then Val None
     else
       let start :=
         let back := Str.lastIndexOf [123%N] text keyIdx in
         if (back =? -1)%Z then Str.indexOf [123%N] text keyIdx else back in
       if (start =? -1)%Z then Val None
       else
         match closing_brace (Str.sliceFrom text start) start 0 with
         | Some i => try_json accept (Str.slice text start (i + 1))
         | None => Val None
         end) = Val (Some v) ->
    Str.indexOf key text 0 <> (-1)%Z /\
    exists (brace i : Z) (obj : json),
      (brace = Str.lastIndexOf [123%N] text (Str.indexOf key text 0) \/
       brace = Str.indexOf [123%N] text (Str.indexOf key text 0)) /\
      closing_brace (Str.sliceFrom text brace) brace 0 = Some i /\
      JParse.parse (Str.slice text brace (i + 1)) = Val obj /\
      accept obj = Some v).
  { cbv zeta. destruct (Str.indexOf key text 0 =? -1)%Z eqn:Ek; [discriminate|].
    apply Z.eqb_neq in Ek. intro H. split; [exact Ek|].
    destruct (Str.lastIndexOf [123%N] text (Str.indexOf key text 0) =? -1)%Z.
    - destruct (_ =? -1)%Z; [discriminate H|].
      destruct (closing_brace _ _ _) as [i|] eqn:Ec; [|discriminate H].
      destruct (T _ _ H) as (obj & Hp & Ha).
      exists (Str.indexOf [123%N] text (Str.indexOf key text 0)), i, obj.
      repeat split; auto.
    - destruct (_ =? -1)%Z; [discriminate H|].
      destruct (closing_brace _ _ _) as [i|] eqn:Ec; [|discriminate H].
      destruct (T _ _ H) as (obj & Hp & Ha).
      exists (Str.lastIndexOf [123%N] text (Str.indexOf key text 0)), i, obj.
      repeat split; auto. }
  destruct (Str.indexOf (lit "```json") text 0 =? -1)%Z eqn:E1.
  - cbn [negb andb andThen]. intro H. right. apply Inline. exact H.
  - destruct (Str.indexOf (lit "```") text
                (Str.indexOf (lit "```json") text 0 + 7) =? -1)%Z eqn:E2.
    + cbn [negb andb andThen]. intro H. right. apply Inline. exact H.
    + cbn [negb andb]. apply Z.eqb_neq in E1, E2.
      destruct (try_json accept _) as [[r|]|] eqn:Et; cbn [andThen].
      * intro H. injection H as ->. left. split; [exact E1|]. split; [exact E2|].
        apply T. exact Et.
      * intro H. right. apply Inline. exact H.
      * discriminate.
Qed.

(** Without a fenced block that is accepted and without the key in the
    text, [fenced_or_inline] finds nothing. *)
Lemma fenced_or_inline_none (key : jstring) (accept : json -> option json)
      (text : jstring) (obj : json) :
  let start := Str.indexOf (lit "```json") text 0 in
  let stop := Str.indexOf (lit "```") text (start + 7) in
  JParse.parse (Str.trim (Str.slice text (start + 7) stop)) = Val obj ->
  accept obj = None ->
  Str.indexOf key text 0 = (-1)%Z ->
  fenced_or_inline key accept text = Val None.
Proof.
  cbv zeta. intros Hp Ha Hk. unfold fenced_or_inline.
  destruct text as [|c t]; [reflexivity|].
  unfold try_json. rewrite Hp. cbn [andThen catch]. rewrite Ha, Hk.
  destruct (negb _ && negb _); reflexivity.
Qed.

(** C7, as the code has it.  [parsePlanFromReply] looks at one fenced
    block only, the first that opens with [```json]: when its text parses
    to an object with a [plan] whose [steps] is an array, that plan is
    returned, whatever follows, and a directive line adds nothing to it.
    A plan that is returned comes from that first block or from the
    object that the scan cuts out around the first quoted key [plan];
    a valid fenced plan further down is not looked for: on a text whose
    first block is cut short after the key and whose second block holds
    the plan of the example the result is [null].  On the text of the
    example the result is the plan with the single step [inspect] at
    (1,2,3).  [gptPlanAndExecute] does not call [parsePlanFromReply]: it
    reads the array [actions] with [parseJsonActionsFromReply], to which a
    block with a plan and no [actions] is nothing, and then the directive
    line; on the text of the example it therefore runs the [dig] of the
    directive line and nothing else.  The actions of a fenced block whose
    [actions] array is not empty come before those of a directive
    line. *)
Theorem C7_first_fence_then_inline :
  (forall (text : jstring) (obj plan : json),
     let start := Str.indexOf (lit "```json") text 0 in
     let stop := Str.indexOf (lit "```") text (start + 7) in
     (0 <= start)%Z -> (0 <= stop)%Z ->
     JParse.parse (Str.trim (Str.slice text (start + 7) stop)) = Val obj ->
     plan_in obj = Some plan ->
     parsePlanFromReply text = Val (Some plan)) /\
  (forall (text : jstring) (plan : json),
     parsePlanFromReply text = Val (Some plan) ->
     let start := Str.indexOf (lit "```json") text 0 in
     let stop := Str.indexOf (lit "```") text (start + 7) in
     (start <> (-1)%Z /\ stop <> (-1)%Z /\
      exists obj,
        JParse.parse (Str.trim (Str.slice text (start + 7) stop)) = Val obj /\
        plan_in obj = Some plan) \/
     (let keyIdx := Str.indexOf (34%N :: lit "plan" ++ [34%N]) text 0 in
      keyIdx <> (-1)%Z /\
      exists (brace i : Z) (obj : json),
        (brace = Str.lastIndexOf [123%N] text keyIdx \/
         brace = Str.indexOf [123%N] text keyIdx) /\
        closing_brace (Str.sliceFrom text brace) brace 0 = Some i /\
        JParse.parse (Str.slice text brace (i + 1)) = Val obj /\
        plan_in obj = Some plan)) /\
  (forall (text : jstring) (obj : json),
     let start := Str.indexOf (lit "```json") text 0 in
     let stop := Str.indexOf (lit "```") text (start + 7) in
     JParse.parse (Str.trim (Str.slice text (start + 7) stop)) = Val obj ->
     actions_in obj = None ->
     Str.indexOf (34%N :: lit "actions" ++ [34%N]) text 0 = (-1)%Z ->
     parseJsonActionsFromReply text = Val None /\
     actions_of_message text = parseCommandLineFromReply text) /\
  (forall (text : jstring) (obj a : json) (l : list json),
     let start := Str.indexOf (lit "```json") text 0 in
     let stop := Str.indexOf (lit "```") text (start + 7) in
     (0 <= start)%Z -> (0 <= stop)%Z ->
     JParse.parse (Str.trim (Str.slice text (start + 7) stop)) = Val obj ->
     actions_in obj = Some (JArr (a :: l)) ->
     actions_of_message text = Val (a :: l)) /\
  (let dig := action (lit "dig")
                [(lit "x", Sample.jn 5); (lit "y", Sample.jn 5); (lit "z", Sample.jn 5)] in
   parsePlanFromReply Sample.priority_text
   = Val (Some (JObj [(lit "steps", JArr [Sample.step "inspect" 1 2 3])])) /\
   parseCommandLineFromReply Sample.priority_text = Val [dig] /\
   parseJsonActionsFromReply Sample.priority_text = Val None /\
   actions_of_message Sample.priority_text = Val [dig] /\
   (exists w',
      gptPlanAndExecute Sample.calm 2 (lit "bob") Sample.priority_text
        (Sample.start (Sample.at_ 0 0 0)) = Ret true w' /\
      dispatches (trace w') = 1 /\
      position w' = Sample.at_ 5 5 5 /\
      filter (fun e => match e with EDig _ => true | _ => false end) (trace w')
      = [EDig (mkBlock (lit "stone") (Sample.at_ 5 5 5))]) /\
   Spec.fenced_block Sample.second_fence 21 98
   = Some (Sample.dq "{'plan':{'steps':[{'name':'inspect','params':{'x':1,'y':2,'z':3}}]}}") /\
   parsePlanFromReply Sample.second_fence = Val None /\
   parseCommandLineFromReply Sample.second_fence = Val [dig]).
Proof.
  split; [|split; [|split; [|split]]].
  - intros text obj plan. cbv zeta. intros Hs He Hp Ha.
    unfold parsePlanFromReply. eapply fenced_first; eassumption.
  - intros text plan H. exact (fenced_or_inline_source _ _ _ _ H).
  - intros text obj. cbv zeta. intros Hp Ha Hk.
    assert (E : parseJsonActionsFromReply text = Val None).
    { unfold parseJsonActionsFromReply.
      exact (fenced_or_inline_none _ _ _ _ Hp Ha Hk). }
    split; [exact E|]. unfold actions_of_message. rewrite E. reflexivity.
  - intros text obj a l. cbv zeta. intros Hs He Hp Ha.
    unfold actions_of_message, parseJsonActionsFromReply.
    rewrite (fenced_first (34%N :: lit "actions" ++ [34%N]) actions_in
               text obj (JArr (a :: l)) Hs He Hp Ha).
    reflexivity.
  - cbv zeta. repeat (split; [vm_compute; reflexivity|]).
    split; [eexists; vm_compute; repeat split|].
    repeat split; vm_compute; reflexivity.
Qed.

Lemma C7_witness :
  parsePlanFromReply Sample.priority_text
  = Val (Some (JObj [(lit "steps", JArr [Sample.step "inspect" 1 2 3])])).
Proof.
  apply (proj1 C7_first_fence_then_inline Sample.priority_text
           (JObj [(lit "plan",
                   JObj [(lit "steps", JArr [Sample.step "inspect" 1 2 3])])])).
  - vm_compute. discriminate.
  - vm_compute. discriminate.
  - vm_compute. reflexivity.
  - vm_compute. reflexivity.
Defined.

(** C7 as stated fails: a text can hold a valid fenced plan and a
    directive line and yet give no plan, when an earlier fenced block
    does not parse. *)
Lemma C7_counterexample :
  ~ (forall (text : jstring) (i j : Z) (body : jstring) (obj plan : json),
       Spec.fenced_block text i j = Some body ->
       JParse.parse body = Val obj ->
       plan_in obj = Some plan ->
       Str.includes text (lit "//") = true ->
       parsePlanFromReply text = Val (Some plan)).
Proof.
  intro H.
  specialize (H Sample.second_fence 21%Z 98%Z
                (Sample.dq "{'plan':{'steps':[{'name':'inspect','params':{'x':1,'y':2,'z':3}}]}}")
                (JObj [(lit "plan",
                        JObj [(lit "steps", JArr [Sample.step "inspect" 1 2 3])])])
                (JObj [(lit "steps", JArr [Sample.step "inspect" 1 2 3])])).
  assert (E : parsePlanFromReply Sample.second_fence = Val None)
    by (vm_compute; reflexivity).
  rewrite E in H. 
  assert (F : Val (@None json)
              = Val (Some (JObj [(lit "steps", JArr [Sample.step "inspect" 1 2 3])]))).
  { apply H; vm_compute; reflexivity. }
  discriminate F.
Qed.

Lemma fenced_or_inline_val (key : jstring) (accept : json -> option json)
      (text : jstring) :
  fenced_or_inline key accept text = Val None \/
  exists obj v, accept obj = Some v /\ fenced_or_inline key accept text = Val (Some v).
Proof.
  unfold fenced_or_inline. destruct text as [|c t]; [left; reflexivity|].
  set (text := c :: t).
  assert (T : forall jt,
             try_json accept jt = Val None \/
             exists obj v, accept obj = Some v /\ try_json accept jt = Val (Some v)).
  { intro jt. destruct (try_json_val accept jt) as (r & E & [->|(obj & _ & Ha)]).
    - left. exact E.
    - destruct r as [v|]; [|left; exact E]. right. exists obj, v. split; assumption. }
  assert (Inline :
    (let keyIdx := Str.indexOf key text 0 in
     if (keyIdx =? -1)%Z then Val None
     else
       let start :=
         let back := Str.lastIndexOf [123%N] text keyIdx in
         if (back =? -1)%Z then Str.indexOf [123%N] text keyIdx else back in
       if (start =? -1)%Z then Val None
       else
         match closing_brace (Str.sliceFrom text start) start 0 with
         | Some i => try_json accept (Str.slice text start (i + 1))
         | None => Val None
         end) = Val None \/
    exists obj v, accept obj = Some v /\
    (let keyIdx := Str.indexOf key text 0 in
     if (keyIdx =? -1)%Z then Val None
     else
       let start :=
         let back := Str.lastIndexOf [123%N] text keyIdx in
         if (back =? -1)%Z then Str.indexOf [123%N] text keyIdx else back in
       if (start =? -1)%Z then Val None
       else
         match closing_brace (Str.sliceFrom text start) start 0 with
         | Some i => try_json accept (Str.slice text start (i + 1))
         | None => Val None
         end) = Val (Some v)).
  { cbv zeta. destruct (_ =? -1)%Z; [left; reflexivity|].
    destruct (_ =? -1)%Z; [left; reflexivity|].
    destruct (closing_brace _ _ _); [apply T|left; reflexivity]. }
  destruct (negb _ && negb _).
  - destruct (T (Str.trim (Str.slice text
                   (Str.indexOf (lit "```json") text 0 + 7)
                   (Str.indexOf (lit "```") text
                      (Str.indexOf (lit "```json") text 0 + 7)))))
      as [E|(obj & v & Ha & E)]; rewrite E; cbn [andThen].
    + exact Inline.
    + right. exists obj, v. split; [exact Ha | reflexivity].
  - cbn [andThen]. exact Inline.
Qed.

Lemma plan_in_steps (obj plan : json) :
  plan_in obj = Some plan -> isArray (get "steps" plan) = true.
Proof.
  unfold plan_in. destruct (truthy obj && truthy_opt (get "plan" obj)); [|discriminate].
  destruct (get "plan" obj) as [p|]; [|discriminate].
  destruct (isArray (get "steps" p)) eqn:E; [|discriminate].
  intro H. injection H as <-. exact E.
Qed.

Lemma actions_in_array (obj v : json) :
  actions_in obj = Some v -> exists l, v = JArr l.
Proof.
  unfold actions_in. destruct (truthy obj && isArray (get "actions" obj)) eqn:E;
    [|discriminate].
  apply andb_true_iff in E. destruct E as [_ E].
  destruct (get "actions" obj) as [[| | | |l|]|]; try discriminate.
  intro H. injection H as <-. exists l. reflexivity.
Qed.

Lemma parseCommandLineFromReply_val (text : jstring) :
  exists l, parseCommandLineFromReply text = Val l.
Proof.
  unfold parseCommandLineFromReply. destruct text; [eexists; reflexivity|].
  destruct (_ =? -1)%Z; [eexists; reflexivity|].
  destruct (Str.trim _); eexists; reflexivity.
Qed.

Lemma loose_action_val (text username : jstring) :
  exists l, loose_action text username = Val l.
Proof.
  unfold loose_action.
  destruct (Regex.exec Pat.actionParamsRe text) as [m|]; [|eexists; reflexivity].
  destruct (Regex.cap 1 m) as [[|c n]|]; try (eexists; reflexivity).
  destruct (Regex.cap 2 m) as [paramsText|]; [|eexists; reflexivity].
  unfold catch, andThen. destruct (JParse.parse paramsText); eexists; reflexivity.
Qed.

Lemma extractActionsLoose_val (R : Runtime) (text username : jstring) :
  exists l, extractActionsLoose R text username = Val l.
Proof.
  unfold extractActionsLoose. destruct text as [|c t]; [eexists; reflexivity|].
  destruct (loose_action_val (c :: t) username) as (l & ->). cbn [andThen].
  destruct (l ++ _ ++ _ ++ _)%list; eexists; reflexivity.
Qed.

(** C8: on every string each of the four extraction functions returns a
    value and throws nothing (the one call that can throw, [JSON.parse],
    is made under a [try]): [parsePlanFromReply] gives [null] or a plan
    whose [steps] is an array, [parseJsonActionsFromReply] gives [null] or
    an array, [parseCommandLineFromReply] and [extractActionsLoose] give
    an array, which is empty when the text has no directive marker,
    respectively matches none of the patterns; on the empty string, on
    noise, on braces nested without end and on JSON that is cut short the
    results are [null] and the empty array. *)
Theorem C8_extraction_total :
  (forall text : jstring,
     (parsePlanFromReply text = Val None \/
      exists plan, parsePlanFromReply text = Val (Some plan) /\
                   isArray (get "steps" plan) = true) /\
     (parseJsonActionsFromReply text = Val None \/
      exists l, parseJsonActionsFromReply text = Val (Some (JArr l))) /\
     (exists l, parseCommandLineFromReply text = Val l) /\
     (Str.indexOf (lit "//") text 0 = (-1)%Z ->
      parseCommandLineFromReply text = Val []) /\
     (forall R username,
        (exists l, extractActionsLoose R text username = Val l) /\
        (Regex.exec Pat.actionParamsRe text = None ->
         Regex.exec Pat.jsonCmdRe text = None ->
         Regex.exec Pat.funcRe text = None ->
         Regex.exec Pat.inlineRe text = None ->
         extractActionsLoose R text username = Val []))) /\
  Forall (fun text =>
            parsePlanFromReply text = Val None /\
            parseJsonActionsFromReply text = Val None /\
            parseCommandLineFromReply text = Val [] /\
            extractActionsLoose (runtime Sample.calm) text (lit "bob") = Val [])
         Sample.hopeless.
Proof.
  split.
  - intro text. split; [|split; [|split; [|split]]].
    + destruct (fenced_or_inline_val (34%N :: lit "plan" ++ [34%N]) plan_in text)
        as [E|(obj & v & Ha & E)].
      * left. exact E.
      * right. exists v. split; [exact E|]. exact (plan_in_steps obj v Ha).
    + destruct (fenced_or_inline_val (34%N :: lit "actions" ++ [34%N]) actions_in text)
        as [E|(obj & v & Ha & E)].
      * left. exact E.
      * right. destruct (actions_in_array obj v Ha) as (l & ->). exists l. exact E.
    + apply parseCommandLineFromReply_val.
    + intro H. unfold parseCommandLineFromReply. rewrite H.
      destruct text; reflexivity.
    + intros R username. split; [apply extractActionsLoose_val|].
      intros H1 H2 H3 H4. unfold extractActionsLoose, loose_action, loose_command,
        loose_inline. rewrite H1, H2, H3, H4. destruct text; reflexivity.
  - unfold Sample.hopeless. repeat constructor; vm_compute; reflexivity.
Qed.

Lemma C8_witness :
  parseCommandLineFromReply (lit "no directive / here") = Val [] /\
  extractActionsLoose (runtime Sample.calm) (lit "go north") (lit "bob") = Val [].
Proof.
  destruct (proj1 C8_extraction_total (lit "no directive / here"))
    as (_ & _ & _ & H & _).
  destruct (proj1 C8_extraction_total (lit "go north"))
    as (_ & _ & _ & _ & K).
  split.
  - apply H. vm_compute. reflexivity.
  - apply (proj2 (K (runtime Sample.calm) (lit "bob"))); vm_compute; reflexivity.
Defined.

(* ------------------------------------------------------------------ *)
(** * Further properties of the code *)

(** ** What a plan can lead to *)

Lemma grows_by_refl (P : event -> bool) (w : World) : grows_by P w w.
Proof. exists []. split; [symmetry; apply app_nil_r | reflexivity]. Qed.

Lemma grows_by_trans (P : event -> bool) (a b c : World) :
  grows_by P a b -> grows_by P b c -> grows_by P a c.
Proof.
  intros (t & Ht & Pt) (u & Hu & Pu). exists (t ++ u). split.
  - rewrite Hu, Ht, app_assoc. reflexivity.
  - rewrite forallb_app, Pt, Pu. reflexivity.
Qed.

Lemma grows_emit (P : event -> bool) (e : event) :
  P e = true -> keeps (grows_by P) (modify (emit e)).
Proof.
  intros H w. exists [e]. split; [reflexivity|]. cbn. rewrite H. reflexivity.
Qed.

Lemma grows_chat (P : event -> bool) (C : Collab) (m : jstring) :
  P (EChat m) = true -> keeps (grows_by P) (chat C m).
Proof.
  intros H w. unfold chat. destruct (chat_throws C w m).
  - apply grows_by_refl.
  - exact (grows_emit P (EChat m) H w).
Qed.

Lemma grows_gotoNear (P : event -> bool) (C : Collab) (v : Vec3) :
  P (EGoal v) = true -> keeps (grows_by P) (gotoNear C v).
Proof.
  intros H w. unfold gotoNear. destruct (pathfind C v w) as [[ok p]|].
  - exact (grows_emit P (EGoal v) H w).
  - apply grows_by_refl.
Qed.

Lemma grows_safeDig (P : event -> bool) (C : Collab) (b : block) :
  P (EDig b) = true -> keeps (grows_by P) (safeDig C b).
Proof.
  intros H w. unfold safeDig. destruct (Str.eqb (bname b) (lit "air")).
  - apply grows_by_refl.
  - exact (grows_emit P (EDig b) H w).
Qed.

Lemma grows_equipPrefer (P : event -> bool) (C : Collab) :
  keeps (grows_by P) (equipPrefer C).
Proof.
  intro w. unfold equipPrefer. destruct (equip_throws C w); apply grows_by_refl.
Qed.

Lemma grows_blockAt (P : event -> bool) (C : Collab) (v : Vec3) :
  keeps (grows_by P) (fun w => match blockAt C v w with
                               | Some b => Ret b w
                               | None => Throw w
                               end).
Proof. intro w. destruct (blockAt C v w); apply grows_by_refl. Qed.

Lemma Str_eqb_eq (a b : jstring) : Str.eqb a b = true -> a = b.
Proof.
  revert b. induction a as [|x a IH]; intros [|y b] H; try discriminate H.
  - reflexivity.
  - cbn in H. apply andb_true_iff in H. destruct H as [Hx Ha].
    apply N.eqb_eq in Hx. rewrite Hx, (IH b Ha). reflexivity.
Qed.

Lemma Str_eqb_refl (a : jstring) : Str.eqb a a = true.
Proof.
  induction a as [|x a IH]; [reflexivity|]. cbn. rewrite N.eqb_refl. exact IH.
Qed.

Lemma mem_In (a : jstring) (l : list jstring) : Str.mem a l = true -> In a l.
Proof.
  unfold Str.mem. intro H. apply existsb_exists in H. destruct H as (x & Hx & E).
  apply Str_eqb_eq in E. subst x. exact Hx.
Qed.

Lemma coords_truthy (p : json) : coords_are_numbers p = true -> truthy p = true.
Proof. destruct p; try discriminate. reflexivity. Qed.

(** Goals [keeps (grows_by plan_event) c]. *)
Ltac planned :=
  repeat first
    [ apply (keeps_bind _ (grows_by_trans plan_event)); [| intro]
    | apply (keeps_try_catch _ (grows_by_trans plan_event))
    | apply (keeps_ret _ (grows_by_refl plan_event))
    | apply (keeps_ask _ (grows_by_refl plan_event))
    | apply grows_emit; reflexivity
    | apply grows_chat; reflexivity
    | apply grows_gotoNear; reflexivity
    | apply grows_safeDig; reflexivity
    | apply grows_equipPrefer
    | apply grows_blockAt
    | match goal with
      | |- keeps _ (if ?b then _ else _) => destruct b
      | |- keeps _ (match ?x with _ => _ end) => destruct x
      end ].

Lemma planned_executeMicroAction (C : Collab) (name : jstring) (p : json) :
  Str.mem name primitives = true -> coords_are_numbers p = true ->
  keeps (grows_by plan_event) (executeMicroAction C name p).
Proof.
  intros Hn Hp. unfold executeMicroAction. rewrite (coords_truthy p Hp).
  assert (Hl : Str.mem (Str.toLowerCase name) primitives = true).
  { apply mem_In in Hn. cbn in Hn.
    repeat (destruct Hn as [<-|Hn]; [reflexivity|]). contradiction. }
  apply (keeps_bind _ (grows_by_trans plan_event)).
  - apply grows_emit.
    change (plan_dispatch [JStr (Str.toLowerCase name); p] = true).
    unfold plan_dispatch. rewrite Hl, Hp. reflexivity.
  - intro. unfold try_chat, log. planned.
Qed.

Lemma planned_executePlan_loop (C : Collab) (steps : list json) :
  keeps (grows_by plan_event) (executePlan_loop C steps).
Proof.
  induction steps as [|s rest IH].
  - apply (keeps_ret _ (grows_by_refl plan_event)).
  - intro w. rewrite executePlan_loop_cons.
    destruct (validate C (position w) s) as [|r|name p] eqn:Hv.
    + apply IH.
    + revert w Hv. intros w _. revert w. unfold log, reject, try_chat.
      apply (keeps_bind _ (grows_by_trans plan_event)); [planned|intro].
      apply (keeps_bind _ (grows_by_trans plan_event)); [|intro; exact IH].
      apply (keeps_bind _ (grows_by_trans plan_event)); [|intro].
      * apply (keeps_try_catch _ (grows_by_trans plan_event)); [|planned].
        apply grows_chat. destruct r; reflexivity.
      * apply grows_emit. destruct r; reflexivity.
    + assert (Hs : Str.mem (step_name C s) primitives = true /\
                   coords_are_numbers (step_params s) = true).
      { unfold validate in Hv.
        destruct (negb (truthy s) || negb (truthy_opt (get "name" s)));
          [discriminate Hv|].
        destruct (coords_are_numbers (step_params s)); [|discriminate Hv].
        destruct (distance_gt _ _ _); [discriminate Hv|].
        destruct (Str.mem (step_name C s) primitives); [|discriminate Hv].
        split; reflexivity. }
      destruct Hs as [Hn Hp]. clear Hv. revert w. unfold log.
      apply (keeps_bind _ (grows_by_trans plan_event)); [planned|intro].
      apply (keeps_bind _ (grows_by_trans plan_event)); [|intro; exact IH].
      unfold dispatch_step, try_chat, sleep.
      apply (keeps_bind _ (grows_by_trans plan_event)); [planned|intro].
      apply (keeps_bind _ (grows_by_trans plan_event)); [|intro; planned].
      apply planned_executeMicroAction; assumption.
Qed.

(** X1: whatever the steps of a plan are, [executePlan] sends no chat
    message other than the notice of a skipped step, the rationale of a
    step and the result of an inspection (so never a server command);
    every step it hands to [executeMicroAction] has one of the names
    inspect, goto, dig, mine and numeric coordinates; and it calls no
    helper routine and makes no request to the language model. *)
Theorem X1_plan_is_confined :
  forall (C : Collab) (steps : option json) (w : World),
    ends (executePlan C steps w)
         (fun w' => exists t,
            trace w' = trace w ++ t /\
            forallb plan_event t = true /\
            Forall (fun m => Str.prefixb (lit "/") m = false) (chats t)).
Proof.
  intros C steps w.
  assert (K : keeps (grows_by plan_event) (executePlan C steps)).
  { unfold executePlan, log. planned; apply planned_executePlan_loop. }
  specialize (K w).
  assert (G : forall t, forallb plan_event t = true ->
                        Forall (fun m => Str.prefixb (lit "/") m = false) (chats t)).
  { induction t as [|e t IHt]; intro H; [constructor|].
    cbn [forallb] in H. apply andb_true_iff in H. destruct H as [He Ht].
    destruct e; cbn [chats flat_map app]; try (apply IHt; exact Ht).
    constructor; [|apply IHt; exact Ht].
    cbn [plan_event] in He. destruct msg as [|c m]; [reflexivity|].
    destruct (N.eq_dec c 47) as [->|Hc].
    - vm_compute in He. discriminate He.
    - cbn. apply N.eqb_neq in Hc. rewrite N.eqb_sym in Hc.
      change (match c with 0%N => false | N.pos q => (47 =? q)%positive end)
        with (47 =? c)%N.
      rewrite Hc. reflexivity. }
  destruct (executePlan C steps w); cbn in *; try exact I;
    destruct K as (t & Ht & Pt); exists t; repeat split; auto.
Qed.

(** ** What no action changes *)

Lemma settled_refl (w : World) : settled w w.
Proof. repeat split; auto. Qed.

Lemma settled_trans (a b c : World) : settled a b -> settled b c -> settled a c.
Proof.
  unfold settled. intros (?&?&?) (?&?&?). repeat split; try congruence. auto.
Qed.

(** Goals [keeps settled c] for a computation that is a function of the
    state built from tests on the collaborator. *)
Ltac settled_leaf :=
  let w := fresh "w" in
  intro w; cbv beta delta [chat gotoNear equipPrefer wanderSlightly run_helper lift
                           log error sleep modify ask ret];
  repeat match goal with
         | |- context [match ?x with _ => _ end] => destruct x
         end;
  cbn; repeat split; auto.

Lemma settled_safeDig (C : Collab) (b : block) : keeps settled (safeDig C b).
Proof.
  intro w. unfold safeDig. destruct (Str.eqb (bname b) (lit "air")); cbn;
    repeat split; auto.
Qed.

Ltac settles :=
  repeat first
    [ assumption
    | match goal with H : forall _, _ |- _ => solve [apply H] end
    | apply (keeps_bind _ settled_trans); [| intro]
    | apply (keeps_try_catch _ settled_trans)
    | apply (keeps_ret _ settled_refl)
    | apply (keeps_ask _ settled_refl)
    | apply settled_safeDig
    | match goal with
      | |- keeps _ (if ?b then _ else _) => destruct b
      | |- keeps _ (match ?x with _ => _ end) => destruct x
      | |- keeps _ (modify (emit _)) => settled_leaf
      | |- keeps _ (log _ _) => settled_leaf
      | |- keeps _ (error _) => settled_leaf
      | |- keeps _ (sleep _) => settled_leaf
      | |- keeps _ (chat _ _) => settled_leaf
      | |- keeps _ (gotoNear _ _) => settled_leaf
      | |- keeps _ (equipPrefer _) => settled_leaf
      | |- keeps _ (wanderSlightly _) => settled_leaf
      | |- keeps _ (run_helper _ _ _ _) => settled_leaf
      | |- keeps _ (lift _) => settled_leaf
      | |- keeps _ (fun _ => _) => settled_leaf
      end ].

Lemma settled_executeMicroAction (C : Collab) (name : jstring) (p : json) :
  keeps settled (executeMicroAction C name p).
Proof. unfold executeMicroAction, try_chat, log. settles. Qed.

Lemma settled_executePlan_loop (C : Collab) (steps : list json) :
  keeps settled (executePlan_loop C steps).
Proof.
  induction steps as [|s rest IH].
  - apply (keeps_ret _ settled_refl).
  - intro w. rewrite executePlan_loop_cons.
    destruct (validate C (position w) s) as [|r|name p]; [apply IH| |]; revert w;
      unfold log, reject, dispatch_step, try_chat, sleep;
      pose proof (settled_executeMicroAction C (step_name C s) (step_params s));
      settles.
Qed.

Lemma settled_executePlan (C : Collab) (steps : option json) :
  keeps settled (executePlan C steps).
Proof.
  unfold executePlan, log. pose proof (settled_executePlan_loop C). settles.
Qed.

Lemma settled_each_isolated (run : json -> M bool) (line : string)
      (actions : list json) :
  (forall a, keeps settled (run a)) -> keeps settled (each_isolated run line actions).
Proof.
  intro Hrun. induction actions as [|a rest IH]; cbn [each_isolated].
  - apply (keeps_ret _ settled_refl).
  - pose proof (Hrun a). unfold error, sleep. settles.
Qed.

Lemma settled_tryExecuteCommand (C : Collab) (cmd : jstring) :
  keeps settled (tryExecuteCommand C cmd).
Proof.
  unfold tryExecuteCommand, tryExecuteCommand_gate, refuse_command, send_command,
    try_chat, log.
  settles.
Qed.

Lemma settled_executeAction (C : Collab) (username : jstring) :
  forall fuel action, keeps settled (executeAction C fuel username action).
Proof.
  induction fuel as [|fuel IH]; intro action.
  - intro w. exact I.
  - cbn [executeAction].
    pose proof (settled_each_isolated (executeAction C fuel username)
                  "fallback executeAction failed for") as Heach.
    pose proof (settled_tryExecuteCommand C) as Hcmd.
    pose proof (settled_executeMicroAction C) as Hmicro.
    unfold try_chat, log, error.
    settles; try (apply Heach; exact IH); try apply Hcmd; try apply Hmicro.
Qed.

Lemma settled_ask_model (C : Collab) (prompt : jstring) :
  keeps settled (ask_model C prompt).
Proof. unfold ask_model, log. settles. Qed.

Lemma settled_requestPlanFromLLM (C : Collab) (u : jstring) :
  keeps settled (requestPlanFromLLM C u).
Proof.
  unfold requestPlanFromLLM, log, error. pose proof (settled_ask_model C u). settles.
Qed.

Lemma settled_plannerTick (C : Collab) : keeps settled (plannerTick C).
Proof.
  unfold plannerTick, error.
  pose proof (settled_requestPlanFromLLM C planner_instruction).
  pose proof (settled_executePlan C).
  settles.
Qed.

Lemma settled_gptPlanAndExecute (C : Collab) (fuel : nat) (username message : jstring) :
  keeps settled (gptPlanAndExecute C fuel username message).
Proof.
  unfold gptPlanAndExecute, log, error.
  pose proof (settled_ask_model C) as Hask.
  assert (Hrun : forall a,
             keeps settled
               (bind (modify (emit (ELog "[gpt] executing action:" [a])))
                     (fun _ => executeAction C fuel username a))).
  { intro a. pose proof (settled_executeAction C username fuel a). settles. }
  settles; apply settled_each_isolated; exact Hrun.
Qed.

(** X2: nothing that the language model or a player can have the bot do
    through [executeAction], [gptPlanAndExecute], [executePlan] or
    [plannerTick] changes the operator flag [botIsOp] or the flag
    [running] of the autonomous loop, and a bot that was not busy before
    is not busy after, whether the call returns or throws. *)
Theorem X2_actions_leave_flags :
  forall (C : Collab) (fuel : nat) (username message : jstring) (action : json)
         (steps : option json) (w : World),
    ends (executeAction C fuel username action w) (settled w) /\
    ends (gptPlanAndExecute C fuel username message w) (settled w) /\
    ends (executePlan C steps w) (settled w) /\
    ends (plannerTick C w) (settled w).
Proof.
  intros. repeat split.
  - apply settled_executeAction.
  - apply settled_gptPlanAndExecute.
  - apply settled_executePlan.
  - apply settled_plannerTick.
Qed.

(** ** Calls that always return *)

Lemma returns_fuelless {A} (c : M A) : returns c -> fuelless c.
Proof. intros H w. destruct (H w) as (a & w' & ->). discriminate. Qed.

Lemma returns_catches {A} (c : M A) : returns c -> catches c.
Proof. intros H w. destruct (H w) as (a & w' & ->). exact I. Qed.

Lemma returns_ret {A} (a : A) : returns (ret a).
Proof. intro w. exists a, w. reflexivity. Qed.

Lemma returns_ask {A} (f : World -> A) : returns (ask f).
Proof. intro w. exists (f w), w. reflexivity. Qed.

Lemma returns_modify (f : World -> World) : returns (modify f).
Proof. intro w. exists tt, (f w). reflexivity. Qed.

Lemma returns_bind {A B} (c : M A) (k : A -> M B) :
  returns c -> (forall a, returns (k a)) -> returns (bind c k).
Proof.
  intros Hc Hk w. unfold bind. destruct (Hc w) as (a & w1 & ->). apply Hk.
Qed.

Lemma returns_try_catch {A} (c h : M A) :
  fuelless c -> returns h -> returns (try_catch c h).
Proof.
  intros Hc Hh w. unfold try_catch. specialize (Hc w).
  destruct (c w) as [a w1|w1|]; [exists a, w1; reflexivity | apply Hh | contradiction].
Qed.

Lemma fuelless_bind {A B} (c : M A) (k : A -> M B) :
  fuelless c -> (forall a, fuelless (k a)) -> fuelless (bind c k).
Proof.
  intros Hc Hk w. unfold bind. specialize (Hc w).
  destruct (c w) as [a w1|w1|]; [apply Hk | discriminate | contradiction].
Qed.

Lemma fuelless_try_catch {A} (c h : M A) :
  fuelless c -> fuelless h -> fuelless (try_catch c h).
Proof.
  intros Hc Hh w. unfold try_catch. specialize (Hc w).
  destruct (c w) as [a w1|w1|]; [discriminate | apply Hh | contradiction].
Qed.

Lemma catches_bind {A B} (c : M A) (k : A -> M B) :
  catches c -> (forall a, catches (k a)) -> catches (bind c k).
Proof.
  intros Hc Hk w. unfold bind. specialize (Hc w).
  destruct (c w) as [a w1|w1|]; [apply Hk | contradiction | exact I].
Qed.

Lemma catches_try_catch {A} (c h : M A) : catches h -> catches (try_catch c h).
Proof.
  intros Hh w. unfold try_catch. destruct (c w) as [a w1|w1|]; [exact I | apply Hh | exact I].
Qed.

(** Goals [fuelless c] for a computation that is a function of the state
    built from tests on the collaborator. *)
Ltac fuelless_leaf :=
  let w := fresh "w" in
  intro w; cbv beta delta [chat gotoNear equipPrefer wanderSlightly run_helper lift
                           log error sleep modify ask ret];
  repeat match goal with
         | |- context [match ?x with _ => _ end] => destruct x
         end;
  discriminate.

Ltac fuel_free :=
  repeat first
    [ assumption
    | match goal with H : forall _, _ |- _ => solve [apply H] end
    | apply fuelless_bind; [| intro]
    | apply fuelless_try_catch
    | match goal with
      | |- fuelless (if ?b then _ else _) => destruct b
      | |- fuelless (match ?x with _ => _ end) => destruct x
      | |- fuelless _ => fuelless_leaf
      end ].

Ltac returning :=
  repeat first
    [ assumption
    | match goal with H : forall _, _ |- _ => solve [apply H] end
    | apply returns_ret
    | apply returns_ask
    | apply returns_modify
    | apply returns_bind; [| intro]
    | apply returns_try_catch
    | match goal with
      | |- returns (if ?b then _ else _) => destruct b
      | |- returns (match ?x with _ => _ end) => destruct x
      end ].

Lemma fuelless_executeMicroAction (C : Collab) (name : jstring) (p : json) :
  fuelless (executeMicroAction C name p).
Proof. intro w. apply executeMicroAction_fuel. Qed.

Lemma fuelless_executePlan (C : Collab) (steps : option json) :
  fuelless (executePlan C steps).
Proof.
  unfold executePlan, log.
  assert (H : forall l, fuelless (executePlan_loop C l)).
  { intros l w E. pose proof (executePlan_loop_true C l w) as T.
    rewrite E in T. exact T. }
  fuel_free.
Qed.

Lemma parsePlanFromReply_cases (text : jstring) :
  parsePlanFromReply text = Val None \/
  exists plan, parsePlanFromReply text = Val (Some plan) /\
               isArray (get "steps" plan) = true.
Proof.
  unfold parsePlanFromReply.
  destruct (fenced_or_inline_val (34%N :: lit "plan" ++ [34%N]) plan_in text)
    as [H|(obj & v & Ha & H)]; [left; exact H|].
  right. exists v. split; [exact H|]. exact (plan_in_steps obj v Ha).
Qed.

Lemma parseJsonActionsFromReply_cases (text : jstring) :
  parseJsonActionsFromReply text = Val None \/
  exists l, parseJsonActionsFromReply text = Val (Some (JArr l)).
Proof.
  unfold parseJsonActionsFromReply.
  destruct (fenced_or_inline_val (34%N :: lit "actions" ++ [34%N]) actions_in text)
    as [H|(obj & v & Ha & H)]; [left; exact H|].
  right. destruct (actions_in_array obj v Ha) as (l & ->). exists l. exact H.
Qed.

Lemma actions_of_message_val (message : jstring) :
  exists l, actions_of_message message = Val l.
Proof.
  unfold actions_of_message, andThen.
  destruct (parseJsonActionsFromReply_cases message) as [->|(l & ->)]; cbn [elements].
  - apply parseCommandLineFromReply_val.
  - destruct l; [apply parseCommandLineFromReply_val | eexists; reflexivity].
Qed.

Lemma fuelless_ask_model (C : Collab) (prompt : jstring) :
  fuelless (ask_model C prompt).
Proof. unfold ask_model. fuel_free. Qed.

Lemma returns_requestPlanFromLLM (C : Collab) (u : jstring) :
  returns (requestPlanFromLLM C u).
Proof.
  unfold requestPlanFromLLM, log, error. pose proof (fuelless_ask_model C u).
  returning. fuel_free.
Qed.

(** X3: [plannerTick] always returns: whatever the language model
    answers and whatever the plan makes the bot do, no exception leaves
    it for the timer that calls it, and it needs no bound on its work. *)
Theorem X3_plannerTick_returns :
  forall (C : Collab) (w : World), exists w', plannerTick C w = Ret tt w'.
Proof.
  intros C w.
  assert (H : returns (plannerTick C)).
  { unfold plannerTick, error.
    pose proof (returns_fuelless _ (returns_requestPlanFromLLM C planner_instruction)).
    pose proof (fuelless_executePlan C).
    returning. fuel_free. }
  destruct (H w) as ([] & w' & E). exists w'. exact E.
Qed.

(** X4: [requestPlanFromLLM] always returns.  It returns [null] when the
    request to the language model throws or has no answer; on a reply it
    returns what [parsePlanFromReply] reads in it, so a plan it returns
    always has an array as [steps]. *)
Theorem X4_requestPlanFromLLM_result :
  forall (C : Collab) (u : jstring) (w : World),
  exists r w',
    requestPlanFromLLM C u w = Ret r w' /\
    match llm C u (asked u w) with
    | LlmReply reply => parsePlanFromReply reply = Val r
    | _ => r = None
    end /\
    (forall plan, r = Some plan -> isArray (get "steps" plan) = true).
Proof.
  intros C u w.
  assert (K : exists r w',
             requestPlanFromLLM C u w = Ret r w' /\
             match llm C u (asked u w) with
             | LlmReply reply => parsePlanFromReply reply = Val r
             | _ => r = None
             end).
  { unfold requestPlanFromLLM, ask_model, log, bind, try_catch, modify, ask, error, ret.
    fold (asked u w). destruct (llm C u (asked u w)) as [| |reply].
    - eexists _, _. split; reflexivity.
    - eexists _, _. split; reflexivity.
    - destruct (parsePlanFromReply_cases reply) as [E|(plan & E & _)];
        destruct (sanitizeLLMReplyForChat reply); unfold chat;
        repeat match goal with
               | |- context [if ?b then _ else _] => destruct b
               end;
        unfold lift; rewrite E; eexists _, _; split; reflexivity. }
  destruct K as (r & w' & E & L). exists r, w'. split; [exact E|]. split; [exact L|].
  intros plan ->. destruct (llm C u (asked u w)) as [| |reply]; try discriminate L.
  destruct (parsePlanFromReply_cases reply) as [E'|(plan' & E' & S)];
    rewrite E' in L; [discriminate L|].
  assert (plan' = plan) by congruence. subst plan'. exact S.
Qed.

(** ** Lengths

    What the string operations and the matcher give back is no longer
    than what they were given. *)

Lemma trimStart_length (s : jstring) :
  List.length (Str.trimStart s) <= List.length s.
Proof.
  induction s as [|c s IH]; cbn; [lia|]. destruct (Str.is_space c); cbn; lia.
Qed.

Lemma trim_length (s : jstring) : List.length (Str.trim s) <= List.length s.
Proof.
  unfold Str.trim. rewrite length_rev.
  etransitivity; [apply trimStart_length|]. rewrite length_rev.
  apply trimStart_length.
Qed.

Lemma split1_pieces (sep : N) (s : jstring) :
  forall cur p, In p (Str.split1 sep s cur) ->
                List.length p <= List.length s + List.length cur.
Proof.
  induction s as [|c s IH]; intros cur p H; cbn [Str.split1] in H.
  - destruct H as [<-|[]]. rewrite length_rev. cbn. lia.
  - destruct (N.eqb c sep).
    + destruct H as [<-|H].
      * rewrite length_rev. cbn. lia.
      * specialize (IH _ _ H). cbn in *. lia.
    + specialize (IH _ _ H). cbn in *. lia.
Qed.

Lemma split_pieces (sep : N) (s p : jstring) :
  In p (Str.split sep s) -> List.length p <= List.length s.
Proof. intro H. apply split1_pieces in H. cbn in H. lia. Qed.

Lemma split1_head (sep : N) (s : jstring) :
  forall cur, List.length (nth 0 (Str.split1 sep s cur) []) <=
              List.length s + List.length cur.
Proof.
  intro cur. destruct (Str.split1 sep s cur) as [|p l] eqn:E; [cbn; lia|].
  apply (split1_pieces sep s cur p). rewrite E. left. reflexivity.
Qed.

(** The second piece of a split whose first piece is not empty is
    shorter than the whole. *)
Lemma split1_second (sep : N) (s : jstring) :
  forall cur, nth 0 (Str.split1 sep s cur) [] <> [] ->
              List.length (nth 1 (Str.split1 sep s cur) []) <
              List.length s + List.length cur.
Proof.
  induction s as [|c s IH]; intros cur H; cbn [Str.split1] in *.
  - cbn in *. destruct cur; [contradiction H; reflexivity | cbn; lia].
  - destruct (N.eqb c sep).
    + cbn [nth] in *. pose proof (split1_head sep s []) as L. cbn in *. lia.
    + specialize (IH _ H). cbn in *. lia.
Qed.

Lemma expand_nil (matched pre post : jstring) :
  Regex.expand [] matched pre post = [].
Proof. reflexivity. Qed.

Lemma replace_from_length (r : Regex.re) (n : nat) :
  forall pre s, List.length (Regex.replace_from r [] n pre s) <= List.length s.
Proof.
  induction n as [|n IH]; intros pre s; cbn [Regex.replace_from]; [lia|].
  destruct (Regex.search r pre s) as [m|] eqn:E; [|lia].
  destruct (search_splits r s pre m E) as (u & Hb & Hs).
  cbv zeta. rewrite expand_nil, app_nil_r.
  assert (F : firstn (List.length (Regex.f_before m) - List.length pre) s = u).
  { rewrite Hb, length_app, length_rev, Nat.add_sub.
    rewrite Hs at 1. rewrite firstn_app, Nat.sub_diag, firstn_all. cbn.
    apply app_nil_r. }
  rewrite F.
  assert (L : List.length s = List.length u + List.length (Regex.f_text m)
                             + List.length (Regex.rest (Regex.f_end m))).
  { rewrite Hs at 1. rewrite !length_app. lia. }
  destruct (Regex.f_text m) as [|c t].
  - destruct (Regex.rest (Regex.f_end m)) as [|c s'].
    + lia.
    + rewrite length_app. cbn [List.length] in *. specialize (IH (c :: Regex.f_before m) s'). lia.
  - rewrite length_app.
    specialize (IH (Regex.before (Regex.f_end m)) (Regex.rest (Regex.f_end m))). lia.
Qed.

(** A global replacement by the empty string gives no longer a string. *)
Lemma replace_all_length (r : Regex.re) (s : jstring) :
  List.length (Regex.replace_all r [] s) <= List.length s.
Proof. apply replace_from_length. Qed.

Lemma replace_length (r : Regex.re) (s : jstring) :
  List.length (Regex.replace r [] s) <= List.length s.
Proof.
  unfold Regex.replace, Regex.exec.
  destruct (Regex.search r [] s) as [m|] eqn:E; [|lia].
  destruct (search_splits r s [] m E) as (u & Hb & Hs).
  assert (L : List.length s = List.length u + List.length (Regex.f_text m)
                             + List.length (Regex.rest (Regex.f_end m))).
  { rewrite Hs at 1. rewrite !length_app. lia. }
  rewrite expand_nil, Hb, app_nil_r, rev_involutive. cbn [app].
  rewrite length_app. lia.
Qed.

Lemma within_weaken (n m : nat) (st : Regex.state) :
  n <= m -> within n st -> within m st.
Proof.
  intros Hle [H1 H2]. split; [lia|].
  eapply Forall_impl; [|exact H2]. cbn. intros a Ha. lia.
Qed.

Lemma star_loop_within
      (body : Regex.state -> (Regex.state -> option Regex.state) -> option Regex.state)
      (greedy : bool) (k : Regex.state -> option Regex.state) (N : nat) :
  (forall st k' res, within N st -> body st k' = Some res ->
     exists st', within N st' /\ k' st' = Some res) ->
  forall n st res,
    within N st ->
    Regex.star_loop body greedy k n st = Some res ->
    exists st', within N st' /\ k st' = Some res.
Proof.
  intros Hbody n. induction n as [|n IHn]; intros st res W H.
  - exists st. split; assumption.
  - cbn [Regex.star_loop] in H. cbv zeta in H.
    assert (M : forall x,
               body st (fun st' =>
                 if (List.length (Regex.rest st') <? List.length (Regex.rest st))%nat
                 then Regex.star_loop body greedy k n st' else None) = Some x ->
               exists st', within N st' /\ k st' = Some x).
    { intros x Hx. destruct (Hbody _ _ _ W Hx) as (st1 & W1 & H1).
      destruct (_ <? _)%nat; [|discriminate].
      exact (IHn _ _ W1 H1). }
    destruct greedy.
    + destruct (body st _) as [x|] eqn:Em.
      * injection H as <-. apply M. reflexivity.
      * exists st. split; assumption.
    + destruct (k st) as [x|] eqn:Ek.
      * injection H as <-. exists st. split; assumption.
      * apply M. exact H.
Qed.

(** The captures a pattern makes are pieces of the input it was run on. *)
Lemma run_within (r : Regex.re) (N : nat) :
  forall st k res,
    within N st ->
    Regex.run r st k = Some res ->
    exists st', within N st' /\ k st' = Some res.
Proof.
  induction r as [f| |a IHa b IHb|a IHa b IHb|greedy a IHa|i a IHa| | |];
    intros st k res W H; cbn [Regex.run] in H.
  - destruct (Regex.rest st) as [|c s'] eqn:E; [discriminate|].
    destruct (f c); [|discriminate].
    eexists. split; [|exact H]. destruct W as [W1 W2]. split; cbn.
    + rewrite E in W1. cbn in W1. lia.
    + exact W2.
  - exists st. split; assumption.
  - destruct (IHa _ _ _ W H) as (st1 & W1 & H1). exact (IHb _ _ _ W1 H1).
  - destruct (Regex.run a st k) eqn:E.
    + injection H as <-. exact (IHa _ _ _ W E).
    + exact (IHb _ _ _ W H).
  - exact (star_loop_within (Regex.run a) greedy k N IHa _ _ _ W H).
  - destruct (IHa _ _ _ W H) as (st1 & W1 & H1).
    eexists. split; [|exact H1]. destruct W as [W0 _]. destruct W1 as [W1 W2].
    split; cbn; [exact W1|]. constructor; [|exact W2]. cbn.
    unfold Regex.consumed. rewrite length_firstn. lia.
  - destruct (Regex.before st); [|discriminate]. exists st. split; assumption.
  - destruct (Regex.rest st); [|discriminate]. exists st. split; assumption.
  - destruct (xorb _ _); [|discriminate]. exists st. split; assumption.
Qed.

Lemma search_within (r : Regex.re) (s : jstring) :
  forall pre m, Regex.search r pre s = Some m -> within (List.length s) (Regex.f_end m).
Proof.
  assert (K : forall pre s st,
             Regex.run r (Regex.mkState pre s []) Some = Some st ->
             within (List.length s) st).
  { intros pre s0 st H.
    assert (W : within (List.length s0) (Regex.mkState pre s0 [])).
    { split; cbn; [lia | constructor]. }
    destruct (run_within r _ _ _ _ W H) as (st' & W' & E).
    injection E as <-. exact W'. }
  induction s as [|c s IH]; intros pre m H; cbn [Regex.search] in H.
  - destruct (Regex.run r _ Some) as [st|] eqn:E; [|discriminate].
    injection H as <-. exact (K _ _ _ E).
  - destruct (Regex.run r _ Some) as [st|] eqn:E.
    + injection H as <-. exact (K _ _ _ E).
    + apply (within_weaken (List.length s)); [cbn; lia|]. exact (IH _ _ H).
Qed.

(** A capture of a match is no longer than the string matched against. *)
Lemma cap_length (r : Regex.re) (s : jstring) (m : Regex.found) (i : nat) (t : jstring) :
  Regex.exec r s = Some m -> Regex.cap i m = Some t ->
  List.length t <= List.length s.
Proof.
  intros E H. apply search_within in E. destruct E as [_ F].
  unfold Regex.cap in H. induction (Regex.caps (Regex.f_end m)) as [|[j u] l IH];
    cbn [Regex.cap_in] in H; [discriminate|].
  inversion F as [|x y Hx Hl]; subst. destruct (Nat.eqb i j).
  - injection H as <-. exact Hx.
  - exact (IH Hl H).
Qed.

(** ** The command fallback comes to an end *)

Lemma update_strings_below (n : nat) (k : jstring) (v : json) :
  (forall c, v = JStr c -> List.length c < n) ->
  forall kvs kvs', strings_below n kvs -> update k v kvs = Some kvs' ->
                   strings_below n kvs'.
Proof.
  intros Hv. induction kvs as [|[k' v'] kvs IH]; intros kvs' F H; cbn [update] in H.
  - discriminate H.
  - inversion F as [|x y Hx Hy]; subst. destruct (Str.eqb k k').
    + injection H as <-. constructor; [exact Hv | exact Hy].
    + destruct (update k v kvs) as [l|]; [|discriminate H].
      injection H as <-. constructor; [exact Hx | exact (IH _ Hy eq_refl)].
Qed.

Lemma set_strings_below (n : nat) (k : jstring) (v : json) (kvs : list (jstring * json)) :
  (forall c, v = JStr c -> List.length c < n) ->
  strings_below n kvs -> strings_below n (set k v kvs).
Proof.
  intros Hv F. unfold set. destruct (update k v kvs) as [l|] eqn:E.
  - exact (update_strings_below n k v Hv kvs l F E).
  - destruct (Str.eqb k (lit "__proto__")); [exact F|].
    apply Forall_app. split; [exact F|]. constructor; [exact Hv | constructor].
Qed.

Lemma directive_entry_below (n : nat) (params : list (jstring * json)) (entry : jstring) :
  List.length entry <= n ->
  strings_below n params -> strings_below n (directive_entry params entry).
Proof.
  intros Hn F. unfold directive_entry. cbv zeta.
  destruct (nth 0 (Str.split 61 entry) []) as [|kc k] eqn:Ek; [exact F|].
  assert (Lv : List.length (nth 1 (Str.split 61 entry) []) < n).
  { pose proof (split1_second 61 entry []) as S. unfold Str.split in Ek.
    rewrite Ek in S. specialize (S ltac:(discriminate)). unfold Str.split.
    cbn in S. lia. }
  destruct (nth 1 (Str.split 61 entry) []) as [|vc v] eqn:Ev.
  - apply set_strings_below; [discriminate | exact F].
  - destruct (_ || _).
    + apply set_strings_below; [|exact F]. intros c H. injection H as <-.
      pose proof (replace_all_length Pat.edgeQuoteRe (vc :: v)). lia.
    + destruct (negb _).
      * apply set_strings_below; [discriminate | exact F].
      * apply set_strings_below; [|exact F]. intros c H. injection H as <-.
        pose proof (trim_length (vc :: v)). lia.
Qed.

Lemma directive_entries_below (n : nat) (entries : list jstring) :
  (forall e, In e entries -> List.length e <= n) ->
  forall params, strings_below n params ->
                 strings_below n (fold_left directive_entry entries params).
Proof.
  induction entries as [|e l IH]; intros He params F; cbn [fold_left]; [exact F|].
  apply IH.
  - intros x Hx. apply He. right. exact Hx.
  - apply directive_entry_below; [apply He; left; reflexivity | exact F].
Qed.

Lemma assoc_below (n : nat) (k : jstring) (kvs : list (jstring * json)) (c : jstring) :
  strings_below n kvs -> assoc k kvs = Some (JStr c) -> List.length c < n.
Proof.
  induction kvs as [|[k' v'] kvs IH]; intros F H; cbn [assoc] in H; [discriminate H|].
  inversion F as [|x y Hx Hy]; subst. destruct (Str.eqb k k').
  - injection H as ->. apply Hx. reflexivity.
  - exact (IH Hy H).
Qed.

Lemma command_text_action (name : jstring) (params : list (jstring * json)) :
  command_text (action name params) =
  match assoc (lit "command") params with
  | Some (JStr c) => c
  | _ => match assoc (lit "cmd") params with Some (JStr c) => c | _ => [] end
  end.
Proof. reflexivity. Qed.

Lemma rank_action_below (n : nat) (name : jstring) (params : list (jstring * json)) :
  strings_below n params -> rank (action name params) <= Nat.pred n.
Proof.
  intro F. unfold rank. rewrite command_text_action.
  destruct (assoc (lit "command") params) as [[| | |c| |]|] eqn:E1;
    try (destruct (assoc (lit "cmd") params) as [[| | |c'| |]|] eqn:E2;
         try (cbn; lia);
         pose proof (assoc_below n _ _ _ F E2); lia).
  pose proof (assoc_below n _ _ _ F E1). lia.
Qed.

(** The command that an item of a directive line gives rise to is
    shorter than the item. *)
Lemma directive_item_rank (item : jstring) :
  rank (directive_item item) <= Nat.pred (List.length item).
Proof.
  unfold directive_item.
  destruct (Regex.exec Pat.callRe item) as [m|] eqn:E.
  - cbv zeta. destruct (Regex.cap 2 m) as [[|c paramsStr]|] eqn:E2.
    + cbn. lia.
    + apply rank_action_below. apply directive_entries_below; [|constructor].
      intros e He. apply split_pieces in He.
      pose proof (cap_length _ _ _ _ _ E E2). lia.
    + cbn. lia.
  - cbn. lia.
Qed.

(** The directive line that the fallback makes of a command. *)
Lemma parseCommandLineFromReply_fake (t : jstring) :
  parseCommandLineFromReply (lit "//" ++ t) =
  match Str.trim t with
  | [] => Val []
  | line => Val (map directive_item (Str.split 59 line))
  end.
Proof.
  unfold parseCommandLineFromReply. cbn [lit app].
  change (lit "//" ++ t) with (47%N :: 47%N :: t).
  assert (I : Str.indexOf (lit "//") (47%N :: 47%N :: t) 0 = 0%Z).
  { unfold Str.indexOf, Str.clamp, Str.len. cbv zeta.
    replace (Z.max 0 (Z.min 0 (Z.of_nat (List.length (47%N :: 47%N :: t))))) with 0%Z by lia.
    reflexivity. }
  rewrite I. cbn [Z.eqb Z.add].
  assert (S : Str.sliceFrom (47%N :: 47%N :: t) 2 = t).
  { unfold Str.sliceFrom, Str.rel, Str.len. cbn [Z.ltb Z.compare].
    replace (Z.to_nat (Z.min 2 (Z.of_nat (List.length (47%N :: 47%N :: t))))) with 2.
    - reflexivity.
    - cbn [List.length]. lia. }
  rewrite S. reflexivity.
Qed.

Lemma fallback_ranks (cmd : jstring) (l : list json) (fa : json) :
  parseCommandLineFromReply (lit "//" ++ Regex.replace Pat.leadingSlashRe [] cmd) = Val l ->
  In fa l -> rank fa <= Nat.pred (List.length cmd).
Proof.
  rewrite parseCommandLineFromReply_fake. intros H Hin.
  pose proof (trim_length (Regex.replace Pat.leadingSlashRe [] cmd)) as L1.
  pose proof (replace_length Pat.leadingSlashRe cmd) as L2.
  destruct (Str.trim _) as [|c line] eqn:E.
  - injection H as <-. contradiction.
  - injection H as <-. apply in_map_iff in Hin. destruct Hin as (item & <- & Hi).
    apply split_pieces in Hi. pose proof (directive_item_rank item). lia.
Qed.

Lemma returns_each_isolated (run : json -> M bool) (line : string)
      (actions : list json) :
  (forall a, In a actions -> fuelless (run a)) ->
  returns (each_isolated run line actions).
Proof.
  induction actions as [|a rest IH]; intro Hrun; cbn [each_isolated].
  - apply returns_ret.
  - apply returns_bind; [|intro; apply returns_bind; [apply returns_modify|intro]].
    + apply returns_try_catch; [|apply returns_modify].
      apply fuelless_bind; [apply Hrun; left; reflexivity | intro; fuelless_leaf].
    + apply IH. intros x Hx. apply Hrun. right. exact Hx.
Qed.

Lemma fuelless_tryExecuteCommand (C : Collab) (cmd : jstring) :
  fuelless (tryExecuteCommand C cmd).
Proof.
  unfold tryExecuteCommand, tryExecuteCommand_gate, refuse_command, send_command,
    try_chat.
  fuel_free.
Qed.

Lemma executeAction_fuel (C : Collab) (username : jstring) :
  forall fuel action, rank action < fuel ->
                      fuelless (executeAction C fuel username action).
Proof.
  induction fuel as [|fuel IH]; intros action Hr; [lia|].
  cbn [executeAction].
  destruct (negb (truthy action) || negb (truthy_opt (get "name" action)));
    [fuelless_leaf|].
  cbv zeta. apply fuelless_bind; [fuelless_leaf|intro].
  destruct (Str.mem _ command_names).
  - match goal with
    | |- fuelless (match ?x with [] => _ | _ :: _ => _ end) =>
        change x with (command_text action)
    end.
    unfold rank in Hr.
    destruct (command_text action) as [|c cmd]; [fuel_free|].
    pose proof (fuelless_tryExecuteCommand C) as Hcmd.
    apply fuelless_bind; [unfold try_chat; fuel_free|intro].
    apply fuelless_bind; [apply Hcmd|intro ok].
    apply fuelless_bind; [fuelless_leaf|intro].
    destruct ok; [fuelless_leaf|].
    apply fuelless_try_catch; [|unfold error; fuel_free].
    cbv zeta.
    destruct (parseCommandLineFromReply
                (lit "//" ++ Regex.replace Pat.leadingSlashRe [] (c :: cmd)))
      as [l|] eqn:El; [|intro w; cbn; discriminate].
    intro w. unfold bind at 1. cbn [lift].
    destruct l as [|fa l]; [discriminate|].
    revert w. apply fuelless_bind; [fuelless_leaf|intro].
    apply fuelless_bind; [|intro; fuelless_leaf].
    apply returns_fuelless. apply returns_each_isolated.
    intros x Hx. apply IH.
    pose proof (fallback_ranks (c :: cmd) _ x El Hx) as L. cbn [List.length] in *. lia.
  - pose proof (fuelless_executeMicroAction C) as Hmicro.
    unfold try_chat. fuel_free.
Qed.

(** X5: the calls that [executeAction] makes to itself come to an end.
    An action is a command only through a string [params.command] or
    [params.cmd]; the actions that the fallback reads back from a command
    that could not be sent carry strictly shorter commands, so a depth of
    calls greater than the length of the command is never needed. *)
Theorem X5_fallback_terminates :
  forall (C : Collab) (username : jstring) (fuel : nat) (action : json) (w : World),
    rank action < fuel ->
    executeAction C fuel username action w <> OutOfFuel.
Proof.
  intros C username fuel action w H. exact (executeAction_fuel C username fuel action H w).
Qed.

(** With the chat down the command is not sent and the fallback reads a
    second command in it, and in that one the action [goto]. *)
Lemma X5_witness :
  rank Sample2.nested < 18 /\
  executeAction Sample.mute 18 (lit "bob") Sample2.nested
                (Sample.start (Sample.at_ 0 0 0)) <> OutOfFuel.
Proof.
  split.
  - apply Nat.ltb_lt. vm_compute. reflexivity.
  - apply X5_fallback_terminates. apply Nat.ltb_lt. vm_compute. reflexivity.
Defined.

Lemma gptPlanAndExecute_actions (C : Collab) (username message : jstring) (w : World) :
  exists (actions : option (list json)) (w1 : World),
    forall fuel,
      gptPlanAndExecute C fuel username message w =
      match actions with
      | None => Ret false w1
      | Some [] => (log "[gpt] no actions to run" [] ;; ret false)%M w1
      | Some l =>
          (each_isolated
             (fun a => log "[gpt] executing action:" [a] ;;
                       executeAction C fuel username a)
             "executeAction failed for" l ;;
           ret true)%M w1
      end.
Proof.
  unfold gptPlanAndExecute.
  destruct (actions_of_message_val message) as (fromText & E).
  set (w0 := emit (ELog "[gpt] gptPlanAndExecute called for" [JStr username; JStr message]) w).
  set (fetch :=
         match fromText with
         | [] =>
             try_catch
               (log "[gpt] requesting plan from LLM" [] ;;
                r <- ask_model C (lit "User " ++ username ++ lit " said: " ++ message) ;;
                match r with
                | None => ret None
                | Some reply =>
                    j <- lift (parseJsonActionsFromReply reply) ;;
                    l <- (match j with
                          | Some arr => ret (elements (Some arr))
                          | None => lift (parseCommandLineFromReply reply)
                          end) ;;
                    log "[gpt] parsed actions count:" [] ;;
                    ret (Some l)
                end)
               (error "gptPlanAndExecute sendChatCompletion failed:" ;; ret None)
         | l => ret (Some l)
         end%M).
  assert (R : returns fetch).
  { subst fetch. pose proof (fuelless_ask_model C). unfold error.
    destruct fromText; returning. fuel_free. }
  destruct (R w0) as (actions & w1 & Ef).
  exists actions, w1. intro fuel.
  unfold bind at 1. unfold log at 1. cbn [modify]. fold w0.
  unfold bind at 1. rewrite E. cbn [lift].
  unfold bind at 1. fold fetch. rewrite Ef.
  destruct actions as [[|a l]|]; reflexivity.
Qed.

Lemma gptPlanAndExecute_total (C : Collab) (username message : jstring)
      (w : World) :
  exists n, forall fuel, n <= fuel ->
    exists b w', gptPlanAndExecute C fuel username message w = Ret b w'.
Proof.
  destruct (gptPlanAndExecute_actions C username message w) as (actions & w1 & E).
  destruct actions as [[|a l]|].
  - exists 0. intros fuel _. rewrite E. eexists _, _. reflexivity.
  - exists (S (list_max (map rank (a :: l)))). intros fuel Hf. rewrite E.
    assert (R : returns
                  (each_isolated
                     (fun x => bind (log "[gpt] executing action:" [x])
                                    (fun _ => executeAction C fuel username x))
                     "executeAction failed for" (a :: l))).
    { apply returns_each_isolated. intros x Hx.
      apply fuelless_bind; [fuelless_leaf|intro].
      apply executeAction_fuel.
      assert (rank x <= list_max (map rank (a :: l))).
      { pose proof (proj1 (list_max_le (map rank (a :: l)) _) (Nat.le_refl _)) as F.
        rewrite Forall_forall in F. apply F. apply in_map. exact Hx. }
      lia. }
    exact (returns_bind _ (fun _ => ret true) R (fun _ => returns_ret true) w1).
  - exists 0. intros fuel _. rewrite E. eexists _, _. reflexivity.
Qed.

(** X6: [gptPlanAndExecute] always returns.  No exception leaves it,
    whatever the message, the language model and the actions do, and the
    depth of the calls that [executeAction] makes to itself is bounded:
    some bound [n] is enough, and every greater one gives the same kind
    of outcome, a return. *)
Theorem X6_gptPlanAndExecute_returns :
  forall (C : Collab) (username message : jstring) (w : World),
  exists n, forall fuel, n <= fuel ->
    exists b w', gptPlanAndExecute C fuel username message w = Ret b w'.
Proof.
  intros C username message w.
  destruct (gptPlanAndExecute_total C username message w) as (n & Hn).
  exists n. intros fuel Hf.
  destruct (Hn fuel Hf) as (b & w' & E). exists b, w'. exact E.
Qed.

(** ** The actions of a directive line *)

Lemma update_values (P : json -> bool) (k : jstring) (v : json) :
  P v = true ->
  forall kvs kvs', forallb (fun kv => P (snd kv)) kvs = true ->
                   update k v kvs = Some kvs' ->
                   forallb (fun kv => P (snd kv)) kvs' = true.
Proof.
  intros Hv. induction kvs as [|[k' v'] kvs IH]; intros kvs' F H; cbn [update] in H.
  - discriminate H.
  - cbn in F. apply andb_true_iff in F. destruct F as [Hx Hy].
    destruct (Str.eqb k k').
    + injection H as <-. cbn. rewrite Hv, Hy. reflexivity.
    + destruct (update k v kvs) as [l|]; [|discriminate H].
      injection H as <-. cbn. rewrite Hx, (IH _ Hy eq_refl). reflexivity.
Qed.

Lemma set_values (P : json -> bool) (k : jstring) (v : json) (kvs : list (jstring * json)) :
  P v = true ->
  forallb (fun kv => P (snd kv)) kvs = true ->
  forallb (fun kv => P (snd kv)) (set k v kvs) = true.
Proof.
  intros Hv F. unfold set. destruct (update k v kvs) as [l|] eqn:E.
  - exact (update_values P k v Hv kvs l F E).
  - destruct (Str.eqb k (lit "__proto__")); [exact F|].
    rewrite forallb_app, F. cbn. rewrite Hv. reflexivity.
Qed.

Lemma directive_entry_values (params : list (jstring * json)) (entry : jstring) :
  forallb (fun kv => directive_value (snd kv)) params = true ->
  forallb (fun kv => directive_value (snd kv)) (directive_entry params entry) = true.
Proof.
  intro F. unfold directive_entry. cbv zeta.
  destruct (nth 0 (Str.split 61 entry) []) as [|kc k]; [exact F|].
  destruct (nth 1 (Str.split 61 entry) []) as [|vc v].
  - apply set_values; [reflexivity | exact F].
  - destruct (_ || _); [apply set_values; [reflexivity | exact F]|].
    destruct (negb (Numeral.isNaN (vc :: v))) eqn:E.
    + apply set_values; [exact E | exact F].
    + apply set_values; [reflexivity | exact F].
Qed.

Lemma directive_entries_values (entries : list jstring) :
  forall params,
    forallb (fun kv => directive_value (snd kv)) params = true ->
    forallb (fun kv => directive_value (snd kv))
            (fold_left directive_entry entries params) = true.
Proof.
  induction entries as [|e l IH]; intros params F; cbn [fold_left]; [exact F|].
  apply IH. apply directive_entry_values. exact F.
Qed.

Lemma directive_item_shape (item : jstring) :
  directive_action (directive_item item) = true.
Proof.
  unfold directive_item. destruct (Regex.exec Pat.callRe item) as [m|]; [|reflexivity].
  cbv zeta. destruct (Regex.cap 2 m) as [[|c paramsStr]|]; try reflexivity.
  unfold action, directive_action.
  rewrite (directive_entries_values _ [] eq_refl). reflexivity.
Qed.

Lemma split1_count (sep : N) (s : jstring) :
  forall cur, List.length (Str.split1 sep s cur) = S (count_occ N.eq_dec s sep).
Proof.
  induction s as [|c s IH]; intro cur; cbn [Str.split1 count_occ]; [reflexivity|].
  destruct (N.eqb_spec c sep) as [->|Hne].
  - destruct (N.eq_dec sep sep); [|contradiction]. cbn. rewrite IH. reflexivity.
  - destruct (N.eq_dec c sep); [contradiction|]. apply IH.
Qed.

(** X7: on every text [parseCommandLineFromReply] returns an array of
    objects [{ name, params }] in which [name] is a string and every
    parameter is [true], a string or a number that is not [NaN].  The
    array is empty when the text has no [//] marker and when the line
    after the first marker is blank; in every other case it holds one
    action for each piece that the semicolons cut in that line, trimmed:
    one more than the line has semicolons. *)
Theorem X7_directive_actions_are_well_formed :
  forall text : jstring,
  exists l,
    parseCommandLineFromReply text = Val l /\
    forallb directive_action l = true /\
    let sep := Str.indexOf (lit "//") text 0 in
    let line := Str.trim (Str.sliceFrom text (sep + 2)) in
    l = (if (sep =? -1)%Z then []
         else match line with
              | [] => []
              | _ => map directive_item (Str.split 59%N line)
              end) /\
    List.length l =
    (if (sep =? -1)%Z then 0
     else match line with
          | [] => 0
          | _ => S (count_occ N.eq_dec line 59%N)
          end).
Proof.
  intro text. unfold parseCommandLineFromReply. cbv zeta.
  destruct text as [|c t]; [exists []; repeat split|].
  destruct (_ =? -1)%Z; [exists []; repeat split|].
  destruct (Str.trim _) as [|d line] eqn:E; [exists []; repeat split|].
  eexists. split; [reflexivity|]. split; [|split; [reflexivity|]].
  - rewrite forallb_forall. intros a Ha. apply in_map_iff in Ha.
    destruct Ha as (item & <- & _). apply directive_item_shape.
  - rewrite length_map. apply split1_count.
Qed.

(** ** The object around the key *)

(** X8: the scan of [parsePlanFromReply] and [parseJsonActionsFromReply]
    for the end of the inline object stops at the first closing brace at
    which the opening and the closing braces read so far are as many,
    whatever is between them (braces inside JSON strings count as
    well); it finds nothing exactly when there is no such brace. *)
Theorem X8_closing_brace_is_first_balance :
  forall (s : jstring) (i d : Z),
    match closing_brace s i d with
    | Some j =>
        exists k, j = (i + Z.of_nat k)%Z /\ closes_at s d k /\
                  forall k', k' < k -> ~ closes_at s d k'
    | None => forall k, ~ closes_at s d k
    end.
Proof.
  induction s as [|c s IH]; intros i d; cbn [closing_brace].
  - intros k [H _]. destruct k; discriminate H.
  - assert (Shift : forall k, closes_at s (d + brace_delta c) k <->
                                closes_at (c :: s) d (S k)).
    { intros k. unfold closes_at. cbn [nth_error firstn brace_depth].
      split; intros [H1 H2]; (split; [exact H1 | lia]). }
    destruct (c =? 123)%N eqn:E1; [|destruct (c =? 125)%N eqn:E2].
    + assert (D : brace_delta c = 1%Z) by (unfold brace_delta; rewrite E1; reflexivity).
      rewrite D in Shift. specialize (IH (i + 1)%Z (d + 1)%Z).
      assert (Z0 : ~ closes_at (c :: s) d 0).
      { intros [H _]. cbn in H. apply N.eqb_eq in E1. injection H as H.
        rewrite E1 in H. discriminate H. }
      destruct (closing_brace s (i + 1) (d + 1)) as [j|].
      * destruct IH as (k & -> & Hk & Hmin). exists (S k). split; [lia|].
        split; [apply Shift; exact Hk|].
        intros [|k'] Hlt; [exact Z0|]. intro H. apply Shift in H.
        exact (Hmin k' ltac:(lia) H).
      * intros [|k]; [exact Z0|]. intro H. apply Shift in H. exact (IH k H).
    + assert (D : brace_delta c = (-1)%Z)
        by (unfold brace_delta; rewrite E1, E2; reflexivity).
      rewrite D in Shift. apply N.eqb_eq in E2.
      destruct (d - 1 =? 0)%Z eqn:E3.
      * apply Z.eqb_eq in E3. exists 0. split; [lia|]. split.
        -- split; [cbn; rewrite E2; reflexivity|].
           cbn [firstn brace_depth]. rewrite D. lia.
        -- intros k' Hlt. lia.
      * apply Z.eqb_neq in E3.
        assert (Z0 : ~ closes_at (c :: s) d 0).
        { intros [_ H]. cbn [firstn brace_depth] in H. rewrite D in H. lia. }
        specialize (IH (i + 1)%Z (d - 1)%Z).
        replace (d + -1)%Z with (d - 1)%Z in Shift by lia.
        destruct (closing_brace s (i + 1) (d - 1)) as [j|].
        -- destruct IH as (k & -> & Hk & Hmin). exists (S k). split; [lia|].
           split; [apply Shift; exact Hk|].
           intros [|k'] Hlt; [exact Z0|]. intro H. apply Shift in H.
           exact (Hmin k' ltac:(lia) H).
        -- intros [|k]; [exact Z0|]. intro H. apply Shift in H. exact (IH k H).
    + assert (D : brace_delta c = 0%Z)
        by (unfold brace_delta; rewrite E1, E2; reflexivity).
      rewrite D in Shift. replace (d + 0)%Z with d in Shift by lia.
      assert (Z0 : ~ closes_at (c :: s) d 0).
      { intros [H _]. cbn in H. apply N.eqb_neq in E2. injection H as H.
        contradiction. }
      specialize (IH (i + 1)%Z d).
      destruct (closing_brace s (i + 1) d) as [j|].
      * destruct IH as (k & -> & Hk & Hmin). exists (S k). split; [lia|].
        split; [apply Shift; exact Hk|].
        intros [|k'] Hlt; [exact Z0|]. intro H. apply Shift in H.
        exact (Hmin k' ltac:(lia) H).
      * intros [|k]; [exact Z0|]. intro H. apply Shift in H. exact (IH k H).
Qed.

(** ** The chat text is one line *)

Lemma run_of_past (f : N -> bool) (s : jstring) : s = run_of f s ++ past f s.
Proof.
  induction s as [|c s IH]; [reflexivity|]. cbn. destruct (f c); [|reflexivity].
  cbn. rewrite <- IH. reflexivity.
Qed.

Lemma past_length (f : N -> bool) (s : jstring) :
  List.length (past f s) <= List.length s.
Proof. induction s as [|c s IH]; cbn; [lia|]. destruct (f c); cbn; lia. Qed.

(** A greedy star over one class reads the whole run of that class. *)
Lemma star_class_greedy (f : N -> bool) :
  forall n st,
    List.length (Regex.rest st) <= n ->
    Regex.star_loop (Regex.run (Regex.Any1 f)) true Some n st =
    Some (Regex.mkState (rev (run_of f (Regex.rest st)) ++ Regex.before st)
                        (past f (Regex.rest st)) (Regex.caps st)).
Proof.
  induction n as [|n IH]; intros [b r cs] H; cbn [Regex.rest Regex.before Regex.caps] in *.
  - destruct r; [reflexivity | cbn in H; lia].
  - cbn [Regex.star_loop Regex.run Regex.rest Regex.before Regex.caps].
    destruct r as [|c s']; [reflexivity|]. cbn [run_of past].
    destruct (f c); [|reflexivity].
    cbn [Regex.rest]. replace (List.length s' <? List.length (c :: s'))%nat with true
      by (symmetry; apply Nat.ltb_lt; cbn; lia).
    rewrite IH by (cbn in *; lia). cbn [Regex.rest Regex.before Regex.caps].
    cbn [rev]. rewrite <- app_assoc. reflexivity.
Qed.

Lemma run_plus_class (f : N -> bool) (pre s : jstring) :
  Regex.run (Regex.plus (Regex.Any1 f)) (Regex.mkState pre s []) Some =
  match s with
  | c :: s' =>
      if f c then Some (Regex.mkState (rev (run_of f s') ++ c :: pre) (past f s') [])
      else None
  | [] => None
  end.
Proof.
  destruct s as [|c s']; [reflexivity|].
  pose proof (star_class_greedy f (S (List.length s'))
                (Regex.mkState (c :: pre) s' []) (le_S _ _ (le_n _))) as G.
  cbn [Regex.rest Regex.before Regex.caps] in G.
  change (Regex.run (Regex.plus (Regex.Any1 f)) (Regex.mkState pre (c :: s') []) Some)
    with (if f c
          then Regex.star_loop (Regex.run (Regex.Any1 f)) true Some
                 (S (List.length s')) (Regex.mkState (c :: pre) s' [])
          else None).
  destruct (f c); [exact G | reflexivity].
Qed.

(** A match that starts further on is looked for further on. *)
Lemma replace_from_skip (r : Regex.re) (repl : jstring) (n : nat)
      (pre : jstring) (c : N) (s : jstring) :
  Regex.run r (Regex.mkState pre (c :: s) []) Some = None ->
  Regex.replace_from r repl (S n) pre (c :: s) =
  c :: Regex.replace_from r repl (S n) (c :: pre) s.
Proof.
  intro H. cbn [Regex.replace_from Regex.search]. rewrite H.
  destruct (Regex.search r (c :: pre) s) as [m|] eqn:E; [|reflexivity].
  destruct (search_splits r s (c :: pre) m E) as (u & Hb & _).
  cbv zeta.
  replace (List.length (Regex.f_before m) - List.length pre)
    with (S (List.length (Regex.f_before m) - List.length (c :: pre))).
  - cbn [firstn app]. destruct (Regex.f_text m).
    + destruct (Regex.rest (Regex.f_end m)); reflexivity.
    + reflexivity.
  - rewrite Hb, length_app. cbn [List.length]. lia.
Qed.

Lemma squeeze_past (s : jstring) :
  squeeze true s = squeeze false (past Str.is_space s).
Proof.
  induction s as [|c s IH]; [reflexivity|]. cbn [squeeze past].
  destruct (Str.is_space c) eqn:E; [exact IH|]. cbn [squeeze]. rewrite E. reflexivity.
Qed.

(** Replacing the runs of white space by a space, as a function. *)
Lemma replace_spaces (n : nat) :
  forall pre s,
    List.length s < n ->
    Regex.replace_from Pat.spaceRunRe (lit " ") n pre s = squeeze false s.
Proof.
  induction n as [|n IH]; intros pre s H; [lia|].
  destruct s as [|c s'].
  - reflexivity.
  - pose proof (run_plus_class Str.is_space pre (c :: s')) as R.
    fold Pat.spaceRunRe in R. cbn [squeeze].
    destruct (Str.is_space c) eqn:E.
    + cbv beta iota in R. rewrite E in R.
      cbn [Regex.replace_from Regex.search]. rewrite R. cbv beta iota zeta.
      cbn [Regex.f_before Regex.f_text Regex.f_end Regex.rest Regex.before].
      rewrite Nat.sub_diag. cbn [firstn app].
      assert (T : Regex.consumed (Regex.mkState pre (c :: s') [])
                    (Regex.mkState (rev (run_of Str.is_space s') ++ c :: pre)
                                   (past Str.is_space s') [])
                  = c :: run_of Str.is_space s').
      { apply advanced_consumed. split; cbn.
        - rewrite <- run_of_past. reflexivity.
        - rewrite <- app_assoc. reflexivity. }
      rewrite T. cbn [lit Regex.expand app].
      rewrite IH by (pose proof (past_length Str.is_space s'); cbn in H; lia).
      rewrite squeeze_past. reflexivity.
    + cbv beta iota in R. rewrite E in R. rewrite replace_from_skip by exact R.
      rewrite (replace_from_fuel Pat.spaceRunRe (lit " ") n (S n)) by (cbn in H; lia).
      rewrite IH by (cbn in H; lia). reflexivity.
Qed.

Lemma squeeze_plain (b : bool) (s : jstring) : plain_spaces (squeeze b s) = true.
Proof.
  revert b. induction s as [|c s IH]; intro b; [reflexivity|]. cbn [squeeze].
  destruct (Str.is_space c) eqn:E.
  - destruct b; [apply IH|]. cbn. apply IH.
  - cbn. rewrite E. apply IH.
Qed.

Lemma squeeze_head (s : jstring) : starts_clean (squeeze true s) = true.
Proof.
  induction s as [|c s IH]; [reflexivity|]. cbn [squeeze].
  destruct (Str.is_space c) eqn:E; [exact IH|]. cbn. rewrite E. reflexivity.
Qed.

Lemma squeeze_no_double (b : bool) (s : jstring) :
  no_double_space (squeeze b s) = true.
Proof.
  revert b. induction s as [|c s IH]; intro b; [reflexivity|]. cbn [squeeze].
  destruct (Str.is_space c) eqn:E.
  - destruct b; [apply IH|]. cbn [no_double_space]. rewrite IH.
    pose proof (squeeze_head s) as Hh. destruct (squeeze true s) as [|d t].
    + rewrite andb_false_r. reflexivity.
    + cbn in Hh. apply negb_true_iff in Hh. rewrite Hh, andb_false_r. reflexivity.
  - cbn [no_double_space]. rewrite E, IH. reflexivity.
Qed.

Lemma plain_spaces_app (a b : jstring) :
  plain_spaces (a ++ b) = plain_spaces a && plain_spaces b.
Proof. apply forallb_app. Qed.

Lemma no_double_suffix (a b : jstring) :
  no_double_space (a ++ b) = true -> no_double_space b = true.
Proof.
  induction a as [|c a IH]; intro H; [exact H|]. cbn [app no_double_space] in H.
  apply andb_true_iff in H. apply IH, H.
Qed.

Lemma no_double_prefix (a b : jstring) :
  no_double_space (a ++ b) = true -> no_double_space a = true.
Proof.
  induction a as [|c a IH]; intro H; [reflexivity|]. cbn [app no_double_space] in *.
  apply andb_true_iff in H. destruct H as [H1 H2]. rewrite (IH H2), andb_true_r.
  destruct a as [|d a]; [rewrite andb_false_r; reflexivity | exact H1].
Qed.

Lemma no_double_join (a b : jstring) :
  no_double_space a = true -> no_double_space b = true -> starts_clean b = true ->
  no_double_space (a ++ b) = true.
Proof.
  intros Ha Hb Hc. induction a as [|c a IH]; [exact Hb|].
  cbn [app no_double_space] in *. apply andb_true_iff in Ha. destruct Ha as [H1 H2].
  rewrite (IH H2), andb_true_r. destruct a as [|d a]; [|exact H1].
  cbn [app]. destruct b as [|e b]; [exact H1|].
  cbn in Hc. apply negb_true_iff in Hc. rewrite Hc, andb_false_r. reflexivity.
Qed.

Lemma trimStart_split (s : jstring) :
  exists l, s = l ++ Str.trimStart s /\ starts_clean (Str.trimStart s) = true.
Proof.
  induction s as [|c s (l & Hl & Hc)]; [exists []; split; reflexivity|].
  cbn [Str.trimStart]. destruct (Str.is_space c) eqn:E.
  - exists (c :: l). split; [cbn; rewrite <- Hl; reflexivity | exact Hc].
  - exists []. split; [reflexivity|]. cbn. rewrite E. reflexivity.
Qed.

(** [trim] keeps a piece of the string that does not start with white space. *)
Lemma trim_split (s : jstring) :
  exists l r, s = l ++ Str.trim s ++ r /\ starts_clean (Str.trim s) = true.
Proof.
  unfold Str.trim. destruct (trimStart_split s) as (l & Hl & Hc).
  destruct (trimStart_split (rev (Str.trimStart s))) as (l' & Hl' & _).
  assert (T : Str.trimStart s = rev (Str.trimStart (rev (Str.trimStart s))) ++ rev l').
  { rewrite <- rev_app_distr, <- Hl', rev_involutive. reflexivity. }
  exists l, (rev l'). split; [rewrite <- T; exact Hl|].
  destruct (rev (Str.trimStart (rev (Str.trimStart s)))) as [|c t] eqn:E; [reflexivity|].
  rewrite T in Hc. exact Hc.
Qed.

Lemma cleaned_tidy (reply : jstring) :
  plain_spaces (cleaned reply) = true /\ no_double_space (cleaned reply) = true /\
  starts_clean (cleaned reply) = true.
Proof.
  unfold cleaned. cbv zeta.
  set (s := Regex.replace_all Pat.bracesRe [] _).
  unfold Regex.replace_all. rewrite replace_spaces by lia.
  pose proof (squeeze_plain false s) as P. pose proof (squeeze_no_double false s) as D.
  destruct (trim_split (squeeze false s)) as (l & r & E & Hc).
  rewrite E in P, D. rewrite !plain_spaces_app in P.
  apply andb_true_iff in P. destruct P as [_ P]. apply andb_true_iff in P.
  split; [apply P|]. split; [|exact Hc].
  apply no_double_suffix in D. apply no_double_prefix in D. exact D.
Qed.

(** X9: what [sanitizeLLMReplyForChat] returns is one line of text: it
    holds no line break, tab or other white space than the space, never
    two spaces in a row, and it does not start with a space. *)
Theorem X9_sanitized_text_is_one_line :
  forall reply : jstring,
    let out := sanitizeLLMReplyForChat reply in
    plain_spaces out = true /\ no_double_space out = true /\
    starts_clean out = true /\
    (forall c, In c out -> c <> 10%N /\ c <> 13%N /\ c <> 9%N).
Proof.
  intro reply. cbv zeta.
  assert (K : plain_spaces (sanitizeLLMReplyForChat reply) = true /\
              no_double_space (sanitizeLLMReplyForChat reply) = true /\
              starts_clean (sanitizeLLMReplyForChat reply) = true).
  { destruct reply as [|c t]; [repeat split|]. rewrite sanitize_unfold. cbv zeta.
    destruct (cleaned_tidy (c :: t)) as (P & D & H).
    destruct (Str.startsWith _ _); [repeat split|].
    destruct (240 <? Str.len (cleaned (c :: t)))%Z eqn:E; [|repeat split; assumption].
    rewrite <- (firstn_skipn 237 (cleaned (c :: t))) in P, D.
    rewrite plain_spaces_app in P. apply andb_true_iff in P. destruct P as [P _].
    apply no_double_prefix in D. split; [|split].
    - rewrite plain_spaces_app, P. reflexivity.
    - apply no_double_join; [exact D | reflexivity | reflexivity].
    - apply Z.ltb_lt in E. unfold Str.len in E.
      destruct (cleaned (c :: t)) as [|d u]; [cbn in E; lia|]. exact H. }
  destruct K as (P & D & H). repeat split; try assumption;
    intros ->; unfold plain_spaces in P; rewrite forallb_forall in P;
    specialize (P _ H0); discriminate P.
Qed.

(** ** No object is left in the chat text *)

Lemma run_class (f : N -> bool) (st : Regex.state) (k : Regex.state -> option Regex.state) :
  Regex.run (Regex.Any1 f) st k =
  match Regex.rest st with
  | c :: s' =>
      if f c then k (Regex.mkState (c :: Regex.before st) s' (Regex.caps st)) else None
  | [] => None
  end.
Proof. reflexivity. Qed.

Lemma last_close_spec (s : jstring) :
  match last_close s with
  | Some (u, t) => s = u ++ 125%N :: t /\ existsb (N.eqb 125%N) t = false
  | None => existsb (N.eqb 125%N) s = false
  end.
Proof.
  induction s as [|c s IH]; [reflexivity|]. cbn [last_close existsb].
  destruct (last_close s) as [[u t]|].
  - destruct IH as [-> Ht]. split; [reflexivity | exact Ht].
  - rewrite IH, orb_false_r. rewrite (N.eqb_sym 125 c).
    destruct (N.eqb_spec c 125) as [->|Hne]; [split; [reflexivity | exact IH] | reflexivity].
Qed.

(** A greedy star over every unit, followed by a closing brace, reads up
    to the last closing brace. *)
Lemma star_any_close :
  forall n st,
    List.length (Regex.rest st) <= n ->
    Regex.star_loop (Regex.run (Regex.Any1 Regex.anything)) true
                    (fun st' => Regex.run (Regex.chr "}") st' Some) n st =
    match last_close (Regex.rest st) with
    | Some (u, t) =>
        Some (Regex.mkState (125%N :: rev u ++ Regex.before st) t (Regex.caps st))
    | None => None
    end.
Proof.
  assert (K : forall st,
             Regex.run (Regex.chr "}") st Some =
             match Regex.rest st with
             | c :: s' =>
                 if (c =? 125)%N
                 then Some (Regex.mkState (125%N :: Regex.before st) s' (Regex.caps st))
                 else None
             | [] => None
             end).
  { intro st. unfold Regex.chr. rewrite run_class.
    destruct (Regex.rest st) as [|c s']; [reflexivity|].
    change (Regex.one "}" c) with (125 =? c)%N. rewrite (N.eqb_sym 125 c).
    destruct (N.eqb_spec c 125) as [->|]; reflexivity. }
  induction n as [|n IH]; intros [b r cs] H; cbn [Regex.rest Regex.before Regex.caps] in *.
  - destruct r; [|cbn in H; lia]. cbn [Regex.star_loop]. rewrite K. reflexivity.
  - cbn [Regex.star_loop]. cbv zeta. rewrite run_class, K.
    cbn [Regex.rest Regex.before Regex.caps].
    destruct r as [|c s']; [reflexivity|]. cbn [last_close].
    change (Regex.anything c) with true. cbv iota.
    replace (List.length s' <? List.length (c :: s'))%nat with true
      by (symmetry; apply Nat.ltb_lt; cbn; lia).
    rewrite IH by (cbn in *; lia). cbn [Regex.rest Regex.before Regex.caps].
    destruct (last_close s') as [[u t]|].
    + cbn [rev]. rewrite <- app_assoc. reflexivity.
    + destruct (c =? 125)%N; reflexivity.
Qed.

Lemma run_braces (pre s : jstring) :
  Regex.run Pat.bracesRe (Regex.mkState pre s []) Some =
  match s with
  | c :: s' =>
      if (c =? 123)%N then
        match last_close s' with
        | Some (u, t) => Some (Regex.mkState (125%N :: rev u ++ c :: pre) t [])
        | None => None
        end
      else None
  | [] => None
  end.
Proof.
  destruct s as [|c s']; [reflexivity|].
  pose proof (star_any_close (S (List.length s'))
                (Regex.mkState (c :: pre) s' []) (le_S _ _ (le_n _))) as G.
  cbn [Regex.rest Regex.before Regex.caps] in G.
  change (Regex.run Pat.bracesRe (Regex.mkState pre (c :: s') []) Some)
    with (if (123 =? c)%N
          then Regex.star_loop (Regex.run (Regex.Any1 Regex.anything)) true
                 (fun st' => Regex.run (Regex.chr "}") st' Some)
                 (S (List.length s')) (Regex.mkState (c :: pre) s' [])
          else None).
  rewrite (N.eqb_sym 123 c). destruct (c =? 123)%N; [exact G | reflexivity].
Qed.

Lemma no_object_app (u t : jstring) :
  existsb (N.eqb 123%N) u = false -> existsb (N.eqb 125%N) t = false ->
  no_object (u ++ t) = true.
Proof.
  intros Hu Ht. induction u as [|c u IH]; cbn [app].
  - induction t as [|d t IHt]; [reflexivity|]. cbn [no_object existsb] in *.
    apply orb_false_iff in Ht. destruct Ht as [_ Ht].
    destruct (d =? 123)%N; [rewrite Ht; reflexivity | exact (IHt Ht)].
  - cbn [existsb] in Hu. apply orb_false_iff in Hu. destruct Hu as [Hc Hu].
    cbn [no_object]. rewrite N.eqb_sym, Hc. exact (IH Hu).
Qed.

(** The first object found: from the first opening brace that has a
    closing brace after it to the last closing brace of the text. *)
Lemma search_braces (s : jstring) :
  forall pre,
    match Regex.search Pat.bracesRe pre s with
    | Some m =>
        exists u v t,
          s = u ++ 123%N :: v ++ 125%N :: t /\
          existsb (N.eqb 123%N) u = false /\
          existsb (N.eqb 125%N) t = false /\
          Regex.f_before m = rev u ++ pre /\
          Regex.rest (Regex.f_end m) = t /\
          Regex.f_text m <> []
    | None => no_object s = true
    end.
Proof.
  induction s as [|c s IH]; intro pre; cbn [Regex.search]; rewrite run_braces.
  - reflexivity.
  - destruct (N.eqb_spec c 123) as [->|Hne].
    + pose proof (last_close_spec s) as L. destruct (last_close s) as [[v t]|].
      * destruct L as [-> Ht]. exists [], v, t. repeat split; try assumption.
        cbn [Regex.f_text]. unfold Regex.consumed. cbn [Regex.rest List.length].
        rewrite length_app. cbn [List.length].
        replace (S (List.length v + S (List.length t)) - List.length t)
          with (S (S (List.length v))) by lia.
        cbn. discriminate.
      * specialize (IH (123%N :: pre)).
        destruct (Regex.search Pat.bracesRe (123%N :: pre) s) as [m|].
        -- destruct IH as (u & v & t & -> & _).
           rewrite existsb_app in L. cbn [existsb] in L.
           rewrite existsb_app in L. cbn [existsb] in L.
           rewrite N.eqb_refl in L. rewrite !orb_true_r in L. discriminate L.
        -- cbn [no_object]. rewrite N.eqb_refl, L. reflexivity.
    + specialize (IH (c :: pre)).
      destruct (Regex.search Pat.bracesRe (c :: pre) s) as [m|].
      * destruct IH as (u & v & t & -> & Hu & Ht & Hb & Hr & Hx).
        exists (c :: u), v, t. repeat split; try assumption.
        -- cbn [existsb]. rewrite Hu, orb_false_r. apply N.eqb_neq.
           intro E. apply Hne. symmetry. exact E.
        -- rewrite Hb. cbn [rev]. rewrite <- app_assoc. reflexivity.
      * cbn [no_object]. apply N.eqb_neq in Hne. rewrite Hne. exact IH.
Qed.

Lemma replace_braces (s : jstring) :
  no_object (Regex.replace_all Pat.bracesRe [] s) = true.
Proof.
  unfold Regex.replace_all. cbn [Regex.replace_from].
  pose proof (search_braces s []) as S0.
  destruct (Regex.search Pat.bracesRe [] s) as [m|]; [|exact S0].
  destruct S0 as (u & v & t & Hs & Hu & Ht & Hb & Hr & Hx).
  cbv zeta. rewrite expand_nil, app_nil_r, Hb, app_nil_r, length_rev, Nat.sub_0_r.
  assert (F : firstn (List.length u) s = u).
  { rewrite Hs, firstn_app, Nat.sub_diag, firstn_all. cbn. apply app_nil_r. }
  rewrite F, Hr. destruct (Regex.f_text m) as [|x y]; [contradiction Hx; reflexivity|].
  assert (T : forall n pre, Regex.replace_from Pat.bracesRe [] n pre t = t).
  { intros [|n] pre; [reflexivity|]. cbn [Regex.replace_from].
    pose proof (search_braces t pre) as S1.
    destruct (Regex.search Pat.bracesRe pre t) as [m'|]; [|reflexivity].
    destruct S1 as (u' & v' & t' & -> & _).
    rewrite existsb_app in Ht. cbn [existsb] in Ht.
    rewrite existsb_app in Ht. cbn [existsb] in Ht.
    rewrite N.eqb_refl in Ht. rewrite !orb_true_r in Ht. discriminate Ht. }
  rewrite T. apply no_object_app; assumption.
Qed.

Lemma no_object_cons (c : N) (s : jstring) :
  no_object (c :: s) = true -> no_object s = true.
Proof.
  cbn [no_object]. destruct (c =? 123)%N; [|auto]. intro H.
  apply negb_true_iff in H. apply (no_object_app [] s eq_refl H).
Qed.

Lemma no_object_suffix (a b : jstring) :
  no_object (a ++ b) = true -> no_object b = true.
Proof.
  induction a as [|c a IH]; intro H; [exact H|]. apply IH.
  exact (no_object_cons c _ H).
Qed.

Lemma no_object_prefix (a b : jstring) :
  no_object (a ++ b) = true -> no_object a = true.
Proof.
  induction a as [|c a IH]; intro H; [reflexivity|]. cbn [app no_object] in *.
  destruct (c =? 123)%N; [|exact (IH H)].
  apply negb_true_iff in H. rewrite existsb_app in H.
  apply orb_false_iff in H. destruct H as [H _]. rewrite H. reflexivity.
Qed.

Lemma no_object_dots (a b : jstring) :
  no_object a = true -> existsb (N.eqb 123%N) b = false ->
  existsb (N.eqb 125%N) b = false -> no_object (a ++ b) = true.
Proof.
  intros Ha H1 H2. induction a as [|c a IH]; cbn [app].
  - apply (no_object_app [] b eq_refl H2).
  - cbn [no_object] in *. destruct (c =? 123)%N; [|exact (IH Ha)].
    apply negb_true_iff in Ha. rewrite existsb_app, Ha, H2. reflexivity.
Qed.

Lemma space_is_no_brace (c : N) :
  Str.is_space c = true -> (c =? 123)%N = false /\ (c =? 125)%N = false.
Proof.
  intro H. split; apply N.eqb_neq; intros ->; vm_compute in H; discriminate H.
Qed.

Lemma squeeze_close (b : bool) (s : jstring) :
  existsb (N.eqb 125%N) s = false -> existsb (N.eqb 125%N) (squeeze b s) = false.
Proof.
  revert b. induction s as [|c s IH]; intros b H; [reflexivity|].
  cbn [existsb] in H. apply orb_false_iff in H. destruct H as [Hc Hs].
  cbn [squeeze]. destruct (Str.is_space c).
  - destruct b; [exact (IH _ Hs)|]. cbn [existsb]. rewrite (IH _ Hs). reflexivity.
  - cbn [existsb]. rewrite Hc, (IH _ Hs). reflexivity.
Qed.

Lemma squeeze_no_object (b : bool) (s : jstring) :
  no_object s = true -> no_object (squeeze b s) = true.
Proof.
  revert b. induction s as [|c s IH]; intros b H; [reflexivity|].
  cbn [squeeze]. destruct (Str.is_space c) eqn:E.
  - destruct (space_is_no_brace c E) as [E1 _]. cbn [no_object] in H.
    rewrite E1 in H. destruct b; [exact (IH _ H)|]. cbn [no_object].
    change (32 =? 123)%N with false. cbv iota. exact (IH _ H).
  - cbn [no_object] in *. destruct (c =? 123)%N; [|exact (IH _ H)].
    apply negb_true_iff in H. rewrite (squeeze_close _ _ H). reflexivity.
Qed.

(** X10: [sanitizeLLMReplyForChat] leaves no JSON object in the chat
    text: in what it returns no opening brace has a closing brace
    anywhere after it. *)
Theorem X10_sanitized_text_has_no_object :
  forall reply : jstring, no_object (sanitizeLLMReplyForChat reply) = true.
Proof.
  intro reply. destruct reply as [|c t]; [reflexivity|]. rewrite sanitize_unfold.
  cbv zeta.
  assert (K : no_object (cleaned (c :: t)) = true).
  { unfold cleaned. cbv zeta. set (s := Regex.replace_all Pat.fenceRe [] _).
    pose proof (replace_braces s) as B.
    unfold Regex.replace_all at 1. rewrite replace_spaces by lia.
    apply (squeeze_no_object false) in B.
    destruct (trim_split (squeeze false (Regex.replace_all Pat.bracesRe [] s)))
      as (l & r & E & _).
    rewrite E in B. apply no_object_suffix in B. apply no_object_prefix in B.
    exact B. }
  destruct (Str.startsWith _ _); [reflexivity|].
  destruct (240 <? _)%Z; [|exact K].
  rewrite <- (firstn_skipn 237 (cleaned (c :: t))) in K.
  apply no_object_prefix in K. apply no_object_dots; [exact K | reflexivity | reflexivity].
Qed.

(* ------------------------------------------------------------------ *)
(** ** The handlers *)

Section Hkeeps.

Variable R : Agent -> Agent -> Prop.
Hypothesis R_refl : forall s, R s s.
Hypothesis R_trans : forall a b c, R a b -> R b c -> R a c.

Lemma hkeeps_ret {A} (a : A) : hkeeps R (hret a).
Proof. intro s. apply R_refl. Qed.

Lemma hkeeps_bind {A B} (c : H A) (k : A -> H B) :
  hkeeps R c -> (forall a, hkeeps R (k a)) -> hkeeps R (hbind c k).
Proof.
  intros Hc Hk s. unfold hbind. specialize (Hc s).
  destruct (c s) as [a s1|s1|]; cbn in *; auto.
  specialize (Hk a s1). destruct (k a s1); cbn in *; eauto.
Qed.

Lemma hkeeps_modify (f : Agent -> Agent) :
  (forall s, R s (f s)) -> hkeeps R (hmodify f).
Proof. intros Hf s. apply Hf. Qed.

End Hkeeps.

(** A computation on the world keeps on the agent what it keeps on the
    world, when nothing else of the agent matters. *)
Lemma hkeeps_in_world {A} (Q : World -> World -> Prop) (R : Agent -> Agent -> Prop)
      (c : M A) :
  (forall s w, Q (world s) w -> R s (with_world w s)) ->
  keeps Q c -> hkeeps R (in_world c).
Proof.
  intros HR Hc s. unfold in_world. specialize (Hc (world s)).
  destruct (c (world s)); cbn in *; auto.
Qed.

Lemma settled_try_chat (C : Collab) (m : jstring) : keeps settled (try_chat C m).
Proof. unfold try_chat. settles. Qed.

Lemma settled_chat (C : Collab) (m : jstring) : keeps settled (chat C m).
Proof. settles. Qed.

Lemma settled_converse (C : Collab) (fuel : nat) (username message : jstring) :
  keeps settled (converse C fuel username message).
Proof.
  unfold converse, error.
  pose proof (settled_gptPlanAndExecute C fuel username message) as Hg.
  pose proof (settled_try_chat C) as Ht.
  assert (Hrun : forall a,
             keeps settled
               (bind (log "[gpt] executing action from chat command:" [a])
                     (fun _ => executeAction C fuel username a))).
  { intro a. pose proof (settled_executeAction C username fuel a). settles. }
  destruct (parseChatCommandToActions message username) as [|a l].
  - settles.
  - apply (keeps_try_catch _ settled_trans).
    + apply settled_each_isolated. exact Hrun.
    + settles.
Qed.

Lemma op_kept_refl (s : Agent) : op_kept s s.
Proof. reflexivity. Qed.

Lemma op_kept_trans (a b c : Agent) : op_kept a b -> op_kept b c -> op_kept a c.
Proof. unfold op_kept. congruence. Qed.

Lemma op_kept_in_world {A} (c : M A) : keeps settled c -> hkeeps op_kept (in_world c).
Proof.
  apply hkeeps_in_world. intros s w (H & _). exact H.
Qed.

Lemma op_kept_startLoop (C : Collab) : hkeeps op_kept (startLoop C).
Proof.
  intro s. unfold startLoop. destruct (loopTimer s); [reflexivity|].
  revert s.
  repeat (apply (hkeeps_bind _ op_kept_trans); [|intro]);
    try (apply hkeeps_modify; intro; reflexivity).
  apply op_kept_in_world, settled_try_chat.
Qed.

Lemma op_kept_stopLoop (C : Collab) : hkeeps op_kept (stopLoop C).
Proof.
  unfold stopLoop.
  repeat (apply (hkeeps_bind _ op_kept_trans); [|intro]).
  - apply hkeeps_modify; intro; reflexivity.
  - apply hkeeps_modify; intro s; destruct (loopTimer s); reflexivity.
  - apply op_kept_in_world, settled_try_chat.
Qed.

Lemma settled_status (C : Collab) :
  keeps settled (fun w => match status_line C w with
                          | Some line => chat C line w
                          | None => Throw w
                          end).
Proof.
  intro w. destruct (status_line C w); [apply settled_chat | apply settled_refl].
Qed.

Lemma on_chat_op (C : Collab) (self : jstring) (fuel : nat)
      (username message : jstring) (s : Agent) :
  hends (on_chat C self fuel username message s)
        (fun s' =>
           op_kept s s' \/
           (from_owner C username = true /\ Str.eqb username self = false /\
            owner_directive (Str.toLowerCase (Str.trim message)) = true)).
Proof.
  unfold on_chat. destruct (Str.eqb username self) eqn:Es; [left; reflexivity|].
  cbv zeta. set (msg := Str.toLowerCase (Str.trim message)). unfold owner_directive.
  assert (W : forall A (c : H A),
             hkeeps op_kept c ->
             hends (c s)
               (fun s' => op_kept s s' \/
                          (from_owner C username = true /\ false = false /\
                           Str.startsWith msg (lit "setop ")
                           || Str.eqb msg (lit "enablecommands")
                           || Str.eqb msg (lit "disablecommands") = true))).
  { intros A c Hc. specialize (Hc s). destruct (c s); cbn in *; auto. }
  assert (O : forall A (c : H A),
             from_owner C username = true ->
             Str.startsWith msg (lit "setop ")
             || Str.eqb msg (lit "enablecommands")
             || Str.eqb msg (lit "disablecommands") = true ->
             hends (c s)
               (fun s' => op_kept s s' \/
                          (from_owner C username = true /\ false = false /\
                           Str.startsWith msg (lit "setop ")
                           || Str.eqb msg (lit "enablecommands")
                           || Str.eqb msg (lit "disablecommands") = true))).
  { intros A c Ho Hd. destruct (c s); cbn; auto. }
  destruct (from_owner C username) eqn:Eo; cbn [andb].
  - destruct (Str.startsWith msg (lit "setop ")) eqn:E1;
      [apply O; reflexivity|].
    destruct (Str.eqb msg (lit "enablecommands")) eqn:E2;
      [apply O; reflexivity|].
    destruct (Str.eqb msg (lit "disablecommands")) eqn:E3;
      [apply O; reflexivity|].
    cbn [orb].
    repeat match goal with
           | |- hends ((if ?b then _ else _) s) _ => destruct b
           end;
      apply W;
      try (apply (hkeeps_bind _ op_kept_trans); [|intro]);
      try apply op_kept_startLoop; try apply op_kept_stopLoop;
      try (apply op_kept_in_world;
           first [apply settled_chat | apply settled_status | apply settled_converse]);
      try (intro; reflexivity).
  - repeat match goal with
           | |- hends ((if ?b then _ else _) s) _ => destruct b
           end;
      apply W;
      try (apply (hkeeps_bind _ op_kept_trans); [|intro]);
      try apply op_kept_startLoop; try apply op_kept_stopLoop;
      try (apply op_kept_in_world;
           first [apply settled_chat | apply settled_status | apply settled_converse]);
      try (intro; reflexivity).
Qed.

(** X11: the operator flag [botIsOp] is changed by nothing but a chat
    message of the configured owner (MC_OWNER is set and is the sender,
    who is not the bot itself) that reads setop ..., enablecommands or
    disablecommands: no other chat message, no action it leads to, no
    tick of the planner and no other event changes the flag. *)
Theorem X11_only_the_owner_sets_op :
  forall (C : Collab) (self : jstring) (fuel : nat) (e : happening) (s : Agent),
    hends (handler C self fuel e s)
          (fun s' =>
             botIsOp (world s') <> botIsOp (world s) ->
             exists username message,
               e = Chat username message /\
               from_owner C username = true /\
               Str.eqb username self = false /\
               owner_directive (Str.toLowerCase (Str.trim message)) = true).
Proof.
  intros C self fuel e s.
  assert (K : forall c : H unit,
             hkeeps op_kept c ->
             forall s0, op_kept s s0 ->
             hends (c s0)
               (fun s' =>
                  botIsOp (world s') <> botIsOp (world s) ->
                  exists username message,
                    e = Chat username message /\
                    from_owner C username = true /\
                    Str.eqb username self = false /\
                    owner_directive (Str.toLowerCase (Str.trim message)) = true)).
  { intros c Hc s0 H0. specialize (Hc s0).
    destruct (c s0); cbn in *; try exact I; intro N; exfalso; apply N;
      unfold op_kept in *; congruence. }
  destruct e as [| |username message|t|]; cbn [handler].
  - destruct (spawn_armed s); [|cbn; intro N; contradiction N; reflexivity].
    apply K; [|reflexivity]. unfold on_spawn.
    apply (hkeeps_bind _ op_kept_trans); [|intro; apply op_kept_startLoop].
    apply op_kept_in_world, settled_chat.
  - apply K; [|reflexivity]. unfold on_end.
    apply (hkeeps_bind _ op_kept_trans); [|intro].
    + apply op_kept_in_world. unfold log. settles.
    + apply hkeeps_modify. intro s0. destruct (loopTimer s0); reflexivity.
  - pose proof (on_chat_op C self fuel username message s) as P.
    destruct (on_chat C self fuel username message s); cbn in *; try exact I;
      (intro N; destruct P as [P|P]; [contradiction N | exists username, message; auto]).
  - destruct (existsb _ _); cbn; intro N; contradiction N; reflexivity.
  - destruct (started s); [cbn; intro N; contradiction N; reflexivity|].
    apply K; [|reflexivity]. apply op_kept_in_world, settled_plannerTick.
Qed.

Lemma prefixb_of_equal (p s q : jstring) :
  Str.prefixb p s = true -> Str.eqb s q = true -> Str.prefixb p q = true.
Proof. intros Hp He. apply Str_eqb_eq in He. subst q. exact Hp. Qed.

Lemma prefixb_both (p q s : jstring) :
  Str.prefixb p s = true -> Str.prefixb q s = true ->
  Str.prefixb p q = true \/ Str.prefixb q p = true.
Proof.
  revert q s. induction p as [|x p IH]; intros q s Hp Hq; [left; reflexivity|].
  destruct q as [|y q]; [right; reflexivity|].
  destruct s as [|z s]; [discriminate Hp|]. cbn [Str.prefixb] in *.
  apply andb_true_iff in Hp. destruct Hp as [Hx Hp].
  apply andb_true_iff in Hq. destruct Hq as [Hy Hq].
  apply N.eqb_eq in Hx, Hy. subst x y. rewrite N.eqb_refl. cbn [andb].
  exact (IH q s Hp Hq).
Qed.

(** A duel message is none of the messages that the handler takes first. *)
Lemma duel_message_is_no_other (msg : jstring) :
  duel_message msg = true ->
  Str.startsWith msg (lit "setop ") = false /\
  Str.eqb msg (lit "enablecommands") = false /\
  Str.eqb msg (lit "disablecommands") = false /\
  Str.eqb msg (lit "start") = false /\
  Str.eqb msg (lit "stop") = false /\
  Str.eqb msg (lit "status") = false.
Proof.
  unfold duel_message. intro H. apply orb_true_iff in H. destruct H as [H|H];
    [apply orb_true_iff in H; destruct H as [H|H]|].
  - apply mem_In in H. cbn in H.
    repeat (destruct H as [<-|H]; [repeat split; reflexivity|]). contradiction.
  - apply existsb_exists in H. destruct H as (p & Hp & Hpre).
    unfold Str.startsWith in *.
    assert (E : forall q, Str.prefixb p q = false -> Str.eqb msg q = false).
    { intros q Hq. destruct (Str.eqb msg q) eqn:E; [|reflexivity].
      rewrite (prefixb_of_equal _ _ _ Hpre E) in Hq. discriminate Hq. }
    assert (S : Str.prefixb p (lit "setop ") = false ->
                Str.prefixb (lit "setop ") p = false ->
                Str.prefixb (lit "setop ") msg = false).
    { intros H1 H2. destruct (Str.prefixb (lit "setop ") msg) eqn:E0; [|reflexivity].
      destruct (prefixb_both _ _ _ Hpre E0) as [K|K]; congruence. }
    cbn in Hp.
    repeat (destruct Hp as [<-|Hp];
            [split; [apply S; reflexivity | repeat split; apply E; reflexivity]|]).
    contradiction.
  - apply mem_In in H. cbn in H.
    repeat (destruct H as [<-|H]; [repeat split; reflexivity|]). contradiction.
Qed.

(** X12: a chat message of another player that reads duel, duel me,
    fight me, challenge me, battle me, stopduel, endduel or forfeit, or
    that starts with duel, challenge, fight or battle and a space, makes
    the chat handler throw before it does anything: it calls
    [startDuelWith] or [stopDuel], which the program does not define. *)
Theorem X12_duel_messages_throw :
  forall (C : Collab) (self : jstring) (fuel : nat) (username message : jstring)
         (s : Agent),
    Str.eqb username self = false ->
    duel_message (Str.toLowerCase (Str.trim message)) = true ->
    on_chat C self fuel username message s = Failed s.
Proof.
  intros C self fuel username message s Hs Hd. unfold on_chat. rewrite Hs. cbv zeta.
  destruct (duel_message_is_no_other _ Hd) as (E1 & E2 & E3 & E4 & E5 & E6).
  rewrite E1, E2, E3, E4, E5, E6, !andb_false_r.
  unfold duel_message in Hd.
  destruct (Str.mem _ duel_words); [reflexivity|].
  destruct (existsb _ duel_prefixes); [reflexivity|].
  destruct (Str.mem _ stop_duel_words); [reflexivity | discriminate Hd].
Qed.

Lemma X12_witness :
  Str.eqb (lit "steve") (lit "AI") = false /\
  duel_message (Str.toLowerCase (Str.trim (lit " Duel me "))) = true /\
  on_chat Sample.calm (lit "AI") 5 (lit "steve") (lit " Duel me ")
          (boot (Sample.start (Sample.at_ 0 0 0)))
  = Failed (boot (Sample.start (Sample.at_ 0 0 0))).
Proof.
  split; [reflexivity|]. split; [reflexivity|].
  apply X12_duel_messages_throw; reflexivity.
Defined.

(** ** The loop and its timer *)

Lemma hpreserves_bind {A B} (P : Agent -> Prop) (c : H A) (k : A -> H B) :
  hpreserves P c -> (forall a, hpreserves P (k a)) -> hpreserves P (hbind c k).
Proof.
  intros Hc Hk s Hs. unfold hbind. specialize (Hc s Hs).
  destruct (c s) as [a s1|s1|]; cbn in *; auto. apply Hk. exact Hc.
Qed.

Lemma one_loop_in_world_running {A} (c : M A) :
  (forall w, ends (c w) (fun w' => running w' = running w)) ->
  hpreserves one_loop (in_world c).
Proof.
  intros Hc s (H1 & H2 & H3). unfold in_world. specialize (Hc (world s)).
  destruct (c (world s)) as [a w|w|]; cbn in *; try exact I;
    (split; [exact H1|]; split; [exact H2|]);
    intro N; cbn; rewrite Hc; exact (H3 N).
Qed.

Lemma one_loop_in_world {A} (c : M A) :
  keeps settled c -> hpreserves one_loop (in_world c).
Proof.
  intro Hc. apply one_loop_in_world_running. intro w. specialize (Hc w).
  destruct (c w); cbn in *; try exact I; apply Hc.
Qed.

Lemma one_loop_set_op (C : Collab) (b : bool) (m : jstring) :
  hpreserves one_loop (in_world (bind (modify (set_botIsOp b)) (fun _ => chat C m))).
Proof.
  apply one_loop_in_world_running. intro w. unfold bind, modify, chat.
  destruct (chat_throws C _ m); reflexivity.
Qed.

Lemma one_loop_idle (s : Agent) :
  one_loop s -> loopTimer s = None -> intervals s = [].
Proof.
  intros (H1 & _) Hn. destruct (intervals s) as [|i l]; [reflexivity|].
  specialize (H1 i (or_introl eq_refl)). congruence.
Qed.

Lemma one_loop_startLoop (C : Collab) : hpreserves one_loop (startLoop C).
Proof.
  intros s Hs. unfold startLoop. destruct (loopTimer s) eqn:El; [exact Hs|].
  pose proof (one_loop_idle s Hs El) as Hi.
  unfold hbind, hmodify.
  apply (one_loop_in_world (try_chat C _) (settled_try_chat C _)).
  unfold one_loop, setInterval, start_tick, with_world. cbn. rewrite Hi.
  split; [|split; [cbn; lia | reflexivity]].
  intros i [<-|[]]. reflexivity.
Qed.

Lemma one_loop_stopLoop (C : Collab) :
  forall s, one_loop s ->
            hends (stopLoop C s)
                  (fun s' => one_loop s' /\ intervals s' = [] /\
                             loopTimer s' = None /\ running (world s') = false).
Proof.
  intros s (H1 & H2 & H3). unfold stopLoop, hbind, hmodify.
  set (s1 := match loopTimer (with_world (set_running false (world s)) s) with
             | Some t => forget_timer (clearInterval t _)
             | None => _
             end).
  assert (P : intervals s1 = [] /\ loopTimer s1 = None /\ running (world s1) = false).
  { subst s1. cbn [loopTimer with_world]. destruct (loopTimer s) as [t|] eqn:El.
    - cbn. split; [|split; reflexivity].
      destruct (intervals s) as [|i l]; [reflexivity|].
      destruct l as [|j l]; [|cbn in H2; lia].
      specialize (H1 i (or_introl eq_refl)). injection H1 as ->.
      cbn. rewrite Nat.eqb_refl. reflexivity.
    - cbn. split; [|split; [exact El | reflexivity]].
      destruct (intervals s) as [|i l]; [reflexivity|].
      specialize (H1 i (or_introl eq_refl)). discriminate H1. }
  destruct P as (Pi & Pt & Pr).
  unfold in_world. rewrite try_chat_returns. cbn [hends].
  clearbody s1.
  destruct (chat_throws C (world s1) _); unfold one_loop, with_world;
    cbn [intervals loopTimer world running emit]; rewrite Pi; repeat split;
    try assumption; try (cbn; lia); try (intros i []);
    try (intro N; contradiction N; reflexivity).
Qed.

Lemma one_loop_handler (C : Collab) (self : jstring) (fuel : nat) (e : happening) :
  hpreserves one_loop (handler C self fuel e).
Proof.
  destruct e as [| |username message|t|]; cbn [handler].
  - intros s Hs. destruct (spawn_armed s); [|exact Hs].
    assert (Hd : one_loop (disarm s)) by exact Hs.
    revert Hd. generalize (disarm s). unfold on_spawn.
    apply hpreserves_bind; [|intro; apply one_loop_startLoop].
    apply one_loop_in_world, settled_chat.
  - unfold on_end. apply hpreserves_bind; [|intro].
    + apply one_loop_in_world. unfold log. settles.
    + intros s Hs. pose proof Hs as (H1 & H2 & H3). unfold hmodify. cbn [hends].
      destruct (loopTimer s) as [t|] eqn:El; [|exact Hs].
      destruct (intervals s) as [|i l] eqn:Ei.
      * unfold one_loop, clearInterval. cbn. rewrite Ei. cbn.
        repeat split; try lia; try (intros i []). intro N. contradiction N. reflexivity.
      * destruct l as [|j l]; [|cbn in H2; lia].
        specialize (H1 i (or_introl eq_refl)). injection H1 as ->.
        unfold one_loop, clearInterval. cbn. rewrite Ei. cbn. rewrite Nat.eqb_refl. cbn.
        repeat split; try lia; try (intros i0 []). intro N. contradiction N. reflexivity.
  - unfold on_chat. destruct (Str.eqb username self); [intros s Hs; exact Hs|].
    cbv zeta.
    repeat match goal with
           | |- hpreserves _ (if ?b then _ else _) => destruct b
           end;
      try (apply hpreserves_bind; [|intro]);
      try apply one_loop_startLoop;
      try (intros s Hs; pose proof (one_loop_stopLoop C s Hs) as P;
           destruct (stopLoop C s); cbn in *; try exact I; apply P);
      try (intros s Hs; exact Hs);
      try apply one_loop_set_op;
      apply one_loop_in_world;
      first [ apply settled_chat | apply settled_status | apply settled_converse ].
  - intros s Hs. destruct (existsb _ _); exact Hs.
  - intros s Hs. destruct (started s); [exact Hs|].
    apply (one_loop_in_world (plannerTick C) (settled_plannerTick C)). exact Hs.
Qed.

(** X13: in every session, whatever is said in the chat and whenever the
    bot spawns, the connection ends, the interval fires and the ticks
    run, at most one interval of the planner is set at any time; it is
    the one that [loopTimer] holds, and [running] is true while it is
    set. *)
Theorem X13_at_most_one_planner_interval :
  forall (C : Collab) (self : jstring) (fuel : nat) (es : list happening) (w : World),
    match session C self fuel es (boot w) with
    | Some s =>
        List.length (intervals s) <= 1 /\
        (forall t ms, In (t, ms) (intervals s) ->
                      loopTimer s = Some t /\ running (world s) = true)
    | None => True
    end.
Proof.
  intros C self fuel es w.
  assert (B : one_loop (boot w)).
  { repeat split; cbn; try lia; try (intros i []). intro N. contradiction N. reflexivity. }
  revert B. generalize (boot w). induction es as [|e es IH]; intros s Hs; cbn [session].
  - destruct Hs as (H1 & H2 & H3). split; [exact H2|]. intros t ms Hin.
    split; [exact (H1 _ Hin)|]. apply H3. intro N. rewrite N in Hin. exact Hin.
  - pose proof (one_loop_handler C self fuel e s Hs) as P.
    destruct (handler C self fuel e s) as [[] s1|s1|]; cbn in *; try exact I;
      apply IH; exact P.
Qed.

Lemma word_is_no_directive (C : Collab) (username msg : jstring) :
  Str.startsWith msg (lit "setop ") = false ->
  Str.eqb msg (lit "enablecommands") = false ->
  Str.eqb msg (lit "disablecommands") = false ->
  from_owner C username && Str.startsWith msg (lit "setop ") = false /\
  from_owner C username && Str.eqb msg (lit "enablecommands") = false /\
  from_owner C username && Str.eqb msg (lit "disablecommands") = false.
Proof. intros -> -> ->. rewrite andb_false_r. repeat split. Qed.

Lemma started_stopLoop (C : Collab) (s : Agent) :
  hends (stopLoop C s) (fun s' => started s' = started s).
Proof.
  unfold stopLoop, hbind, hmodify, in_world. rewrite try_chat_returns.
  cbn [hends loopTimer with_world]. destruct (loopTimer s); reflexivity.
Qed.

(** X14: any player but the bot itself stops the loop by saying stop, in
    any case of letters and with spaces around it: after the handler no
    interval is set, [loopTimer] is null and [running] is false, also
    when the chat is down and the handler throws on its answer; the
    interval that was set fires no more, so the timer starts no further
    tick.  The ticks that were started before are left as they are:
    stop cancels none of them. *)
Theorem X14_stop_stops_the_loop :
  forall (C : Collab) (self : jstring) (fuel : nat) (username message : jstring)
         (s : Agent),
    one_loop s ->
    Str.eqb username self = false ->
    Str.toLowerCase (Str.trim message) = lit "stop" ->
    hends (on_chat C self fuel username message s)
          (fun s' => intervals s' = [] /\ loopTimer s' = None /\
                     running (world s') = false /\
                     started s' = started s /\
                     forall t, handler C self fuel (Fires t) s' = Done tt s').
Proof.
  intros C self fuel username message s Hs Hu Hm. unfold on_chat.
  rewrite Hu, Hm. cbv zeta.
  destruct (word_is_no_directive C username (lit "stop") eq_refl eq_refl eq_refl)
    as (E1 & E2 & E3).
  rewrite E1, E2, E3.
  change (Str.eqb (lit "stop") (lit "start")) with false.
  change (Str.eqb (lit "stop") (lit "stop")) with true. cbv iota.
  pose proof (one_loop_stopLoop C s Hs) as P.
  pose proof (started_stopLoop C s) as Q. unfold hbind.
  assert (F : forall s1, intervals s1 = [] ->
                forall t, handler C self fuel (Fires t) s1 = Done tt s1).
  { intros s1 E t. cbn [handler]. rewrite E. reflexivity. }
  destruct (stopLoop C s) as [[] s1|s1|]; cbn [hends] in *.
  - destruct P as (_ & Pi & Pt & Pr). unfold in_world, chat.
    destruct (chat_throws C (world s1) _); cbn [hends];
      (split; [exact Pi|]; split; [exact Pt|]; split; [exact Pr|];
       split; [exact Q|]; apply F; exact Pi).
  - destruct P as (_ & Pi & Pt & Pr).
    split; [exact Pi|]. split; [exact Pt|]. split; [exact Pr|].
    split; [exact Q|]. apply F; exact Pi.
  - exact I.
Qed.

Lemma X14_witness :
  one_loop (boot (Sample.start (Sample.at_ 0 0 0))) /\
  Str.eqb (lit "steve") (lit "AI") = false /\
  Str.toLowerCase (Str.trim (lit " STOP ")) = lit "stop" /\
  hends (on_chat Sample.mute (lit "AI") 5 (lit "steve") (lit " STOP ")
                 (boot (Sample.start (Sample.at_ 0 0 0))))
        (fun s' => intervals s' = [] /\ loopTimer s' = None /\
                   running (world s') = false /\
                   started s' = started (boot (Sample.start (Sample.at_ 0 0 0))) /\
                   forall t, handler Sample.mute (lit "AI") 5 (Fires t) s' = Done tt s').
Proof.
  assert (B : one_loop (boot (Sample.start (Sample.at_ 0 0 0)))).
  { repeat split; cbn; try lia; try (intros i []). }
  split; [exact B|]. split; [reflexivity|]. split; [reflexivity|].
  apply X14_stop_stops_the_loop; [exact B | reflexivity | reflexivity].
Defined.

Lemma interval_ms_truthy (C : Collab) : num_truthy (interval_ms C) = true.
Proof.
  unfold interval_ms. destruct (env C _) as [v|]; [|reflexivity].
  cbv zeta. destruct (num_truthy (Numeral.Number v)) eqn:E; [exact E | reflexivity].
Qed.

(** X15: when no timer is held, start (from any player but the bot, in
    any case of letters) sets [running], starts one tick and sets exactly
    one interval, whose period is a number that is neither [NaN] nor
    zero: the value of PLANNER_INTERVAL_MS if it reads as such a number,
    and 5000 otherwise; when a timer is held, start leaves the loop as
    it is. *)
Theorem X15_start_sets_one_interval :
  forall (C : Collab) (self : jstring) (fuel : nat) (username message : jstring)
         (s : Agent),
    one_loop s ->
    Str.eqb username self = false ->
    Str.toLowerCase (Str.trim message) = lit "start" ->
    hends (on_chat C self fuel username message s)
          (fun s' =>
             match loopTimer s with
             | None =>
                 intervals s' = [(timers_made s, interval_ms C)] /\
                 loopTimer s' = Some (timers_made s) /\
                 num_truthy (interval_ms C) = true /\
                 running (world s') = true /\
                 started s' = S (started s)
             | Some t =>
                 intervals s' = intervals s /\ loopTimer s' = Some t /\
                 running (world s') = running (world s) /\
                 started s' = started s
             end).
Proof.
  intros C self fuel username message s Hs Hu Hm. unfold on_chat.
  rewrite Hu, Hm. cbv zeta.
  destruct (word_is_no_directive C username (lit "start") eq_refl eq_refl eq_refl)
    as (E1 & E2 & E3).
  rewrite E1, E2, E3.
  change (Str.eqb (lit "start") (lit "start")) with true. cbv iota.
  unfold hbind, startLoop. destruct (loopTimer s) as [t|] eqn:El.
  - unfold in_world, chat. cbn [world].
    destruct (chat_throws C (world s) _); cbn; rewrite El; repeat split.
  - pose proof (one_loop_idle s Hs El) as Hi.
    unfold hbind, hmodify, in_world. rewrite try_chat_returns.
    cbn [world with_world setInterval start_tick].
    unfold chat.
    repeat match goal with
           | |- context [if ?b then _ else _] => destruct b
           end;
      cbn; rewrite Hi; repeat split; apply interval_ms_truthy.
Qed.

Lemma X15_witness :
  one_loop (boot (Sample.start (Sample.at_ 0 0 0))) /\
  Str.eqb (lit "steve") (lit "AI") = false /\
  Str.toLowerCase (Str.trim (lit "Start")) = lit "start" /\
  hends (on_chat Sample.calm (lit "AI") 5 (lit "steve") (lit "Start")
                 (boot (Sample.start (Sample.at_ 0 0 0))))
        (fun s' =>
           intervals s' = [(0, interval_ms Sample.calm)] /\
           loopTimer s' = Some 0 /\
           num_truthy (interval_ms Sample.calm) = true /\
           running (world s') = true /\
           started s' = 1).
Proof.
  assert (B : one_loop (boot (Sample.start (Sample.at_ 0 0 0)))).
  { repeat split; cbn; try lia; try (intros i []). }
  split; [exact B|]. split; [reflexivity|]. split; [reflexivity|].
  exact (X15_start_sets_one_interval Sample.calm (lit "AI") 5 (lit "steve")
           (lit "Start") _ B eq_refl eq_refl).
Defined.

Lemma one_step_startLoop (C : Collab) (s : Agent) :
  exists s1, startLoop C s = Done tt s1.
Proof.
  unfold startLoop. destruct (loopTimer s); [eexists; reflexivity|].
  unfold hbind, hmodify, in_world. rewrite try_chat_returns. eexists. reflexivity.
Qed.

Lemma one_step_stopLoop (C : Collab) (s : Agent) :
  exists s1, stopLoop C s = Done tt s1.
Proof.
  unfold stopLoop, hbind, hmodify, in_world. rewrite try_chat_returns.
  eexists. reflexivity.
Qed.

(** ** The directives of the owner *)

Lemma split1_whole (sep : N) (v : jstring) :
  existsb (N.eqb sep) v = false ->
  forall cur, Str.split1 sep v cur = [rev cur ++ v].
Proof.
  induction v as [|c v IH]; intros H cur; cbn [Str.split1].
  - rewrite app_nil_r. reflexivity.
  - cbn [existsb] in H. apply orb_false_iff in H. destruct H as [Hc Hv].
    rewrite N.eqb_sym, Hc. rewrite (IH Hv). cbn [rev]. rewrite <- app_assoc. reflexivity.
Qed.

Lemma split1_first (sep : N) (a b : jstring) :
  existsb (N.eqb sep) a = false ->
  forall cur, Str.split1 sep (a ++ sep :: b) cur = (rev cur ++ a) :: Str.split1 sep b [].
Proof.
  induction a as [|c a IH]; intros H cur; cbn [app Str.split1].
  - rewrite N.eqb_refl, app_nil_r. reflexivity.
  - cbn [existsb] in H. apply orb_false_iff in H. destruct H as [Hc Ha].
    rewrite N.eqb_sym, Hc. rewrite (IH Ha). cbn [rev]. rewrite <- app_assoc. reflexivity.
Qed.

(** X22: the owner sets the operator flag by setop and a word: the flag
    becomes true for on, true and 1 and false for every other word; it
    is set also when the chat is down and the handler throws on its
    answer.  The message is read in lower case, without the spaces
    around it. *)
Theorem X22_setop_sets_the_flag :
  forall (C : Collab) (self : jstring) (fuel : nat) (username message v : jstring)
         (s : Agent),
    Str.eqb username self = false ->
    from_owner C username = true ->
    Str.toLowerCase (Str.trim message) = lit "setop " ++ v ->
    existsb (N.eqb 32%N) v = false ->
    hends (on_chat C self fuel username message s)
          (fun s' => botIsOp (world s') = Str.mem v [lit "on"; lit "true"; lit "1"]).
Proof.
  intros C self fuel username message v s Hs Ho Hm Hv.
  unfold on_chat. rewrite Hs, Ho, Hm. cbv zeta.
  change (Str.startsWith (lit "setop " ++ v) (lit "setop ")) with true.
  cbn [andb].
  assert (N1 : nth 1 (Str.split 32 (lit "setop " ++ v)) [] = v).
  { unfold Str.split.
    change (lit "setop " ++ v) with (lit "setop" ++ 32%N :: v).
    rewrite (split1_first 32 (lit "setop") v eq_refl).
    cbn [nth]. rewrite (split1_whole 32 v Hv). reflexivity. }
  rewrite N1.
  assert (B : Str.eqb v (lit "on") || Str.eqb v (lit "true") || Str.eqb v (lit "1")
              = Str.mem v [lit "on"; lit "true"; lit "1"]).
  { unfold Str.mem. cbn [existsb]. rewrite orb_false_r, orb_assoc. reflexivity. }
  rewrite B. unfold in_world, bind, modify, chat.
  cbn [world]. destruct (chat_throws C _ _); reflexivity.
Qed.

Lemma X22_witness :
  let s := boot (mkWorld (Sample.at_ 0 0 0) false None true true []) in
  Str.eqb (lit "steve") (lit "AI") = false /\
  from_owner Sample2.owned (lit "steve") = true /\
  Str.toLowerCase (Str.trim (lit " SetOp yes ")) = lit "setop " ++ lit "yes" /\
  existsb (N.eqb 32%N) (lit "yes") = false /\
  hends (on_chat Sample2.owned (lit "AI") 1 (lit "steve") (lit " SetOp yes ") s)
        (fun s' => botIsOp (world s') = false).
Proof.
  cbv zeta. repeat (split; [reflexivity|]).
  exact (X22_setop_sets_the_flag Sample2.owned (lit "AI") 1 (lit "steve")
           (lit " SetOp yes ") (lit "yes") _ eq_refl eq_refl eq_refl eq_refl).
Defined.

(* ------------------------------------------------------------------ *)
(** ** A command said in the chat *)

Lemma trimStart_clean (s : jstring) : starts_clean s = true -> Str.trimStart s = s.
Proof.
  destruct s as [|c s]; [reflexivity|]. cbn. intro H. apply negb_true_iff in H.
  rewrite H. reflexivity.
Qed.

Lemma trim_clean (s : jstring) :
  starts_clean s = true -> starts_clean (rev s) = true -> Str.trim s = s.
Proof.
  intros H1 H2. unfold Str.trim. rewrite (trimStart_clean s H1).
  rewrite (trimStart_clean _ H2). apply rev_involutive.
Qed.

Lemma trimmed_is_clean (t : jstring) :
  Str.trim t = t -> starts_clean t = true /\ starts_clean (rev t) = true.
Proof.
  intro H. split.
  - destruct (trim_split t) as (l & r & _ & Hc). rewrite H in Hc. exact Hc.
  - rewrite <- H at 1. unfold Str.trim. rewrite rev_involutive.
    destruct (trimStart_split (rev (Str.trimStart t))) as (l & _ & Hc). exact Hc.
Qed.

Lemma starts_clean_app (a b : jstring) :
  a <> [] -> starts_clean (a ++ b) = starts_clean a.
Proof. destruct a; [contradiction | reflexivity]. Qed.

Lemma trim_after_word (p t : jstring) :
  starts_clean p = true -> p <> [] -> t <> [] -> Str.trim t = t ->
  Str.trim (p ++ t) = p ++ t.
Proof.
  intros Hp Hn Ht H. destruct (trimmed_is_clean t H) as [_ H2].
  apply trim_clean.
  - rewrite starts_clean_app by exact Hn. exact Hp.
  - rewrite rev_app_distr, starts_clean_app; [exact H2|].
    intro E. apply Ht. rewrite <- (rev_involutive t), E. reflexivity.
Qed.

(** A pattern anchored at the start matches nowhere else. *)
Lemma search_anchored (r : Regex.re) (s : jstring) :
  forall pre, pre <> [] -> Regex.search (Regex.Seq Regex.Bol r) pre s = None.
Proof.
  induction s as [|c s IH]; intros pre Hp; cbn [Regex.search Regex.run Regex.before];
    destruct pre as [|x pre]; try contradiction; [reflexivity|].
  apply IH. discriminate.
Qed.

Lemma star_class_none (f : N -> bool) (k : Regex.state -> option Regex.state)
      (n : nat) (st : Regex.state) (c : N) (s' : jstring) :
  Regex.rest st = c :: s' -> f c = false ->
  Regex.star_loop (Regex.run (Regex.Any1 f)) true k (S n) st = k st.
Proof.
  intros Hr Hf. cbn [Regex.star_loop]. cbv zeta. rewrite run_class, Hr, Hf.
  reflexivity.
Qed.

(** A greedy star over a class, on an input that is all of that class,
    reads the whole input when what follows accepts the end. *)
Lemma star_class_all (f : N -> bool) (k : Regex.state -> option Regex.state)
      (x : Regex.state) :
  forall n st,
    forallb f (Regex.rest st) = true ->
    List.length (Regex.rest st) <= n ->
    k (Regex.mkState (rev (Regex.rest st) ++ Regex.before st) [] (Regex.caps st))
    = Some x ->
    Regex.star_loop (Regex.run (Regex.Any1 f)) true k n st = Some x.
Proof.
  induction n as [|n IH]; intros [b r cs] Hf Hn Hk;
    cbn [Regex.rest Regex.before Regex.caps] in *.
  - destruct r; [exact Hk | cbn in Hn; lia].
  - cbn [Regex.star_loop]. cbv zeta. rewrite run_class.
    cbn [Regex.rest Regex.before Regex.caps].
    destruct r as [|c s']; [exact Hk|].
    cbn [forallb] in Hf. apply andb_true_iff in Hf. destruct Hf as [Hc Hs].
    rewrite Hc. cbn [Regex.rest].
    replace (List.length s' <? List.length (c :: s'))%nat with true
      by (symmetry; apply Nat.ltb_lt; cbn; lia).
    rewrite (IH (Regex.mkState (c :: b) s' cs)); [reflexivity | exact Hs | cbn in *; lia |].
    cbn [Regex.rest Regex.before Regex.caps]. cbn [rev] in Hk.
    rewrite <- app_assoc in Hk. exact Hk.
Qed.

(** What [cmdRe] finds in the word cmd, a space and a line of text. *)
Lemma cmdRe_match (a : N) (t : jstring) :
  Str.is_space a = false -> forallb Regex.dot (a :: t) = true ->
  exists m, Regex.exec ChatPat.cmdRe (lit "cmd " ++ a :: t) = Some m /\
            group 1 m = a :: t.
Proof.
  intros Ha Hd. cbn [forallb] in Hd. apply andb_true_iff in Hd. destruct Hd as [Hda Hdt].
  set (st4 := Regex.mkState [32; 100; 109; 99]%N (a :: t) []).
  set (K3 := fun st' : Regex.state =>
               Regex.run Regex.Eol
                 (Regex.mkState (Regex.before st') (Regex.rest st')
                    ((1, Regex.consumed st4 st') :: Regex.caps st')) Some).
  set (K2 := fun st : Regex.state =>
               Regex.run (Regex.Group 1 (Regex.plus (Regex.Any1 Regex.dot))) st
                 (fun st' => Regex.run Regex.Eol st' Some)).
  assert (S1 : Regex.run ChatPat.cmdRe (Regex.mkState [] (lit "cmd " ++ a :: t) []) Some
               = Regex.star_loop (Regex.run (Regex.Any1 Str.is_space)) true K2
                   (S (List.length (a :: t))) st4) by reflexivity.
  assert (S2 : K2 st4
               = if Regex.dot a
                 then Regex.star_loop (Regex.run (Regex.Any1 Regex.dot)) true K3
                        (S (List.length t))
                        (Regex.mkState (a :: [32; 100; 109; 99]%N) t [])
                 else None) by reflexivity.
  set (fin := Regex.mkState (rev t ++ a :: [32; 100; 109; 99]%N) []
                [(1, Regex.consumed st4
                       (Regex.mkState (rev t ++ a :: [32; 100; 109; 99]%N) [] []))]).
  assert (S3 : Regex.run ChatPat.cmdRe (Regex.mkState [] (lit "cmd " ++ a :: t) []) Some
               = Some fin).
  { rewrite S1, (star_class_none Str.is_space K2 _ st4 a t eq_refl Ha), S2, Hda.
    apply star_class_all; [exact Hdt | cbn; lia | reflexivity]. }
  exists (Regex.mkFound [] (Regex.consumed (Regex.mkState [] (lit "cmd " ++ a :: t) []) fin) fin).
  split.
  - unfold Regex.exec. change (lit "cmd " ++ a :: t) with (99%N :: (lit "md " ++ a :: t)).
    cbn [Regex.search].
    change (99%N :: (lit "md " ++ a :: t)) with (lit "cmd " ++ a :: t).
    rewrite S3. reflexivity.
  - unfold group, Regex.cap. cbn [Regex.f_end fin Regex.caps Regex.cap_in Nat.eqb].
    unfold Regex.consumed. cbn [Regex.rest st4 List.length].
    rewrite Nat.sub_0_r. apply (firstn_all (a :: t)).
Qed.

Lemma simpleRe_no_match (s : jstring) :
  Regex.exec ChatPat.simpleRe (lit "cmd " ++ s) = None.
Proof.
  unfold Regex.exec. change (lit "cmd " ++ s) with (99%N :: (lit "md " ++ s)).
  cbn [Regex.search].
  assert (R : Regex.run ChatPat.simpleRe
                (Regex.mkState [] (99%N :: (lit "md " ++ s)) []) Some = None)
    by reflexivity.
  rewrite R. apply (search_anchored _ _ [99%N]). discriminate.
Qed.

(** The chat command cmd with a line of text is the action [command]
    with that text, the placeholders filled in. *)
Lemma parseChatCommandToActions_cmd (t username : jstring) :
  t <> [] -> Str.trim t = t -> forallb Regex.dot t = true ->
  parseChatCommandToActions (lit "cmd " ++ t) username =
  [command_action (fill username t)].
Proof.
  intros Hn Ht Hd. unfold parseChatCommandToActions.
  change (lit "cmd " ++ t) with (99%N :: (lit "md " ++ t)) at 1. cbv iota zeta.
  rewrite (trim_after_word (lit "cmd ") t eq_refl ltac:(discriminate) Hn Ht).
  rewrite simpleRe_no_match.
  destruct t as [|a t']; [contradiction Hn; reflexivity|].
  destruct (trimmed_is_clean _ Ht) as [Hc _]. cbn in Hc. apply negb_true_iff in Hc.
  destruct (cmdRe_match a t' Hc Hd) as (m & -> & ->). rewrite Ht. reflexivity.
Qed.

Lemma add_events_emit (e : event) (t : list event) (w : World) :
  emit e (add_events t w) = add_events (t ++ [e]) w.
Proof. unfold emit, add_events. cbn. rewrite <- app_assoc. reflexivity. Qed.

Lemma emit_add_events (e : event) (w : World) : emit e w = add_events [e] w.
Proof. reflexivity. Qed.

(** With the chat up, the action [command] sends its command, whatever
    the operator flag is. *)
Lemma executeAction_sends (C : Collab) (fuel : nat) (username cmd : jstring) (w : World) :
  (forall w m, chat_throws C w m = false) ->
  cmd <> [] ->
  executeAction C (S fuel) username (command_action cmd) w =
  Ret true (add_events (command_sent cmd) w).
Proof.
  intros Hc Hn. destruct cmd as [|c cs]; [contradiction Hn; reflexivity|].
  eassert (E : executeAction C (S fuel) username (command_action (c :: cs)) =
               (log "[exec] executeAction:"
                    [JStr (lit "command"); JObj [(lit "command", JStr (c :: cs))]] ;;
                try_chat C (lit "Running command: " ++ c :: cs) ;;
                ok <- tryExecuteCommand C (c :: cs) ;;
                log "[exec] tryExecuteCommand returned" [JBool ok] ;;
                if ok then ret true else _)%M).
  { reflexivity. }
  rewrite E. unfold bind at 1. unfold log at 1. cbn [modify].
  unfold bind at 1. rewrite try_chat_returns, Hc.
  unfold bind at 1. unfold tryExecuteCommand.
  rewrite (gate_open C (ALLOW_COMMANDS C) (c :: cs))
    by (try reflexivity; unfold ALLOW_COMMANDS; rewrite flag_true; reflexivity).
  rewrite send_command_accepted by apply Hc.
  unfold bind at 1. unfold log at 1. cbn [modify]. cbv iota.
  unfold ret, emit, add_events, command_sent.
  cbn [position busy currentTask botIsOp running trace].
  rewrite <- !app_assoc. reflexivity.
Qed.

(** X16: any player can have the bot send a server command.  When
    another player than the bot says cmd and a line of text, and the chat
    is up, the handler sends that text to the server as a command, slash
    in front, the words USERNAME, USER and PLAYER replaced by the name of
    the player: the sender need not be the owner, and neither
    [botIsOp] nor ALLOW_COMMANDS is looked at with any effect. *)
Theorem X16_any_player_runs_commands :
  forall (C : Collab) (self : jstring) (fuel : nat) (username t : jstring) (s : Agent),
    (forall w m, chat_throws C w m = false) ->
    Str.eqb username self = false ->
    Str.trim t = t ->
    forallb Regex.dot t = true ->
    (0 < Str.len (fill username t))%Z ->
    on_chat C self (S fuel) username (lit "cmd " ++ t) s =
    Done tt (with_world
               (add_events
                  (ELog "[gpt] executing action from chat command:"
                        [command_action (fill username t)]
                   :: command_sent (fill username t) ++ [ESleep 150])
                  (world s)) s).
Proof.
  intros C self fuel username t s Hc Hu Ht Hd Hl.
  assert (Hf : fill username t <> []).
  { intro E. rewrite E in Hl. discriminate Hl. }
  assert (Hn : t <> []).
  { intros ->. apply Hf. reflexivity. }
  assert (Hm : exists rest, Str.toLowerCase (Str.trim (lit "cmd " ++ t))
                            = lit "cmd " ++ rest).
  { rewrite (trim_after_word (lit "cmd ") t eq_refl ltac:(discriminate) Hn Ht).
    exists (Str.toLowerCase t). unfold Str.toLowerCase. rewrite map_app. reflexivity. }
  destruct Hm as (rest & Hm).
  unfold on_chat. rewrite Hu, Hm. cbv zeta.
  change (Str.startsWith (lit "cmd " ++ rest) (lit "setop ")) with false.
  change (Str.eqb (lit "cmd " ++ rest) (lit "enablecommands")) with false.
  change (Str.eqb (lit "cmd " ++ rest) (lit "disablecommands")) with false.
  rewrite !andb_false_r.
  change (Str.eqb (lit "cmd " ++ rest) (lit "start")) with false.
  change (Str.eqb (lit "cmd " ++ rest) (lit "stop")) with false.
  change (Str.eqb (lit "cmd " ++ rest) (lit "status")) with false.
  change (Str.mem (lit "cmd " ++ rest) duel_words) with false.
  change (existsb (Str.startsWith (lit "cmd " ++ rest)) duel_prefixes) with false.
  change (Str.mem (lit "cmd " ++ rest) stop_duel_words) with false.
  cbv iota.
  unfold in_world, converse.
  rewrite (parseChatCommandToActions_cmd t username Hn Ht Hd).
  cbn [each_isolated]. unfold try_catch, bind at 1.
  unfold try_catch, bind at 1. unfold bind at 1. unfold log at 1. cbn [modify].
  rewrite (executeAction_sends C fuel username (fill username t) _ Hc Hf).
  unfold ret at 1. unfold bind at 1. unfold sleep, modify, ret.
  unfold with_world, emit, add_events.
  cbn [position busy currentTask botIsOp running trace].
  rewrite <- !app_assoc. reflexivity.
Qed.

(** A player who is not the owner has the bot make him an operator. *)
Lemma X16_witness :
  let s := boot (mkWorld (Sample.at_ 0 0 0) false None false true []) in
  from_owner Sample.calm (lit "steve") = false /\
  botIsOp (world s) = false /\
  exists s',
    on_chat Sample.calm (lit "AI") 1 (lit "steve") (lit "cmd op USER") s = Done tt s' /\
    chats (trace (world s')) = [lit "Running command: op steve"; lit "/op steve"].
Proof.
  cbv zeta. split; [reflexivity|]. split; [reflexivity|].
  eexists. split.
  - exact (X16_any_player_runs_commands Sample.calm (lit "AI") 0 (lit "steve")
             (lit "op USER") _ (fun _ _ => eq_refl) eq_refl eq_refl eq_refl eq_refl).
  - vm_compute. reflexivity.
Defined.

(* ------------------------------------------------------------------ *)
(** ** Every action is attempted *)





Lemma grows_lift {A} (P : event -> bool) (r : res A) : keeps (grows_by P) (lift r).
Proof. intro w. unfold lift. destruct r; apply grows_by_refl. Qed.











(** ** The chat handler and the failures of the language model *)


Lemma returns_converse (C : Collab) (username message : jstring) (w : World) :
  exists n, forall fuel, n <= fuel ->
    exists w', converse C fuel username message w = Ret tt w'.
Proof.
  unfold converse.
  assert (Hh : returns (bind (error "LLM plan/execute error:")
                             (fun _ => try_chat C service_notice))).
  { apply returns_bind; [apply returns_modify|intro].
    intro w0. rewrite try_chat_returns. eexists _, _. reflexivity. }
  destruct (parseChatCommandToActions message username) as [|a l] eqn:Ep.
  - destruct (gptPlanAndExecute_total C username message w) as (n & Hn).
    exists n. intros fuel Hf. destruct (Hn fuel Hf) as (b & w' & E).
    exists w'. unfold try_catch, bind. rewrite E. reflexivity.
  - exists (S (list_max (map rank (a :: l)))). intros fuel Hf.
    assert (R : returns
                  (each_isolated
                     (fun x => bind (log "[gpt] executing action from chat command:" [x])
                                    (fun _ => executeAction C fuel username x))
                     "executeAction failed for" (a :: l))).
    { apply returns_each_isolated. intros x Hx.
      apply fuelless_bind; [fuelless_leaf|intro].
      apply executeAction_fuel.
      assert (rank x <= list_max (map rank (a :: l))).
      { pose proof (proj1 (list_max_le (map rank (a :: l)) _) (Nat.le_refl _)) as F.
        rewrite Forall_forall in F. apply F. apply in_map. exact Hx. }
      lia. }
    destruct (R w) as ([] & w' & E). exists w'. unfold try_catch. rewrite E. reflexivity.
Qed.

(** X21: a failure of the language model or of an action never leaves
    the chat handler.  With a bound on the depth of the command fallback
    that is large enough, the handler returns on every message, except
    that it can throw on the messages it answers itself outside of any
    [try] (the directives of the owner, start, stop and status, when the
    chat is down) and on the duel messages. *)
Theorem X21_chat_handler_contains_failures :
  forall (C : Collab) (self username message : jstring) (s : Agent),
  exists n, forall fuel, n <= fuel ->
    match on_chat C self fuel username message s with
    | Done _ _ => True
    | Failed _ =>
        direct_message (Str.toLowerCase (Str.trim message)) = true \/
        duel_message (Str.toLowerCase (Str.trim message)) = true
    | Starved => False
    end.
Proof.
  intros C self username message s.
  destruct (returns_converse C username message (world s)) as (n & Hn).
  exists n. intros fuel Hf. unfold on_chat.
  destruct (Str.eqb username self); [exact I|]. cbv zeta.
  set (msg := Str.toLowerCase (Str.trim message)).
  unfold direct_message, owner_directive, duel_message.
  assert (L : forall (c : M unit),
             fuelless c ->
             forall P : Prop, P ->
             match in_world c s with
             | Done _ _ => True
             | Failed _ => P
             | Starved => False
             end).
  { intros c Hc P HP. unfold in_world. specialize (Hc (world s)).
    destruct (c (world s)); [exact I | exact HP | contradiction Hc; reflexivity]. }
  assert (Fc : forall m, fuelless (chat C m)) by (intro; fuelless_leaf).
  assert (Fs : forall b m, fuelless (bind (modify (set_botIsOp b)) (fun _ => chat C m))).
  { intros b m. apply fuelless_bind; [fuelless_leaf | intro; apply Fc]. }
  destruct (from_owner C username); cbn [andb].
  - destruct (Str.startsWith msg (lit "setop ")) eqn:E1.
    { apply L; [apply Fs | left; reflexivity]. }
    destruct (Str.eqb msg (lit "enablecommands")) eqn:E2.
    { apply L; [apply Fs | left; reflexivity]. }
    destruct (Str.eqb msg (lit "disablecommands")) eqn:E3.
    { apply L; [apply Fs | left; reflexivity]. }
    cbn [orb].
    destruct (Str.eqb msg (lit "start")) eqn:E4.
    { unfold hbind. pose proof (one_step_startLoop C s) as (s1 & ->).
      unfold in_world. pose proof (Fc (lit "Starte.") (world s1)).
      destruct (chat C _ (world s1)); [exact I | left; reflexivity | contradiction]. }
    destruct (Str.eqb msg (lit "stop")) eqn:E5.
    { unfold hbind. pose proof (one_step_stopLoop C s) as (s1 & ->).
      unfold in_world. pose proof (Fc (lit "Stoppe.") (world s1)).
      destruct (chat C _ (world s1)); [exact I | left; reflexivity | contradiction]. }
    destruct (Str.eqb msg (lit "status")) eqn:E6.
    { apply L; [|left; reflexivity]. intro w.
      destruct (status_line C w); [apply Fc | discriminate]. }
    cbn [orb].
    destruct (Str.mem msg duel_words); [right; reflexivity|].
    destruct (existsb (Str.startsWith msg) duel_prefixes); [right; reflexivity|].
    destruct (Str.mem msg stop_duel_words); [right; reflexivity|].
    unfold in_world. destruct (Hn fuel Hf) as (w' & ->). exact I.
  - destruct (Str.eqb msg (lit "start")) eqn:E4.
    { unfold hbind. pose proof (one_step_startLoop C s) as (s1 & ->).
      unfold in_world. pose proof (Fc (lit "Starte.") (world s1)).
      destruct (chat C _ (world s1)); [exact I | left; rewrite !orb_true_r; reflexivity | contradiction]. }
    destruct (Str.eqb msg (lit "stop")) eqn:E5.
    { unfold hbind. pose proof (one_step_stopLoop C s) as (s1 & ->).
      unfold in_world. pose proof (Fc (lit "Stoppe.") (world s1)).
      destruct (chat C _ (world s1)); [exact I | left; rewrite !orb_true_r; reflexivity | contradiction]. }
    destruct (Str.eqb msg (lit "status")) eqn:E6.
    { apply L; [|left; rewrite !orb_true_r; reflexivity]. intro w.
      destruct (status_line C w); [apply Fc | discriminate]. }
    destruct (Str.mem msg duel_words); [right; reflexivity|].
    destruct (existsb (Str.startsWith msg) duel_prefixes);
      [right; rewrite ?orb_true_r; reflexivity|].
    destruct (Str.mem msg stop_duel_words); [right; rewrite ?orb_true_r; reflexivity|].
    unfold in_world. destruct (Hn fuel Hf) as (w' & ->). exact I.
Qed.

(* ------------------------------------------------------------------ *)
(** ** The wander and the tokens *)

Lemma wander_step_range (r1 r2 : Q) :
  draw r2 -> (3 <= Z.abs (wander_step r1 r2) <= 8)%Z.
Proof.
  intros [H0 H1]. unfold wander_step.
  assert (F : (0 <= Qfloor (r2 * 6) <= 5)%Z).
  { split.
    - rewrite <- (Qfloor_Z 0). apply Qfloor_resp_le.
      change (inject_Z 0) with 0%Q. rewrite <- (Qmult_0_l 6).
      apply Qmult_le_compat_r; [exact H0 | discriminate].
    - assert (L : (r2 * 6 < inject_Z 6)%Q).
      { change (inject_Z 6) with (1 * 6)%Q. apply Qmult_lt_compat_r; [reflexivity | exact H1]. }
      pose proof (Qfloor_le (r2 * 6)) as Fl.
      assert (Lt : (inject_Z (Qfloor (r2 * 6)) < inject_Z 6)%Q)
        by (eapply Qle_lt_trans; eassumption).
      rewrite <- Zlt_Qlt in Lt. lia. }
  destruct (negb (Qle_bool (1 # 2) r1)); lia.
Qed.

(** X18: the goal that [wanderSlightly] sets is at the height of the
    block the bot stands in and, along x and along z, at least 3 and at
    most 8 blocks from it, whatever [Math.random] draws. *)
Theorem X18_wander_goal_is_near :
  forall (px py pz r1 r2 r3 r4 : Q),
    draw r1 -> draw r2 -> draw r3 -> draw r4 ->
    let '(x, y, z) := wander_goal px py pz r1 r2 r3 r4 in
    (3 <= Z.abs (x - Qfloor px) <= 8)%Z /\ y = Qfloor py /\
    (3 <= Z.abs (z - Qfloor pz) <= 8)%Z.
Proof.
  intros px py pz r1 r2 r3 r4 _ H2 _ H4. unfold wander_goal.
  pose proof (wander_step_range r1 r2 H2). pose proof (wander_step_range r3 r4 H4).
  replace (Qfloor px + wander_step r1 r2 - Qfloor px)%Z with (wander_step r1 r2) by lia.
  replace (Qfloor pz + wander_step r3 r4 - Qfloor pz)%Z with (wander_step r3 r4) by lia.
  repeat split; lia.
Qed.

Lemma X18_witness :
  draw (1 # 4) /\ draw (99 # 100) /\ draw (3 # 4) /\ draw 0 /\
  wander_goal (21 # 2) 64 (-7 # 2) (1 # 4) (99 # 100) (3 # 4) 0 = (2, 64, -1)%Z /\
  let '(x, y, z) := wander_goal (21 # 2) 64 (-7 # 2) (1 # 4) (99 # 100) (3 # 4) 0 in
  (3 <= Z.abs (x - Qfloor (21 # 2)) <= 8)%Z /\ y = Qfloor 64 /\
  (3 <= Z.abs (z - Qfloor (-7 # 2)) <= 8)%Z.
Proof.
  assert (D1 : draw (1 # 4)) by (split; [discriminate | reflexivity]).
  assert (D2 : draw (99 # 100)) by (split; [discriminate | reflexivity]).
  assert (D3 : draw (3 # 4)) by (split; [discriminate | reflexivity]).
  assert (D4 : draw 0) by (split; [discriminate | reflexivity]).
  repeat (split; [assumption|]). split; [reflexivity|].
  exact (X18_wander_goal_is_near (21 # 2) 64 (-7 # 2) (1 # 4) (99 # 100) (3 # 4) 0
           D1 D2 D3 D4).
Defined.

Lemma env_number_truthy (C : Collab) (x : string) (d : Z) :
  d <> 0%Z -> num_truthy (env_number C x d) = true.
Proof.
  intro Hd. unfold env_number.
  assert (T : num_truthy (Fin (inject_Z d)) = true).
  { cbn. apply negb_true_iff. unfold Qeq_bool, inject_Z. cbn.
    apply Z.eqb_neq. lia. }
  destruct (env C (lit x)) as [v|]; [|exact T].
  cbv zeta. destruct (num_truthy (Numeral.Number v)) eqn:E; [exact E | exact T].
Qed.

Lemma num_mul_truthy (a b : num) :
  num_truthy a = true -> num_truthy b = true -> num_isNaN (num_mul a b) = false.
Proof.
  destruct a as [p| | |], b as [q| | |]; intros Ha Hb; try discriminate;
    try reflexivity; try apply round_is_number;
    cbn in *; apply negb_true_iff in Ha || apply negb_true_iff in Hb.
  - unfold Qsign. destruct (p ?= 0)%Q eqn:E; try reflexivity.
    apply Qeq_alt in E. apply Qeq_bool_iff in E. congruence.
  - unfold Qsign. destruct (p ?= 0)%Q eqn:E; try reflexivity.
    apply Qeq_alt in E. apply Qeq_bool_iff in E. congruence.
  - unfold Qsign. destruct (q ?= 0)%Q eqn:E; try reflexivity.
    apply Qeq_alt in E. apply Qeq_bool_iff in E. congruence.
  - unfold Qsign. destruct (q ?= 0)%Q eqn:E; try reflexivity.
    apply Qeq_alt in E. apply Qeq_bool_iff in E. congruence.
Qed.

(** X19: the [max_tokens] that [sendChatCompletion] sends is never
    [NaN]; when the caller gives no number (as [requestPlanFromLLM] and
    [gptPlanAndExecute] do), it is at most 32768, whatever
    GPT4ALL_MAX_TOKENS and GPT4ALL_TOKEN_MULTIPLIER hold, and it is
    10240 when neither is set. *)
Theorem X19_max_tokens_is_capped :
  forall (C : Collab) (max_tokens : option json),
    num_isNaN (finalMaxTokens C max_tokens) = false /\
    (is_number max_tokens = false ->
     num_le (finalMaxTokens C max_tokens) (Fin (inject_Z 32768)) = true) /\
    (is_number max_tokens = false ->
     env C (lit "GPT4ALL_MAX_TOKENS") = None ->
     env C (lit "GPT4ALL_TOKEN_MULTIPLIER") = None ->
     finalMaxTokens C max_tokens = Fin (inject_Z 10240)).
Proof.
  intros C max_tokens.
  set (prod := num_mul (DEFAULT_MAX_TOKENS C) (MULTIPLIER C)).
  assert (P : num_isNaN prod = false).
  { apply num_mul_truthy; apply env_number_truthy; discriminate. }
  assert (K : num_isNaN (num_min prod (Fin (inject_Z 32768))) = false /\
              num_le (num_min prod (Fin (inject_Z 32768))) (Fin (inject_Z 32768)) = true).
  { destruct prod as [p| | |]; try discriminate P; try (split; reflexivity).
    cbn [num_min]. destruct (Qle_bool p (inject_Z 32768)) eqn:E; split;
      try reflexivity. exact E. }
  destruct K as [K1 K2]. unfold finalMaxTokens. cbv zeta. fold prod.
  split; [|split].
  - destruct max_tokens as [[| |n| | |]|]; try exact K1.
    destruct (num_isNaN n) eqn:E; [exact K1 | exact E].
  - intro H. destruct max_tokens as [[| |n| | |]|]; try exact K2. discriminate H.
  - intros H E1 E2.
    assert (V : num_min prod (Fin (inject_Z 32768)) = Fin (inject_Z 10240)).
    { subst prod. unfold DEFAULT_MAX_TOKENS, MULTIPLIER, env_number. rewrite E1, E2.
      reflexivity. }
    destruct max_tokens as [[| |n| | |]|]; try exact V. discriminate H.
Qed.

Lemma X19_witness :
  is_number (Some JNull) = false /\
  env Sample.calm (lit "GPT4ALL_MAX_TOKENS") = None /\
  env Sample.calm (lit "GPT4ALL_TOKEN_MULTIPLIER") = None /\
  finalMaxTokens Sample.calm (Some JNull) = Fin (inject_Z 10240).
Proof.
  split; [reflexivity|]. split; [reflexivity|]. split; [reflexivity|].
  exact (proj2 (proj2 (X19_max_tokens_is_capped Sample.calm (Some JNull)))
           eq_refl eq_refl eq_refl).
Defined.

(* ------------------------------------------------------------------ *)
(** ** A tick runs a plan or wanders *)

Lemma wanders_app (t u : list event) : wanders (t ++ u) = wanders t + wanders u.
Proof. unfold wanders. rewrite filter_app, length_app. reflexivity. Qed.

Lemma still_quiet (t : list event) :
  forallb still_event t = true -> wanders t = 0 /\ dispatches t = 0.
Proof.
  induction t as [|e t IH]; intro H; [split; reflexivity|].
  cbn [forallb] in H. apply andb_true_iff in H. destruct H as [He Ht].
  destruct (IH Ht) as [Iw Id]. unfold still_event in He.
  apply andb_true_iff in He. destruct He as [H1 H2].
  apply negb_true_iff in H1, H2.
  unfold wanders, dispatches in *. cbn [filter]. rewrite H1, H2. split; assumption.
Qed.

Lemma no_wander_quiet (t : list event) :
  forallb no_wander t = true -> wanders t = 0.
Proof.
  induction t as [|e t IH]; intro H; [reflexivity|].
  cbn [forallb] in H. apply andb_true_iff in H. destruct H as [He Ht].
  unfold no_wander in He. apply negb_true_iff in He.
  unfold wanders in *. cbn [filter]. rewrite He. exact (IH Ht).
Qed.

Lemma plan_event_no_wander (t : list event) :
  forallb plan_event t = true -> forallb no_wander t = true.
Proof.
  induction t as [|e t IH]; intro H; [reflexivity|].
  cbn [forallb] in *. apply andb_true_iff in H. destruct H as [He Ht].
  rewrite (IH Ht), andb_true_r. destruct e; try reflexivity. discriminate He.
Qed.

(** Goals [keeps (grows_by still_event) c]. *)
Ltac still :=
  repeat first
    [ assumption
    | match goal with H : forall _, _ |- _ => solve [apply H] end
    | apply (keeps_bind _ (grows_by_trans still_event)); [| intro]
    | apply (keeps_try_catch _ (grows_by_trans still_event))
    | apply (keeps_ret _ (grows_by_refl still_event))
    | apply (keeps_ask _ (grows_by_refl still_event))
    | apply grows_emit; reflexivity
    | apply grows_chat; reflexivity
    | apply grows_lift
    | solve [intro; apply grows_by_refl]
    | match goal with
      | |- keeps _ (if ?b then _ else _) => destruct b
      | |- keeps _ (match ?x with _ => _ end) => destruct x
      end ].

Lemma still_requestPlanFromLLM (C : Collab) (u : jstring) :
  keeps (grows_by still_event) (requestPlanFromLLM C u).
Proof. unfold requestPlanFromLLM, ask_model, log, error. still. Qed.

Lemma planned_executePlan (C : Collab) (steps : option json) :
  keeps (grows_by plan_event) (executePlan C steps).
Proof. unfold executePlan, log. planned; apply planned_executePlan_loop. Qed.

Section Anchored.

Variable R : World -> World -> Prop.
Hypothesis R_trans : forall a b c, R a b -> R b c -> R a c.

(** What a computation keeps, it keeps from an earlier state on. *)
Lemma ends_bind_from {A B} (a : World) (c : M A) (k : A -> M B) (w : World) :
  ends (c w) (R a) -> (forall x, keeps R (k x)) -> ends (bind c k w) (R a).
Proof.
  intros Hc Hk. unfold bind. destruct (c w) as [x w1|w1|]; cbn in *; auto.
  specialize (Hk x w1). destruct (k x w1); cbn in *; eauto.
Qed.

Lemma ends_try_catch_from {A} (a : World) (c h : M A) (w : World) :
  ends (c w) (R a) -> keeps R h -> ends (try_catch c h w) (R a).
Proof.
  intros Hc Hh. unfold try_catch. destruct (c w) as [x w1|w1|]; cbn in *; auto.
  specialize (Hh w1). destruct (h w1); cbn in *; eauto.
Qed.

End Anchored.

Lemma ask_model_starts (C : Collab) (prompt : jstring) (w : World) :
  ends (ask_model C prompt w) (grows_by still_event (emit (EAsk prompt) w)).
Proof.
  unfold ask_model. unfold bind at 1. cbn [modify].
  generalize (emit (EAsk prompt) w). unfold log. still.
Qed.

(** [requestPlanFromLLM] starts with its line and its request. *)
Lemma requestPlanFromLLM_starts (C : Collab) (u : jstring) (w : World) :
  ends (requestPlanFromLLM C u w) (grows_by still_event (asked u w)).
Proof.
  unfold requestPlanFromLLM. unfold bind at 1. unfold log at 1. cbn [modify].
  apply (ends_try_catch_from _ (grows_by_trans still_event)).
  - apply (ends_bind_from _ (grows_by_trans still_event)).
    + apply ask_model_starts.
    + intro r. unfold log. still.
  - unfold error. still.
Qed.

(** X20: in one tick the planner either runs the steps of a plan or
    wanders, never both, and it wanders at most once; a tick that finds
    the loop stopped or the bot busy adds nothing to the trace, and any
    other tick starts with the request to the language model. *)
Theorem X20_tick_runs_a_plan_or_wanders :
  forall (C : Collab) (w : World),
  exists w' t,
    plannerTick C w = Ret tt w' /\
    trace w' = trace w ++ t /\
    wanders t <= 1 /\
    (0 < wanders t -> dispatches t = 0) /\
    (negb (running w) || busy w = true -> t = []) /\
    (negb (running w) || busy w = false ->
     exists t', t = ELog "[planner] requestPlanFromLLM userInstruction:" []
                    :: EAsk planner_instruction :: t').
Proof.
  intros C w. destruct (negb (running w) || busy w) eqn:G.
  - exists w, []. unfold plannerTick, try_catch, bind, ask. rewrite G.
    split; [reflexivity|]. split; [symmetry; apply app_nil_r|].
    split; [cbn; lia|]. split; [cbn; lia|]. split; [reflexivity|]. discriminate.
  - pose proof (returns_requestPlanFromLLM C planner_instruction w) as (plan & w1 & E1).
    pose proof (requestPlanFromLLM_starts C planner_instruction w) as S1.
    rewrite E1 in S1. cbn [ends] in S1. destruct S1 as (t1 & T1 & P1).
    destruct (still_quiet t1 P1) as [W1 D1].
    set (K := fun plan : option json =>
                match plan with
                | Some pl =>
                    if truthy pl && nonempty_array (get "steps" pl) then
                      try_catch (bind (executePlan C (get "steps" pl)) (fun _ => ret tt))
                                (error "executePlan failed:")
                    else wanderSlightly C
                | None => wanderSlightly C
                end).
    assert (Eq : plannerTick C w =
                 try_catch (K plan) (error "plannerTick exception:") w1).
    { subst K. unfold plannerTick, try_catch, bind, ask. rewrite G, E1. reflexivity. }
    assert (Wd : forall w2,
               exists w3 t2,
                 try_catch (wanderSlightly C) (error "plannerTick exception:") w2
                 = Ret tt w3 /\
                 trace w3 = trace w2 ++ t2 /\ wanders t2 <= 1 /\ dispatches t2 = 0).
    { intro w2. unfold try_catch, wanderSlightly, error, modify.
      destruct (wander_throws C w2).
      - eexists _, [EError _]. repeat split. cbn. lia.
      - eexists _, [EWander]. repeat split. cbn. lia. }
    assert (Fin : exists w3 t2,
               try_catch (K plan) (error "plannerTick exception:") w1 = Ret tt w3 /\
               trace w3 = trace w1 ++ t2 /\ wanders t2 <= 1 /\
               (0 < wanders t2 -> dispatches t2 = 0)).
    { subst K. cbv beta.
      destruct plan as [pl|];
        [destruct (truthy pl && nonempty_array (get "steps" pl))|].
      - assert (Kp : keeps (grows_by no_wander)
                       (try_catch
                          (try_catch
                             (bind (executePlan C (get "steps" pl)) (fun _ => ret tt))
                             (error "executePlan failed:"))
                          (error "plannerTick exception:"))).
        { apply (keeps_try_catch _ (grows_by_trans no_wander));
            [apply (keeps_try_catch _ (grows_by_trans no_wander))|].
          - apply (keeps_bind _ (grows_by_trans no_wander));
              [|intro; apply (keeps_ret _ (grows_by_refl no_wander))].
            intro w2. pose proof (planned_executePlan C (get "steps" pl) w2) as Q.
            destruct (executePlan C (get "steps" pl) w2); cbn in *; try exact I;
              destruct Q as (t & Et & Pt); exists t;
              (split; [exact Et | apply plan_event_no_wander; exact Pt]).
          - apply grows_emit. reflexivity.
          - apply grows_emit. reflexivity. }
        assert (Rp : returns
                       (try_catch
                          (try_catch
                             (bind (executePlan C (get "steps" pl)) (fun _ => ret tt))
                             (error "executePlan failed:"))
                          (error "plannerTick exception:"))).
        { pose proof (fuelless_executePlan C). unfold error. returning; fuel_free. }
        destruct (Rp w1) as ([] & w3 & E3). specialize (Kp w1). rewrite E3 in Kp.
        cbn [ends] in Kp. destruct Kp as (t2 & T2 & P2).
        exists w3, t2. rewrite (no_wander_quiet t2 P2).
        split; [exact E3|]. split; [exact T2|]. split; lia.
      - destruct (Wd w1) as (w3 & t2 & E3 & T3 & W3 & D3).
        exists w3, t2. repeat split; auto.
      - destruct (Wd w1) as (w3 & t2 & E3 & T3 & W3 & D3).
        exists w3, t2. repeat split; auto. }
    destruct Fin as (w3 & t2 & E3 & T3 & W3 & D3).
    exists w3, ([ELog "[planner] requestPlanFromLLM userInstruction:" [];
                 EAsk planner_instruction] ++ t1 ++ t2).
    split; [rewrite Eq; exact E3|].
    split.
    { rewrite T3, T1. unfold asked. cbn [emit trace]. rewrite <- !app_assoc. reflexivity. }
    rewrite !wanders_app, !dispatches_app, W1, D1.
    change (wanders [ELog "[planner] requestPlanFromLLM userInstruction:" [];
                     EAsk planner_instruction]) with 0.
    change (dispatches [ELog "[planner] requestPlanFromLLM userInstruction:" [];
                        EAsk planner_instruction]) with 0.
    split; [lia|]. split; [intro H; cbn in *; apply D3; lia|].
    split; [discriminate|]. intros _. exists (t1 ++ t2). reflexivity.
Qed.

(* ------------------------------------------------------------------ *)
(** ** The reply of the language model in the chat *)

(** A pattern that starts with a unit of a class matches nowhere in a
    text without such a unit. *)
Lemma search_without (r : Regex.re) (f : N -> bool) :
  (forall pre c s k, f c = false ->
     Regex.run r (Regex.mkState pre (c :: s) []) k = None) ->
  (forall pre k, Regex.run r (Regex.mkState pre [] []) k = None) ->
  forall s pre, existsb f s = false -> Regex.search r pre s = None.
Proof.
  intros Hc Hn. induction s as [|c s IH]; intros pre H; cbn [Regex.search].
  - rewrite Hn. reflexivity.
  - cbn [existsb] in H. apply orb_false_iff in H. destruct H as [H1 H2].
    rewrite (Hc pre c s Some H1). exact (IH _ H2).
Qed.

Lemma replace_all_without (r : Regex.re) (f : N -> bool) (repl s : jstring) :
  (forall pre c s k, f c = false ->
     Regex.run r (Regex.mkState pre (c :: s) []) k = None) ->
  (forall pre k, Regex.run r (Regex.mkState pre [] []) k = None) ->
  existsb f s = false -> Regex.replace_all r repl s = s.
Proof.
  intros Hc Hn H. unfold Regex.replace_all. cbn [Regex.replace_from].
  rewrite (search_without r f Hc Hn s [] H). reflexivity.
Qed.

Lemma fence_without (s : jstring) :
  existsb (N.eqb 96%N) s = false -> Regex.replace_all Pat.fenceRe [] s = s.
Proof.
  apply (replace_all_without Pat.fenceRe (N.eqb 96%N)).
  - intros pre c s0 k H.
    eassert (E : Regex.run Pat.fenceRe (Regex.mkState pre (c :: s0) []) k
                 = if (96 =? c)%N then _ else None) by reflexivity.
    rewrite E, H. reflexivity.
  - intros pre k. reflexivity.
Qed.

Lemma braces_without (s : jstring) :
  existsb (N.eqb 123%N) s = false -> Regex.replace_all Pat.bracesRe [] s = s.
Proof.
  apply (replace_all_without Pat.bracesRe (N.eqb 123%N)).
  - intros pre c s0 k H.
    eassert (E : Regex.run Pat.bracesRe (Regex.mkState pre (c :: s0) []) k
                 = if (123 =? c)%N then _ else None) by reflexivity.
    rewrite E, H. reflexivity.
  - intros pre k. reflexivity.
Qed.

Lemma squeeze_fixed (t : jstring) :
  plain_spaces t = true -> no_double_space t = true ->
  squeeze false t = t /\
  (starts_clean t = true -> squeeze true t = t).
Proof.
  induction t as [|c t IH]; intros P D; [split; reflexivity|].
  cbn [plain_spaces forallb] in P. apply andb_true_iff in P. destruct P as [Pc Pt].
  cbn [no_double_space] in D. apply andb_true_iff in D. destruct D as [Dc Dt].
  destruct (IH Pt Dt) as [I1 I2]. cbn [squeeze starts_clean].
  destruct (Str.is_space c) eqn:E.
  - cbn [negb orb] in Pc. apply N.eqb_eq in Pc. subst c. split; [|discriminate].
    cbn [andb negb] in Dc. apply negb_true_iff in Dc.
    rewrite I2; [reflexivity|]. destruct t as [|d t]; [reflexivity|].
    cbn. rewrite Dc. reflexivity.
  - rewrite I1. split; reflexivity.
Qed.

(** The sanitizer gives a plain line back as it is. *)
Lemma sanitize_plain_line (t : jstring) :
  plain_line t = true -> sanitizeLLMReplyForChat t = t.
Proof.
  unfold plain_line. intro H.
  repeat (apply andb_true_iff in H; let K := fresh "K" in destruct H as [H K]).
  apply negb_true_iff in K, K5, K6. apply Z.leb_le in K0.
  destruct t as [|c t]; [discriminate H|].
  rewrite sanitize_unfold. cbv zeta.
  assert (E : cleaned (c :: t) = c :: t).
  { unfold cleaned. cbv zeta. rewrite (fence_without _ K6), (braces_without _ K5).
    unfold Regex.replace_all. rewrite replace_spaces by lia.
    rewrite (proj1 (squeeze_fixed _ K4 K3)). apply trim_clean; assumption. }
  rewrite E, K.
  destruct (240 <? Str.len (c :: t))%Z eqn:L; [apply Z.ltb_lt in L; lia | reflexivity].
Qed.

(** X23: the reply of the language model goes to the chat of the server
    as it is when it is a plain line (not empty, one line with single
    spaces, no backquote and no opening brace, at most 240 units), also
    when it starts with a slash and so is a command for the server:
    [requestPlanFromLLM] sends it before it looks for a plan in it, and
    neither ALLOW_COMMANDS nor [botIsOp] is looked at. *)
Theorem X23_plain_reply_is_sent_as_it_is :
  forall (C : Collab) (u reply : jstring) (w : World),
    (forall w m, chat_throws C w m = false) ->
    llm C u (asked u w) = LlmReply reply ->
    plain_line reply = true ->
    exists r w',
      requestPlanFromLLM C u w = Ret r w' /\
      chats (trace w') = chats (trace w) ++ [reply].
Proof.
  intros C u reply w Hc Hl Hp.
  pose proof (sanitize_plain_line reply Hp) as Es.
  assert (Hn : exists c t, reply = c :: t).
  { destruct reply as [|c t]; [discriminate Hp | exists c, t; reflexivity]. }
  destruct Hn as (c & t & Er). subst reply.
  unfold requestPlanFromLLM, ask_model, log, bind, try_catch, modify, ask, error, ret.
  fold (asked u w). rewrite Hl, Es. cbv iota. unfold chat. rewrite !Hc.
  destruct (parsePlanFromReply_cases (c :: t)) as [E|(plan & E & _)];
    unfold lift; rewrite E;
    eexists _, _; (split; [reflexivity|]);
    unfold asked; cbn [emit trace]; unfold chats;
    rewrite !flat_map_app; cbn [flat_map app]; rewrite ?app_nil_r;
    reflexivity.
Qed.

Lemma X23_witness :
  let w := mkWorld (Sample.at_ 0 0 0) false None false true [] in
  plain_line (lit "/op steve") = true /\
  exists r w',
    requestPlanFromLLM Sample2.commanding planner_instruction w = Ret r w' /\
    chats (trace w') = chats (trace w) ++ [lit "/op steve"].
Proof.
  cbv zeta. split; [reflexivity|].
  exact (X23_plain_reply_is_sent_as_it_is Sample2.commanding planner_instruction
           (lit "/op steve") _ (fun _ _ => eq_refl) eq_refl eq_refl).
Defined.
